(* ===== verification/_CoqProject ===== *)
-Q . S2P
Prelude.v
Types.v
Codec.v
JobStore.v
Intake.v
Worker.v
Reporter.v
CodecLaws.v
Startup.v
System.v
Http.v
Jobs.v
Schedule.v
Batch.v
Refinement.v
Thread.v
Ledger.v
Interleaving.v
Linearizable.v
Reads.v
Router.v
Uuid.v
Server.v
Progress.v
Exclusive.v
Termination.v
