(* ===== verification/Prelude.v ===== *)
(** * Verification of the shortest-driving-route service

    The program under [src/app/shortest_route.go] is an HTTP service with an
    asynchronous job lifecycle.  [POST /route] ([pathHandler]) validates a
    list of waypoints, draws a token, inserts a pending row into the table
    [travel_details] and starts a goroutine ([processRoute]).  The goroutine
    asks the distance-matrix provider for the legs of the route, sums the
    distances and durations of consecutive waypoints and writes the terminal
    outcome to the row.  [GET /route/:token] ([routeHandler]) reads the row
    and renders it.

    ** The program and the files that model it

    The three functions share one piece of state, the table behind the
    global handle [db]; everything else they touch is local to a call or
    belongs to the environment.  Each file models one part and opens with
    a comment that says how.

    - [Prelude] (this file): what every component shares.  Go's
      [(value, error)] results ([result]), 64-bit signed arithmetic on [Z]
      with the wrap-around written out ([wrap64], [add64], [quot64]), and
      the monad [prog] in which the functions are written: a state monad
      whose computations fall through with a value ([Next]), execute Go's
      [return] ([Return]) or panic ([Panic]).  [check] is the idiom
      [if err != nil { ...; return }] and [reject_if] the guard
      [if c { ...; return }].
    - [Types]: the types declared at lines 32-45 (the two slice types
      [routePath] and [routePathPoint] as abbreviations) and the objects
      [json.Marshal] builds from their struct tags ([shortestRoute_json],
      with [omitempty]); the interface [Json] to [encoding/json]; the
      request and the answer of the distance matrix; the [world] of a call
      (the database, the lines logged, the calls on the response writer,
      the goroutines started) with [log_Printf], [http_Error],
      [w_Header_Set], [w_Write] and [go_processRoute].
    - [Codec]: an executable instance of [Json], a decoder for arrays of
      arrays of strings and an encoder, on which the examples run;
      [CodecLaws]: the decoder reads back what the encoder prints.
    - [JobStore]: the table [travel_details].  The three SQL statements of
      the program are [sql_insert] (line 129), [sql_update] (line 149) and
      [sql_select] (line 212) on the list of rows.  The functions are
      written against the interface [JobStore] and proved under its laws
      [JobStoreLaws]; the table and the key-value store of the
      specification (a [gmap] from tokens to rows) both satisfy the laws,
      and the table refines the map through [table_abs].
    - [Intake]: [pathHandler] (lines 82-141), with the loop over the
      points as [join_points] and the [INSERT] as [db_Exec_insert].
    - [Worker]: [processRoute] (lines 143-192), with the loop over the
      rows of the answer as [sum_rows], the statements of the two failure
      paths as [fail_job] and the prepared statement as [stmt_Exec].
    - [Reporter]: [routeHandler] (lines 194-257), with its three
      assignments of [routeResult] as [check_token], [check_scan] and
      [switch_status], and [QueryRow(...).Scan(...)] as [QueryRow_Scan].
    - [Startup]: [main] (lines 47-80) as the sequence of the calls it
      makes on its libraries, with the three ways it can stop: exited by
      [log.Fatal], panicking, or blocked in [http.ListenAndServe]; the
      package-level variables of lines 23-30 ([globals]), initialised
      before [main] runs and assigned by it.
    - [System]: the running service as a transition system.  A state
      ([system]) is the store, the goroutines in flight, the log and
      whether the process has crashed; an event is a request served by one
      of the two handlers registered at lines 74-75 or the run of one
      goroutine started at line 136; [step] is the relation and
      [apply_event] the function that computes it.
    - [Http]: what [net/http] sends for the calls a handler makes on its
      response writer ([response_of]): status, header fields, body.
    - [Jobs]: the [Job] record of the specification with its constraints
      ([Job_wf]) and the reading of a row of the table as a job
      ([job_of_row]).
    - [Schedule]: the goroutines in flight ([in_flight]), the schedule
      that drains the pool ([drain]) and the states a client cannot tell
      apart ([same_service]).
    - [Batch]: routes submitted together ([submit_all]) and their
      goroutines, from the start of the service to the terminal rows.
    - [Refinement]: the service on the table and the service on the
      key-value store of the specification, related by [abs_system].
    - [Thread]: the three functions a second time, as the sequences of
      the operations they perform on what the calls share ([op]: a line
      of the log, a call on the response writer, the [go] statement, the
      [INSERT], the [UPDATE], the [SELECT]): [pathHandler_t],
      [processRoute_t], [routeHandler_t], and [run_thread], which
      performs the operations of one call without interruption.
    - [Interleaving]: the service one operation at a time.  A
      configuration ([config]) is the database, the log, the pool of
      goroutines waiting to run, the calls in progress ([task]: what is
      left of the function, and what the call has written to its response
      writer) and the responses sent; a step ([micro_step]) lets a request
      or a goroutine of the pool begin, lets any call in progress perform
      its next operation, or lets a call that has ended leave.  The
      machine numbers the calls in the order of their arrival and records
      their moments ([c_hist]): when each began, took effect and left,
      and what a handler sent.
    - [Ledger]: accounts up to the order of their entries ([balanced]),
      in which [Interleaving] keeps what a call in progress has logged,
      started and written against what [System] holds.
    - [Linearizable]: the histories of the machine ([hist_ok]), their
      linearizations ([lin_ok]) and what a client can rely on.
    - [Reads]: the rows a poll can read ([whole]): as created, or with
      the whole verdict of the goroutine of their token.
    - [Exclusive]: the goroutines of a token in a history ([workers_of])
      and what makes them exclusive ([exclusive]).
    - [Progress]: the schedules that let the calls in progress leave
      ([finish_alone]) and the goroutines of the pool run.
    - [Termination]: the cost of the operations a call has left ([lasts])
      and the steps a configuration can still take ([budget]).
    - [Router]: the lookup of a request among the routes [main]
      registers at lines 74-75 ([lookup_route] on [main_table]), the
      parameter [routeHandler] reads at line 198 ([ByName]), and the event
      of [System] a request is ([event_of]).
    - [Uuid]: the token of line 117, [uuid.NewV4().String()]
      ([new_token]): sixteen bytes as integers, the version and variant
      bits set with [Z.land] and [Z.lor], and the string in hexadecimal.
    - [Server]: the server on one request ([serve]): the router finds the
      handler, the handler runs on the state of [System], and the calls
      it made on its response writer become the response of [Http].

    ** How the functions are modelled

    Each function is translated statement by statement, in the order of
    the source, with every [log.Printf], every call on the response
    writer, every statement on the database and every early [return].
    What the environment decides is an argument of the function that
    consumes it: the result of reading the body ([Request]), the token
    the generator draws and the fault of the database ([intake_env],
    [worker_env], [report_env]), and the answer of the provider to a
    request ([DistanceMatrix]).  Nothing is assumed of these arguments,
    so a theorem without hypotheses holds for every behaviour of the
    environment, faults included.  All recursion is structural (on the
    list of points, on the rows of the answer, on the list of events):
    there is no fuel, and every definition evaluates by [vm_compute].

    ** What is proved

    - Equivalence with a reference definition.  Each function is proved
      equal, on every input, to a pure description of the world it leaves
      and of how it ends: [pathHandler_spec] with [intake_verdict],
      [processRoute_spec] with [worker_verdict_of] and [worker_world],
      [routeHandler_spec] with [report_of] and [report_world].  The
      handlers always end with [return]; the goroutine can panic.
    - Functional behaviour, branch by branch.  Which requests are accepted
      and what an accepted request leaves behind; the rejections, with
      their bodies; the totals of a success as sums over the diagonal of
      the matrix, modulo 2^64 in general and exact when they fit; the
      failure at the first leg that is not [OK] and on an error of the
      provider; the rendering of each status.
    - Safety of each function.  [pathHandler] starts a goroutine exactly
      when it inserts a row; [processRoute] applies at most one [UPDATE],
      to its own token only, and does not panic when the answer is a full
      matrix; [routeHandler] only reads.
    - The job lifecycle ([System]).  The invariant [sys_inv] holds in
      every reachable state; a job leaves [Pending] at most once and a
      terminal row never changes; a goroutine runs at most once per token;
      the path reported for a success is the path submitted
      ([route_success_end_to_end]); a job whose provider fails, or one of
      whose legs is not [OK], is reported as a failure with the text of
      the error and no totals ([route_failure_end_to_end]); while the
      provider keeps its contract the process does not crash and every
      job in flight can be taken to a terminal state.
    - The rows are jobs ([Jobs]).  In every reachable state the row of a
      token reads as a well-formed job of the specification with that
      token, and what is reported for the row is the report of the job.
    - The schedule ([Schedule]).  The goroutines in flight are a measure:
      a run contains no more runs of goroutines than there were
      goroutines in flight and submissions; with a working database and
      providers that keep the contract the pool drains in as many
      transitions as it holds goroutines and every job ends terminal; the
      runs of two goroutines commute, up to the order of the lines in the
      log; while the goroutines run in working environments every row
      is as it was created, with its goroutine in the pool, or holds the
      verdict of its own route, so no job is lost ([no_job_lost]).
    - A batch ([Batch]).  Routes submitted together under distinct tokens
      are all accepted, and once their goroutines have run each row holds
      the verdict of its own route: the components composed, from the
      empty table to the terminal rows.  Nothing refuses a submission
      because of the work in progress: for every [n] the service reaches
      a state with [n] goroutines in flight ([no_admission_cap]), the
      exhaustion of resources the specification warns of.
    - The responses ([Http]).  Every response of the service carries the
      status 200, the errors included, as a JSON document or as a
      [text/plain] body.
    - The codec ([CodecLaws]).  For routes of ASCII strings the decoder
      reads back the encoding, so the encoding of a valid route is
      accepted and reported as submitted.
    - The store.  The laws of the interface for both implementations, the
      refinement of the map by the table, the unique key as an invariant,
      and the refinement lifted to the service: the same runs with the
      same responses on the table and on the map.
    - Interleavings ([Thread], [Interleaving]).  Each function performs
      at most one statement on the database, starts no goroutine before
      it and cannot panic after it ([one_statement_per_call]).  Every run
      of the machine that interleaves the operations of the calls is
      matched by a run of [System] on the same store, with the same log,
      pool and responses up to their order once the calls in progress
      have left; the invariant of the rows and of the pool holds between
      any two operations; and when the goroutines run in working
      environments, once every call has left and the pool is empty every
      job is a success or a failure, with the verdict of its own route
      ([concurrent_jobs_settle]).
    - Linearizability ([Linearizable]).  The calls of every interleaving,
      in the order in which they took effect, are a run of [System] in
      which each call is one transition; a handler sent the response its
      transition shows; and a call that left before another began comes
      before it ([interleavings_linearizable]).  So: once the goroutine
      of a job has taken effect its row holds the verdict of its own
      route, whatever else is going on ([finished_job_verdict]); a poll
      that begins once the row of its token is terminal is answered as
      [routeHandler] answers on that row, whatever it is interleaved with
      ([terminal_answer_is_final]); and a poll that begins after the
      submission that issued its token was answered finds the job and,
      when the database answers, is sent its document: in progress, a
      failure or a success with the route as submitted
      ([issued_token_is_known], with [poll_says] of [System]).
    - Whole rows ([Reads]).  In every interleaving, whatever the faults
      of the database and the answers of the provider, a poll is answered
      on a table in which the row of its token is as [pathHandler]
      created it, or holds the status, the totals and the error that a
      goroutine begun for that token computed on the route of the row,
      and that goroutine took effect before the poll did
      ([polls_read_whole_rows]): [processRoute] writes its outcome in one
      [UPDATE], so no poll reads a part of it.
    - One writer for each job ([Exclusive]).  In every interleaving a
      goroutine begins only after the submission that drew its token has
      taken effect, so the row it updates exists, and no two goroutines
      begin for the same token ([one_goroutine_per_job]): with one
      statement for each call, a row is written by one [UPDATE] at most
      and two writes of a job never race.
    - Progress ([Progress]).  From every configuration the machine
      reaches, the calls in progress can perform their remaining
      operations and leave, and the goroutines of the pool can run: with
      working environments there is a schedule to a configuration in
      which nothing is left to do and every job is terminal with the
      verdict of its own route ([service_can_settle]).  No recursion of
      the model needs fuel for this: the schedule is built from the
      number of operations each call has left ([operations]).
    - Termination ([Termination]).  The loops of [join_points] and
      [sum_rows] perform no operation on what the calls share unless
      they end the function, so [pathHandler] performs four operations at
      most, [processRoute] four and [routeHandler] seven, whatever the
      route ([calls_are_short]).  Hence every schedule, whatever the
      order it picks, has at most eleven steps for each call in progress,
      six for each goroutine of the pool and twelve for each request that
      arrives in it ([schedules_bounded]): the work is bounded by the
      requests, and without new requests every schedule ends
      ([schedules_end]); and when nothing more can move every job is
      terminal with the verdict of its own route
      ([every_schedule_settles]).
    - Requests and tokens ([Router], [Uuid]).  The requests that reach a
      handler are [POST /route] and [GET /route/<token>] with a token
      that is not empty and holds no slash ([lookup_main_routes]), so the
      token [routeHandler] reads is never empty
      ([polled_token_not_empty]).  The token drawn at line 117 has the
      canonical form of a version 4 UUID ([new_token_format]), two
      draws give the same token exactly when their 122 random bits agree
      ([new_token_inj]), and the token of a job can be polled
      ([issued_token_polls]).
    - The server ([Server]).  From the request a client sends to the
      response it receives: a request that is served is a transition of
      [System] ([serve_inv]) and its response carries the status 200
      ([served_200]); a client that posts a valid route receives its
      token, and the [GET] of [/route/<token>] is answered, whatever
      happened in between, with the document of a job in progress, of a
      failure, or of a success that holds the route as posted
      ([client_session]).
    - Startup.  [main] equals the list of calls of its reference
      definition; the server serves exactly when the database opens and
      answers, the migration object is built and the listener starts,
      whether or not the migrations ran, at the address of the flag
      [-port] and with the handle opened on the data source; an error of
      the migration object is tested after the object has been used.
    - What the code does against the specification.  A route of 26 points
      is accepted; an unknown token is answered [in progress]; a failure
      of [db.Prepare] or [stmt.Exec] leaves the job pending for ever; an
      answer with one element per leg makes the goroutine panic, and so
      does a client that could not be built, which ends the service;
      totals equal to 0 are left out of the response.

    Each theorem with hypotheses is applied to the example of the
    specification (the route [[1,1],[2,2],[3,3]], legs of 1000 m in 60 s
    and 2000 m in 120 s) by a lemma named after it with the suffix
    [_witness].

    Two facts are about the model alone and are kept as lemmas, not as
    properties of the program: run without interruption, the functions
    written as sequences of operations are the functions of [Intake],
    [Worker] and [Reporter] ([pathHandler_refines],
    [processRoute_refines], [routeHandler_refines]), and every run of
    [System] is the run of the machine in which the calls do not overlap
    ([runs_are_interleavings]).  They say that the two encodings agree
    and that the machine has the runs of [System] among its own, which
    is what lets the theorems on interleavings speak of the functions.

    ** Atomicity

    [System] takes each handler call and each goroutine as one transition.
    That this loses no interleaving of the program is the theorem
    [interleavings_serializable] of [Interleaving].  In the machine of
    that file the unit of execution is one operation of [Thread]: a line
    appended to the log, a call on the response writer of the request, a
    [go] statement, one SQL statement; between two operations of a call
    any operation of any other call may take place.  A call takes effect
    in [System] at its statement on the database, or when it leaves if it
    made none: before that point it has written nothing another call can
    read, and after it it reads nothing another call can write.  The
    proof keeps, for each call in progress, what it has logged so far and
    what it will still log, start and write ([sim]), and settles these
    accounts up to permutation; the example [torn_log] shows that the
    order of the lines of the log is indeed not that of any run of
    [System].  [Linearizable] adds the order in time: the history of the
    machine holds, for each call, the moment it began, the moment it took
    effect and the moment it left, and the invariant [recorded] keeps the
    run of [System] in the order of the moments of effect, each call in
    progress with the response it will have sent.  What the machine takes
    for granted: the database executes
    one statement at a time; [log.Printf] writes a line at once; the
    answer of the provider to a goroutine does not depend on the other
    calls.

    ** What is assumed and what is not modelled

    The program is one file, and every function of it is modelled.  What
    remains outside is the code of the libraries it calls, which is not
    part of the sources: each is modelled as far as the program depends
    on it, as listed below, and no further.

    - [int] is 64 bits wide.  A status read from the table is not
      truncated.
    - The migrations that create the table are not part of the sources.
      From the specification: [token] is a unique key ([unique_key]) and
      the columns an [INSERT] does not name default to [0] and to the
      empty string ([new_row]); the laws of the interface say so of every
      store.  Columns holding [NULL], for which [Scan]
      fails after having assigned some of its destinations, are not
      modelled.
    - A statement on the database that returns an error has changed
      nothing: [db.Exec] (line 129) and [stmt.Exec] (lines 165, 179 and
      187) apply their statement, or fail and leave the table as it was
      ([db_Exec_insert], [stmt_Exec]).  An error reported after the
      statement was applied is not modelled.  A call of [processRoute]
      executes its prepared statement once at most
      ([one_statement_per_call]), so the one fault of its environment
      ([exec_fault]) is the fault of that execution.
    - The elements of a row of the answer are values.  In the library
      [row.Elements] holds pointers; a [nil] element, on which line 173
      would panic, is not modelled, an index out of range is
      ([sum_rows]).  The distance of a leg is any integer, converted to
      64 bits as line 174 does ([leg_meters]).
    - [main] is modelled by the calls it makes; what [flag.Parse] does with
      a malformed command line, and what the libraries do behind each
      call, is not.  Whether [m.Steps] panics on a [nil] receiver is left
      to the environment.
    - The Go scheduler is not modelled: any goroutine of the pool may
      begin at any step and any call in progress may perform its next
      operation, and nothing forces one to.  The theorems on draining say
      what a schedule that runs them achieves, and [Termination] that
      every schedule ends once requests stop arriving.  A call to the provider
      returns: [processRoute] passes [context.Background()] at line 161,
      so nothing in the program bounds the time it takes, and a call that
      never returns is not modelled.  A panic in a goroutine
      ends the process, and with it every call in progress; the handlers
      of the program do not panic, so what [net/http] does with a handler
      that panics is not modelled.
    - The provider and [encoding/json] are libraries: an oracle of the
      environment for the first, the interface [Json] for the second.
      The decoder of [Codec] refuses an escaped surrogate, and both
      directions pass bytes above 127 through.
    - The UUID generator is a library.  In the handlers the token is a
      string the environment gives ([uuid_NewV4]), with no assumption of
      freshness.  [Uuid] models how the library builds it, from its
      documentation and RFC 4122; the random source is an argument, and a
      random source that fails (the library then panics) is not
      modelled.
    - The answer of the provider is an oracle.  Whether [maps.NewClient]
      (line 155) fails, and whether a call on the [nil] client it then
      leaves panics, are decided by the environment: how the library
      checks the key and what its methods do is not modelled.
    - A log line is the text after formatting, without time stamp and
      final newline.  Of a response, the status, the header fields the
      handler sets and the body are modelled; the fields the server adds,
      content sniffing and the bytes on the wire are not.
    - The router is a library.  [Router] models its lookup from its
      documentation, for routes made of fixed segments and named
      parameters, which are those the program registers; catch-all
      segments are not modelled.  What the router answers by itself to a
      request that reaches no handler (not found, method not allowed, a
      redirection to the path without its final slash) is not modelled:
      such a request is no event of [System].

    ** Conventions

    - A Go [string] is a [string]; the empty string is written
      [EmptyString] and the double-quote character is built from its code
      ([dq]).
    - Go's [int64] is a [Z] kept in range by [wrap64].
    - An [error] is the text [err.Error()] returns.
    - Definitions keep the names of the source; a method call [a.f(x)] is
      written [a_f]. *)

From Stdlib Require Import ZArith Lia Ascii.
From stdpp Require Import base tactics option list strings.

#[local] Open Scope Z_scope.

(** ** Results of fallible calls *)

(** Go functions that return [(v, err)]: [Ok v] when [err == nil], [Err e]
    with [e = err.Error()] otherwise. *)
Inductive result (A : Type) : Type :=
| Ok (a : A)
| Err (e : string).
Arguments Ok {A} a.
Arguments Err {A} e.

Definition is_ok {A} (r : result A) : bool :=
  match r with Ok _ => true | Err _ => false end.

Definition result_map {A B} (f : A → B) (r : result A) : result B :=
  match r with Ok a => Ok (f a) | Err e => Err e end.

Definition result_to_option {A} (r : result A) : option A :=
  match r with Ok a => Some a | Err _ => None end.

#[export] Instance result_eq_dec `{EqDecision A} : EqDecision (result A).
Proof. solve_decision. Defined.

(** ** Strings *)

(** The double-quote character, by its code. *)
Definition dq : string := String (ascii_of_nat 34) EmptyString.

Definition quoted (s : string) : string := dq +:+ s +:+ dq.

(** ** 64-bit signed integers *)

Definition int64_min : Z := - 2 ^ 63.
Definition int64_max : Z := 2 ^ 63 - 1.

Definition in_int64 (z : Z) : Prop := int64_min <= z <= int64_max.

#[export] Instance in_int64_dec z : Decision (in_int64 z).
Proof. unfold in_int64. apply _. Defined.

(** Conversion of an integer to [int64]: two's complement wrap-around. *)
Definition wrap64 (z : Z) : Z := (z + 2 ^ 63) mod 2 ^ 64 - 2 ^ 63.

(** [a + b] on [int64]. *)
Definition add64 (a b : Z) : Z := wrap64 (a + b).

(** [a / b] on [int64] for a positive divisor: Go truncates toward zero. *)
Definition quot64 (a b : Z) : Z := Z.quot a b.

(** ** The monad of handlers *)

(** How a block of Go statements ends: it falls through with a value, it
    executes [return], or it panics. *)
Inductive flow (A : Type) : Type :=
| Next (a : A)
| Return
| Panic (msg : string).
Arguments Next {A} a.
Arguments Return {A}.
Arguments Panic {A} msg.

Definition prog (S A : Type) : Type := S → S * flow A.

Definition ret {S A} (a : A) : prog S A := λ s, (s, Next a).

Definition bind {S A B} (m : prog S A) (k : A → prog S B) : prog S B :=
  λ s, match m s with
       | (s', Next a) => k a s'
       | (s', Return) => (s', Return)
       | (s', Panic msg) => (s', Panic msg)
       end.

(** Go's [return] in a function without results. *)
Definition return_ {S A} : prog S A := λ s, (s, Return).

Definition panic {S A} (msg : string) : prog S A := λ s, (s, Panic msg).

Definition get {S} : prog S S := λ s, (s, Next s).

Definition modify {S} (f : S → S) : prog S unit := λ s, (f s, Next tt).

(** The Go idiom [v, err := f(); if err != nil { h(err); return }]. *)
Definition check {S A} (r : result A) (h : string → prog S unit) : prog S A :=
  match r with
  | Ok a => ret a
  | Err e => bind (h e) (λ _, return_)
  end.

(** [if c { h; return }], the guard of an early return. *)
Definition reject_if {S} (c : bool) (h : prog S unit) : prog S unit :=
  if c then bind h (λ _, return_) else ret tt.

(** The state in which a program ends and how it ended. *)
Definition exec {S A} (m : prog S A) (s : S) : S := (m s).1.
Definition outcome {S A} (m : prog S A) (s : S) : flow A := (m s).2.

Definition panics {A} (f : flow A) : bool :=
  match f with Panic _ => true | _ => false end.

Declare Scope prog_scope.
Delimit Scope prog_scope with prog.
Notation "x ← m ; k" := (bind m (λ x, k))
  (at level 20, m at level 100, k at level 200, only parsing) : prog_scope.
Notation "m ;; k" := (bind m (λ _, k))
  (at level 100, k at level 200, only parsing, right associativity) : prog_scope.
Notation "r 'or_else' h" := (check r h)
  (at level 50, only parsing) : prog_scope.

(** ** Automation *)

Create HintDb route discriminated.
Create Rewrite HintDb prog.

(** Case analysis on the first [match] or [if] of the goal that is stuck on
    a decision, a result, a flow, an option or a boolean. *)
Ltac case_step :=
  match goal with
  | |- context [decide ?P] => destruct (decide P)
  | |- context [bool_decide ?P] => destruct (bool_decide_reflect P)
  | |- context [match ?x with Ok _ => _ | Err _ => _ end] => destruct x eqn:?
  | |- context [match ?x with Some _ => _ | None => _ end] => destruct x eqn:?
  | |- context [match ?x with
                | Next _ => _ | Return => _ | Panic _ => _ end] => destruct x eqn:?
  | |- context [if ?b then _ else _] => destruct b eqn:?
  end.

(** Closes a decidable goal on concrete data by evaluating its decision. *)
Ltac decide_by_compute :=
  lazymatch goal with
  | |- ?P => apply (bool_decide_eq_true_1 P); vm_compute; reflexivity
  end.

Ltac prog_unfold :=
  unfold exec, outcome, check, reject_if, bind, ret, return_, panic, get, modify in *.

(** ** Lemmas on [result] *)

Lemma is_ok_true {A} (r : result A) : is_ok r = true ↔ ∃ a, r = Ok a.
Proof. destruct r; simpl; split; [eauto|done|done|by intros [??]]. Qed.

Lemma is_ok_false {A} (r : result A) : is_ok r = false ↔ ∃ e, r = Err e.
Proof. destruct r; simpl; split; [done|by intros [??]|eauto|done]. Qed.

(** ** Lemmas on [int64] *)

Lemma wrap64_range z : in_int64 (wrap64 z).
Proof.
  unfold in_int64, wrap64, int64_min, int64_max.
  pose proof (Z.mod_pos_bound (z + 2 ^ 63) (2 ^ 64)). lia.
Qed.

Lemma wrap64_id z : in_int64 z → wrap64 z = z.
Proof.
  unfold in_int64, wrap64, int64_min, int64_max. intros.
  rewrite Z.mod_small; lia.
Qed.

Lemma wrap64_idemp z : wrap64 (wrap64 z) = wrap64 z.
Proof. apply wrap64_id, wrap64_range. Qed.

Lemma wrap64_congr z : ∃ k, wrap64 z = z + k * 2 ^ 64.
Proof.
  exists (- ((z + 2 ^ 63) / 2 ^ 64)). unfold wrap64.
  rewrite Z.mod_eq by lia. lia.
Qed.

Lemma wrap64_add_l a b : wrap64 (wrap64 a + b) = wrap64 (a + b).
Proof.
  unfold wrap64.
  replace ((a + 2 ^ 63) mod 2 ^ 64 - 2 ^ 63 + b + 2 ^ 63)
    with ((a + 2 ^ 63) mod 2 ^ 64 + b) by lia.
  replace (a + b + 2 ^ 63) with ((a + 2 ^ 63) + b) by lia.
  by rewrite Zplus_mod_idemp_l.
Qed.

Lemma add64_range a b : in_int64 (add64 a b).
Proof. apply wrap64_range. Qed.

Lemma add64_exact a b : in_int64 (a + b) → add64 a b = a + b.
Proof. apply wrap64_id. Qed.

Lemma add64_comm a b : add64 a b = add64 b a.
Proof. unfold add64. by rewrite Z.add_comm. Qed.

Lemma add64_0_l a : in_int64 a → add64 0 a = a.
Proof. intros. unfold add64. by rewrite Z.add_0_l, wrap64_id. Qed.

Lemma add64_wrap_l a b : add64 (wrap64 a) b = wrap64 (a + b).
Proof. apply wrap64_add_l. Qed.

Lemma quot64_range a b : in_int64 a → 0 < b → in_int64 (quot64 a b).
Proof.
  unfold in_int64, quot64, int64_min, int64_max. intros Ha Hb.
  destruct (Z.le_gt_cases 0 a).
  - pose proof (Z.quot_pos a b). pose proof (Z.quot_le_upper_bound a b a).
    split; [lia|]. assert (a ÷ b <= a); [|lia].
    apply Z.quot_le_upper_bound; nia.
  - pose proof (Z.quot_opp_l a b). assert (0 <= - a) by lia.
    pose proof (Z.quot_pos (- a) b). assert (- a ÷ b <= - a).
    { apply Z.quot_le_upper_bound; nia. }
    lia.
Qed.

#[export] Hint Resolve wrap64_range add64_range quot64_range : route.
#[export] Hint Rewrite wrap64_idemp wrap64_add_l : prog.

(** ** Lemmas on [prog] *)

Section prog.
Context {S : Type}.
Implicit Types s : S.

Lemma bind_ret_l {A B} (a : A) (k : A → prog S B) s : bind (ret a) k s = k a s.
Proof. done. Qed.

Lemma bind_ret_r {A} (m : prog S A) s : bind m ret s = m s.
Proof. unfold bind, ret. by destruct (m s) as [? []]. Qed.

Lemma bind_assoc {A B C} (m : prog S A) (k : A → prog S B) (h : B → prog S C) s :
  bind (bind m k) h s = bind m (λ a, bind (k a) h) s.
Proof. unfold bind. by destruct (m s) as [? []]. Qed.

Lemma bind_return_l {A B} (k : A → prog S B) s : bind return_ k s = (s, Return).
Proof. done. Qed.

Lemma bind_panic_l {A B} msg (k : A → prog S B) s :
  bind (panic msg) k s = (s, Panic msg).
Proof. done. Qed.

Lemma check_ok {A} (a : A) h s : check (Ok a) h s = (s, Next a).
Proof. done. Qed.

(** A failed call never reaches the continuation. *)
Lemma check_err_flow {A} e (h : string → prog S unit) s (a : A) :
  outcome (check (A:=A) (Err e) h) s ≠ Next a.
Proof. prog_unfold. by destruct (h e s) as [? []]. Qed.

Lemma reject_if_false (h : prog S unit) s : reject_if false h s = (s, Next tt).
Proof. done. Qed.

Lemma exec_bind {A B} (m : prog S A) (k : A → prog S B) s a :
  m s = (exec m s, Next a) → exec (bind m k) s = exec (k a) (exec m s).
Proof. unfold exec, bind. intros ->. done. Qed.
End prog.
