(* ===== verification/Types.v ===== *)
(** * Types: the data of the service

    The types declared in [src/app/shortest_route.go] ([routePath],
    [routePathPoint], [responseToken], [shortestRoute]) and the shapes of
    the values the handlers exchange with their collaborators: JSON values
    and the [Json] interface to [encoding/json], the calls a handler makes
    on its [http.ResponseWriter], the request and response of the distance
    matrix, and the [world] a handler runs in (database handle, log,
    response writer and the goroutines started). *)

From Stdlib Require Import ZArith.
From stdpp Require Import base tactics option list strings.
From S2P Require Import Prelude.

#[local] Open Scope Z_scope.

(** ** Types of the source *)

(** [type routePath [][]string]: the decoded request body. *)
Abbreviation routePath := (list (list string)).

(** [type routePathPoint []string]: one [lat,lng] string per waypoint. *)
Abbreviation routePathPoint := (list string).

(** [type responseToken struct]. *)
Record responseToken : Type := { Token : string }.

(** [type shortestRoute struct]; every field but [Status] is tagged
    [omitempty]. *)
Record shortestRoute : Type := {
  Status : string;
  Path : list (list string);
  TotalDistance : Z;
  TotalTime : Z;
  Error : string;
}.

(** The composite literal [shortestRoute{}]: every field at its zero value. *)
Definition shortestRoute_zero : shortestRoute :=
  {| Status := EmptyString; Path := []; TotalDistance := 0; TotalTime := 0;
     Error := EmptyString |}.

#[export] Instance responseToken_eq_dec : EqDecision responseToken.
Proof. solve_decision. Defined.
#[export] Instance shortestRoute_eq_dec : EqDecision shortestRoute.
Proof. solve_decision. Defined.

(** ** JSON values and the struct tags *)

#[warnings="-register-all"]
Inductive json : Type :=
| JNull
| JString (s : string)
| JNumber (z : Z)
| JArray (l : list json)
| JObject (fields : list (string * json)).

(** A field tagged [omitempty] is left out when it holds its zero value. *)
Definition omitempty (name : string) (is_zero : bool) (v : json)
  : list (string * json) :=
  if is_zero then [] else [(name, v)].

Definition string_is_zero (s : string) : bool := bool_decide (s = EmptyString).

Definition path_json (p : list (list string)) : json :=
  JArray ((λ loc, JArray (JString <$> loc)) <$> p).

(** The object [json.Marshal] builds for a [responseToken]. *)
Definition responseToken_json (t : responseToken) : json :=
  JObject [("token", JString (Token t))].

(** The object [json.Marshal] builds for a [shortestRoute]: [status] always,
    the other fields when they are not empty. *)
Definition shortestRoute_json (r : shortestRoute) : json :=
  JObject (
    [("status", JString (Status r))]
    ++ omitempty "path" (bool_decide (length (Path r) = 0%nat)) (path_json (Path r))
    ++ omitempty "total_distance" (bool_decide (TotalDistance r = 0))
         (JNumber (TotalDistance r))
    ++ omitempty "total_time" (bool_decide (TotalTime r = 0)) (JNumber (TotalTime r))
    ++ omitempty "error" (string_is_zero (Error r)) (JString (Error r))).

(** What the handlers use of [encoding/json]: decoding a body into a
    [routePath] and encoding a JSON value. *)
Class Json : Type := {
  Unmarshal : string → result routePath;
  Marshal : json → result string;
}.

(** ** The response writer *)

(** The calls a handler makes on its [http.ResponseWriter], in order. *)
Inductive writer_call : Type :=
| WError (body : string) (code : Z)   (* http.Error(w, body, code) *)
| WHeaderSet (key value : string)     (* w.Header().Set(key, value) *)
| WWrite (body : string).             (* w.Write(body) *)

#[export] Instance writer_call_eq_dec : EqDecision writer_call.
Proof. solve_decision. Defined.

(** The body of the error responses of [pathHandler]:
    [{"error":"] + msg + ["}]. *)
Definition error_body (msg : string) : string :=
  "{" +:+ quoted "error" +:+ ":" +:+ quoted msg +:+ "}".

(** The body of the error response of [routeHandler]:
    [{"status":"failure", "error":"] + msg + ["}]. *)
Definition failure_body (msg : string) : string :=
  "{" +:+ quoted "status" +:+ ":" +:+ quoted "failure" +:+ ", "
      +:+ quoted "error" +:+ ":" +:+ quoted msg +:+ "}".

(** ** The distance matrix *)

(** [maps.DistanceMatrixRequest], the fields the program sets. *)
Record DistanceMatrixRequest : Type := {
  Origins : list string;
  Destinations : list string;
  Language : string;
}.

(** [maps.DistanceMatrixElement]: the status of the leg, its duration (a
    [time.Duration], in nanoseconds) and its distance in meters. *)
Record DistanceMatrixElement : Type := {
  ElementStatus : string;
  Duration : Z;
  Meters : Z;
}.

(** One row per origin, one element per destination. *)
Record DistanceMatrixElementsRow : Type := {
  Elements : list DistanceMatrixElement;
}.

Record DistanceMatrixResponse : Type := {
  Rows : list DistanceMatrixElementsRow;
}.

(** [time.Second], in nanoseconds. *)
Definition time_Second : Z := 1000000000.

#[export] Instance DistanceMatrixRequest_eq_dec : EqDecision DistanceMatrixRequest.
Proof. solve_decision. Defined.
#[export] Instance DistanceMatrixElement_eq_dec : EqDecision DistanceMatrixElement.
Proof. solve_decision. Defined.

(** ** The world of a handler *)

(** What a handler can change: the database behind the global handle [db],
    the lines written with [log.Printf], the calls on the response writer
    [w], and the goroutines started with [go processRoute(token, points)]. *)
Record world (T : Type) : Type := {
  db : T;
  logged : list string;
  writer : list writer_call;
  goroutines : list (string * routePathPoint);
}.
Arguments db {T} _.
Arguments logged {T} _.
Arguments writer {T} _.
Arguments goroutines {T} _.
Arguments Build_world {T} _ _ _ _.

Section world_ops.
Context {T : Type}.
Implicit Types s : world T.

Definition set_db (t : T) s : world T :=
  {| db := t; logged := logged s; writer := writer s; goroutines := goroutines s |}.

(** The world with more lines in its log. *)
Definition add_log (lines : list string) s : world T :=
  {| db := db s; logged := logged s ++ lines; writer := writer s;
     goroutines := goroutines s |}.

(** [log.Printf]: one line appended to the log. *)
Definition log_Printf (line : string) : prog (world T) unit :=
  modify (add_log [line]).

Definition call_writer (c : writer_call) : prog (world T) unit :=
  modify (λ s, {| db := db s; logged := logged s;
                  writer := writer s ++ [c]; goroutines := goroutines s |}).

Definition http_Error (body : string) (code : Z) : prog (world T) unit :=
  call_writer (WError body code).

Definition w_Header_Set (key value : string) : prog (world T) unit :=
  call_writer (WHeaderSet key value).

Definition w_Write (body : string) : prog (world T) unit :=
  call_writer (WWrite body).

(** [go processRoute(token, points)]: the goroutine is started, not run. *)
Definition go_processRoute (token : string) (points : routePathPoint)
  : prog (world T) unit :=
  modify (λ s, {| db := db s; logged := logged s; writer := writer s;
                  goroutines := goroutines s ++ [(token, points)] |}).

(** A fresh world for one request on the database [t]. *)
Definition world_of (t : T) : world T :=
  {| db := t; logged := []; writer := []; goroutines := [] |}.
End world_ops.

(** ** Lemmas *)

Lemma omitempty_zero name v : omitempty name true v = [].
Proof. done. Qed.

Lemma omitempty_nonzero name v : omitempty name false v = [(name, v)].
Proof. done. Qed.

Lemma string_is_zero_spec s : string_is_zero s = true ↔ s = EmptyString.
Proof. unfold string_is_zero. by rewrite bool_decide_eq_true. Qed.

Lemma path_json_length p l : path_json p = JArray l → length l = length p.
Proof. intros [= <-]. by rewrite length_fmap. Qed.

#[export] Hint Rewrite omitempty_zero omitempty_nonzero : prog.

Section world_lemmas.
Context {T : Type}.
Implicit Types s : world T.

Lemma log_Printf_run line s : log_Printf line s = (add_log [line] s, Next tt).
Proof. done. Qed.

Lemma add_log_nil s : add_log [] s = s.
Proof. destruct s. unfold add_log. simpl. by rewrite app_nil_r. Qed.

Lemma add_log_app l1 l2 s : add_log l2 (add_log l1 s) = add_log (l1 ++ l2) s.
Proof. unfold add_log. simpl. by rewrite app_assoc. Qed.

(** A block that logs one line and yields a value. *)
Lemma log_then_ret {A} line (a : A) s :
  bind (log_Printf line) (λ _, ret a) s = (add_log [line] s, Next a).
Proof. done. Qed.

Lemma call_writer_run c s :
  call_writer c s =
    ({| db := db s; logged := logged s; writer := writer s ++ [c];
        goroutines := goroutines s |}, Next tt).
Proof. done. Qed.

Lemma go_processRoute_run token points s :
  go_processRoute token points s =
    ({| db := db s; logged := logged s; writer := writer s;
        goroutines := goroutines s ++ [(token, points)] |}, Next tt).
Proof. done. Qed.
End world_lemmas.
