(* ===== verification/Codec.v ===== *)
(** * Codec: an executable instance of the [Json] interface

    The handlers are proved against the interface [Json]; this file gives
    the instance [go_json] on which they are evaluated.  It follows
    [encoding/json] for the two uses the program makes of it:

    - [go_Unmarshal] decodes a body into a [routePath].  The body is read
      character by character by the automaton [lex_step] (white space,
      brackets, commas, [null], string literals with their escapes) and the
      tokens by [parse_step], which accepts [null] and arrays of arrays of
      strings, a [null] standing for an empty array or an empty string as
      it does in Go.  Any other input is an error: for a destination of
      type [[][]string] every other JSON value is a syntax or a type error.
    - [encode] prints a JSON value the way [json.Marshal] does, without
      white space, with the escapes of the encoder (the quote, the
      backslash, control characters, and [<], [>], [&] as [\u00XX]).

    The escape [\uXXXX] is decoded to the UTF-8 bytes of its code point.
    Two things are left out: an escaped surrogate ([\uD800] to [\uDFFF])
    is refused by the decoder, where Go combines a pair and replaces a
    lone one by U+FFFD; and bytes above 127 are passed through by both
    directions, which is what Go does on valid UTF-8 other than U+2028 and
    U+2029.  The texts of the errors are representative, not Go's.

    [CodecLaws] proves that the decoder reads back what the encoder
    prints for a route of ASCII strings. *)

From Stdlib Require Import ZArith Ascii NArith.
From stdpp Require Import base tactics option list strings pretty.
From S2P Require Import Prelude Types.

(** ** Characters *)

Definition c_dq : ascii := ascii_of_nat 34.
Definition c_backslash : ascii := ascii_of_nat 92.

Definition snoc (acc : string) (c : ascii) : string := acc +:+ String c EmptyString.

Definition is_ws (c : ascii) : bool :=
  let n := nat_of_ascii c in
  bool_decide (n = 32 ∨ n = 9 ∨ n = 10 ∨ n = 13)%nat.

(** The character an escape [\c] stands for. *)
Definition unescape (c : ascii) : option ascii :=
  if Ascii.eqb c c_dq then Some c_dq
  else if Ascii.eqb c c_backslash then Some c_backslash
  else if Ascii.eqb c "/" then Some "/"%char
  else if Ascii.eqb c "b" then Some (ascii_of_nat 8)
  else if Ascii.eqb c "f" then Some (ascii_of_nat 12)
  else if Ascii.eqb c "n" then Some (ascii_of_nat 10)
  else if Ascii.eqb c "r" then Some (ascii_of_nat 13)
  else if Ascii.eqb c "t" then Some (ascii_of_nat 9)
  else None.

(** The value of a hexadecimal digit. *)
Definition hex_value (c : ascii) : option N :=
  let n := N_of_ascii c in
  if bool_decide (48 ≤ n ≤ 57)%N then Some (n - 48)%N
  else if bool_decide (97 ≤ n ≤ 102)%N then Some (n - 87)%N
  else if bool_decide (65 ≤ n ≤ 70)%N then Some (n - 55)%N
  else None.

Definition byte_string (ns : list N) : string :=
  foldr (λ n s, String (ascii_of_N n) s) EmptyString ns.

(** The UTF-8 bytes of a code point below 2^16 that is not a surrogate. *)
Definition utf8 (n : N) : option string :=
  if bool_decide (n < 128)%N then Some (byte_string [n])
  else if bool_decide (n < 2048)%N then
    Some (byte_string [192 + n / 64; 128 + n mod 64])%N
  else if bool_decide (55296 ≤ n < 57344)%N then None
  else Some (byte_string [224 + n / 4096; 128 + (n / 64) mod 64; 128 + n mod 64])%N.

(** ** The scanner *)

Inductive token : Type := TOpen | TClose | TComma | TStr (s : string) | TNull.

#[export] Instance token_eq_dec : EqDecision token.
Proof. solve_decision. Defined.

Inductive lex_state : Type :=
| LOut                   (* between tokens *)
| LStr (acc : string)    (* in a string literal *)
| LEsc (acc : string)    (* after a backslash in a string literal *)
| LUni (acc : string) (k : nat) (n : N)
                         (* after [\u] and [k] digits of value [n] *)
| LNull (n : nat).       (* after the first [n] letters of [null] *)

(** One character: the next state and the tokens completed, or a syntax
    error. *)
Definition lex_step (st : lex_state) (c : ascii) : option (lex_state * list token) :=
  match st with
  | LOut =>
      if is_ws c then Some (LOut, [])
      else if Ascii.eqb c "[" then Some (LOut, [TOpen])
      else if Ascii.eqb c "]" then Some (LOut, [TClose])
      else if Ascii.eqb c "," then Some (LOut, [TComma])
      else if Ascii.eqb c "n" then Some (LNull 1, [])
      else if Ascii.eqb c c_dq then Some (LStr EmptyString, [])
      else None
  | LStr acc =>
      if Ascii.eqb c c_dq then Some (LOut, [TStr acc])
      else if Ascii.eqb c c_backslash then Some (LEsc acc, [])
      else if bool_decide (nat_of_ascii c < 32)%nat then None
      else Some (LStr (snoc acc c), [])
  | LEsc acc =>
      if Ascii.eqb c "u" then Some (LUni acc 0 0, [])
      else match unescape c with
           | Some c' => Some (LStr (snoc acc c'), [])
           | None => None
           end
  | LUni acc k n =>
      match hex_value c with
      | Some d =>
          let n' := (16 * n + d)%N in
          if bool_decide (k = 3)%nat then
            match utf8 n' with
            | Some bytes => Some (LStr (acc +:+ bytes), [])
            | None => None
            end
          else Some (LUni acc (S k) n', [])
      | None => None
      end
  | LNull 1 => if Ascii.eqb c "u" then Some (LNull 2, []) else None
  | LNull 2 => if Ascii.eqb c "l" then Some (LNull 3, []) else None
  | LNull 3 => if Ascii.eqb c "l" then Some (LOut, [TNull]) else None
  | LNull _ => None
  end.

Fixpoint lex (s : string) (st : lex_state) : option (list token) :=
  match s with
  | EmptyString => match st with LOut => Some [] | _ => None end
  | String c s' =>
      match lex_step st c with
      | Some (st', out) => (out ++.) <$> lex s' st'
      | None => None
      end
  end.

(** The scanner on a part of the input: the state it ends in and the
    tokens completed. *)
Fixpoint lex_run (s : string) (st : lex_state) : option (lex_state * list token) :=
  match s with
  | EmptyString => Some (st, [])
  | String c s' =>
      match lex_step st c with
      | Some (st', out) =>
          match lex_run s' st' with
          | Some (st'', out') => Some (st'', out ++ out')
          | None => None
          end
      | None => None
      end
  end.

(** ** The parser *)

(** The states of the parser: [acc] holds the points read so far and [cur]
    the coordinates of the point being read. *)
Inductive parse_state : Type :=
| PStart
| POuterOpen                                   (* after the outer [[] *)
| POuterNext (acc : routePath)                 (* after a point *)
| POuterComma (acc : routePath)                (* after a comma between points *)
| PInnerOpen (acc : routePath)                 (* after the [[] of a point *)
| PInnerNext (acc : routePath) (cur : list string)
| PInnerComma (acc : routePath) (cur : list string)
| PDone (p : routePath).

Definition parse_step (st : parse_state) (t : token) : option parse_state :=
  match st, t with
  | PStart, TNull => Some (PDone [])
  | PStart, TOpen => Some POuterOpen
  | POuterOpen, TClose => Some (PDone [])
  | POuterOpen, TNull => Some (POuterNext [[]])
  | POuterOpen, TOpen => Some (PInnerOpen [])
  | POuterNext acc, TClose => Some (PDone acc)
  | POuterNext acc, TComma => Some (POuterComma acc)
  | POuterComma acc, TNull => Some (POuterNext (acc ++ [[]]))
  | POuterComma acc, TOpen => Some (PInnerOpen acc)
  | PInnerOpen acc, TClose => Some (POuterNext (acc ++ [[]]))
  | PInnerOpen acc, TStr s => Some (PInnerNext acc [s])
  | PInnerOpen acc, TNull => Some (PInnerNext acc [EmptyString])
  | PInnerNext acc cur, TClose => Some (POuterNext (acc ++ [cur]))
  | PInnerNext acc cur, TComma => Some (PInnerComma acc cur)
  | PInnerComma acc cur, TStr s => Some (PInnerNext acc (cur ++ [s]))
  | PInnerComma acc cur, TNull => Some (PInnerNext acc (cur ++ [EmptyString]))
  | _, _ => None
  end.

Fixpoint parse (ts : list token) (st : parse_state) : option routePath :=
  match ts with
  | [] => match st with PDone p => Some p | _ => None end
  | t :: ts' =>
      match parse_step st t with
      | Some st' => parse ts' st'
      | None => None
      end
  end.

(** [json.Unmarshal(body, &routePathArr)] on an empty [routePathArr]. *)
Definition go_Unmarshal (body : string) : result routePath :=
  match lex body LOut with
  | None => Err "invalid character in JSON input"
  | Some ts =>
      match parse ts PStart with
      | Some p => Ok p
      | None => Err "json: cannot unmarshal into Go value of type main.routePath"
      end
  end.

(** ** The printer *)

Definition hex_digit (n : nat) : ascii :=
  if bool_decide (n < 10)%nat then ascii_of_nat (48 + n) else ascii_of_nat (87 + n).

(** A character of a string literal as the encoder writes it. *)
Definition escape_char (c : ascii) : string :=
  let n := nat_of_ascii c in
  if Ascii.eqb c c_dq then String c_backslash (String c_dq EmptyString)
  else if Ascii.eqb c c_backslash then String c_backslash (String c_backslash EmptyString)
  else if bool_decide (n = 10)%nat then String c_backslash "n"
  else if bool_decide (n = 13)%nat then String c_backslash "r"
  else if bool_decide (n = 9)%nat then String c_backslash "t"
  else if bool_decide (n < 32 ∨ n = 60 ∨ n = 62 ∨ n = 38)%nat then
    String c_backslash
      ("u00" +:+ String (hex_digit (n / 16)) (String (hex_digit (n mod 16)) EmptyString))
  else String c EmptyString.

Fixpoint escape (s : string) : string :=
  match s with
  | EmptyString => EmptyString
  | String c s' => escape_char c +:+ escape s'
  end.

Fixpoint encode (j : json) : string :=
  match j with
  | JNull => "null"
  | JString s => quoted (escape s)
  | JNumber z => pretty z
  | JArray l => "[" +:+ String.concat "," (encode <$> l) +:+ "]"
  | JObject fields =>
      "{" +:+ String.concat ","
                ((λ kv, quoted (escape kv.1) +:+ ":" +:+ encode kv.2) <$> fields)
          +:+ "}"
  end.

#[export] Instance go_json : Json := {
  Unmarshal := go_Unmarshal;
  Marshal j := Ok (encode j);
}.

(** ** Bodies used as examples *)

Definition json_point (coordinates : list string) : string :=
  "[" +:+ String.concat "," (quoted <$> coordinates) +:+ "]".

Definition json_route (p : routePath) : string :=
  "[" +:+ String.concat "," (json_point <$> p) +:+ "]".

(** The route of the specification's example: three points, two legs. *)
Definition example_route : routePath := [["1"; "1"]; ["2"; "2"]; ["3"; "3"]].
Definition example_body : string := json_route example_route.

(** ** Examples *)

Example unmarshal_example_body : go_Unmarshal example_body = Ok example_route.
Proof. vm_compute. reflexivity. Qed.

Example unmarshal_two_points :
  go_Unmarshal ("[[" +:+ quoted "22.372081" +:+ ", " +:+ quoted "114.107877" +:+ "],["
                +:+ quoted "22.284419" +:+ "," +:+ quoted "114.159510" +:+ "]]")
  = Ok [["22.372081"; "114.107877"]; ["22.284419"; "114.159510"]].
Proof. vm_compute. reflexivity. Qed.

Example unmarshal_escapes :
  go_Unmarshal ("[[" +:+ quoted (String c_backslash "u0031" +:+ String c_backslash "n"
                                 +:+ String c_backslash "u00e9") +:+ "]]")
  = Ok [[byte_string [49; 10; 195; 169]%N]].
Proof. vm_compute. reflexivity. Qed.

Example unmarshal_null : go_Unmarshal "null" = Ok [].
Proof. vm_compute. reflexivity. Qed.

Example unmarshal_numbers_refused : is_ok (go_Unmarshal "[[1,2],[3,4]]") = false.
Proof. vm_compute. reflexivity. Qed.

Example unmarshal_trailing_refused : is_ok (go_Unmarshal "[] []") = false.
Proof. vm_compute. reflexivity. Qed.

Example marshal_token :
  Marshal (responseToken_json {| Token := "9d3503e0" |})
  = Ok ("{" +:+ quoted "token" +:+ ":" +:+ quoted "9d3503e0" +:+ "}").
Proof. vm_compute. reflexivity. Qed.

Example marshal_in_progress :
  Marshal (shortestRoute_json
             {| Status := "in progress"; Path := []; TotalDistance := 0;
                TotalTime := 0; Error := EmptyString |})
  = Ok ("{" +:+ quoted "status" +:+ ":" +:+ quoted "in progress" +:+ "}").
Proof. vm_compute. reflexivity. Qed.
