(* ===== verification/JobStore.v ===== *)
(** * JobStore: the table [travel_details]

    The program reaches its database through three SQL statements: the
    [INSERT] of [pathHandler], the [UPDATE] of [processRoute] and the
    [SELECT] of [routeHandler].  This file states what the handlers rely on
    as the interface [JobStore] with its laws [JobStoreLaws], gives two
    implementations (the table as the list of its rows, [table], and the
    abstract store of the specification, a finite map from tokens to rows),
    proves that both satisfy the laws, and that the table refines the map
    ([table_abs]).  The handlers of the later files are written and proved
    against the interface.

    The migrations that create the table are not part of the sources; the
    columns an [INSERT] does not name are taken to default to [0] and to
    the empty string ([new_row]), and [token] is taken to be a unique key
    ([unique_key]), as the specification of the store says.  The laws say
    that an [INSERT] creates the row [new_row], with these defaults. *)

From Stdlib Require Import ZArith.
From stdpp Require Import base tactics option list strings gmap.
From S2P Require Import Prelude Types.

#[local] Open Scope Z_scope.

(** ** Rows *)

(** A row of [travel_details], by column. *)
Record Row : Type := {
  c_path : string;
  c_token : string;
  c_status : Z;
  c_total_distance : Z;
  c_total_time : Z;
  c_response_error : string;
}.

#[export] Instance Row_eq_dec : EqDecision Row.
Proof. solve_decision. Defined.

(** The row an [INSERT ... (path, token, status)] creates. *)
Definition new_row (path token : string) (status : Z) : Row :=
  {| c_path := path; c_token := token; c_status := status;
     c_total_distance := 0; c_total_time := 0; c_response_error := EmptyString |}.

(** The effect of [SET status=?, total_distance=?, total_time=?,
    response_error=?] on a row. *)
Definition set_outcome (status total_distance total_time : Z)
    (response_error : string) (r : Row) : Row :=
  {| c_path := c_path r; c_token := c_token r; c_status := status;
     c_total_distance := total_distance; c_total_time := total_time;
     c_response_error := response_error |}.

(** The status codes and the states of a job they stand for. *)
Inductive job_status : Type := Pending | Success | Failure.

#[export] Instance job_status_eq_dec : EqDecision job_status.
Proof. solve_decision. Defined.

Definition status_code (st : job_status) : Z :=
  match st with Pending => 0 | Success => 1 | Failure => -1 end.

Definition status_of_code (z : Z) : option job_status :=
  if decide (z = 0) then Some Pending
  else if decide (z = 1) then Some Success
  else if decide (z = -1) then Some Failure
  else None.

Definition terminal (st : job_status) : bool :=
  match st with Pending => false | _ => true end.

(** ** The interface *)

Class JobStore (T : Type) : Type := {
  store_empty : T;
  (** [INSERT INTO travel_details(path, token, status) VALUES (?, ?, ?)] *)
  store_insert : string → string → Z → T → result T;
  (** [UPDATE travel_details SET status=?, total_distance=?, total_time=?,
      response_error=? WHERE token=?] *)
  store_update : Z → Z → Z → string → string → T → T;
  (** [SELECT ... FROM travel_details WHERE token=?], the first row. *)
  store_select : string → T → option Row;
}.
#[global] Hint Mode JobStore ! : typeclass_instances.

Class JobStoreLaws (T : Type) `{JobStore T} : Prop := {
  select_empty token : store_select token (store_empty : T) = None;
  insert_ok path token status (t : T) :
    is_ok (store_insert path token status t) = true ↔ store_select token t = None;
  select_insert_new path token status (t t' : T) :
    store_insert path token status t = Ok t' →
    store_select token t' = Some (new_row path token status);
  select_insert_ne path token status (t t' : T) token' :
    store_insert path token status t = Ok t' → token' ≠ token →
    store_select token' t' = store_select token' t;
  select_update status td tt e token (t : T) :
    store_select token (store_update status td tt e token t)
    = set_outcome status td tt e <$> store_select token t;
  select_update_ne status td tt e token (t : T) token' :
    token' ≠ token →
    store_select token' (store_update status td tt e token t)
    = store_select token' t;
}.

(** ** The table as the list of its rows *)

Abbreviation table := (list Row).

Definition has_token (token : string) (r : Row) : bool :=
  bool_decide (c_token r = token).

(** [SELECT ... WHERE token=?] followed by [QueryRow]: the first match. *)
Definition sql_select (token : string) (t : table) : option Row :=
  head (filter (λ r, c_token r = token) t).

(** The unique key on [token] that the schema declares: the error of the
    server when a row with the token exists. *)
Definition unique_key (token : string) (t : table) : option string :=
  match sql_select token t with
  | Some _ => Some ("Error 1062: Duplicate entry '" +:+ token +:+ "' for key 'token'")
  | None => None
  end.

(** [INSERT INTO travel_details(path, token, status) VALUES (?, ?, ?)]: the
    row is appended unless the key refuses it. *)
Definition sql_insert (path token : string) (status : Z) (t : table) : result table :=
  match unique_key token t with
  | Some e => Err e
  | None => Ok (t ++ [new_row path token status])
  end.

(** [UPDATE ... WHERE token=?]: every row with the token is rewritten. *)
Definition sql_update (status td tt : Z) (e token : string) (t : table) : table :=
  (λ r, if has_token token r then set_outcome status td tt e r else r) <$> t.

#[export] Instance table_store : JobStore table := {
  store_empty := [];
  store_insert := sql_insert;
  store_update := sql_update;
  store_select := sql_select;
}.

(** The tokens of a table, and the invariant a unique key maintains. *)
Definition tokens (t : table) : list string := c_token <$> t.
Definition unique_tokens (t : table) : Prop := NoDup (tokens t).

#[export] Instance unique_tokens_dec t : Decision (unique_tokens t).
Proof. unfold unique_tokens. apply _. Defined.

(** ** The abstract store *)

Abbreviation jobmap := (gmap string Row).

Definition map_insert (path token : string) (status : Z) (m : jobmap) : result jobmap :=
  match m !! token with
  | Some _ => Err ("Error 1062: Duplicate entry '" +:+ token +:+ "' for key 'token'")
  | None => Ok (<[token := new_row path token status]> m)
  end.

Definition map_update (status td tt : Z) (e token : string) (m : jobmap) : jobmap :=
  alter (set_outcome status td tt e) token m.

#[export] Instance map_store : JobStore jobmap := {
  store_empty := ∅;
  store_insert := map_insert;
  store_update := map_update;
  store_select token m := m !! token;
}.

(** The map a table stands for. *)
Definition table_abs (t : table) : jobmap :=
  list_to_map ((λ r, (c_token r, r)) <$> t).

(** ** Lemmas on rows and status codes *)

Lemma status_of_code_code st : status_of_code (status_code st) = Some st.
Proof. by destruct st. Qed.

Lemma status_of_code_Some z st : status_of_code z = Some st → z = status_code st.
Proof.
  unfold status_of_code. repeat case_decide; intros [= <-]; by subst.
Qed.

Lemma set_outcome_token status td tt e r :
  c_token (set_outcome status td tt e r) = c_token r.
Proof. done. Qed.

Lemma set_outcome_path status td tt e r :
  c_path (set_outcome status td tt e r) = c_path r.
Proof. done. Qed.

(** ** Lemmas on the table *)

Section table.
Implicit Types (t : table) (r : Row) (token : string).

Lemma sql_select_nil token : sql_select token [] = None.
Proof. done. Qed.

Lemma sql_select_cons token r t :
  sql_select token (r :: t)
  = if decide (c_token r = token) then Some r else sql_select token t.
Proof. unfold sql_select. rewrite filter_cons. by case_decide. Qed.

Lemma sql_select_Some token t r :
  sql_select token t = Some r → r ∈ t ∧ c_token r = token.
Proof.
  unfold sql_select. intros Hh%head_Some_elem_of.
  by apply list_elem_of_filter in Hh as [? ?].
Qed.

Lemma sql_select_None token t : sql_select token t = None ↔ token ∉ tokens t.
Proof.
  unfold tokens. induction t as [|r t IH].
  - split; [intros _; apply not_elem_of_nil|done].
  - rewrite sql_select_cons, fmap_cons, not_elem_of_cons, <- IH.
    case_decide as Hd; split; try done.
    + intros [Hne _]. by destruct Hne.
    + by intros [_ ?].
Qed.

Lemma sql_select_app token t1 t2 :
  sql_select token (t1 ++ t2)
  = match sql_select token t1 with
    | Some r => Some r
    | None => sql_select token t2
    end.
Proof.
  induction t1 as [|r t1 IH]; [done|].
  rewrite <- app_comm_cons, !sql_select_cons. by case_decide.
Qed.

Lemma sql_select_update status td tt e token t token' :
  sql_select token' (sql_update status td tt e token t)
  = if decide (token' = token)
    then set_outcome status td tt e <$> sql_select token' t
    else sql_select token' t.
Proof.
  induction t as [|r t IH]; [by case_decide|].
  unfold sql_update in *. rewrite fmap_cons, !sql_select_cons, IH.
  unfold has_token. destruct (decide (token' = token)) as [->|];
    repeat (case_bool_decide || case_decide); simplify_eq/=; done.
Qed.

Lemma tokens_update status td tt e token t :
  tokens (sql_update status td tt e token t) = tokens t.
Proof.
  unfold tokens, sql_update. rewrite <- list_fmap_compose.
  apply list_fmap_ext. intros ? r _. simpl. by destruct (has_token token r).
Qed.

Lemma length_update status td tt e token t :
  length (sql_update status td tt e token t) = length t.
Proof. unfold sql_update. by rewrite length_fmap. Qed.

Lemma sql_insert_Ok path token status t t' :
  sql_insert path token status t = Ok t' ↔
  sql_select token t = None ∧ t' = t ++ [new_row path token status].
Proof.
  unfold sql_insert, unique_key. destruct (sql_select token t); split.
  - done.
  - by intros [? _].
  - by intros [= <-].
  - by intros [_ ->].
Qed.

Lemma unique_tokens_insert path token status t t' :
  unique_tokens t → sql_insert path token status t = Ok t' → unique_tokens t'.
Proof.
  unfold unique_tokens, tokens.
  intros Hnd [Hnone ->]%sql_insert_Ok. rewrite fmap_app. simpl.
  apply NoDup_app. split_and!; [done| |apply NoDup_singleton].
  intros x Hx ->%list_elem_of_singleton. by apply sql_select_None in Hnone.
Qed.

Lemma unique_tokens_update status td tt e token t :
  unique_tokens t → unique_tokens (sql_update status td tt e token t).
Proof. unfold unique_tokens. by rewrite tokens_update. Qed.
End table.

#[export] Instance table_laws : JobStoreLaws table.
Proof.
  split; simpl.
  - done.
  - intros path token status t. unfold sql_insert, unique_key.
    by destruct (sql_select token t).
  - intros path token status t t' [Hnone ->]%sql_insert_Ok.
    rewrite sql_select_app, Hnone, sql_select_cons. simpl. by case_decide.
  - intros path token status t t' token' [Hnone ->]%sql_insert_Ok Hne.
    rewrite sql_select_app, sql_select_cons. simpl.
    case_decide; [congruence|]. by destruct (sql_select token' t).
  - intros. rewrite sql_select_update. by case_decide.
  - intros. rewrite sql_select_update. by case_decide.
Qed.

(** ** Lemmas on the abstract store *)

#[export] Instance map_laws : JobStoreLaws jobmap.
Proof.
  split; simpl; unfold map_insert, map_update.
  - done.
  - intros path token status m. by destruct (m !! token).
  - intros path token status m m'. destruct (m !! token) eqn:E; intros [= <-].
    by rewrite lookup_insert_eq.
  - intros path token status m m' token'.
    destruct (m !! token) eqn:E; intros [= <-] Hne. by rewrite lookup_insert_ne.
  - intros. by rewrite lookup_alter_eq.
  - intros. by rewrite lookup_alter_ne.
Qed.

(** ** Consequences of the laws *)

Section laws.
Context {T : Type} `{JobStoreLaws T}.

(** The row an [INSERT] creates holds the path and the status given. *)
Lemma select_insert path token status (t t' : T) :
  store_insert path token status t = Ok t' →
  ∃ r, store_select token t' = Some r ∧ c_path r = path ∧ c_status r = status.
Proof. intros Hins%select_insert_new. by exists (new_row path token status). Qed.

End laws.

(** ** The table refines the abstract store *)

Lemma table_abs_cons r t : table_abs (r :: t) = <[c_token r := r]> (table_abs t).
Proof. done. Qed.

(** Reading the abstraction is reading the table. *)
Lemma table_abs_lookup token t : table_abs t !! token = sql_select token t.
Proof.
  induction t as [|r t IH]; [done|].
  rewrite table_abs_cons, sql_select_cons. case_decide as Hd.
  - subst. by rewrite lookup_insert_eq.
  - by rewrite lookup_insert_ne.
Qed.

Lemma table_abs_snoc t r :
  sql_select (c_token r) t = None →
  table_abs (t ++ [r]) = <[c_token r := r]> (table_abs t).
Proof.
  intros Hnone. apply map_eq. intros token.
  rewrite table_abs_lookup, sql_select_app, sql_select_cons, sql_select_nil.
  destruct (decide (c_token r = token)) as [<-|Hne].
  - by rewrite Hnone, lookup_insert_eq.
  - rewrite lookup_insert_ne, table_abs_lookup by done.
    by destruct (sql_select token t).
Qed.

(** [INSERT] on the table is [map_insert] on its abstraction: it fails on
    the same inputs and yields the abstraction of the new table. *)
Lemma table_abs_insert path token status t :
  result_map table_abs (sql_insert path token status t)
  = map_insert path token status (table_abs t).
Proof.
  unfold sql_insert, unique_key, map_insert. rewrite table_abs_lookup.
  destruct (sql_select token t) eqn:E; [done|]. simpl.
  by rewrite (table_abs_snoc t (new_row path token status)).
Qed.

(** [UPDATE] on the table is [map_update] on its abstraction. *)
Lemma table_abs_update status td tt e token t :
  table_abs (sql_update status td tt e token t)
  = map_update status td tt e token (table_abs t).
Proof.
  apply map_eq. intros token'. unfold map_update.
  rewrite table_abs_lookup, sql_select_update. case_decide as Hd.
  - subst. by rewrite lookup_alter_eq, table_abs_lookup.
  - by rewrite lookup_alter_ne, table_abs_lookup.
Qed.

(** The table refines the abstract store.  Through [table_abs] the
    three statements on the list of rows are the operations of the finite
    map of the specification: the [SELECT] reads the binding of the token,
    the [INSERT] fails on the same inputs and yields the abstraction of
    the new table, the [UPDATE] alters the binding of the token, and the
    empty table is the empty map. *)
Theorem table_refines_map path token status td tt e (t : table) :
  store_select token (table_abs t) = store_select token t
  ∧ result_map table_abs (store_insert path token status t)
    = store_insert path token status (table_abs t)
  ∧ table_abs (store_update status td tt e token t)
    = store_update status td tt e token (table_abs t)
  ∧ table_abs store_empty = store_empty.
Proof.
  split_and!; simpl.
  - apply table_abs_lookup.
  - apply table_abs_insert.
  - apply table_abs_update.
  - done.
Qed.

(** The unique key is an invariant of the table: an [INSERT] that
    succeeds and an [UPDATE] leave the tokens of the rows pairwise
    distinct, and an [UPDATE] changes neither the number of rows nor their
    tokens. *)
Theorem unique_tokens_preserved path token status st td tt e token' (t : table) :
  unique_tokens t →
  (∀ t', sql_insert path token status t = Ok t' → unique_tokens t')
  ∧ unique_tokens (sql_update st td tt e token' t)
  ∧ tokens (sql_update st td tt e token' t) = tokens t.
Proof.
  intros Hnd. split_and!.
  - intros t'. by apply unique_tokens_insert.
  - by apply unique_tokens_update.
  - apply tokens_update.
Qed.

Lemma unique_tokens_preserved_witness :
  (∀ t', sql_insert "[]" "b" 0 [new_row "[]" "a" 0] = Ok t' → unique_tokens t')
  ∧ unique_tokens (sql_update 1 10 20 EmptyString "a" [new_row "[]" "a" 0])
  ∧ tokens (sql_update 1 10 20 EmptyString "a" [new_row "[]" "a" 0])
    = tokens [new_row "[]" "a" 0].
Proof.
  apply (unique_tokens_preserved "[]" "b" 0 1 10 20 EmptyString "a" [new_row "[]" "a" 0]).
  by apply NoDup_singleton.
Defined.

(** The abstraction has one binding per row when tokens are unique. *)
Lemma table_abs_size t : unique_tokens t → size (table_abs t) = length t.
Proof.
  intros Hnd. unfold table_abs. rewrite map_size_list_to_map.
  - by rewrite length_fmap.
  - by rewrite <- list_fmap_compose.
Qed.
