(* ===== verification/Intake.v ===== *)
(** * Intake: [pathHandler], the handler of [POST /route]

    [pathHandler] is translated statement by statement into the monad
    [prog]: every [log.Printf], every call on the response writer, the
    [INSERT] and the [go] statement are effects on the [world], and every
    [if err != nil { ...; return }] is a [check].  What the environment
    decides is an argument: the result of reading the body ([Request]), the
    token the UUID generator draws and whether the database is reachable
    ([intake_env]).

    The reference definition [intake_verdict] says, as a pure function of
    the same inputs, whether the request is accepted and with which log
    line and response; [pathHandler_spec] proves the handler equal to it.
    The theorems that follow are about the handler and are obtained from
    the verdict: which requests are accepted, what an accepted request
    leaves in the world, and that a rejected request leaves neither a row
    nor a goroutine behind. *)

From Stdlib Require Import ZArith.
From stdpp Require Import base tactics option list strings.
From S2P Require Import Prelude Types Codec JobStore.

#[local] Open Scope Z_scope.

(** ** Inputs *)

(** The request as the handler sees it: what [ioutil.ReadAll(r.Body)]
    returns. *)
Record Request : Type := { Body : result string }.

(** What the environment decides while the handler runs. *)
Record intake_env : Type := {
  uuid_NewV4 : string;            (* uuid.NewV4().String() *)
  insert_fault : option string;   (* the error of a database that fails *)
}.

(** The environment of the examples: a token and a database that works. *)
Definition example_token : string := "6d4f1c1e-0b5a-4d0e-9c58-1f2f0a7b9e11".
Definition example_env : intake_env :=
  {| uuid_NewV4 := example_token; insert_fault := None |}.

Section intake.
Context {T : Type} `{JobStore T} `{Json}.
Implicit Types (s : world T) (r : Request) (env : intake_env).

(** ** The handler *)

(** [db.Exec("INSERT INTO `travel_details`(path, token, status) VALUES
    (?, ?, ?)", path, token, status)]. *)
Definition db_Exec_insert (fault : option string) (path token : string) (status : Z)
  : prog (world T) (result unit) :=
  λ s, match fault with
       | Some e => (s, Next (Err e))
       | None =>
           match store_insert path token status (db s) with
           | Ok t' => (set_db t' s, Next (Ok tt))
           | Err e => (s, Next (Err e))
           end
       end.

(** The [for _, loc := range routePathArr] loop: a point that does not have
    two coordinates ends the handler, the others are joined with a comma and
    appended. *)
Fixpoint join_points (routePathArr : routePath) (routePathPointArr : routePathPoint)
  : prog (world T) routePathPoint :=
  match routePathArr with
  | [] => ret routePathPointArr
  | loc :: rest =>
      (reject_if (bool_decide (length loc ≠ 2%nat))
         (log_Printf "Incorrect latitude longitude";;
          http_Error (error_body "Incorrect latitude longitude") 200);;
       join_points rest (routePathPointArr ++ [String.concat "," loc]))%prog
  end.

Definition pathHandler r env : prog (world T) unit :=
  (routePathJson ← Body r or_else (λ err,
     log_Printf ("Error while reading r.Body: " +:+ err);;
     http_Error (error_body err) 200);
   routePathArr ← Unmarshal routePathJson or_else (λ err,
     log_Printf ("Decoding error: " +:+ err);;
     http_Error (error_body err) 200);
   reject_if (bool_decide (length routePathArr < 2)%nat)
     (log_Printf "Route start & dropoff required";;
      http_Error (error_body "Route start & dropoff required") 200);;
   reject_if (bool_decide (26 < length routePathArr)%nat)
     (log_Printf "Max dropoff location is 25 (the limit can increased as required)";;
      http_Error
        (error_body "Max dropoff location is 25 (the limit can increased as required)")
        200);;
   routePathPointArr ← join_points routePathArr [];
   let token := uuid_NewV4 env in
   let tokenObj := {| Token := token |} in
   tokenJson ← Marshal (responseToken_json tokenObj) or_else (λ err,
     log_Printf ("Token encoding error: " +:+ err);;
     http_Error (error_body err) 200);
   inserted ← db_Exec_insert (insert_fault env) routePathJson token 0;
   inserted or_else (λ err,
     log_Printf ("Error while inserting token row: " +:+ err);;
     http_Error (error_body err) 200);;
   go_processRoute token routePathPointArr;;
   w_Header_Set "Content-Type" "application/json";;
   w_Write tokenJson;;
   return_)%prog.

(** ** The reference definition *)

(** A point is well formed when it has two coordinates. *)
Definition well_formed_point (loc : list string) : Prop := length loc = 2%nat.

(** The waypoints as the provider takes them: [lat,lng]. *)
Definition points_of (p : routePath) : routePathPoint := String.concat "," <$> p.

(** The route the handler accepts: between 2 and 26 well-formed points. *)
Definition valid_route (p : routePath) : Prop :=
  (2 ≤ length p ≤ 26)%nat ∧ Forall well_formed_point p.

#[export] Instance valid_route_dec p : Decision (valid_route p).
Proof. unfold valid_route, well_formed_point. apply _. Defined.

Inductive verdict : Type :=
| Rejected (line body : string)
| Accepted (t' : T) (token tokenJson : string) (points : routePathPoint).

Definition rejected_with (msg : string) : verdict := Rejected msg (error_body msg).

Definition intake_verdict r env (t : T) : verdict :=
  match Body r with
  | Err e => Rejected ("Error while reading r.Body: " +:+ e) (error_body e)
  | Ok body =>
  match Unmarshal body with
  | Err e => Rejected ("Decoding error: " +:+ e) (error_body e)
  | Ok p =>
  if decide (length p < 2)%nat then rejected_with "Route start & dropoff required"
  else if decide (26 < length p)%nat then
    rejected_with "Max dropoff location is 25 (the limit can increased as required)"
  else if decide (Forall well_formed_point p) then
    match Marshal (responseToken_json {| Token := uuid_NewV4 env |}) with
    | Err e => Rejected ("Token encoding error: " +:+ e) (error_body e)
    | Ok tokenJson =>
    match insert_fault env with
    | Some e => Rejected ("Error while inserting token row: " +:+ e) (error_body e)
    | None =>
    match store_insert body (uuid_NewV4 env) 0 t with
    | Err e => Rejected ("Error while inserting token row: " +:+ e) (error_body e)
    | Ok t' => Accepted t' (uuid_NewV4 env) tokenJson (points_of p)
    end end end
  else rejected_with "Incorrect latitude longitude"
  end end.

(** The world after a verdict. *)
Definition apply_verdict (v : verdict) s : world T :=
  match v with
  | Rejected line body =>
      {| db := db s; logged := logged s ++ [line];
         writer := writer s ++ [WError body 200]; goroutines := goroutines s |}
  | Accepted t' token tokenJson points =>
      {| db := t'; logged := logged s;
         writer := writer s ++ [WHeaderSet "Content-Type" "application/json";
                                WWrite tokenJson];
         goroutines := goroutines s ++ [(token, points)] |}
  end.

Definition accepted (v : verdict) : bool :=
  match v with Accepted _ _ _ _ => true | Rejected _ _ => false end.

End intake.

(** ** The handler meets the reference definition *)

Section intake_spec.
Context {T : Type} `{JobStore T} `{Json}.
Implicit Types (s : world T) (r : Request) (env : intake_env) (p : routePath).

Lemma join_points_ok p acc s :
  Forall well_formed_point p → join_points p acc s = (s, Next (acc ++ points_of p)).
Proof.
  intros Hp. revert acc. induction Hp as [|loc p Hloc _ IH]; intros acc; simpl.
  - by rewrite app_nil_r.
  - unfold bind. rewrite bool_decide_eq_false_2 by (by intros []).
    simpl. by rewrite IH, <- app_assoc.
Qed.

Lemma join_points_bad p acc s :
  ¬ Forall well_formed_point p →
  join_points p acc s
  = (apply_verdict (rejected_with "Incorrect latitude longitude") s, Return).
Proof.
  revert acc. induction p as [|loc p IH]; intros acc Hp; simpl.
  - by destruct Hp.
  - unfold bind. destruct (decide (length loc = 2%nat)) as [Hloc|Hloc].
    + rewrite bool_decide_eq_false_2 by (by intros []). simpl.
      apply IH. intros Hp'. apply Hp. by constructor.
    + by rewrite bool_decide_eq_true_2.
Qed.

(** The run of the handler, computed: it ends with [return] in the world
    the verdict describes. *)
Lemma pathHandler_run r env s :
  pathHandler r env s = (apply_verdict (intake_verdict r env (db s)) s, Return).
Proof.
  unfold pathHandler, intake_verdict.
  destruct (Body r) as [body|e]; [|done]. unfold bind at 1. simpl.
  destruct (Unmarshal body) as [p|e]; [|done]. unfold bind at 1. simpl.
  destruct (decide (length p < 2)%nat).
  { unfold bind at 1. by rewrite bool_decide_eq_true_2. }
  unfold bind at 1. rewrite bool_decide_eq_false_2 by done. simpl.
  destruct (decide (26 < length p)%nat).
  { unfold bind at 1. by rewrite bool_decide_eq_true_2. }
  unfold bind at 1. rewrite bool_decide_eq_false_2 by done. simpl.
  destruct (decide (Forall well_formed_point p)); unfold bind at 1.
  2: { by rewrite join_points_bad. }
  rewrite join_points_ok by done. simpl.
  destruct (Marshal _) as [tokenJson|e]; [|done]. unfold bind at 1. simpl.
  unfold bind at 1, db_Exec_insert.
  destruct (insert_fault env) as [e|]; [done|].
  destruct (store_insert _ _ _ _) as [t'|e]; [|done].
  unfold bind; simpl. by rewrite <- app_assoc.
Qed.

End intake_spec.

(** ** What the handler does to the world *)

Section intake_facts.
Context {T : Type} {JS : JobStore T} {JSL : JobStoreLaws T} {J : Json}.
Implicit Types (s : world T) (r : Request) (env : intake_env) (p : routePath).

Lemma pathHandler_exec r env s :
  exec (pathHandler r env) s = apply_verdict (intake_verdict r env (db s)) s.
Proof. unfold exec. by rewrite pathHandler_run. Qed.

(** C23.  The handler is its reference definition: for every request, every
    environment and every world, [pathHandler] leaves the world the verdict
    [intake_verdict] describes, and it ends with [return]: it never panics
    and never falls through without a response. *)
Theorem pathHandler_spec r env s :
  exec (pathHandler r env) s = apply_verdict (intake_verdict r env (db s)) s
  ∧ outcome (pathHandler r env) s = Return.
Proof. unfold exec, outcome. by rewrite pathHandler_run. Qed.

(** The verdict on a request that passes every test. *)
Lemma intake_verdict_accept r env (t : T) body p tokenJson :
  Body r = Ok body → Unmarshal body = Ok p → valid_route p →
  Marshal (responseToken_json {| Token := uuid_NewV4 env |}) = Ok tokenJson →
  insert_fault env = None → store_select (uuid_NewV4 env) t = None →
  ∃ t', store_insert body (uuid_NewV4 env) 0 t = Ok t' ∧
        intake_verdict r env t = Accepted t' (uuid_NewV4 env) tokenJson (points_of p).
Proof.
  intros Hb Hu [[Hlo Hhi] Hwf] Hm Hf Hfree. unfold intake_verdict.
  apply (insert_ok body _ 0), is_ok_true in Hfree as [t' Ht'].
  exists t'. rewrite Hb, Hu, Hm, Hf, Ht'.
  repeat case_decide; (done || lia).
Qed.

(** What an accepting verdict says of the inputs. *)
Lemma intake_verdict_accepted r env (t t' : T) token tokenJson points :
  intake_verdict r env t = Accepted t' token tokenJson points →
  ∃ body p, Body r = Ok body ∧ Unmarshal body = Ok p ∧ valid_route p ∧
            token = uuid_NewV4 env ∧ points = points_of p ∧
            insert_fault env = None ∧ store_insert body token 0 t = Ok t' ∧
            Marshal (responseToken_json {| Token := token |}) = Ok tokenJson.
Proof.
  unfold intake_verdict, rejected_with, valid_route. intros Hv.
  repeat (case_match || case_decide); simplify_eq.
  eexists _, _. split_and!; try done; lia.
Qed.

(** C24.  A request whose body decodes to a route of 2 to 26 points of two
    coordinates each, submitted under a token that is not in the store while
    the database works, is accepted: the store gains a pending row for the
    token holding the body as submitted, exactly one goroutine is started
    for the token with the joined waypoints, the response is the token as
    JSON, and nothing is logged. *)
Theorem pathHandler_accepts r env s body p tokenJson :
  Body r = Ok body → Unmarshal body = Ok p → valid_route p →
  Marshal (responseToken_json {| Token := uuid_NewV4 env |}) = Ok tokenJson →
  insert_fault env = None → store_select (uuid_NewV4 env) (db s) = None →
  let s' := exec (pathHandler r env) s in
  (∃ row, store_select (uuid_NewV4 env) (db s') = Some row ∧
          c_path row = body ∧ c_status row = status_code Pending) ∧
  goroutines s' = goroutines s ++ [(uuid_NewV4 env, points_of p)] ∧
  writer s' = writer s ++ [WHeaderSet "Content-Type" "application/json";
                           WWrite tokenJson] ∧
  logged s' = logged s.
Proof.
  intros Hb Hu Hv Hm Hf Hfree s'. subst s'. rewrite pathHandler_exec.
  destruct (intake_verdict_accept r env (db s) body p tokenJson)
    as (t' & Hins & ->); try done.
  simpl. split_and!; try done. by apply select_insert in Hins.
Qed.

(** The two ways the handler can end: a rejection that changes neither the
    store nor the goroutines, or an acceptance that inserts the row and
    starts the goroutine of its token. *)
Lemma pathHandler_cases r env s :
  let s' := exec (pathHandler r env) s in
  (db s' = db s ∧ goroutines s' = goroutines s ∧
   ∃ line body, logged s' = logged s ++ [line] ∧
                writer s' = writer s ++ [WError body 200])
  ∨ (∃ body p, Body r = Ok body ∧ Unmarshal body = Ok p ∧ valid_route p ∧
       store_insert body (uuid_NewV4 env) 0 (db s) = Ok (db s') ∧
       goroutines s' = goroutines s ++ [(uuid_NewV4 env, points_of p)]).
Proof.
  intros s'. subst s'. rewrite pathHandler_exec.
  destruct (intake_verdict r env (db s)) as [line body|t' token tokenJson points] eqn:Hv.
  - left. simpl. split_and!; try done. by exists line, body.
  - right. apply intake_verdict_accepted in Hv
      as (body & p & ? & ? & ? & -> & -> & ? & ? & ?).
    exists body, p. by simpl.
Qed.

(** No orphans.  Whatever the request and the environment, the
    handler starts a goroutine exactly when it creates a row: either the
    store and the goroutines are both as before, or the token had no row,
    now has a pending one, and one goroutine was started for that token.
    There is never a row without its goroutine nor a goroutine without its
    row. *)
Theorem pathHandler_no_orphan r env s :
  let s' := exec (pathHandler r env) s in
  (db s' = db s ∧ goroutines s' = goroutines s)
  ∨ (store_select (uuid_NewV4 env) (db s) = None ∧
     (∃ row, store_select (uuid_NewV4 env) (db s') = Some row ∧
             c_status row = status_code Pending) ∧
     ∃ points, goroutines s' = goroutines s ++ [(uuid_NewV4 env, points)]).
Proof.
  intros s'. destruct (pathHandler_cases r env s)
    as [(? & ? & _)|(body & p & _ & _ & _ & Hins & Hgo)]; [by left|right].
  fold s' in Hins, Hgo. split_and!.
  - apply (insert_ok body _ 0). by rewrite Hins.
  - destruct (select_insert _ _ _ _ _ Hins) as (row & ? & _ & ?). eauto.
  - by eexists.
Qed.

(** C25.  The bounds of the route.  A body that decodes to fewer than 2 or
    more than 26 points is rejected before anything is stored or started,
    whatever the points are. *)
Theorem pathHandler_length_bounds r env s body p :
  Body r = Ok body → Unmarshal body = Ok p →
  (length p < 2 ∨ 26 < length p)%nat →
  let s' := exec (pathHandler r env) s in
  db s' = db s ∧ goroutines s' = goroutines s ∧
  writer s' = writer s ++ [WError (error_body
    (if decide (length p < 2)%nat then "Route start & dropoff required"
     else "Max dropoff location is 25 (the limit can increased as required)")) 200].
Proof.
  intros Hb Hu Hlen s'. subst s'. rewrite pathHandler_exec.
  unfold intake_verdict. rewrite Hb, Hu.
  repeat case_decide; try done; lia.
Qed.

(** A point that does not have exactly two coordinates rejects the
    whole request: nothing is stored, nothing is started. *)
Theorem pathHandler_malformed_point r env s body p loc :
  Body r = Ok body → Unmarshal body = Ok p →
  loc ∈ p → length loc ≠ 2%nat →
  let s' := exec (pathHandler r env) s in
  db s' = db s ∧ goroutines s' = goroutines s ∧
  ∃ body', last (writer s') = Some (WError body' 200).
Proof.
  intros Hb Hu Hin Hloc s'. subst s'.
  destruct (pathHandler_cases r env s) as [(? & ? & l & b & _ & Hw)|Hacc].
  - split_and!; try done. exists b. by rewrite Hw, last_snoc.
  - destruct Hacc as (body' & p' & Hb' & Hu' & [_ Hwf] & _).
    rewrite Hb in Hb'. injection Hb' as <-. rewrite Hu in Hu'. injection Hu' as <-.
    rewrite Forall_forall in Hwf. by destruct (Hloc (Hwf loc Hin)).
Qed.

(** The waypoints handed to the goroutine: one per point, each the
    latitude, a comma and the longitude. *)
Lemma points_of_length p : length (points_of p) = length p.
Proof. unfold points_of. by rewrite length_fmap. Qed.

Lemma points_of_lookup p i lat lng :
  p !! i = Some [lat; lng] → points_of p !! i = Some (lat +:+ "," +:+ lng).
Proof. unfold points_of. rewrite list_lookup_fmap. by intros ->. Qed.

End intake_facts.

(** ** The theorems at concrete requests

    The store is the table, the codec is [go_json], the world is empty. *)

Lemma pathHandler_accepts_witness :
  let s' := exec (pathHandler {| Body := Ok example_body |} example_env)
              (world_of ([] : table)) in
  (∃ row, store_select (uuid_NewV4 example_env) (db s') = Some row ∧
          c_path row = example_body ∧ c_status row = status_code Pending) ∧
  goroutines s' = [(uuid_NewV4 example_env, ["1,1"; "2,2"; "3,3"])] ∧
  writer s' = [WHeaderSet "Content-Type" "application/json";
               WWrite ("{" +:+ quoted "token" +:+ ":"
                           +:+ quoted (uuid_NewV4 example_env) +:+ "}")] ∧
  logged s' = [].
Proof.
  apply (pathHandler_accepts {| Body := Ok example_body |} example_env
           (world_of ([] : table)) example_body example_route).
  - reflexivity.
  - vm_compute. reflexivity.
  - decide_by_compute.
  - vm_compute. reflexivity.
  - reflexivity.
  - reflexivity.
Defined.

Lemma pathHandler_no_orphan_witness :
  let s := world_of (T := table) [new_row example_body example_token 1] in
  let s' := exec (pathHandler {| Body := Ok example_body |} example_env) s in
  (db s' = db s ∧ goroutines s' = goroutines s)
  ∨ (store_select (uuid_NewV4 example_env) (db s) = None ∧
     (∃ row, store_select (uuid_NewV4 example_env) (db s') = Some row ∧
             c_status row = status_code Pending) ∧
     ∃ points, goroutines s' = goroutines s ++ [(uuid_NewV4 example_env, points)]).
Proof.
  exact (pathHandler_no_orphan {| Body := Ok example_body |} example_env
           (world_of (T := table) [new_row example_body example_token 1])).
Defined.

Lemma pathHandler_length_bounds_witness :
  let s' := exec (pathHandler {| Body := Ok (json_route [["1"; "1"]]) |} example_env)
              (world_of ([] : table)) in
  db s' = [] ∧ goroutines s' = [] ∧
  writer s' = [WError (error_body "Route start & dropoff required") 200].
Proof.
  apply (pathHandler_length_bounds {| Body := Ok (json_route [["1"; "1"]]) |}
           example_env (world_of ([] : table)) (json_route [["1"; "1"]]) [["1"; "1"]]).
  - reflexivity.
  - vm_compute. reflexivity.
  - left. simpl. lia.
Defined.

Lemma pathHandler_malformed_point_witness :
  let s' := exec (pathHandler {| Body := Ok (json_route [["1"; "1"]; ["2"; "2"; "2"]]) |}
                    example_env) (world_of ([] : table)) in
  db s' = [] ∧ goroutines s' = [] ∧
  ∃ body', last (writer s') = Some (WError body' 200).
Proof.
  apply (pathHandler_malformed_point
           {| Body := Ok (json_route [["1"; "1"]; ["2"; "2"; "2"]]) |}
           example_env (world_of ([] : table))
           (json_route [["1"; "1"]; ["2"; "2"; "2"]])
           [["1"; "1"]; ["2"; "2"; "2"]] ["2"; "2"; "2"]).
  - reflexivity.
  - vm_compute. reflexivity.
  - apply list_elem_of_lookup. by exists 1%nat.
  - simpl. lia.
Defined.

(** A route of 26 points is accepted.  The second test on the length
    refuses a route of more than 26 points, not of more than 25: for 26
    well-formed points the row is inserted and the goroutine started with
    26 waypoints, that is 25 legs. *)
Example pathHandler_accepts_26_points :
  let body := json_route (replicate 26 ["0"; "0"]) in
  let s' := exec (pathHandler {| Body := Ok body |} example_env) (world_of ([] : table)) in
  db s' = [new_row body example_token 0]
  ∧ goroutines s' = [(example_token, replicate 26 "0,0")]
  ∧ logged s' = [].
Proof. vm_compute. done. Qed.
