(* ===== verification/Worker.v ===== *)
(** * Worker: [processRoute], the goroutine of a job

    [processRoute] is translated statement by statement: the prepared
    [UPDATE], the request to the distance matrix built from the two slices
    of the waypoints, the loop over the rows of the answer with its
    accumulators of type [int64], and the single [stmt.Exec] that writes
    the outcome.  The slice expressions and [row.Elements[i]] panic out of
    range as they do in Go.  The environment ([worker_env]) decides whether
    the database fails, whether the client of the provider can be built,
    and what the provider answers to a request.

    The error of [maps.NewClient] is discarded at line 155, so the client
    [c] is [nil] when it fails.  What [c.DistanceMatrix] does on a [nil]
    client is inside the library: the environment says whether the call
    panics ([nil_client_panic]), as a method that reads a field of its
    receiver does.

    The reference definitions are [tally_rows], the outcome of the loop as a
    pure function of the rows, and [worker_verdict], what the goroutine
    does to the row of its token.  The theorems state the aggregation (the
    totals are the sums over the diagonal of the matrix, exactly when they
    fit 64 bits and modulo 2^64 otherwise), the failure at the first leg
    that is not [OK], that at most one [UPDATE] is issued and only for the
    token of the job, and when the goroutine panics. *)

From Stdlib Require Import ZArith.
From stdpp Require Import base tactics option list strings.
From S2P Require Import Prelude Types Codec JobStore Intake.

#[local] Open Scope Z_scope.

(** ** Inputs *)

(** What the environment decides while the goroutine runs. *)
Record worker_env : Type := {
  prepare_fault : option string;    (* the error of db.Prepare *)
  NewClient_fault : option string;  (* the error of maps.NewClient: c is nil *)
  nil_client_panic : option string; (* the panic of a call on a nil client *)
  (** What [c.DistanceMatrix] returns when it returns. *)
  DistanceMatrix : DistanceMatrixRequest → result DistanceMatrixResponse;
  exec_fault : option string;       (* the error of stmt.Exec *)
}.

(** The panic of [c.DistanceMatrix], when the client could not be built and
    the call on [nil] panics. *)
Definition client_panic (env : worker_env) : option string :=
  match NewClient_fault env with
  | Some _ => nil_client_panic env
  | None => None
  end.

(** ** Slices and conversions *)

(** [a[:len(a)-1]]; out of range on an empty slice. *)
Definition slice_init (a : list string) : option (list string) :=
  match a with
  | [] => None
  | _ => Some (take (length a - 1) a)
  end.

(** [a[1:]]; out of range on an empty slice. *)
Definition slice_tail (a : list string) : option (list string) :=
  match a with
  | [] => None
  | _ :: rest => Some rest
  end.

(** [int64(e.Distance.Meters)]. *)
Definition leg_meters (e : DistanceMatrixElement) : Z := wrap64 (Meters e).

(** [int64(e.Duration / time.Second)]. *)
Definition leg_seconds (e : DistanceMatrixElement) : Z :=
  wrap64 (quot64 (Duration e) time_Second).

Section worker.
Context {T : Type} `{JobStore T}.
Implicit Types (s : world T) (env : worker_env) (token : string).

(** ** The goroutine *)

(** [stmt.Exec(status, total_distance, total_time, response_error, token)]
    on the prepared [UPDATE]. *)
Definition stmt_Exec (fault : option string) (status total_distance total_time : Z)
    (response_error token : string) : prog (world T) (result unit) :=
  λ s, match fault with
       | Some e => (s, Next (Err e))
       | None =>
           (set_db (store_update status total_distance total_time
                      response_error token (db s)) s, Next (Ok tt))
       end.

(** The statements shared by the two error paths: log, write the failure,
    log again if the write failed.  [shown] is what [%+v] prints of [err]. *)
Definition fail_job env token (response_error shown log_prefix : string)
  : prog (world T) unit :=
  (log_Printf ("Distance Matrix Error: " +:+ token +:+ ": " +:+ shown);;
   written ← stmt_Exec (exec_fault env) (-1) 0 0 response_error token;
   match written with
   | Err e => log_Printf (log_prefix +:+ token +:+ ": " +:+ e)
   | Ok _ => ret tt
   end)%prog.

(** The [for i, row := range dmresp.Rows] loop from index [i] on, with the
    accumulators [total_distance] and [total_time]. *)
Fixpoint sum_rows env token (rows : list DistanceMatrixElementsRow) (i : nat)
    (total_distance total_time : Z) : prog (world T) (Z * Z) :=
  match rows with
  | [] => ret (total_distance, total_time)
  | row :: rest =>
      match Elements row !! i with
      | None => panic "runtime error: index out of range"
      | Some e =>
          if decide (ElementStatus e = "OK") then
            sum_rows env token rest (S i)
              (add64 total_distance (leg_meters e))
              (add64 total_time (leg_seconds e))
          else
            (fail_job env token (ElementStatus e) "<nil>" "Error while updating row: ";;
             return_)%prog
      end
  end.

(** [c.DistanceMatrix(context.Background(), dmreq)] on the client built at
    line 155. *)
Definition c_DistanceMatrix env (dmreq : DistanceMatrixRequest)
  : prog (world T) (result DistanceMatrixResponse) :=
  match client_panic env with
  | Some msg => panic msg
  | None => ret (DistanceMatrix env dmreq)
  end.

Definition processRoute env token (routePathPointArr : routePathPoint)
  : prog (world T) unit :=
  (log_Printf ("In process: " +:+ token);;
   match prepare_fault env with
   | Some e => log_Printf ("Error while updating token row: " +:+ e);; return_
   | None => ret tt
   end;;
   origins ← match slice_init routePathPointArr with
             | Some o => ret o
             | None => panic "runtime error: slice bounds out of range"
             end;
   destinations ← match slice_tail routePathPointArr with
                  | Some d => ret d
                  | None => panic "runtime error: slice bounds out of range"
                  end;
   let dmreq := {| Origins := origins; Destinations := destinations;
                   Language := "en" |} in
   answer ← c_DistanceMatrix env dmreq;
   dmresp ← match answer with
            | Ok resp => ret resp
            | Err e =>
                fail_job env token e e "Error while updating token row: ";;
                return_
            end;
   totals ← sum_rows env token (Rows dmresp) 0 0 0;
   written ← stmt_Exec (exec_fault env) 1 totals.1 totals.2 EmptyString token;
   match written with
   | Err e => log_Printf ("Error while updating token row: " +:+ e)
   | Ok _ => ret tt
   end;;
   log_Printf ("Process completed: " +:+ token))%prog.

End worker.

(** ** The reference definitions *)

(** The element of row [i] the loop reads: the one at index [i]. *)
Definition diagonal (rows : list DistanceMatrixElementsRow) (i : nat)
  : list (option DistanceMatrixElement) :=
  imap (λ k row, Elements row !! (i + k)%nat) rows.

(** The outcome of the loop. *)
Inductive tally : Type :=
| Totals (total_distance total_time : Z)
| LegFailed (status : string)
| OutOfRange.

#[export] Instance tally_eq_dec : EqDecision tally.
Proof. solve_decision. Defined.

(** The loop as a fold over the elements it reads: sum while the legs are
    [OK], stop at the first that is not, or at the first that is missing. *)
Fixpoint tally_legs (legs : list (option DistanceMatrixElement)) (d t : Z) : tally :=
  match legs with
  | [] => Totals d t
  | None :: _ => OutOfRange
  | Some e :: rest =>
      if decide (ElementStatus e = "OK")
      then tally_legs rest (add64 d (leg_meters e)) (add64 t (leg_seconds e))
      else LegFailed (ElementStatus e)
  end.

Definition tally_rows (rows : list DistanceMatrixElementsRow) : tally :=
  tally_legs (diagonal rows 0) 0 0.

(** The request the goroutine sends for its waypoints. *)
Definition request_of (points : routePathPoint) : option DistanceMatrixRequest :=
  match slice_init points, slice_tail points with
  | Some o, Some d => Some {| Origins := o; Destinations := d; Language := "en" |}
  | _, _ => None
  end.

(** What the goroutine does to the row of its token. *)
Inductive worker_verdict : Type :=
| NoUpdate                       (* the statement could not be prepared *)
| Panicked (msg : string)        (* the goroutine panicked before any write *)
| Outcome (status total_distance total_time : Z) (response_error : string).

#[export] Instance worker_verdict_eq_dec : EqDecision worker_verdict.
Proof. solve_decision. Defined.

Definition worker_verdict_of (env : worker_env) (points : routePathPoint)
  : worker_verdict :=
  match prepare_fault env with
  | Some _ => NoUpdate
  | None =>
      match request_of points with
      | None => Panicked "runtime error: slice bounds out of range"
      | Some req =>
          match client_panic env with
          | Some msg => Panicked msg
          | None =>
              match DistanceMatrix env req with
              | Err e => Outcome (-1) 0 0 e
              | Ok resp =>
                  match tally_rows (Rows resp) with
                  | Totals d t => Outcome 1 d t EmptyString
                  | LegFailed status => Outcome (-1) 0 0 status
                  | OutOfRange => Panicked "runtime error: index out of range"
                  end
              end
          end
      end
  end.

(** The store after the verdict: the [UPDATE] goes through unless the
    database fails. *)
Definition apply_worker_verdict `{JobStore T} (v : worker_verdict)
    (fault : option string) (token : string) (t : T) : T :=
  match v, fault with
  | Outcome status d tm e, None => store_update status d tm e token t
  | _, _ => t
  end.

(** The provider's contract for a request: one row per origin, one element
    per destination in every row. *)
Definition well_shaped (req : DistanceMatrixRequest) (resp : DistanceMatrixResponse)
  : Prop :=
  length (Rows resp) = length (Origins req) ∧
  Forall (λ row, length (Elements row) = length (Destinations req)) (Rows resp).

#[export] Instance well_shaped_dec req resp : Decision (well_shaped req resp).
Proof. unfold well_shaped. apply _. Defined.

Section worker_reference.
Context {T : Type} {JS : JobStore T}.
Implicit Types (s : world T) (env : worker_env) (token : string).

(** The world after the statements of a failure path. *)
Definition failed_world env token (response_error shown log_prefix : string) s
  : world T :=
  {| db := apply_worker_verdict (Outcome (-1) 0 0 response_error) (exec_fault env)
             token (db s);
     logged := logged s ++ ["Distance Matrix Error: " +:+ token +:+ ": " +:+ shown]
               ++ match exec_fault env with
                  | Some e => [log_prefix +:+ token +:+ ": " +:+ e]
                  | None => []
                  end;
     writer := writer s; goroutines := goroutines s |}.

(** How the goroutine ends: it returns early on a failure, falls off the
    end of the function on success, or panics. *)
Definition worker_flow (v : worker_verdict) : flow unit :=
  match v with
  | NoUpdate => Return
  | Panicked msg => Panic msg
  | Outcome status _ _ _ => if decide (status = 1) then Next tt else Return
  end.

(** The world the goroutine leaves, log included. *)
Definition worker_world env token (points : routePathPoint) s : world T :=
  let s0 := add_log ["In process: " +:+ token] s in
  match prepare_fault env with
  | Some e => add_log ["Error while updating token row: " +:+ e] s0
  | None =>
      match request_of points with
      | None => s0
      | Some req =>
          match client_panic env, DistanceMatrix env req with
          | Some _, _ => s0
          | None, Err e =>
              failed_world env token e e "Error while updating token row: " s0
          | None, Ok resp =>
              match tally_rows (Rows resp) with
              | Totals d t =>
                  add_log
                    (match exec_fault env with
                     | Some e => ["Error while updating token row: " +:+ e]
                     | None => []
                     end ++ ["Process completed: " +:+ token])
                    (set_db (apply_worker_verdict (Outcome 1 d t EmptyString)
                               (exec_fault env) token (db s)) s0)
              | LegFailed status =>
                  failed_world env token status "<nil>" "Error while updating row: " s0
              | OutOfRange => s0
              end
          end
      end
  end.

End worker_reference.

(** The exact sums over a list of elements. *)
Definition sum_meters (es : list DistanceMatrixElement) : Z :=
  foldr (λ e acc, Meters e + acc) 0 es.
Definition sum_seconds (es : list DistanceMatrixElement) : Z :=
  foldr (λ e acc, Z.quot (Duration e) time_Second + acc) 0 es.

(** ** The data of the examples *)

Definition leg (status : string) (meters seconds : Z) : DistanceMatrixElement :=
  {| ElementStatus := status; Duration := seconds * time_Second; Meters := meters |}.

(** The waypoints of the example route and a full matrix for them: the
    diagonal holds the legs of 1000 m in 60 s and of 2000 m in 120 s. *)
Definition example_points : routePathPoint := ["1,1"; "2,2"; "3,3"].

Definition example_matrix : DistanceMatrixResponse :=
  {| Rows := [ {| Elements := [leg "OK" 1000 60; leg "OK" 2900 170] |};
               {| Elements := [leg "OK" 0 0; leg "OK" 2000 120] |} ] |}.

(** The same matrix with no route for the second leg. *)
Definition example_matrix_failed : DistanceMatrixResponse :=
  {| Rows := [ {| Elements := [leg "OK" 1000 60; leg "OK" 2900 170] |};
               {| Elements := [leg "OK" 0 0; leg "ZERO_RESULTS" 0 0] |} ] |}.

(** An answer with one element per leg instead of a matrix. *)
Definition example_pairwise : DistanceMatrixResponse :=
  {| Rows := [ {| Elements := [leg "OK" 1000 60] |};
               {| Elements := [leg "OK" 2000 120] |} ] |}.

Definition provider (answer : result DistanceMatrixResponse) : worker_env :=
  {| prepare_fault := None; NewClient_fault := None; nil_client_panic := None;
     DistanceMatrix := λ _, answer; exec_fault := None |}.

(** No key for the provider: the client cannot be built, and a call on it
    panics. *)
Definition no_key_env : worker_env :=
  {| prepare_fault := None;
     NewClient_fault := Some "maps: API Key or Maps for Work credentials missing";
     nil_client_panic :=
       Some "runtime error: invalid memory address or nil pointer dereference";
     DistanceMatrix := λ _, Ok example_matrix; exec_fault := None |}.

(** The table after the example route has been submitted. *)
Definition example_table : table := [new_row example_body example_token 0].

Definition example_request : DistanceMatrixRequest :=
  {| Origins := ["1,1"; "2,2"]; Destinations := ["2,2"; "3,3"]; Language := "en" |}.

(** ** The goroutine meets its reference definitions *)

Lemma diagonal_cons row rows i :
  diagonal (row :: rows) i = Elements row !! i :: diagonal rows (S i).
Proof.
  unfold diagonal. rewrite imap_cons, Nat.add_0_r. f_equal.
  apply imap_ext. intros k r _. simpl. f_equal. lia.
Qed.

Lemma diagonal_length rows i : length (diagonal rows i) = length rows.
Proof. unfold diagonal. by rewrite length_imap. Qed.

Lemma diagonal_lookup rows i k :
  diagonal rows i !! k = (λ row, Elements row !! (i + k)%nat) <$> rows !! k.
Proof. unfold diagonal. by rewrite list_lookup_imap. Qed.

Section worker_spec.
Context {T : Type} {JS : JobStore T}.
Implicit Types (s : world T) (env : worker_env) (token : string).

Lemma fail_job_run env token response_error shown log_prefix s :
  fail_job env token response_error shown log_prefix s
  = (failed_world env token response_error shown log_prefix s, Next tt).
Proof.
  unfold fail_job, failed_world, stmt_Exec. prog_unfold. simpl.
  destruct (exec_fault env); simpl; [|done].
  rewrite log_Printf_run. unfold add_log. simpl. by rewrite <- app_assoc.
Qed.

(** The loop is the fold [tally_legs] over the diagonal. *)
Lemma sum_rows_spec env token rows i d t s :
  sum_rows env token rows i d t s
  = match tally_legs (diagonal rows i) d t with
    | Totals d' t' => (s, Next (d', t'))
    | LegFailed status =>
        (failed_world env token status "<nil>" "Error while updating row: " s, Return)
    | OutOfRange => (s, Panic "runtime error: index out of range")
    end.
Proof.
  revert i d t. induction rows as [|row rows IH]; intros i d t; [done|].
  rewrite diagonal_cons. simpl. destruct (Elements row !! i) as [e|]; [|done].
  case_decide; [apply IH|]. unfold bind. by rewrite fail_job_run.
Qed.

Lemma request_of_Some points req :
  request_of points = Some req ↔
  ∃ o d, slice_init points = Some o ∧ slice_tail points = Some d ∧
         req = {| Origins := o; Destinations := d; Language := "en" |}.
Proof.
  unfold request_of. destruct (slice_init points), (slice_tail points);
    split; try (intros [= <-]; eauto); try (intros (? & ? & ? & ? & ?); by simplify_eq).
Qed.

Lemma request_of_None points : request_of points = None ↔ points = [].
Proof. by destruct points. Qed.

(** The run of the goroutine, computed. *)
Lemma processRoute_run env token points s :
  processRoute env token points s
  = (worker_world env token points s, worker_flow (worker_verdict_of env points)).
Proof.
  unfold processRoute, worker_world, worker_verdict_of, request_of.
  unfold bind at 1. rewrite log_Printf_run. fold (add_log ["In process: " +:+ token] s).
  destruct (prepare_fault env) as [e|]; [done|]. unfold bind at 1; simpl.
  destruct points as [|pt points]; [done|]. unfold bind at 1 2; simpl.
  unfold bind at 1, c_DistanceMatrix. destruct (client_panic env) as [msg|]; [done|].
  simpl. destruct (DistanceMatrix env _) as [resp|e]; unfold bind at 1; simpl.
  2: { unfold bind. by rewrite fail_job_run. }
  unfold bind at 1. rewrite sum_rows_spec. unfold tally_rows.
  destruct (tally_legs _ _ _) as [d t| |]; [|done..].
  unfold stmt_Exec, bind. simpl. destruct (exec_fault env); simpl; [|done].
  rewrite !log_Printf_run. unfold add_log. simpl. by rewrite <- !app_assoc.
Qed.

End worker_spec.

(** ** Aggregation *)

Lemma wrap64_add_r a b : wrap64 (a + wrap64 b) = wrap64 (a + b).
Proof. by rewrite Z.add_comm, wrap64_add_l, Z.add_comm. Qed.

Lemma add64_leg_meters d e : add64 d (leg_meters e) = wrap64 (d + Meters e).
Proof. apply wrap64_add_r. Qed.

Lemma add64_leg_seconds t e :
  add64 t (leg_seconds e) = wrap64 (t + Z.quot (Duration e) time_Second).
Proof. apply wrap64_add_r. Qed.

(** Over legs that are all [OK] the fold computes the sums modulo 2^64. *)
Lemma tally_legs_ok legs d t :
  Forall (λ e, ElementStatus e = "OK") legs →
  tally_legs (Some <$> legs) (wrap64 d) (wrap64 t)
  = Totals (wrap64 (d + sum_meters legs)) (wrap64 (t + sum_seconds legs)).
Proof.
  intros Hok. revert d t. induction Hok as [|e legs He _ IH]; intros d t; simpl.
  - by rewrite !Z.add_0_r.
  - rewrite decide_True by done.
    rewrite add64_leg_meters, add64_leg_seconds, !wrap64_add_l, IH.
    f_equal; f_equal; lia.
Qed.

(** The fold stops at the first leg that is not [OK], whatever follows. *)
Lemma tally_legs_failed oks e rest d t :
  Forall (λ e, ElementStatus e = "OK") oks → ElementStatus e ≠ "OK" →
  tally_legs ((Some <$> oks) ++ Some e :: rest) d t = LegFailed (ElementStatus e).
Proof.
  intros Hok He. revert d t. induction Hok as [|e' oks He' _ IH]; intros d t; simpl.
  - by rewrite decide_False.
  - rewrite decide_True by done. apply IH.
Qed.

(** The fold stops at the first missing element when the legs before it
    are [OK]. *)
Lemma tally_legs_out_of_range oks rest d t :
  Forall (λ e, ElementStatus e = "OK") oks →
  tally_legs ((Some <$> oks) ++ None :: rest) d t = OutOfRange.
Proof.
  intros Hok. revert d t. induction Hok as [|e' oks He' _ IH]; intros d t; simpl.
  - done.
  - rewrite decide_True by done. apply IH.
Qed.

(** The totals of the fold always fit 64 bits. *)
Lemma tally_legs_range legs d t d' t' :
  in_int64 d → in_int64 t → tally_legs legs d t = Totals d' t' →
  in_int64 d' ∧ in_int64 t'.
Proof.
  revert d t. induction legs as [|[e|] legs IH]; intros d t Hd Ht; simpl.
  - by intros [= <- <-].
  - case_decide; [|done]. apply IH; apply add64_range.
  - done.
Qed.

Section worker_facts.
Context {T : Type} {JS : JobStore T}.
Implicit Types (s : world T) (env : worker_env) (token : string).

Lemma processRoute_exec env token points s :
  exec (processRoute env token points) s = worker_world env token points s.
Proof. unfold exec. by rewrite processRoute_run. Qed.

Lemma processRoute_outcome env token points s :
  outcome (processRoute env token points) s = worker_flow (worker_verdict_of env points).
Proof. unfold outcome. by rewrite processRoute_run. Qed.

(** The store the goroutine leaves is the one its verdict describes. *)
Lemma worker_world_db env token points s :
  db (worker_world env token points s)
  = apply_worker_verdict (worker_verdict_of env points) (exec_fault env) token (db s).
Proof.
  unfold worker_world, worker_verdict_of.
  repeat (case_match; simpl; try done).
Qed.

(** C12.  The goroutine is its reference definition: for every environment,
    token, list of waypoints and world, [processRoute] leaves the world
    [worker_world] describes, log included, its store is the one the
    verdict [worker_verdict_of] yields, and it ends the way [worker_flow]
    says: by falling off its end, by [return], or by a panic. *)
Theorem processRoute_spec env token points s :
  exec (processRoute env token points) s = worker_world env token points s
  ∧ db (exec (processRoute env token points) s)
    = apply_worker_verdict (worker_verdict_of env points) (exec_fault env) token (db s)
  ∧ outcome (processRoute env token points) s
    = worker_flow (worker_verdict_of env points).
Proof.
  rewrite processRoute_exec, processRoute_outcome. split_and!; [done| |done].
  apply worker_world_db.
Qed.

(** The verdict when every leg read is [OK]: a success with the sums. *)
Lemma worker_verdict_totals env points req resp legs :
  prepare_fault env = None → client_panic env = None →
  request_of points = Some req → DistanceMatrix env req = Ok resp →
  diagonal (Rows resp) 0 = Some <$> legs →
  Forall (λ e, ElementStatus e = "OK") legs →
  worker_verdict_of env points
  = Outcome 1 (wrap64 (sum_meters legs)) (wrap64 (sum_seconds legs)) EmptyString.
Proof.
  intros Hp Hcl Hreq Hdm Hdiag Hok. unfold worker_verdict_of, tally_rows.
  rewrite Hp, Hreq, Hcl, Hdm, Hdiag.
  change 0 with (wrap64 0) at 1 2. by rewrite tally_legs_ok.
Qed.

(** The store after a run in which every leg read is [OK]. *)
Lemma worker_world_totals env token points s req resp legs :
  prepare_fault env = None → client_panic env = None → exec_fault env = None →
  request_of points = Some req → DistanceMatrix env req = Ok resp →
  diagonal (Rows resp) 0 = Some <$> legs →
  Forall (λ e, ElementStatus e = "OK") legs →
  db (worker_world env token points s)
  = store_update 1 (wrap64 (sum_meters legs)) (wrap64 (sum_seconds legs))
      EmptyString token (db s).
Proof.
  intros Hp Hcl He Hreq Hdm Hdiag Hok.
  rewrite worker_world_db, (worker_verdict_totals env points req resp legs) by done.
  simpl. by rewrite He.
Qed.

(** Aggregation.  When the database works and the provider answers a
    matrix whose diagonal elements are all [OK], the goroutine marks the
    job as a success with the sum of the distances of the legs in meters and
    the sum of their durations in whole seconds, both computed on 64 bits
    (modulo 2^64), and an empty error. *)
Theorem processRoute_success env token points s req resp legs :
  prepare_fault env = None → client_panic env = None → exec_fault env = None →
  request_of points = Some req → DistanceMatrix env req = Ok resp →
  diagonal (Rows resp) 0 = Some <$> legs →
  Forall (λ e, ElementStatus e = "OK") legs →
  db (exec (processRoute env token points) s)
  = store_update 1 (wrap64 (sum_meters legs)) (wrap64 (sum_seconds legs))
      EmptyString token (db s).
Proof.
  intros Hp Hcl He Hreq Hdm Hdiag Hok.
  rewrite processRoute_exec. by eapply worker_world_totals.
Qed.

(** C13.  When the sums of the legs fit 64 bits the totals written are the
    exact sums: the accumulation does not overflow. *)
Theorem processRoute_exact_totals env token points s req resp legs :
  prepare_fault env = None → client_panic env = None → exec_fault env = None →
  request_of points = Some req → DistanceMatrix env req = Ok resp →
  diagonal (Rows resp) 0 = Some <$> legs →
  Forall (λ e, ElementStatus e = "OK") legs →
  in_int64 (sum_meters legs) → in_int64 (sum_seconds legs) →
  db (exec (processRoute env token points) s)
  = store_update 1 (sum_meters legs) (sum_seconds legs) EmptyString token (db s).
Proof.
  intros Hp Hcl He Hreq Hdm Hdiag Hok Hm Hs.
  rewrite processRoute_exec.
  rewrite (worker_world_totals env token points s req resp legs) by done.
  by rewrite !wrap64_id.
Qed.

(** C14.  The first leg that is not [OK] fails the job: the row is written
    with status -1, totals 0 and the status of that leg as the error,
    whatever the legs after it are, and the goroutine returns. *)
Theorem processRoute_leg_failed env token points s req resp oks e rest :
  prepare_fault env = None → client_panic env = None → exec_fault env = None →
  request_of points = Some req → DistanceMatrix env req = Ok resp →
  diagonal (Rows resp) 0 = (Some <$> oks) ++ Some e :: rest →
  Forall (λ e, ElementStatus e = "OK") oks → ElementStatus e ≠ "OK" →
  db (exec (processRoute env token points) s)
  = store_update (-1) 0 0 (ElementStatus e) token (db s)
  ∧ outcome (processRoute env token points) s = Return.
Proof.
  intros Hp Hcl He Hreq Hdm Hdiag Hok Hne.
  rewrite processRoute_exec, processRoute_outcome, worker_world_db.
  unfold worker_verdict_of, tally_rows.
  rewrite Hp, Hreq, Hcl, Hdm, Hdiag, tally_legs_failed by done. simpl. by rewrite He.
Qed.

(** An error of the provider fails the job with the text of the
    error. *)
Theorem processRoute_provider_error env token points s req e :
  prepare_fault env = None → client_panic env = None → exec_fault env = None →
  request_of points = Some req → DistanceMatrix env req = Err e →
  db (exec (processRoute env token points) s)
  = store_update (-1) 0 0 e token (db s)
  ∧ outcome (processRoute env token points) s = Return.
Proof.
  intros Hp Hcl He Hreq Hdm.
  rewrite processRoute_exec, processRoute_outcome, worker_world_db.
  unfold worker_verdict_of. rewrite Hp, Hreq, Hcl, Hdm. simpl. by rewrite He.
Qed.

(** The store after the goroutine: as before, or after one [UPDATE] of the
    rows of its token. *)
Lemma processRoute_update_cases env token points s :
  let t' := db (exec (processRoute env token points) s) in
  t' = db s ∨
  ∃ status d t e, t' = store_update status d t e token (db s) ∧
    in_int64 d ∧ in_int64 t ∧
    ((status = 1 ∧ e = EmptyString) ∨ (status = -1 ∧ d = 0 ∧ t = 0)).
Proof.
  intros t'. subst t'. rewrite processRoute_exec, worker_world_db.
  unfold worker_verdict_of, tally_rows.
  destruct (prepare_fault env); [by left|].
  destruct (request_of points) as [req|]; [|by left].
  destruct (client_panic env); [by left|].
  destruct (DistanceMatrix env _) as [resp|e]; simpl.
  - destruct (tally_legs _ _ _) as [d t|st|] eqn:Ht; simpl;
      destruct (exec_fault env); try (by left); right.
    + apply tally_legs_range in Ht as [? ?]; [|done..].
      exists 1, d, t, EmptyString. split_and!; try done. by left.
    + exists (-1), 0, 0, st. split_and!; try done. by right.
  - destruct (exec_fault env); [by left|]. right.
    exists (-1), 0, 0, e. split_and!; try done. by right.
Qed.

(** The goroutine touches neither the response writer nor the goroutines. *)
Lemma processRoute_frame env token points s :
  writer (exec (processRoute env token points) s) = writer s
  ∧ goroutines (exec (processRoute env token points) s) = goroutines s.
Proof.
  rewrite processRoute_exec. unfold worker_world.
  repeat (case_match; simpl; try done).
Qed.

(** At most one write, and a well-formed one.  Whatever the
    environment, the goroutine leaves the store as it found it or applies
    exactly one [UPDATE] to the rows of its own token: a success with empty
    error, or a failure with totals 0; the totals fit 64 bits.  It never
    touches the response writer nor starts a goroutine. *)
Theorem processRoute_one_update env token points s :
  let s' := exec (processRoute env token points) s in
  (db s' = db s ∨
   ∃ status d t e, db s' = store_update status d t e token (db s) ∧
     in_int64 d ∧ in_int64 t ∧
     ((status = 1 ∧ e = EmptyString) ∨ (status = -1 ∧ d = 0 ∧ t = 0)))
  ∧ writer s' = writer s ∧ goroutines s' = goroutines s.
Proof.
  intros s'. split.
  - apply processRoute_update_cases.
  - apply processRoute_frame.
Qed.

(** C35.  A job can be lost.  When the statement cannot be prepared or the
    write fails, the goroutine ends without having changed the store: the
    row of the job keeps the status it had. *)
Theorem processRoute_lost_update env token points s :
  is_Some (prepare_fault env) ∨ is_Some (exec_fault env) →
  db (exec (processRoute env token points) s) = db s.
Proof.
  intros Hf. rewrite processRoute_exec, worker_world_db.
  unfold worker_verdict_of, apply_worker_verdict.
  destruct Hf as [[e He]|[e He]]; rewrite He; [done|].
  repeat case_match; done.
Qed.

End worker_facts.

(** ** The request and the shape of the answer *)

Lemma request_of_lengths points req :
  request_of points = Some req →
  length (Origins req) = (length points - 1)%nat ∧
  length (Destinations req) = (length points - 1)%nat.
Proof.
  destruct points as [|pt points]; [done|]. intros [= <-]. simpl.
  rewrite length_take, Nat.sub_0_r. simpl. lia.
Qed.

(** The legs of the request.  For [n] waypoints the goroutine asks
    for [n-1] origins and [n-1] destinations, and the [i]-th origin and the
    [i]-th destination are the waypoints [i] and [i+1]: the diagonal element
    [(i, i)] of the matrix is the leg between consecutive waypoints. *)
Theorem request_of_legs points req :
  request_of points = Some req →
  length (Origins req) = (length points - 1)%nat ∧
  length (Destinations req) = (length points - 1)%nat ∧
  ∀ i, (S i < length points)%nat →
       Origins req !! i = points !! i ∧ Destinations req !! i = points !! S i.
Proof.
  intros Hreq. destruct (request_of_lengths points req Hreq) as [Ho Hd].
  split_and!; [done..|]. destruct points as [|pt points]; [done|].
  injection Hreq as <-. simpl. intros i Hi. split; [|done].
  rewrite lookup_take_lt; [done|lia].
Qed.

Lemma tally_legs_all_present legs d t :
  Forall is_Some legs → tally_legs legs d t ≠ OutOfRange.
Proof.
  intros Hall. revert d t. induction Hall as [|[e|] legs He _ IH]; intros d t; simpl.
  - done.
  - case_decide; [apply IH|done].
  - by destruct He.
Qed.

(** Under the provider's contract every element the loop reads exists. *)
Lemma well_shaped_diagonal points req resp :
  request_of points = Some req → well_shaped req resp →
  Forall is_Some (diagonal (Rows resp) 0).
Proof.
  intros [Ho Hd]%request_of_lengths [Hrows Hels].
  apply Forall_lookup. intros k o Hk. rewrite diagonal_lookup in Hk.
  destruct (Rows resp !! k) as [row|] eqn:Hrow; [|done]. simpl in Hk.
  injection Hk as <-. apply lookup_lt_is_Some.
  rewrite Forall_lookup in Hels. rewrite (Hels k row Hrow), Hd, <- Ho, <- Hrows.
  by apply lookup_lt_Some in Hrow.
Qed.

Section worker_shape.
Context {T : Type} {JS : JobStore T}.
Implicit Types (s : world T) (env : worker_env) (token : string).

(** Under the contract the verdict is never a panic. *)
Lemma worker_verdict_safe env points req :
  request_of points = Some req → client_panic env = None →
  (∀ resp, DistanceMatrix env req = Ok resp → well_shaped req resp) →
  panics (worker_flow (worker_verdict_of env points)) = false.
Proof.
  intros Hreq Hcl Hshape. unfold worker_verdict_of.
  destruct (prepare_fault env); [done|]. rewrite Hreq, Hcl.
  destruct (DistanceMatrix env req) as [resp|e] eqn:Hdm; simpl; [|done].
  pose proof (tally_legs_all_present _ 0 0
                (well_shaped_diagonal points req resp Hreq (Hshape resp eq_refl))).
  unfold tally_rows. by destruct (tally_legs _ _ _).
Qed.

(** No panic under the contract.  If the waypoints are not empty, the
    call on the client does not panic and the provider answers with one
    row per origin and one element per destination, or fails, the
    goroutine does not panic. *)
Theorem processRoute_safe env token points s req :
  request_of points = Some req → client_panic env = None →
  (∀ resp, DistanceMatrix env req = Ok resp → well_shaped req resp) →
  panics (outcome (processRoute env token points) s) = false.
Proof.
  intros Hreq Hcl Hshape. rewrite processRoute_outcome.
  by eapply worker_verdict_safe.
Qed.

(** The verdict when the client could not be built and the call on it
    panics. *)
Lemma worker_verdict_nil_client env points e msg :
  prepare_fault env = None → points ≠ [] →
  NewClient_fault env = Some e → nil_client_panic env = Some msg →
  worker_verdict_of env points = Panicked msg.
Proof.
  intros Hp Hne Hnew Hnil. unfold worker_verdict_of, client_panic.
  destruct (request_of points) as [req|] eqn:Hreq;
    [|by apply request_of_None in Hreq].
  by rewrite Hp, Hnew, Hnil.
Qed.

(** A client that could not be built.  The error of [maps.NewClient] is
    discarded: when it fails, for want of a key for instance, the client
    is [nil], and if the call on it panics the goroutine panics before
    anything is written.  The job stays as it was. *)
Theorem processRoute_nil_client_panics env token points s e msg :
  prepare_fault env = None → points ≠ [] →
  NewClient_fault env = Some e → nil_client_panic env = Some msg →
  outcome (processRoute env token points) s = Panic msg
  ∧ db (exec (processRoute env token points) s) = db s
  ∧ logged (exec (processRoute env token points) s)
    = logged s ++ ["In process: " +:+ token].
Proof.
  intros Hp Hne Hnew Hnil.
  rewrite processRoute_outcome, processRoute_exec, worker_world_db.
  rewrite (worker_verdict_nil_client env points e msg) by done.
  split_and!; [done..|]. unfold worker_world, client_panic.
  destruct (request_of points) as [req|] eqn:Hreq; by rewrite Hp, ?Hnew, ?Hnil.
Qed.

(** C34.  An answer with one element per leg crashes the process.  If the
    provider answers two or more rows holding one element each, as a list
    of per-leg results would, the loop reads [Elements[1]] of the second
    row, the goroutine panics with an index out of range and nothing is
    written: the job stays as it was. *)
Theorem processRoute_pairwise_answer_panics env token points s req resp e0 row1 rows :
  prepare_fault env = None → client_panic env = None →
  request_of points = Some req → DistanceMatrix env req = Ok resp →
  Rows resp = {| Elements := [e0] |} :: row1 :: rows →
  ElementStatus e0 = "OK" → length (Elements row1) = 1%nat →
  outcome (processRoute env token points) s = Panic "runtime error: index out of range"
  ∧ db (exec (processRoute env token points) s) = db s.
Proof.
  intros Hp Hcl Hreq Hdm Hrows He0 Hrow1.
  rewrite processRoute_outcome, processRoute_exec, worker_world_db.
  unfold worker_verdict_of, tally_rows. rewrite Hp, Hreq, Hcl, Hdm, Hrows.
  rewrite !diagonal_cons. simpl. rewrite decide_True by done.
  rewrite (lookup_ge_None_2 (Elements row1) 1) by lia. done.
Qed.

(** Without waypoints the slice expression panics before anything is
    asked or written. *)
Theorem processRoute_no_points_panics env token s :
  prepare_fault env = None →
  outcome (processRoute env token []) s = Panic "runtime error: slice bounds out of range"
  ∧ db (exec (processRoute env token []) s) = db s.
Proof.
  intros Hp. rewrite processRoute_outcome, processRoute_exec, worker_world_db.
  unfold worker_verdict_of. by rewrite Hp.
Qed.

End worker_shape.

(** ** The goroutine and the rows of the store *)

Section worker_laws.
Context {T : Type} {JS : JobStore T} {JSL : JobStoreLaws T}.
Implicit Types (s : world T) (env : worker_env) (token : string).

(** Isolation.  The goroutine of a token never changes what the store
    holds for another token, whatever the environment does. *)
Theorem processRoute_isolation env token points s token' :
  token' ≠ token →
  store_select token' (db (exec (processRoute env token points) s))
  = store_select token' (db s).
Proof.
  intros Hne.
  destruct (processRoute_update_cases env token points s)
    as [->|(st & d & t & e & -> & _)]; [done|].
  by apply select_update_ne.
Qed.

(** The row of the token after a verdict whose write goes through. *)
Lemma worker_world_select env token points s row st d t e :
  worker_verdict_of env points = Outcome st d t e → exec_fault env = None →
  store_select token (db s) = Some row →
  store_select token (db (exec (processRoute env token points) s))
  = Some (set_outcome st d t e row).
Proof.
  intros Hv He Hrow. rewrite processRoute_exec, worker_world_db, Hv. simpl.
  by rewrite He, select_update, Hrow.
Qed.

Lemma worker_verdict_status env points st d t e :
  worker_verdict_of env points = Outcome st d t e → st = 1 ∨ st = -1.
Proof.
  unfold worker_verdict_of. intros Hv. repeat case_match; simplify_eq; auto.
Qed.

(** The terminal transition.  When the goroutine reaches a verdict
    and the write goes through, the row of the token takes the status, the
    totals and the error of the verdict and keeps its path. *)
Theorem processRoute_writes_outcome env token points s row st d t e :
  worker_verdict_of env points = Outcome st d t e → exec_fault env = None →
  store_select token (db s) = Some row →
  store_select token (db (exec (processRoute env token points) s))
  = Some (set_outcome st d t e row)
  ∧ (st = 1 ∨ st = -1).
Proof.
  intros Hv He Hrow. split.
  - by apply worker_world_select.
  - by eapply worker_verdict_status.
Qed.

End worker_laws.

(** ** The theorems at the example of the specification *)

Lemma processRoute_success_witness :
  db (exec (processRoute (provider (Ok example_matrix)) example_token example_points)
        (world_of example_table))
  = store_update 1 (wrap64 (sum_meters [leg "OK" 1000 60; leg "OK" 2000 120]))
      (wrap64 (sum_seconds [leg "OK" 1000 60; leg "OK" 2000 120]))
      EmptyString example_token example_table.
Proof.
  apply (processRoute_success (provider (Ok example_matrix)) example_token
           example_points (world_of example_table) example_request example_matrix
           [leg "OK" 1000 60; leg "OK" 2000 120]); try reflexivity.
  repeat constructor.
Defined.

Lemma processRoute_exact_totals_witness :
  db (exec (processRoute (provider (Ok example_matrix)) example_token example_points)
        (world_of example_table))
  = store_update 1 (sum_meters [leg "OK" 1000 60; leg "OK" 2000 120])
      (sum_seconds [leg "OK" 1000 60; leg "OK" 2000 120])
      EmptyString example_token example_table.
Proof.
  apply (processRoute_exact_totals (provider (Ok example_matrix)) example_token
           example_points (world_of example_table) example_request example_matrix
           [leg "OK" 1000 60; leg "OK" 2000 120]); try reflexivity.
  - repeat constructor.
  - decide_by_compute.
  - decide_by_compute.
Defined.

(** The example of the specification: 1000 m + 2000 m and 60 s + 120 s. *)
Example example_totals :
  db (exec (processRoute (provider (Ok example_matrix)) example_token example_points)
        (world_of example_table))
  = [set_outcome 1 3000 180 EmptyString (new_row example_body example_token 0)].
Proof. vm_compute. reflexivity. Qed.

Lemma processRoute_leg_failed_witness :
  db (exec (processRoute (provider (Ok example_matrix_failed)) example_token
              example_points) (world_of example_table))
  = store_update (-1) 0 0 "ZERO_RESULTS" example_token example_table
  ∧ outcome (processRoute (provider (Ok example_matrix_failed)) example_token
               example_points) (world_of example_table) = Return.
Proof.
  apply (processRoute_leg_failed (provider (Ok example_matrix_failed)) example_token
           example_points (world_of example_table) example_request
           example_matrix_failed [leg "OK" 1000 60] (leg "ZERO_RESULTS" 0 0) []);
    try reflexivity.
  - repeat constructor.
  - discriminate.
Defined.

Lemma processRoute_provider_error_witness :
  db (exec (processRoute (provider (Err "maps: OVER_QUERY_LIMIT")) example_token
              example_points) (world_of example_table))
  = store_update (-1) 0 0 "maps: OVER_QUERY_LIMIT" example_token example_table
  ∧ outcome (processRoute (provider (Err "maps: OVER_QUERY_LIMIT")) example_token
               example_points) (world_of example_table) = Return.
Proof.
  apply (processRoute_provider_error (provider (Err "maps: OVER_QUERY_LIMIT"))
           example_token example_points (world_of example_table) example_request);
    reflexivity.
Defined.

Lemma processRoute_lost_update_witness :
  db (exec (processRoute
              {| prepare_fault := Some "sql: database is closed";
                 NewClient_fault := None; nil_client_panic := None;
                 DistanceMatrix := λ _, Ok example_matrix; exec_fault := None |}
              example_token example_points) (world_of example_table))
  = example_table.
Proof.
  apply (processRoute_lost_update
           {| prepare_fault := Some "sql: database is closed";
              NewClient_fault := None; nil_client_panic := None;
              DistanceMatrix := λ _, Ok example_matrix; exec_fault := None |}
           example_token example_points (world_of example_table)).
  left. by eexists.
Defined.

Lemma request_of_legs_witness :
  length (Origins example_request) = (length example_points - 1)%nat ∧
  length (Destinations example_request) = (length example_points - 1)%nat ∧
  ∀ i, (S i < length example_points)%nat →
       Origins example_request !! i = example_points !! i ∧
       Destinations example_request !! i = example_points !! S i.
Proof. apply (request_of_legs example_points example_request). reflexivity. Defined.

Lemma processRoute_safe_witness :
  panics (outcome (processRoute (provider (Ok example_matrix)) example_token
                     example_points) (world_of example_table)) = false.
Proof.
  apply (processRoute_safe (provider (Ok example_matrix)) example_token example_points
           (world_of example_table) example_request); [reflexivity..|].
  intros resp [= <-]. decide_by_compute.
Defined.

Lemma processRoute_nil_client_panics_witness :
  outcome (processRoute no_key_env example_token example_points) (world_of example_table)
  = Panic "runtime error: invalid memory address or nil pointer dereference"
  ∧ db (exec (processRoute no_key_env example_token example_points)
          (world_of example_table)) = example_table
  ∧ logged (exec (processRoute no_key_env example_token example_points)
              (world_of example_table))
    = [] ++ ["In process: " +:+ example_token].
Proof.
  apply (processRoute_nil_client_panics no_key_env example_token example_points
           (world_of example_table)
           "maps: API Key or Maps for Work credentials missing");
    [reflexivity|discriminate|reflexivity..].
Defined.

Lemma processRoute_pairwise_answer_panics_witness :
  outcome (processRoute (provider (Ok example_pairwise)) example_token example_points)
    (world_of example_table) = Panic "runtime error: index out of range"
  ∧ db (exec (processRoute (provider (Ok example_pairwise)) example_token
                example_points) (world_of example_table)) = example_table.
Proof.
  apply (processRoute_pairwise_answer_panics (provider (Ok example_pairwise))
           example_token example_points (world_of example_table) example_request
           example_pairwise (leg "OK" 1000 60) {| Elements := [leg "OK" 2000 120] |} []);
    reflexivity.
Defined.

Lemma processRoute_no_points_panics_witness :
  outcome (processRoute (provider (Ok example_matrix)) example_token [])
    (world_of example_table) = Panic "runtime error: slice bounds out of range"
  ∧ db (exec (processRoute (provider (Ok example_matrix)) example_token [])
          (world_of example_table)) = example_table.
Proof.
  apply (processRoute_no_points_panics (provider (Ok example_matrix)) example_token
           (world_of example_table)). reflexivity.
Defined.

Lemma processRoute_isolation_witness :
  store_select "another-token"
    (db (exec (processRoute (provider (Ok example_matrix)) example_token example_points)
           (world_of (example_table ++ [new_row example_body "another-token" 0]))))
  = store_select "another-token"
      (example_table ++ [new_row example_body "another-token" 0]).
Proof.
  apply (processRoute_isolation (provider (Ok example_matrix)) example_token
           example_points
           (world_of (example_table ++ [new_row example_body "another-token" 0]))
           "another-token").
  discriminate.
Defined.

Lemma processRoute_writes_outcome_witness :
  store_select example_token
    (db (exec (processRoute (provider (Ok example_matrix)) example_token example_points)
           (world_of example_table)))
  = Some (set_outcome 1 3000 180 EmptyString (new_row example_body example_token 0))
  ∧ (1 = 1 ∨ 1 = -1).
Proof.
  apply (processRoute_writes_outcome (provider (Ok example_matrix)) example_token
           example_points (world_of example_table)
           (new_row example_body example_token 0) 1 3000 180 EmptyString).
  - vm_compute. reflexivity.
  - reflexivity.
  - reflexivity.
Defined.
