(* ===== verification/Reporter.v ===== *)
(** * Reporter: [routeHandler], the handler of [GET /route/:token]

    [routeHandler] is translated statement by statement.  Its local
    variable [routeResult] is assigned up to three times before it is
    encoded; each assignment is a rebinding here, in the order of the
    source.  [QueryRow(...).Scan(...)] leaves the five destination
    variables at their zero values when no row is found or the database
    fails ([QueryRow_Scan]).

    The reference definition [report_of] gives the [shortestRoute] that is
    encoded, as a function of what the [SELECT] returns;
    [routeHandler_spec] proves the handler equal to it.  The theorems state
    the rendering of each status, that the handler only reads the store,
    and what it answers for a token that has no row. *)

From Stdlib Require Import ZArith.
From stdpp Require Import base tactics option list strings.
From S2P Require Import Prelude Types Codec JobStore Intake.

#[local] Open Scope Z_scope.

(** ** Inputs *)

(** What the environment decides while the handler runs. *)
Record report_env : Type := {
  select_fault : option string;   (* the error of a database that fails *)
}.

(** The destinations of [Scan]: [routePathJson], [status], [total_distance],
    [total_time], [response_error]. *)
Record scanned : Type := {
  routePathJson : string;
  status : Z;
  total_distance : Z;
  total_time : Z;
  response_error : string;
}.

(** The variables as declared, before [Scan] assigns them. *)
Definition scanned_zero : scanned :=
  {| routePathJson := EmptyString; status := 0; total_distance := 0;
     total_time := 0; response_error := EmptyString |}.

Definition scanned_of (row : Row) : scanned :=
  {| routePathJson := c_path row; status := c_status row;
     total_distance := c_total_distance row; total_time := c_total_time row;
     response_error := c_response_error row |}.

(** The values of [routeResult]. *)
Definition invalid_token : shortestRoute :=
  {| Status := "failure"; Path := []; TotalDistance := 0; TotalTime := 0;
     Error := "Invalid Token" |}.

Definition in_progress : shortestRoute :=
  {| Status := "in progress"; Path := []; TotalDistance := 0; TotalTime := 0;
     Error := EmptyString |}.

Definition failure (msg : string) : shortestRoute :=
  {| Status := "failure"; Path := []; TotalDistance := 0; TotalTime := 0;
     Error := msg |}.

Definition success (p : routePath) (d t : Z) : shortestRoute :=
  {| Status := "success"; Path := p; TotalDistance := d; TotalTime := t;
     Error := EmptyString |}.

Section reporter.
Context {T : Type} `{JobStore T} `{Json}.
Implicit Types (s : world T) (env : report_env) (token : string).

(** ** The handler *)

(** [db.QueryRow("SELECT path, status, total_distance, total_time,
    response_error FROM `travel_details` WHERE token=?", token).Scan(...)]:
    the variables after the call and the error. *)
Definition QueryRow_Scan (fault : option string) token
  : prog (world T) (scanned * option string) :=
  λ s, match fault with
       | Some e => (s, Next (scanned_zero, Some e))
       | None =>
           match store_select token (db s) with
           | Some row => (s, Next (scanned_of row, None))
           | None => (s, Next (scanned_zero, Some "sql: no rows in result set"))
           end
       end.

(** [if token == "" { ... }]: the first assignment of [routeResult]. *)
Definition check_token token (routeResult : shortestRoute)
  : prog (world T) shortestRoute :=
  (if decide (token = EmptyString)
   then log_Printf "Token empty";; ret invalid_token
   else ret routeResult)%prog.

(** [if err != nil { ... }] after [Scan]: the second assignment. *)
Definition check_scan (err : option string) (routeResult : shortestRoute)
  : prog (world T) shortestRoute :=
  match err with
  | Some e => (log_Printf ("No row found: " +:+ e);; ret invalid_token)%prog
  | None => ret routeResult
  end.

(** The [if status == 0 ... else if status == -1 ... else if status == 1]
    chain: the third assignment. *)
Definition switch_status (vars : scanned) (routeResult : shortestRoute)
  : prog (world T) shortestRoute :=
  if decide (status vars = 0) then ret in_progress
  else if decide (status vars = -1) then ret (failure (response_error vars))
  else if decide (status vars = 1) then
    match Unmarshal (routePathJson vars) with
    | Err e => (log_Printf ("Decoding error: " +:+ e);; ret (failure e))%prog
    | Ok routePathArr =>
        ret (success routePathArr (total_distance vars) (total_time vars))
    end
  else ret routeResult.

Definition routeHandler token env : prog (world T) unit :=
  (let routeResult := shortestRoute_zero in
   routeResult ← check_token token routeResult;
   log_Printf ("token received: " +:+ token);;
   vars ← QueryRow_Scan (select_fault env) token;
   routeResult ← check_scan vars.2 routeResult;
   routeResult ← switch_status vars.1 routeResult;
   routeJson ← Marshal (shortestRoute_json routeResult) or_else (λ err,
     log_Printf ("Error: " +:+ token +:+ ": " +:+ err);;
     http_Error (failure_body err) 200);
   w_Header_Set "Content-Type" "application/json";;
   w_Write routeJson;;
   return_)%prog.

(** ** The reference definition *)

(** What the handler reads: the variables after [Scan] and its error. *)
Definition scan_of (fault : option string) (found : option Row)
  : scanned * option string :=
  match fault, found with
  | Some e, _ => (scanned_zero, Some e)
  | None, Some row => (scanned_of row, None)
  | None, None => (scanned_zero, Some "sql: no rows in result set")
  end.

(** The value of [routeResult] after the three assignments. *)
Definition report_of token (vars : scanned) (err : option string) : shortestRoute :=
  if decide (status vars = 0) then in_progress
  else if decide (status vars = -1) then failure (response_error vars)
  else if decide (status vars = 1) then
    match Unmarshal (routePathJson vars) with
    | Err e => failure e
    | Ok p => success p (total_distance vars) (total_time vars)
    end
  else if err is Some _ then invalid_token
  else if decide (token = EmptyString) then invalid_token
  else shortestRoute_zero.

(** The lines logged before the result is encoded. *)
Definition report_log token (vars : scanned) (err : option string) : list string :=
  (if decide (token = EmptyString) then ["Token empty"] else [])
  ++ ["token received: " +:+ token]
  ++ match err with Some e => ["No row found: " +:+ e] | None => [] end
  ++ (if decide (status vars = 1) then
        match Unmarshal (routePathJson vars) with
        | Err e => ["Decoding error: " +:+ e]
        | Ok _ => []
        end
      else []).

(** The world after the handler. *)
Definition report_world token env s : world T :=
  let scan := scan_of (select_fault env) (store_select token (db s)) in
  let result := report_of token scan.1 scan.2 in
  match Marshal (shortestRoute_json result) with
  | Ok routeJson =>
      {| db := db s; logged := logged s ++ report_log token scan.1 scan.2;
         writer := writer s ++ [WHeaderSet "Content-Type" "application/json";
                                WWrite routeJson];
         goroutines := goroutines s |}
  | Err e =>
      {| db := db s;
         logged := logged s ++ report_log token scan.1 scan.2
                   ++ ["Error: " +:+ token +:+ ": " +:+ e];
         writer := writer s ++ [WError (failure_body e) 200];
         goroutines := goroutines s |}
  end.

(** The status of a job as the specification renders it. *)
Definition rendered (row : Row) : option shortestRoute :=
  match status_of_code (c_status row) with
  | Some Pending => Some in_progress
  | Some Failure => Some (failure (c_response_error row))
  | Some Success =>
      match Unmarshal (c_path row) with
      | Ok p => Some (success p (c_total_distance row) (c_total_time row))
      | Err e => Some (failure e)
      end
  | None => None
  end.

End reporter.

(** What a poll says of a job of the route [p]: that it is in progress,
    that it failed, or that it succeeded on this route. *)
Definition says (p : routePath) (result : shortestRoute) : Prop :=
  result = in_progress ∨ (∃ e, result = failure e) ∨ ∃ d t, result = success p d t.

(** The keys of a JSON object. *)
Definition json_keys (j : json) : list string :=
  match j with
  | JObject fields => fields.*1
  | _ => []
  end.

(** ** The data of the examples *)

Definition no_fault : report_env := {| select_fault := None |}.

(** The table of the example job, pending. *)
Definition example_pending : table := [new_row example_body example_token 0].

(** The same job after its goroutine has written a success or a failure. *)
Definition example_done : table :=
  [set_outcome 1 3000 180 EmptyString (new_row example_body example_token 0)].

Definition example_failed : table :=
  [set_outcome (-1) 0 0 "ZERO_RESULTS" (new_row example_body example_token 0)].

(** The bodies of the responses. *)
Definition in_progress_body : string :=
  "{" +:+ quoted "status" +:+ ":" +:+ quoted "in progress" +:+ "}".

Definition success_body : string :=
  "{" +:+ quoted "status" +:+ ":" +:+ quoted "success" +:+ ","
  +:+ quoted "path" +:+ ":" +:+ example_body +:+ ","
  +:+ quoted "total_distance" +:+ ":3000," +:+ quoted "total_time" +:+ ":180}".

Definition failure_response (msg : string) : string :=
  "{" +:+ quoted "status" +:+ ":" +:+ quoted "failure" +:+ ","
  +:+ quoted "error" +:+ ":" +:+ quoted msg +:+ "}".

Definition json_response (body : string) : list writer_call :=
  [WHeaderSet "Content-Type" "application/json"; WWrite body].

(** ** The handler meets the reference definition *)

Section reporter_spec.
Context {T : Type} {JS : JobStore T} {J : Json}.
Implicit Types (s : world T) (env : report_env) (token : string).

Lemma QueryRow_Scan_run fault token s :
  QueryRow_Scan fault token s = (s, Next (scan_of fault (store_select token (db s)))).
Proof.
  unfold QueryRow_Scan, scan_of. destruct fault; [done|].
  by destruct (store_select token (db s)).
Qed.

Lemma check_token_run token r s :
  check_token token r s
  = (add_log (if decide (token = EmptyString) then ["Token empty"] else []) s,
     Next (if decide (token = EmptyString) then invalid_token else r)).
Proof. unfold check_token. case_decide; [done|]. by rewrite add_log_nil. Qed.

Lemma check_scan_run err r s :
  check_scan err r s
  = (add_log (match err with Some e => ["No row found: " +:+ e] | None => [] end) s,
     Next (if err is Some _ then invalid_token else r)).
Proof. destruct err; [done|]. simpl. by rewrite add_log_nil. Qed.

Lemma switch_status_run token vars err r s :
  r = (if err is Some _ then invalid_token
       else if decide (token = EmptyString) then invalid_token
       else shortestRoute_zero) →
  switch_status vars r s
  = (add_log (if decide (status vars = 1) then
                match Unmarshal (routePathJson vars) with
                | Err e => ["Decoding error: " +:+ e]
                | Ok _ => []
                end
              else []) s,
     Next (report_of token vars err)).
Proof.
  intros ->. unfold switch_status, report_of.
  repeat case_decide; try lia; rewrite ?add_log_nil; try done.
  destruct (Unmarshal _); [|done]. by rewrite add_log_nil.
Qed.

(** The run of the handler, computed. *)
Lemma routeHandler_run token env s :
  routeHandler token env s = (report_world token env s, Return).
Proof.
  unfold routeHandler, report_world, report_log.
  unfold bind at 1. rewrite check_token_run.
  unfold bind at 1. rewrite log_Printf_run, add_log_app.
  unfold bind at 1. rewrite QueryRow_Scan_run. simpl.
  destruct (scan_of _ _) as [vars err]. simpl.
  unfold bind at 1. rewrite check_scan_run, add_log_app.
  unfold bind at 1. rewrite (switch_status_run token vars err), add_log_app.
  2: { by destruct err. }
  rewrite <- !app_assoc. destruct (Marshal _) as [routeJson|e]; simpl.
  - unfold bind. simpl. by rewrite <- app_assoc.
  - unfold bind. simpl. by rewrite <- !app_assoc.
Qed.

End reporter_spec.

(** ** What the handler answers *)

Section reporter_facts.
Context {T : Type} {JS : JobStore T} {J : Json}.
Implicit Types (s : world T) (env : report_env) (token : string) (row : Row).

Lemma routeHandler_exec token env s :
  exec (routeHandler token env) s = report_world token env s.
Proof. unfold exec. by rewrite routeHandler_run. Qed.

(** C26.  The handler is its reference definition: for every token,
    environment and world, [routeHandler] leaves the world [report_world]
    describes (the result [report_of] encoded, the log lines of
    [report_log]) and ends with [return]. *)
Theorem routeHandler_spec token env s :
  exec (routeHandler token env) s = report_world token env s
  ∧ outcome (routeHandler token env) s = Return.
Proof. unfold exec, outcome. by rewrite routeHandler_run. Qed.

(** The handler changes neither the store nor the goroutines. *)
Lemma routeHandler_frame token env s :
  db (exec (routeHandler token env) s) = db s
  ∧ goroutines (exec (routeHandler token env) s) = goroutines s.
Proof. rewrite routeHandler_exec. unfold report_world. by destruct (Marshal _). Qed.

(** The response depends on the table through the row of the token
    alone. *)
Lemma routeHandler_writer_select token env (d d' : T) :
  store_select token d = store_select token d' →
  writer (exec (routeHandler token env) (world_of d))
  = writer (exec (routeHandler token env) (world_of d')).
Proof.
  intros Heq. rewrite !routeHandler_exec. unfold report_world. simpl. rewrite Heq.
  by destruct (Marshal _).
Qed.

(** The result encoded for a row that was found. *)
Lemma report_of_rendered token row result :
  rendered row = Some result → report_of token (scanned_of row) None = result.
Proof.
  unfold rendered, report_of, status_of_code, scanned_of. simpl.
  destruct (decide (c_status row = 0)) as [Hc|]; [by intros [= <-]|].
  destruct (decide (c_status row = 1)) as [Hc|]; simpl.
  { rewrite Hc. simpl. destruct (Unmarshal _); by intros [= <-]. }
  destruct (decide (c_status row = -1)) as [Hc|]; [by intros [= <-]|done].
Qed.

(** The response for a row that was found. *)
Lemma report_world_renders token env s row result routeJson :
  select_fault env = None → store_select token (db s) = Some row →
  rendered row = Some result →
  Marshal (shortestRoute_json result) = Ok routeJson →
  writer (report_world token env s)
  = writer s ++ [WHeaderSet "Content-Type" "application/json"; WWrite routeJson].
Proof.
  intros Hf Hrow Hr Hm. unfold report_world.
  rewrite Hf, Hrow. simpl. by rewrite (report_of_rendered token row result), Hm.
Qed.

(** The document of a row whose body decodes is that of its job. *)
Lemma rendered_says row p result :
  Unmarshal (c_path row) = Ok p → rendered row = Some result → says p result.
Proof.
  unfold rendered, says. intros ->.
  destruct (status_of_code (c_status row)) as [[]|]; intros [= <-]; eauto.
Qed.

(** C27.  Rendering.  For a token whose row is found, the response is the
    encoding of the job as the specification renders it: [in progress] for
    status 0, [failure] with the stored error for status -1, and for status
    1 [success] with the decoded path and the totals, or [failure] with the
    text of the decoding error when the stored path does not decode. *)
Theorem routeHandler_renders token env s row result routeJson :
  select_fault env = None → store_select token (db s) = Some row →
  rendered row = Some result →
  Marshal (shortestRoute_json result) = Ok routeJson →
  writer (exec (routeHandler token env) s)
  = writer s ++ [WHeaderSet "Content-Type" "application/json"; WWrite routeJson].
Proof.
  intros Hf Hrow Hr Hm. rewrite routeHandler_exec.
  by eapply report_world_renders.
Qed.

(** C28.  A token without a row is answered [in progress].  The handler
    assigns the failure [Invalid Token] when [Scan] fails, but [status] is
    still 0 then and the next statement overwrites the result: an unknown
    token, the empty token included, and a database that cannot be read all
    yield the response of a pending job. *)
Theorem routeHandler_unknown_token token env s routeJson :
  is_Some (select_fault env) ∨ store_select token (db s) = None →
  Marshal (shortestRoute_json in_progress) = Ok routeJson →
  writer (exec (routeHandler token env) s)
  = writer s ++ [WHeaderSet "Content-Type" "application/json"; WWrite routeJson].
Proof.
  intros Hnone Hm. rewrite routeHandler_exec. unfold report_world.
  assert (scan_of (select_fault env) (store_select token (db s)) = (scanned_zero,
            (scan_of (select_fault env) (store_select token (db s))).2)) as ->.
  { unfold scan_of. destruct Hnone as [[e ->]| ->]; [done|].
    by destruct (select_fault env). }
  simpl. unfold report_of. simpl. by rewrite Hm.
Qed.

(** The handler only reads.  Whatever the token and the environment,
    the store and the goroutines are as before, the handler ends with
    [return], and exactly one response is sent: the encoded result, or the
    failure body with status 200 when the encoder fails. *)
Theorem routeHandler_read_only token env s :
  let s' := exec (routeHandler token env) s in
  db s' = db s ∧ goroutines s' = goroutines s ∧
  outcome (routeHandler token env) s = Return ∧
  ((∃ routeJson, writer s' = writer s ++ [WHeaderSet "Content-Type" "application/json";
                                          WWrite routeJson])
   ∨ ∃ e, writer s' = writer s ++ [WError (failure_body e) 200]).
Proof.
  intros s'. subst s'. unfold outcome. rewrite routeHandler_exec, routeHandler_run.
  unfold report_world. destruct (Marshal _) as [routeJson|e]; simpl; eauto 10.
Qed.

End reporter_facts.

(** ** The fields of the response *)

(** C40.  The fields of a success.  The encoded object of a success holds
    [status] and [path], and holds [total_distance] and [total_time] only
    when they are not 0: a route whose legs sum to 0 is reported without
    its totals. *)
Theorem success_json_keys p d t :
  p ≠ [] →
  json_keys (shortestRoute_json (success p d t))
  = ["status"; "path"]
    ++ (if decide (d = 0) then [] else ["total_distance"])
    ++ (if decide (t = 0) then [] else ["total_time"]).
Proof.
  intros Hp. unfold shortestRoute_json, success, omitempty, string_is_zero. simpl.
  rewrite bool_decide_eq_false_2 by (by destruct p).
  repeat case_bool_decide; repeat case_decide; done.
Qed.

Lemma in_progress_json :
  shortestRoute_json in_progress = JObject [("status", JString "in progress")].
Proof. done. Qed.

Lemma failure_json_keys msg :
  json_keys (shortestRoute_json (failure msg))
  = "status" :: (if decide (msg = EmptyString) then [] else ["error"]).
Proof.
  unfold shortestRoute_json, failure, omitempty, string_is_zero. simpl.
  case_bool_decide; case_decide; done.
Qed.

(** ** The handler on the example job *)

Lemma routeHandler_renders_witness :
  writer (exec (routeHandler example_token no_fault) (world_of example_done))
  = json_response success_body.
Proof.
  apply (routeHandler_renders example_token no_fault (world_of example_done)
           (set_outcome 1 3000 180 EmptyString (new_row example_body example_token 0))
           (success example_route 3000 180) success_body); reflexivity.
Defined.

Lemma routeHandler_unknown_token_witness :
  writer (exec (routeHandler "no-such-token" no_fault) (world_of example_done))
  = json_response in_progress_body.
Proof.
  apply (routeHandler_unknown_token "no-such-token" no_fault (world_of example_done)
           in_progress_body); [right|]; reflexivity.
Defined.

Lemma success_json_keys_witness :
  json_keys (shortestRoute_json (success example_route 0 180))
  = ["status"; "path"; "total_time"].
Proof. apply (success_json_keys example_route 0 180). discriminate. Defined.

Example poll_pending :
  writer (exec (routeHandler example_token no_fault) (world_of example_pending))
  = json_response in_progress_body.
Proof. vm_compute. reflexivity. Qed.

Example poll_failed :
  writer (exec (routeHandler example_token no_fault) (world_of example_failed))
  = json_response (failure_response "ZERO_RESULTS").
Proof. vm_compute. reflexivity. Qed.

(** The empty token and a database that cannot be read are answered as a
    pending job; the log says what happened. *)
Example poll_empty_token :
  let s' := exec (routeHandler EmptyString no_fault) (world_of example_done) in
  writer s' = json_response in_progress_body
  ∧ logged s' = ["Token empty"; "token received: ";
                 "No row found: sql: no rows in result set"].
Proof. vm_compute. split; reflexivity. Qed.

Example poll_database_down :
  writer (exec (routeHandler example_token {| select_fault := Some "bad connection" |})
            (world_of example_done))
  = json_response in_progress_body.
Proof. vm_compute. split; reflexivity. Qed.
