(* ===== verification/CodecLaws.v ===== *)
(** * CodecLaws: the decoder reads back what the encoder prints

    [Codec] gives the decoder and the encoder the examples run on.  This
    file proves the law that relates them: for every route whose
    coordinates are ASCII strings, the decoder applied to the encoding of
    the route returns the route ([unmarshal_encode]), whatever characters
    the strings hold: quotes, backslashes and control characters come back
    from their escapes.

    The proof follows the two stages of the decoder.  The scanner is run
    on a part of the input with [lex_run], which composes over
    concatenation ([lex_run_app]); the tokens of an encoded route are
    [route_tokens]; the parser reads them back.

    With the law the handlers become theorems about the program on actual
    bodies: the encoding of a valid route is accepted by [pathHandler],
    and the row created for it, once a success, is reported with that
    route ([route_roundtrip]). *)

From Stdlib Require Import ZArith NArith Ascii.
From stdpp Require Import base tactics option list strings.
From S2P Require Import Prelude Types Codec JobStore Intake Worker Reporter.

#[local] Open Scope Z_scope.

(** ** Definitions *)

(** A string of ASCII characters. *)
Fixpoint is_ascii (s : string) : bool :=
  match s with
  | EmptyString => true
  | String c s' => bool_decide (N_of_ascii c < 128)%N && is_ascii s'
  end.

Definition ascii_route (p : routePath) : Prop :=
  Forall (Forall (λ s, is_ascii s = true)) p.

#[export] Instance ascii_route_dec p : Decision (ascii_route p).
Proof. unfold ascii_route. apply _. Defined.

(** The tokens of items separated by commas. *)
Fixpoint more (tss : list (list token)) : list token :=
  match tss with
  | [] => []
  | ts :: rest => TComma :: ts ++ more rest
  end.

Definition separated (tss : list (list token)) : list token :=
  match tss with
  | [] => []
  | ts :: rest => ts ++ more rest
  end.

Definition bracketed (tss : list (list token)) : list token :=
  TOpen :: separated tss ++ [TClose].

(** The tokens of an encoded point and of an encoded route. *)
Definition point_tokens (loc : list string) : list token :=
  bracketed ((λ s, [TStr s]) <$> loc).

Definition route_tokens (p : routePath) : list token :=
  bracketed (point_tokens <$> p).

(** A route with a quote, a backslash, a newline and an ampersand in its
    coordinates. *)
Definition awkward_route : routePath :=
  [[String c_dq "1"; String c_backslash "2"];
   [String (ascii_of_nat 10) "3"; "4&5"]].

(** ** The scanner *)

Lemma append_cons c s1 s2 : String c s1 +:+ s2 = String c (s1 +:+ s2).
Proof. reflexivity. Qed.

Lemma append_snoc acc c s : snoc acc c +:+ s = acc +:+ String c s.
Proof.
  unfold snoc. induction acc as [|a acc IH]; [done|].
  by rewrite !append_cons, IH.
Qed.

Lemma append_empty_r s : s +:+ EmptyString = s.
Proof. induction s as [|a s IH]; [done|]. by rewrite append_cons, IH. Qed.

(** The scanner on a concatenation. *)
Lemma lex_run_app s1 s2 st :
  lex_run (s1 +:+ s2) st
  = '(st', out) ← lex_run s1 st; '(st'', out') ← lex_run s2 st'; Some (st'', out ++ out').
Proof.
  revert st. induction s1 as [|c s1 IH]; intros st.
  { change (EmptyString +:+ s2) with s2. simpl. by destruct (lex_run s2 st) as [[??]|]. }
  rewrite append_cons. simpl. destruct (lex_step st c) as [[st' out]|]; [|done]. rewrite IH.
  destruct (lex_run s1 st') as [[st1 out1]|]; [|done]. simpl.
  destruct (lex_run s2 st1) as [[st2 out2]|]; [|done]. simpl.
  by rewrite app_assoc.
Qed.

(** The scanner on the whole input is a run that ends between tokens. *)
Lemma lex_lex_run s st ts : lex_run s st = Some (LOut, ts) → lex s st = Some ts.
Proof.
  revert st ts. induction s as [|c s IH]; intros st ts; simpl.
  { by intros [= -> <-]. }
  destruct (lex_step st c) as [[st' out]|]; [|done].
  destruct (lex_run s st') as [[st'' out']|] eqn:Hrun; [|done].
  intros [= -> <-]. by rewrite (IH _ _ Hrun).
Qed.

(** Two runs one after the other. *)
Lemma lex_run_seq s1 s2 st st' st'' out out' :
  lex_run s1 st = Some (st', out) → lex_run s2 st' = Some (st'', out') →
  lex_run (s1 +:+ s2) st = Some (st'', out ++ out').
Proof. intros H1 H2. by rewrite lex_run_app, H1; simpl; rewrite H2. Qed.

(** An escaped ASCII character is read back as the character. *)
Lemma lex_run_escape_char c acc :
  (N_of_ascii c < 128)%N →
  lex_run (escape_char c) (LStr acc) = Some (LStr (snoc acc c), []).
Proof.
  destruct c as [[] [] [] [] [] [] [] []]; intros Hc;
    first [by vm_compute in Hc | vm_compute; reflexivity].
Qed.

Lemma lex_run_escape s acc :
  is_ascii s = true →
  lex_run (escape s) (LStr acc) = Some (LStr (acc +:+ s), []).
Proof.
  revert acc. induction s as [|c s IH]; intros acc; simpl.
  { by rewrite append_empty_r. }
  intros [Hc%bool_decide_eq_true Hs]%andb_true_iff.
  rewrite (lex_run_seq _ _ _ _ _ [] [] (lex_run_escape_char c acc Hc) (IH _ Hs)).
  by rewrite append_snoc.
Qed.

(** A string literal. *)
Lemma lex_run_quoted s :
  is_ascii s = true → lex_run (quoted (escape s)) LOut = Some (LOut, [TStr s]).
Proof.
  intros Hs. unfold quoted.
  apply (lex_run_seq _ _ _ (LStr EmptyString) _ [] [TStr s]); [done|].
  by apply (lex_run_seq _ _ _ (LStr s) _ [] [TStr s]); [apply (lex_run_escape s EmptyString)|].
Qed.

(** Items separated by commas, each of which is scanned from and to the
    state between tokens. *)
Lemma lex_run_more items tss :
  Forall2 (λ s ts, lex_run s LOut = Some (LOut, ts)) items tss →
  lex_run (String.concat "," items) LOut = Some (LOut, separated tss).
Proof.
  induction 1 as [|s ts items tss Hs Hrest IH]; [done|].
  destruct Hrest as [|s' ts' items tss Hs' Hrest]; simpl in *.
  { by rewrite app_nil_r. }
  apply (lex_run_seq _ _ _ LOut); [done|].
  by apply (lex_run_seq "," _ _ LOut _ [TComma]).
Qed.

Lemma lex_run_bracketed items tss :
  Forall2 (λ s ts, lex_run s LOut = Some (LOut, ts)) items tss →
  lex_run ("[" +:+ String.concat "," items +:+ "]") LOut
  = Some (LOut, bracketed tss).
Proof.
  intros Hitems. apply (lex_run_seq "[" _ _ LOut _ [TOpen]); [done|].
  by apply (lex_run_seq _ "]" _ LOut _ _ [TClose]); [apply lex_run_more|].
Qed.

Lemma lex_run_point loc :
  Forall (λ s, is_ascii s = true) loc →
  lex_run (encode (JArray (JString <$> loc))) LOut = Some (LOut, point_tokens loc).
Proof.
  intros Hloc. simpl. apply lex_run_bracketed.
  rewrite <- list_fmap_compose. apply Forall2_fmap, Forall_Forall2_diag.
  eapply Forall_impl; [done|]. intros s Hs. by apply lex_run_quoted.
Qed.

Lemma lex_run_route p :
  ascii_route p → lex_run (encode (path_json p)) LOut = Some (LOut, route_tokens p).
Proof.
  intros Hp. unfold path_json. simpl. apply lex_run_bracketed.
  rewrite <- list_fmap_compose. apply Forall2_fmap, Forall_Forall2_diag.
  eapply Forall_impl; [done|]. intros loc Hloc. by apply lex_run_point.
Qed.

(** ** The parser *)

(** The coordinates of a point after the first. *)
Lemma parse_more_strings loc acc cur rest :
  parse (more ((λ s, [TStr s]) <$> loc) ++ TClose :: rest) (PInnerNext acc cur)
  = parse rest (POuterNext (acc ++ [cur ++ loc])).
Proof.
  revert cur. induction loc as [|s loc IH]; intros cur; simpl.
  { by rewrite app_nil_r. }
  by rewrite IH, <- app_assoc.
Qed.

(** A point, after its bracket. *)
Lemma parse_point loc acc rest :
  parse (separated ((λ s, [TStr s]) <$> loc) ++ TClose :: rest) (PInnerOpen acc)
  = parse rest (POuterNext (acc ++ [loc])).
Proof. destruct loc as [|s loc]; simpl; [done|apply parse_more_strings]. Qed.

(** The points of a route after the first. *)
Lemma parse_more_points p acc :
  parse (more (point_tokens <$> p) ++ [TClose]) (POuterNext acc) = Some (acc ++ p).
Proof.
  revert acc. induction p as [|loc p IH]; intros acc; simpl.
  { by rewrite app_nil_r. }
  rewrite <- !app_assoc. simpl. by rewrite parse_point, IH, <- app_assoc.
Qed.

Lemma parse_route p : parse (route_tokens p) PStart = Some p.
Proof.
  destruct p as [|loc p]; [done|]. unfold route_tokens, bracketed. simpl.
  rewrite <- !app_assoc. simpl. rewrite parse_point. apply parse_more_points.
Qed.

(** ** The law *)

Lemma unmarshal_encode p : ascii_route p → go_Unmarshal (encode (path_json p)) = Ok p.
Proof.
  intros Hp. unfold go_Unmarshal.
  by rewrite (lex_lex_run _ _ _ (lex_run_route p Hp)), parse_route.
Qed.

(** C32.  The decoder reads back what the encoder prints.  For every route
    whose coordinates are ASCII strings, whatever characters they hold,
    decoding the encoding of the route returns the route.  So the
    encoding of a valid route is a body that [pathHandler] accepts: it
    stores the body and starts the goroutine of the token with the
    waypoints of the route; and once that row is a success, what is
    reported for it is a success with the route, element for element. *)
Theorem route_roundtrip {T : Type} `{JobStoreLaws T} p token (t : T) d tm :
  ascii_route p → valid_route p → store_select token t = None →
  let body := encode (path_json p) in
  let s := exec (pathHandler {| Body := Ok body |}
                   {| uuid_NewV4 := token; insert_fault := None |}) (world_of t) in
  Unmarshal body = Ok p
  ∧ store_select token (db s) = Some (new_row body token 0)
  ∧ goroutines s = [(token, points_of p)]
  ∧ rendered (set_outcome 1 d tm EmptyString (new_row body token 0))
    = Some (success p d tm).
Proof.
  intros Hascii Hvalid Hfree body s.
  pose proof (unmarshal_encode p Hascii) as Hu. fold body in Hu.
  destruct (intake_verdict_accept {| Body := Ok body |}
              {| uuid_NewV4 := token; insert_fault := None |} t body p
              (encode (responseToken_json {| Token := token |})))
    as (t' & Hins & Hverdict); [done..|].
  subst s. rewrite pathHandler_exec. simpl in *. rewrite Hverdict. simpl.
  split_and!; try done.
  - by apply (select_insert_new _ _ _ _ _ Hins).
  - unfold rendered. simpl. by rewrite Hu.
Qed.

(** ** Examples *)

Example awkward_route_encoded :
  encode (path_json awkward_route)
  = "[[" +:+ quoted (String c_backslash (String c_dq "1")) +:+ ","
    +:+ quoted (String c_backslash (String c_backslash "2")) +:+ "],["
    +:+ quoted (String c_backslash "n3") +:+ ","
    +:+ quoted ("4" +:+ String c_backslash "u00265") +:+ "]]".
Proof. vm_compute. reflexivity. Qed.

Lemma route_roundtrip_witness :
  let body := encode (path_json awkward_route) in
  let s := exec (pathHandler {| Body := Ok body |}
                   {| uuid_NewV4 := example_token; insert_fault := None |})
             (world_of ([] : table)) in
  Unmarshal body = Ok awkward_route
  ∧ store_select example_token (db s) = Some (new_row body example_token 0)
  ∧ goroutines s = [(example_token, points_of awkward_route)]
  ∧ rendered (set_outcome 1 3000 180 EmptyString (new_row body example_token 0))
    = Some (success awkward_route 3000 180).
Proof.
  apply (route_roundtrip awkward_route example_token ([] : table) 3000 180).
  - apply (bool_decide_unpack _). vm_compute. reflexivity.
  - apply (bool_decide_unpack _). vm_compute. reflexivity.
  - reflexivity.
Defined.
