(* ===== verification/Startup.v ===== *)
(** * Startup: [main]

    [main] (lines 47-80) opens the database, pings it, runs the
    migrations, registers the two routes and serves.  It is translated
    statement by statement into the monad [prog] over the state of the
    process ([proc]): the calls made so far, in order, the deferred calls,
    how the process stands, and the package-level variables of lines
    23-30 ([globals]): the flag [port], [apiKey], the handle [db] and
    [err].  What the libraries answer is the environment [startup_env].

    The variables are initialised before [main] runs ([proc_init]): the
    flag holds its default until [flag.Parse], the key is read from the
    environment once, the handle and the error are [nil].  [main] assigns
    [db] and [err] at lines 50 and 56; from line 62 on, [err] is the local
    variable that [m, err := ...] declares, so the global one keeps the
    result of [db.Ping].

    Three ways of ending are distinguished, as Go does: [log.Fatal] prints
    and exits at once with status 1, without running the deferred calls;
    a panic unwinds [main], runs the deferred calls and ends the process;
    [http.ListenAndServe] blocks while the server runs, so [main] has not
    returned and its deferred calls have not run.

    The reference definition [startup_calls] lists the calls [main] makes
    as a function of the environment.  The theorems state when the server
    ends up listening and with which routes, that errors of the migrations
    do not stop it, and what happens when the migration object cannot be
    built. *)

From Stdlib Require Import ZArith.
From stdpp Require Import base tactics option list strings.
From S2P Require Import Prelude Types.

#[local] Open Scope Z_scope.

(** ** The calls of [main] *)

(** The handlers a route can be registered with. *)
Inductive handler : Type := H_routeHandler | H_pathHandler.

#[export] Instance handler_eq_dec : EqDecision handler.
Proof. solve_decision. Defined.

(** The calls [main] makes on its libraries, with their arguments. *)
Inductive call : Type :=
| flag_Parse
| sql_Open (driverName dataSourceName : string)
| db_Ping
| mysql_WithInstance
| migrate_NewWithDatabaseInstance (sourceUrl databaseName : string)
| m_Steps (n : Z)
| r_GET (path : string) (h : handler)
| r_POST (path : string) (h : handler)
| http_ListenAndServe (addr : string)
| db_Close
| log_Fatal (line : string).

#[export] Instance call_eq_dec : EqDecision call.
Proof. solve_decision. Defined.

(** How the process stands. *)
Inductive standing : Type :=
| Starting
| Serving (addr : string)   (* blocked in http.ListenAndServe *)
| Exited (code : Z).        (* os.Exit *)

#[export] Instance standing_eq_dec : EqDecision standing.
Proof. solve_decision. Defined.

(** The package-level variables (lines 23-30). *)
Record globals : Type := {
  g_port : string;          (* *port, the value of the flag *)
  g_apiKey : string;        (* apiKey *)
  g_db : option string;     (* db: nil, or the handle opened on a data source *)
  g_err : option string;    (* err: nil, or an error *)
}.

#[export] Instance globals_eq_dec : EqDecision globals.
Proof. solve_decision. Defined.

Record proc : Type := {
  calls : list call;        (* the calls made, in order *)
  deferred : list call;     (* the deferred calls, the last one first *)
  stands : standing;
  vars : globals;
}.

#[export] Instance proc_eq_dec : EqDecision proc.
Proof. solve_decision. Defined.

(** What a call of [m.Steps] does: it returns its error, or it panics. *)
Inductive steps_outcome : Type :=
| StepsReturn (err : option string)
| StepsPanic (msg : string).

#[export] Instance steps_outcome_eq_dec : EqDecision steps_outcome.
Proof. solve_decision. Defined.

Definition steps_panics (o : steps_outcome) : bool :=
  match o with StepsPanic _ => true | StepsReturn _ => false end.

(** What the environment decides. *)
Record startup_env : Type := {
  flag_port : option string;              (* -port on the command line, if given *)
  os_Getenv : string → string;
  open_fault : option string;             (* the error of sql.Open *)
  ping_fault : option string;             (* the error of db.Ping *)
  driver_fault : option string;           (* the error of mysql.WithInstance *)
  migrate_fault : option string;          (* the error of NewWithDatabaseInstance *)
  (** [m.Steps(2)], given whether [m] is [nil]: its error, or a panic. *)
  steps_result : bool → steps_outcome;
  listen_fault : option string;           (* the error ListenAndServe returns, if it does *)
}.

Section startup.
Implicit Types (env : startup_env) (s : proc) (g : globals).

(** [flag.String("port", ":8080", ...)] (line 24): the flag holds its
    default until the command line is parsed. *)
Definition port_default : string := ":8080".

(** [*port] once [flag.Parse] has run. *)
Definition port env : string := default port_default (flag_port env).

(** [os.Getenv("GOOGLE_API_KEY")] (line 25). *)
Definition apiKey env : string := os_Getenv env "GOOGLE_API_KEY".

(** The process when [main] starts: the package-level variables have been
    initialised. *)
Definition proc_init env : proc :=
  {| calls := []; deferred := []; stands := Starting;
     vars := {| g_port := port_default; g_apiKey := apiKey env;
                g_db := None; g_err := None |} |}.

Definition do_call (c : call) : prog proc unit :=
  modify (λ s, {| calls := calls s ++ [c]; deferred := deferred s; stands := stands s;
                  vars := vars s |}).

(** [defer c]. *)
Definition defer (c : call) : prog proc unit :=
  modify (λ s, {| calls := calls s; deferred := c :: deferred s; stands := stands s;
                  vars := vars s |}).

(** An assignment to package-level variables. *)
Definition assign (f : globals → globals) : prog proc unit :=
  modify (λ s, {| calls := calls s; deferred := deferred s; stands := stands s;
                  vars := f (vars s) |}).

Definition set_port (p : string) g : globals :=
  {| g_port := p; g_apiKey := g_apiKey g; g_db := g_db g; g_err := g_err g |}.

Definition set_db (h : option string) g : globals :=
  {| g_port := g_port g; g_apiKey := g_apiKey g; g_db := h; g_err := g_err g |}.

Definition set_err (e : option string) g : globals :=
  {| g_port := g_port g; g_apiKey := g_apiKey g; g_db := g_db g; g_err := e |}.

(** The process stands differently. *)
Definition stand (st : standing) : prog proc unit :=
  modify (λ s, {| calls := calls s; deferred := deferred s; stands := st;
                  vars := vars s |}).

(** [log.Fatal(line)]: the line is printed and the process exits with
    status 1; nothing after it runs, the deferred calls included. *)
Definition log_Fatal_exit {A} (line : string) : prog proc A :=
  (do_call (log_Fatal line);; stand (Exited 1);; return_)%prog.

(** [if err != nil { log.Fatal(prefix + err.Error()) }]. *)
Definition fatal_if (err : option string) (pre : string) : prog proc unit :=
  match err with
  | Some e => log_Fatal_exit (pre +:+ e)
  | None => ret tt
  end.

(** The data source name built at line 50. *)
Definition dataSourceName env : string :=
  os_Getenv env "MYSQL_USER" +:+ ":" +:+ os_Getenv env "MYSQL_PASSWORD" +:+ "@tcp("
  +:+ os_Getenv env "MYSQL_HOST" +:+ ")/" +:+ os_Getenv env "MYSQL_DATABASE"
  +:+ "?charset=utf8".

(** The source of the migrations built at line 63. *)
Definition sourceUrl env : string := "file://" +:+ os_Getenv env "PWD" +:+ "/migrations".

(** The body of [main], up to the point where it returns, exits, panics or
    blocks in [ListenAndServe]. *)
Definition main_body env : prog proc unit :=
  (do_call flag_Parse;;
   assign (set_port (port env));;
   do_call (sql_Open "mysql" (dataSourceName env));;
   assign (λ g, set_err (open_fault env)
                  (set_db (match open_fault env with
                           | Some _ => None
                           | None => Some (dataSourceName env)
                           end) g));;
   s ← get;
   fatal_if (g_err (vars s)) EmptyString;;
   defer db_Close;;
   do_call db_Ping;;
   assign (set_err (ping_fault env));;
   s ← get;
   fatal_if (g_err (vars s)) EmptyString;;
   do_call mysql_WithInstance;;
   do_call (migrate_NewWithDatabaseInstance (sourceUrl env) "mysql");;
   let m_is_nil := bool_decide (is_Some (migrate_fault env)) in
   do_call (m_Steps 2);;
   match steps_result env m_is_nil with
   | StepsReturn _ => ret tt
   | StepsPanic msg => panic msg
   end;;
   fatal_if (migrate_fault env) EmptyString;;
   do_call (r_GET "/route/:token" H_routeHandler);;
   do_call (r_POST "/route" H_pathHandler);;
   s ← get;
   do_call (http_ListenAndServe (g_port (vars s)));;
   match listen_fault env with
   | Some e => log_Fatal_exit ("ListenAndServe:" +:+ e)
   | None => stand (Serving (g_port (vars s)));; return_
   end)%prog.

(** The deferred calls run when [main] returns or panics, not when the
    process has exited or is still serving. *)
Definition run_deferred s : proc :=
  match stands s with
  | Starting => {| calls := calls s ++ deferred s; deferred := []; stands := stands s;
                   vars := vars s |}
  | _ => s
  end.

Definition main env : prog proc unit :=
  λ s, let r := main_body env s in (run_deferred r.1, r.2).

(** ** The reference definition *)

(** How far [main] gets. *)
Inductive startup_verdict : Type :=
| OpenFailed (e : string)
| PingFailed (e : string)
| StepsPanicked (msg : string)
| MigrateFailed (e : string)
| ListenFailed (e : string)
| Listens.

#[export] Instance startup_verdict_eq_dec : EqDecision startup_verdict.
Proof. solve_decision. Defined.

Definition startup_verdict_of env : startup_verdict :=
  match open_fault env with Some e => OpenFailed e | None =>
  match ping_fault env with Some e => PingFailed e | None =>
  match steps_result env (bool_decide (is_Some (migrate_fault env))) with
  | StepsPanic msg => StepsPanicked msg
  | StepsReturn _ =>
  match migrate_fault env with Some e => MigrateFailed e | None =>
  match listen_fault env with Some e => ListenFailed e | None => Listens
  end end end end end.

Definition opening env : list call :=
  [flag_Parse; sql_Open "mysql" (dataSourceName env)].

Definition migrating env : list call :=
  [db_Ping; mysql_WithInstance;
   migrate_NewWithDatabaseInstance (sourceUrl env) "mysql"; m_Steps 2].

Definition routing env : list call :=
  [r_GET "/route/:token" H_routeHandler; r_POST "/route" H_pathHandler;
   http_ListenAndServe (port env)].

(** The calls [main] makes, in order, for each verdict. *)
Definition startup_calls env : list call :=
  match startup_verdict_of env with
  | OpenFailed e => opening env ++ [log_Fatal e]
  | PingFailed e => opening env ++ [db_Ping; log_Fatal e]
  | StepsPanicked _ => opening env ++ migrating env ++ [db_Close]
  | MigrateFailed e => opening env ++ migrating env ++ [log_Fatal e]
  | ListenFailed e =>
      opening env ++ migrating env ++ routing env ++ [log_Fatal ("ListenAndServe:" +:+ e)]
  | Listens => opening env ++ migrating env ++ routing env
  end.

Definition startup_standing env : standing :=
  match startup_verdict_of env with
  | StepsPanicked _ => Starting
  | Listens => Serving (port env)
  | _ => Exited 1
  end.

Definition startup_flow env : flow unit :=
  match startup_verdict_of env with
  | StepsPanicked msg => Panic msg
  | _ => Return
  end.

(** The deferred calls that have not run when [main] stops. *)
Definition startup_deferred env : list call :=
  match startup_verdict_of env with
  | OpenFailed _ | StepsPanicked _ => []
  | _ => [db_Close]
  end.

(** The package-level variables when [main] stops. *)
Definition startup_vars env : globals :=
  {| g_port := port env; g_apiKey := apiKey env;
     g_db := match open_fault env with
             | Some _ => None
             | None => Some (dataSourceName env)
             end;
     g_err := match open_fault env with
              | Some e => Some e
              | None => ping_fault env
              end |}.

(** The routes of a list of calls. *)
Definition routes_of (cs : list call) : list (string * string * handler) :=
  omap (λ c, match c with
             | r_GET path h => Some ("GET", path, h)
             | r_POST path h => Some ("POST", path, h)
             | _ => None
             end) cs.

End startup.

(** ** The data of the examples *)

Definition example_getenv (name : string) : string :=
  if decide (name = "MYSQL_USER") then "route"
  else if decide (name = "MYSQL_PASSWORD") then "secret"
  else if decide (name = "MYSQL_HOST") then "db:3306"
  else if decide (name = "MYSQL_DATABASE") then "routes"
  else if decide (name = "PWD") then "/go/src/app"
  else EmptyString.

(** An environment in which everything works and the server keeps
    listening. *)
Definition working_env : startup_env :=
  {| flag_port := None; os_Getenv := example_getenv; open_fault := None;
     ping_fault := None; driver_fault := None; migrate_fault := None;
     steps_result := λ _, StepsReturn None; listen_fault := None |}.

(** The same started with [-port :9090]. *)
Definition flagged_env : startup_env :=
  {| flag_port := Some ":9090"; os_Getenv := example_getenv; open_fault := None;
     ping_fault := None; driver_fault := None; migrate_fault := None;
     steps_result := λ _, StepsReturn None; listen_fault := None |}.

(** The same with a source of migrations that cannot be opened: [m] is
    [nil] and a method that locks its receiver panics. *)
Definition no_migrations_env : startup_env :=
  {| flag_port := None; os_Getenv := example_getenv; open_fault := None;
     ping_fault := None; driver_fault := None;
     migrate_fault := Some "open /go/src/app/migrations: no such file or directory";
     steps_result := λ m_is_nil,
       if m_is_nil
       then StepsPanic "runtime error: invalid memory address or nil pointer dereference"
       else StepsReturn None;
     listen_fault := None |}.

(** The migrations fail, the rest works. *)
Definition failed_steps_env : startup_env :=
  {| flag_port := None; os_Getenv := example_getenv; open_fault := None;
     ping_fault := None; driver_fault := Some "driver: bad connection";
     migrate_fault := None;
     steps_result :=
       λ _, StepsReturn (Some "Dirty database version 1. Fix and force version.");
     listen_fault := None |}.

(** ** [main] meets the reference definition *)

(** Membership in a list of calls written out, by cases. *)
Ltac calls_solver :=
  unfold opening, migrating, routing; simpl;
  rewrite ?elem_of_app, ?elem_of_cons, ?elem_of_nil; intuition congruence.

Section startup_spec.
Implicit Types (env : startup_env) (s : proc).

Lemma do_call_run c s :
  do_call c s
  = ({| calls := calls s ++ [c]; deferred := deferred s; stands := stands s;
        vars := vars s |}, Next tt).
Proof. done. Qed.

Lemma fatal_if_None pre s : fatal_if None pre s = (s, Next tt).
Proof. done. Qed.

Lemma fatal_if_Some e pre s :
  fatal_if (Some e) pre s
  = ({| calls := calls s ++ [log_Fatal (pre +:+ e)]; deferred := deferred s;
        stands := Exited 1; vars := vars s |}, Return).
Proof. done. Qed.

(** The run of the body of [main] from the start of the process. *)
Lemma main_body_run env :
  main_body env (proc_init env)
  = ({| calls := match startup_verdict_of env with
                 | StepsPanicked _ => opening env ++ migrating env
                 | _ => startup_calls env
                 end;
        deferred := match startup_verdict_of env with
                    | OpenFailed _ => []
                    | _ => [db_Close]
                    end;
        stands := startup_standing env; vars := startup_vars env |}, startup_flow env).
Proof.
  unfold main_body, startup_vars, startup_calls, startup_standing, startup_flow, startup_verdict_of.
  destruct (open_fault env) as [e|]; [done|].
  destruct (ping_fault env) as [e|]; [done|].
  unfold bind; simpl.
  destruct (steps_result env _) as [r|msg]; simpl; try done;
    destruct (migrate_fault env) as [e|]; simpl; try done;
    by destruct (listen_fault env).
Qed.

Lemma main_run env :
  main env (proc_init env)
  = ({| calls := startup_calls env; deferred := startup_deferred env;
        stands := startup_standing env; vars := startup_vars env |}, startup_flow env).
Proof.
  unfold main. rewrite main_body_run. simpl.
  unfold run_deferred, startup_deferred, startup_standing, startup_calls. simpl.
  destruct (startup_verdict_of env); simpl; done.
Qed.

(** The verdict [Listens], by its causes. *)
Lemma startup_verdict_Listens env :
  startup_verdict_of env = Listens ↔
  open_fault env = None ∧ ping_fault env = None ∧ migrate_fault env = None ∧
  steps_panics (steps_result env false) = false ∧ listen_fault env = None.
Proof.
  unfold startup_verdict_of.
  destruct (open_fault env) as [e|]; [by split; [|intros (? & _)]|].
  destruct (ping_fault env) as [e|]; [by split; [|intros (_ & ? & _)]|].
  destruct (migrate_fault env) as [e|]; simpl.
  { split; [by destruct (steps_result env true)|by intros (_ & _ & ? & _)]. }
  destruct (steps_result env false) as [r|msg]; simpl;
    [|by split; [|intros (_ & _ & _ & ? & _)]].
  destruct (listen_fault env) as [e|]; [by split; [|intros (_ & _ & _ & _ & ?)]|].
  by split.
Qed.

(** C37.  [main] is its reference definition: from the start of the
    process it makes the calls [startup_calls] lists, in that order, and
    stops exited with status 1, panicking, or serving, as
    [startup_standing] and [startup_flow] say; the deferred [db.Close] has
    run only if [main] panicked. *)
Theorem main_spec env :
  exec (main env) (proc_init env)
  = {| calls := startup_calls env; deferred := startup_deferred env;
       stands := startup_standing env; vars := startup_vars env |}
  ∧ outcome (main env) (proc_init env) = startup_flow env
  ∧ (db_Close ∈ calls (exec (main env) (proc_init env))
     ↔ panics (outcome (main env) (proc_init env)) = true).
Proof.
  unfold exec, outcome. rewrite main_run. simpl. split_and!; [done..|].
  unfold startup_calls, startup_flow.
  destruct (startup_verdict_of env); calls_solver.
Qed.

(** C38.  The server serves when the database opens and answers, the
    migration object is built and the listener starts, and only then;
    whether the migrations themselves succeeded plays no part: the errors
    of [mysql.WithInstance] and of [m.Steps] are discarded.  The routes
    registered are then [GET /route/:token] for [routeHandler] and
    [POST /route] for [pathHandler], and [db.Close] is still deferred.
    The address is the value of the flag [-port], [:8080] when it is not
    given; the handle [db] the handlers use is the one opened on the data
    source, and the package-level [err] is [nil]. *)
Theorem main_serves env :
  (stands (exec (main env) (proc_init env)) = Serving (port env)
   ↔ open_fault env = None ∧ ping_fault env = None ∧ migrate_fault env = None ∧
     steps_panics (steps_result env false) = false ∧ listen_fault env = None)
  ∧ (stands (exec (main env) (proc_init env)) = Serving (port env) →
     routes_of (calls (exec (main env) (proc_init env)))
     = [("GET", "/route/:token", H_routeHandler); ("POST", "/route", H_pathHandler)]
     ∧ deferred (exec (main env) (proc_init env)) = [db_Close]
     ∧ vars (exec (main env) (proc_init env))
       = {| g_port := default ":8080" (flag_port env);
            g_apiKey := os_Getenv env "GOOGLE_API_KEY";
            g_db := Some (dataSourceName env); g_err := None |}).
Proof.
  unfold exec. rewrite main_run. simpl. rewrite <- startup_verdict_Listens.
  unfold startup_standing, startup_calls, startup_deferred.
  split; [destruct (startup_verdict_of env); by split_and!|].
  intros Hs. assert (startup_verdict_of env = Listens) as Hv
    by by destruct (startup_verdict_of env).
  pose proof (proj1 (startup_verdict_Listens env) Hv) as (Ho & Hp & _).
  rewrite Hv. unfold startup_vars. by rewrite Ho, Hp.
Qed.

(** The routes of a server that serves. *)
Lemma main_routes env :
  startup_verdict_of env = Listens →
  routes_of (calls (exec (main env) (proc_init env)))
  = [("GET", "/route/:token", H_routeHandler); ("POST", "/route", H_pathHandler)].
Proof.
  intros Hv. unfold exec. rewrite main_run. simpl.
  unfold startup_calls. by rewrite Hv.
Qed.

(** The error of the migration object is tested too late.  When
    [migrate.NewWithDatabaseInstance] fails, [m.Steps(2)] is called on the
    [nil] object before the error is looked at: if that call panics, as a
    method that dereferences its receiver does, [main] panics, the error
    is never logged and no route is registered. *)
Theorem main_nil_migrate_panics env e msg :
  open_fault env = None → ping_fault env = None →
  migrate_fault env = Some e → steps_result env true = StepsPanic msg →
  outcome (main env) (proc_init env) = Panic msg
  ∧ (∀ line, log_Fatal line ∉ calls (exec (main env) (proc_init env)))
  ∧ routes_of (calls (exec (main env) (proc_init env))) = [].
Proof.
  intros Ho Hp Hm Hs. unfold exec, outcome. rewrite main_run. simpl.
  unfold startup_flow, startup_calls, startup_verdict_of.
  rewrite Ho, Hp, Hm. simpl. rewrite Hs. split_and!; [done| |done].
  intros line. calls_solver.
Qed.

End startup_spec.

(** ** The theorems at the examples *)

Example main_working :
  exec (main working_env) (proc_init working_env)
  = {| calls := [flag_Parse;
                 sql_Open "mysql" "route:secret@tcp(db:3306)/routes?charset=utf8";
                 db_Ping; mysql_WithInstance;
                 migrate_NewWithDatabaseInstance "file:///go/src/app/migrations" "mysql";
                 m_Steps 2;
                 r_GET "/route/:token" H_routeHandler; r_POST "/route" H_pathHandler;
                 http_ListenAndServe ":8080"];
       deferred := [db_Close]; stands := Serving ":8080";
       vars := {| g_port := ":8080"; g_apiKey := EmptyString;
                  g_db := Some "route:secret@tcp(db:3306)/routes?charset=utf8";
                  g_err := None |} |}.
Proof. vm_compute. reflexivity. Qed.

(** With [-port :9090] on the command line the server listens there. *)
Example main_flag_port :
  stands (exec (main flagged_env) (proc_init flagged_env)) = Serving ":9090"
  ∧ g_port (vars (proc_init flagged_env)) = ":8080".
Proof. vm_compute. by split. Qed.

(** A server whose migrations failed serves all the same. *)
Example main_failed_steps :
  stands (exec (main failed_steps_env) (proc_init failed_steps_env)) = Serving ":8080".
Proof. vm_compute. reflexivity. Qed.

Lemma main_nil_migrate_panics_witness :
  outcome (main no_migrations_env) (proc_init no_migrations_env)
  = Panic "runtime error: invalid memory address or nil pointer dereference"
  ∧ (∀ line, log_Fatal line ∉ calls (exec (main no_migrations_env) (proc_init no_migrations_env)))
  ∧ routes_of (calls (exec (main no_migrations_env) (proc_init no_migrations_env))) = [].
Proof.
  apply (main_nil_migrate_panics no_migrations_env
           "open /go/src/app/migrations: no such file or directory"); reflexivity.
Defined.
