(* ===== verification/System.v ===== *)
(** * System: the service as a transition system

    The state of the running service ([system]) is the store, the pool of
    goroutines started by [pathHandler] that have not finished yet, the log,
    and whether the process has crashed.  An [event] is a request served by
    one of the two handlers or the run of one goroutine of the pool; what
    the environment decides during the event is part of it.  [step] is the
    transition relation and [apply_event] the function that computes it.

    Each event is one transition.  This is sound for the interleavings of
    the program because each handler and each goroutine performs at most
    one statement on the database (the [INSERT], the [SELECT], the
    [UPDATE]), which is the only state they share: an execution in which
    they overlap is observed by the store as the sequence of these
    statements.  The goroutine of a job is started by the transition of its
    [Submit] and runs in a later transition of its own, so any number of
    requests can be served between the two.  A panic in a goroutine is not
    recovered by the program: it ends the process, the pool is lost and no
    further transition is possible.

    The invariant [sys_inv] says that the tokens of the pool are distinct,
    that each goroutine of the pool has a pending row whose stored body
    decodes to a valid route of which it holds the waypoints, and that
    every row holds a status of the lifecycle and a body that decodes to a
    valid route.  It holds in every reachable state and gives the
    properties of the job lifecycle: a job leaves [Pending] at most once,
    a terminal row never changes again, a goroutine runs at most once per
    token, the path reported is the path submitted, a job whose provider
    fails is reported as a failure with the text of the error
    ([route_failure_end_to_end]), and the service does not crash while
    the provider keeps its contract. *)

From Stdlib Require Import ZArith.
From stdpp Require Import base tactics option list strings relations.
From S2P Require Import Prelude Types Codec JobStore Intake Worker Reporter.

#[local] Open Scope Z_scope.

(** ** States and events *)

Record system (T : Type) : Type := {
  store : T;
  pool : list (string * routePathPoint);
  journal : list string;
  crashed : bool;
}.
Arguments store {T} _.
Arguments pool {T} _.
Arguments journal {T} _.
Arguments crashed {T} _.

Inductive event : Type :=
| Submit (r : Request) (env : intake_env)      (* POST /route *)
| Poll (token : string) (env : report_env)     (* GET /route/:token *)
| Work (k : nat) (env : worker_env).           (* the k-th goroutine runs *)

(** What a transition shows: the response sent to the client, or the token
    of the goroutine that ran. *)
Inductive observation : Type :=
| Response (calls : list writer_call)
| Ran (token : string).

#[export] Instance observation_eq_dec : EqDecision observation.
Proof. solve_decision. Defined.

(** The tokens whose goroutine ran in a trace. *)
Definition ran_tokens (tr : list (event * observation)) : list string :=
  omap (λ eo, match eo.2 with Ran token => Some token | Response _ => None end) tr.

(** The provider keeps its contract in an environment: the call on the
    client does not panic, and every answer has one row per origin and one
    element per destination. *)
Definition provider_keeps_contract (env : worker_env) : Prop :=
  client_panic env = None
  ∧ ∀ req resp, DistanceMatrix env req = Ok resp → well_shaped req resp.

Definition event_ok (ev : event) : Prop :=
  match ev with
  | Work _ env => provider_keeps_contract env
  | _ => True
  end.

Section system.
Context {T : Type} `{JobStore T} `{Json}.
Implicit Types (σ : system T) (ev : event).

(** The service when it starts on an empty table. *)
Definition init : system T :=
  {| store := store_empty; pool := []; journal := []; crashed := false |}.

(** The state after a handler has served a request in the world [s']. *)
Definition served σ (s' : world T) : system T :=
  {| store := db s'; pool := pool σ ++ goroutines s';
     journal := journal σ ++ logged s'; crashed := crashed σ |}.

(** The state after the goroutine at index [k] has run, leaving the world
    [s'] and ending with [f]. *)
Definition worked σ (k : nat) (s' : world T) (f : flow unit) : system T :=
  {| store := db s';
     pool := if panics f then [] else delete k (pool σ);
     journal := journal σ ++ logged s';
     crashed := panics f |}.

(** The transition relation, with what the transition shows. *)
Inductive step : system T → event → observation → system T → Prop :=
| step_submit σ r env :
    crashed σ = false →
    step σ (Submit r env)
      (Response (writer (exec (pathHandler r env) (world_of (store σ)))))
      (served σ (exec (pathHandler r env) (world_of (store σ))))
| step_poll σ token env :
    crashed σ = false →
    step σ (Poll token env)
      (Response (writer (exec (routeHandler token env) (world_of (store σ)))))
      (served σ (exec (routeHandler token env) (world_of (store σ))))
| step_work σ k env token points :
    crashed σ = false →
    pool σ !! k = Some (token, points) →
    step σ (Work k env) (Ran token)
      (worked σ k (exec (processRoute env token points) (world_of (store σ)))
                  (outcome (processRoute env token points) (world_of (store σ)))).

(** The transition as a function. *)
Definition apply_event σ ev : option (system T * observation) :=
  if crashed σ then None
  else match ev with
       | Submit r env =>
           let s' := exec (pathHandler r env) (world_of (store σ)) in
           Some (served σ s', Response (writer s'))
       | Poll token env =>
           let s' := exec (routeHandler token env) (world_of (store σ)) in
           Some (served σ s', Response (writer s'))
       | Work k env =>
           match pool σ !! k with
           | Some (token, points) =>
               let m := processRoute env token points (world_of (store σ)) in
               Some (worked σ k m.1 m.2, Ran token)
           | None => None
           end
       end.

(** Runs: sequences of transitions with their responses. *)
Inductive run : system T → list (event * observation) → system T → Prop :=
| run_nil σ : run σ [] σ
| run_cons σ ev out σ' tr σ'' :
    step σ ev out σ' → run σ' tr σ'' → run σ ((ev, out) :: tr) σ''.

(** The run of a list of events, as a function. *)
Fixpoint apply_events σ (evs : list event) : option (system T * list observation) :=
  match evs with
  | [] => Some (σ, [])
  | ev :: evs' =>
      match apply_event σ ev with
      | Some (σ', out) =>
          match apply_events σ' evs' with
          | Some (σ'', outs) => Some (σ'', out :: outs)
          | None => None
          end
      | None => None
      end
  end.

Definition reachable σ : Prop := ∃ tr, run init tr σ.

(** The state and the trace a list of events leads to; the state is
    unchanged and the trace empty when an event cannot happen. *)
Definition state_after σ (evs : list event) : system T :=
  match apply_events σ evs with
  | Some (σ', _) => σ'
  | None => σ
  end.

Definition trace_of σ (evs : list event) : list (event * observation) :=
  match apply_events σ evs with
  | Some (_, outs) => zip evs outs
  | None => []
  end.

(** ** The invariant *)

(** The row of a token, its status and the job it stands for. *)
Definition row_ok (row : Row) : Prop :=
  is_Some (status_of_code (c_status row)) ∧
  ∃ p, Unmarshal (c_path row) = Ok p ∧ valid_route p.

Definition goroutine_ok (t : T) (g : string * routePathPoint) : Prop :=
  ∃ row p, store_select g.1 t = Some row ∧ c_status row = status_code Pending ∧
           Unmarshal (c_path row) = Ok p ∧ valid_route p ∧ g.2 = points_of p.

Record sys_inv σ : Prop := {
  inv_pool_nodup : NoDup (pool σ).*1;
  inv_pool : Forall (goroutine_ok (store σ)) (pool σ);
  inv_rows : ∀ token row, store_select token (store σ) = Some row → row_ok row;
}.

(** The state of the job of a token: [None] when there is no such job. *)
Definition job_state σ (token : string) : option job_status :=
  row ← store_select token (store σ); status_of_code (c_status row).

(** The lifecycle of a job: it is created pending and leaves [Pending] at
    most once. *)
Inductive lifecycle : option job_status → option job_status → Prop :=
| life_stay st : lifecycle st st
| life_create : lifecycle None (Some Pending)
| life_succeed : lifecycle (Some Pending) (Some Success)
| life_fail : lifecycle (Some Pending) (Some Failure).

End system.

(** ** The data of the examples *)

(** A provider that keeps its contract: for every request the full matrix,
    in which the leg to the [j]-th destination is [1000 (j+1)] metres long
    and takes [60 (j+1)] seconds. *)
Definition full_matrix (req : DistanceMatrixRequest) : DistanceMatrixResponse :=
  {| Rows := (λ _, {| Elements :=
                        imap (λ j _, leg "OK" (1000 * (Z.of_nat j + 1))
                                       (60 * (Z.of_nat j + 1)))
                          (Destinations req) |}) <$> Origins req |}.

Definition honest_provider : worker_env :=
  {| prepare_fault := None; NewClient_fault := None; nil_client_panic := None;
     DistanceMatrix := λ req, Ok (full_matrix req);
     exec_fault := None |}.

(** The session of the specification's example: the route is submitted,
    polled while pending, computed, and polled again. *)
Definition example_submit : event := Submit {| Body := Ok example_body |} example_env.
Definition example_poll : event := Poll example_token no_fault.
Definition example_work : event := Work 0 honest_provider.

Definition example_session : list event :=
  [example_submit; example_poll; example_work; example_poll].

Definition example_start : system table := init.
Definition example_submitted : system table := state_after example_start [example_submit].
Definition example_computed : system table :=
  state_after example_start [example_submit; example_work].

(** The example job computed by a provider that finds no route for the
    second leg. *)
Definition example_failed : system table :=
  state_after example_start
    [example_submit; Work 0 (provider (Ok example_matrix_failed))].

(** The row of the example job once computed. *)
Definition example_row : Row :=
  set_outcome 1 3000 180 EmptyString (new_row example_body example_token 0).

(** A list of events is shown to happen by running it. *)
Ltac events_happen := vm_compute; eexists; reflexivity.

(** ** The relation and the function agree *)

Section system_step.
Context {T : Type} {JS : JobStore T} {J : Json}.
Implicit Types (σ : system T) (ev : event) (obs : observation).

Lemma step_apply_event σ ev obs σ' :
  step σ ev obs σ' ↔ apply_event σ ev = Some (σ', obs).
Proof.
  unfold apply_event. split.
  - intros [? ? ? ->|? ? ? ->|? ? ? ? ? -> Hk]; try done. by rewrite Hk.
  - destruct (crashed σ) eqn:Hc; [done|]. destruct ev as [r env|token env|k env].
    + intros [= <- <-]. by constructor.
    + intros [= <- <-]. by constructor.
    + destruct (pool σ !! k) as [[token points]|] eqn:Hk; [|done].
      intros [= <- <-]. by apply step_work.
Qed.

(** The transition relation is deterministic. *)
Lemma step_deterministic σ ev obs1 σ1 obs2 σ2 :
  step σ ev obs1 σ1 → step σ ev obs2 σ2 → σ1 = σ2 ∧ obs1 = obs2.
Proof. rewrite !step_apply_event. intros -> [= -> ->]. done. Qed.

(** A crashed process takes no transition. *)
Lemma step_not_crashed σ ev obs σ' : step σ ev obs σ' → crashed σ = false.
Proof. by intros []. Qed.

Lemma run_app σ tr1 σ' tr2 σ'' :
  run σ tr1 σ' → run σ' tr2 σ'' → run σ (tr1 ++ tr2) σ''.
Proof. induction 1; [done|]. intros. simpl. econstructor; eauto. Qed.

Lemma run_snoc σ tr σ' ev obs σ'' :
  run σ tr σ' → step σ' ev obs σ'' → run σ (tr ++ [(ev, obs)]) σ''.
Proof. intros Hr Hs. eapply run_app; [done|]. repeat econstructor; done. Qed.

(** A run at one of its transitions. *)
Lemma run_lookup σ tr σ' i ev obs :
  run σ tr σ' → tr !! i = Some (ev, obs) →
  ∃ σ1 σ2, run σ (take i tr) σ1 ∧ step σ1 ev obs σ2 ∧ run σ2 (drop (S i) tr) σ'.
Proof.
  intros Hrun. revert i. induction Hrun as [|σ ev0 obs0 σ0 tr σ' Hs Hrun IH]; [done|].
  intros [|i] Hi; simpl in *.
  - injection Hi as -> ->. exists σ, σ0. split_and!; [constructor|done..].
  - destruct (IH i Hi) as (σ1 & σ2 & Hr1 & Hstep & Hr2).
    exists σ1, σ2. split_and!; [by econstructor|done..].
Qed.

Lemma run_apply_events σ tr σ' :
  run σ tr σ' ↔ apply_events σ tr.*1 = Some (σ', tr.*2).
Proof.
  split.
  - induction 1 as [|σ ev obs σ' tr σ'' Hs _ IH]; [done|].
    rewrite !fmap_cons. cbn [apply_events fst snd].
    apply step_apply_event in Hs. by rewrite Hs, IH.
  - revert σ. induction tr as [|[ev obs] tr IH]; intros σ;
      rewrite ?fmap_cons; cbn [apply_events fst snd].
    + intros [= <-]. constructor.
    + destruct (apply_event σ ev) as [[σ1 obs1]|] eqn:Hs; [|done].
      destruct (apply_events σ1 tr.*1) as [[σ2 outs]|] eqn:Hr; [|done].
      intros [= <- <- Houts]. econstructor; [by apply step_apply_event|].
      apply IH. by rewrite Hr, Houts.
Qed.

(** The events that can happen in sequence are a run. *)
Lemma apply_events_run σ evs σ' outs :
  apply_events σ evs = Some (σ', outs) →
  run σ (zip evs outs) σ' ∧ (zip evs outs).*1 = evs.
Proof.
  revert σ outs. induction evs as [|ev evs IH]; intros σ outs; simpl.
  { intros [= <- <-]. split; [constructor|done]. }
  destruct (apply_event σ ev) as [[σ1 obs]|] eqn:Hs; [|done].
  destruct (apply_events σ1 evs) as [[σ2 outs']|] eqn:Hr; [|done].
  intros [= <- <-]. destruct (IH _ _ Hr) as [Hrun Hfst]. simpl. split.
  - econstructor; [by apply step_apply_event|done].
  - f_equal. exact Hfst.
Qed.

Lemma run_trace_of σ evs :
  is_Some (apply_events σ evs) → run σ (trace_of σ evs) (state_after σ evs).
Proof.
  unfold trace_of, state_after. intros [[σ' outs] Hr]. rewrite Hr.
  by apply apply_events_run.
Qed.

Lemma trace_of_events σ evs :
  is_Some (apply_events σ evs) → (trace_of σ evs).*1 = evs.
Proof.
  unfold trace_of. intros [[σ' outs] Hr]. rewrite Hr. by apply (apply_events_run σ evs σ').
Qed.

(** An invariant of the transitions holds along every run. *)
Lemma run_invariant (P : system T → Prop) σ tr σ' :
  (∀ σ ev obs σ', P σ → step σ ev obs σ' → P σ') → P σ → run σ tr σ' → P σ'.
Proof. intros Hstep HP Hrun. induction Hrun; eauto. Qed.

End system_step.

(** ** The invariant holds in every reachable state *)

Section system_inv.
Context {T : Type} {JS : JobStore T} {JSL : JobStoreLaws T} {J : Json}.
Implicit Types (σ : system T) (ev : event) (obs : observation) (t : T).

Lemma insert_fresh path token status t t' :
  store_insert path token status t = Ok t' → store_select token t = None.
Proof. intros Hi. apply (insert_ok path token status). by rewrite Hi. Qed.

Lemma row_ok_new path p row :
  Unmarshal path = Ok p → valid_route p →
  c_path row = path → c_status row = 0 → row_ok row.
Proof. intros Hu Hv <- Hs. split; [by rewrite Hs|]. by exists p. Qed.

Lemma row_ok_set_outcome st d tm e row :
  st = 1 ∨ st = -1 → row_ok row → row_ok (set_outcome st d tm e row).
Proof. intros [-> | ->] [_ Hp]; by split. Qed.

Lemma goroutine_ok_insert path token t t' g :
  store_insert path token 0 t = Ok t' → goroutine_ok t g → goroutine_ok t' g.
Proof.
  intros Hi (row & p & Hrow & Hrest). exists row, p. split; [|done].
  rewrite (select_insert_ne path token 0 t t'); [done..|].
  intros Heq. rewrite Heq, (insert_fresh _ _ _ _ _ Hi) in Hrow. done.
Qed.

Lemma goroutine_ok_update st d tm e token t g :
  g.1 ≠ token → goroutine_ok t g → goroutine_ok (store_update st d tm e token t) g.
Proof.
  intros Hne (row & p & Hrow & Hrest). exists row, p.
  by rewrite select_update_ne.
Qed.

Lemma rows_ok_update st d tm e token t :
  st = 1 ∨ st = -1 →
  (∀ token' row, store_select token' t = Some row → row_ok row) →
  ∀ token' row, store_select token' (store_update st d tm e token t) = Some row →
                row_ok row.
Proof.
  intros Hst Hrows token' row. destruct (decide (token' = token)) as [->|Hne].
  - rewrite select_update. destruct (store_select token t) as [row0|] eqn:E; [|done].
    intros [= <-]. apply row_ok_set_outcome; eauto.
  - rewrite select_update_ne by done. apply Hrows.
Qed.

Lemma sys_inv_init : sys_inv (init : system T).
Proof.
  split; simpl; [constructor|constructor|].
  intros token row. by rewrite select_empty.
Qed.

Lemma sys_inv_submit σ r env :
  sys_inv σ → sys_inv (served σ (exec (pathHandler r env) (world_of (store σ)))).
Proof.
  intros [Hnd Hpool Hrows].
  destruct (pathHandler_cases r env (world_of (store σ)))
    as [(Hdb & Hgo & _)|(body & p & Hb & Hu & Hv & Hins & Hgo)];
    unfold served; rewrite Hgo; simpl in *.
  - rewrite Hdb, app_nil_r. by split.
  - pose proof (insert_fresh _ _ _ _ _ Hins) as Hfresh. split; simpl.
    + rewrite fmap_app. apply NoDup_app. split_and!; [done| |apply NoDup_singleton].
      intros token Hin Heq%list_elem_of_singleton. simpl in Heq. subst token.
      apply list_elem_of_fmap in Hin as ([token' pts] & Heq & Hin).
      simpl in Heq. subst token'. rewrite Forall_forall in Hpool.
      destruct (Hpool _ Hin) as (row & _ & Hrow & _). simpl in *. congruence.
    + apply Forall_app. split.
      * eapply Forall_impl; [done|]. intros g. by eapply goroutine_ok_insert.
      * apply Forall_singleton.
        destruct (select_insert _ _ _ _ _ Hins) as (row & Hrow & Hpath & Hst).
        exists row, p. simpl. by rewrite Hpath.
    + intros token row. destruct (decide (token = uuid_NewV4 env)) as [->|Hne].
      * destruct (select_insert _ _ _ _ _ Hins) as (row' & Hrow & Hpath & Hst).
        rewrite Hrow. intros [= <-]. by eapply row_ok_new.
      * rewrite (select_insert_ne _ _ _ _ _ _ Hins) by done. apply Hrows.
Qed.

Lemma sys_inv_poll σ token env :
  sys_inv σ → sys_inv (served σ (exec (routeHandler token env) (world_of (store σ)))).
Proof.
  intros [Hnd Hpool Hrows].
  destruct (routeHandler_frame token env (world_of (store σ)))
    as (Hdb & Hgo). unfold served. rewrite Hgo, Hdb. simpl.
  rewrite app_nil_r. by split.
Qed.

Lemma NoDup_fst_delete {A B} (l : list (A * B)) k : NoDup l.*1 → NoDup (delete k l).*1.
Proof.
  rewrite list_fmap_delete. intros Hnd.
  eapply sublist_NoDup; [done|apply sublist_delete].
Qed.

(** The other goroutines of the pool have other tokens. *)
Lemma pool_other_tokens (l : list (string * routePathPoint)) k token points g :
  NoDup l.*1 → l !! k = Some (token, points) → g ∈ delete k l → g.1 ≠ token.
Proof.
  intros Hnd Hk Hg Heq. rewrite (delete_take_drop l k) in Hg.
  rewrite <- (take_drop_middle l k (token, points)), fmap_app, fmap_cons in Hnd by done.
  apply NoDup_app in Hnd as (_ & Hl & [Hr _]%NoDup_cons). simpl in *.
  apply elem_of_app in Hg as [Hg|Hg].
  - apply (Hl token); [|left]. subst. by apply list_elem_of_fmap_2.
  - apply Hr. subst. by apply list_elem_of_fmap_2.
Qed.

Lemma sys_inv_work σ k env token points :
  sys_inv σ → pool σ !! k = Some (token, points) →
  sys_inv (worked σ k (exec (processRoute env token points) (world_of (store σ)))
             (outcome (processRoute env token points) (world_of (store σ)))).
Proof.
  intros [Hnd Hpool Hrows] Hk.
  pose proof (processRoute_update_cases env token points (world_of (store σ)))
    as Hdb. simpl in Hdb.
  assert (∀ g, g ∈ delete k (pool σ) →
            goroutine_ok (db (exec (processRoute env token points)
                                (world_of (store σ)))) g) as Hothers.
  { intros g Hg. pose proof (pool_other_tokens _ _ _ _ _ Hnd Hk Hg) as Hne.
    assert (goroutine_ok (store σ) g) as Hok.
    { rewrite Forall_forall in Hpool. eapply Hpool, list_elem_of_delete_inv, Hg. }
    destruct Hdb as [->|(st & d & tm & e & -> & _)]; [done|].
    by apply goroutine_ok_update. }
  split; simpl.
  - destruct (panics _); [constructor|by apply NoDup_fst_delete].
  - destruct (panics _); [constructor|]. by apply Forall_forall.
  - destruct Hdb as [->|(st & d & tm & e & -> & _ & _ & Hst)]; [done|].
    apply rows_ok_update; [|done]. destruct Hst as [[-> _]|[-> _]]; auto.
Qed.

Lemma sys_inv_step σ ev obs σ' : sys_inv σ → step σ ev obs σ' → sys_inv σ'.
Proof.
  intros Hinv Hs.
  destruct Hs; [apply sys_inv_submit|apply sys_inv_poll|apply sys_inv_work]; done.
Qed.

Lemma sys_inv_run σ tr σ' : sys_inv σ → run σ tr σ' → sys_inv σ'.
Proof.
  intros Hinv Hrun. eapply (run_invariant sys_inv); [|done..].
  intros. by eapply sys_inv_step.
Qed.

Lemma sys_inv_after σ evs :
  sys_inv σ → is_Some (apply_events σ evs) → sys_inv (state_after σ evs).
Proof. intros Hinv Hsome. eapply sys_inv_run; [done|by apply run_trace_of]. Qed.

(** C1.  The invariant of the service.  In every state the service can
    reach from an empty table, whatever the requests, the schedule of the
    goroutines and the faults, the tokens of the running goroutines are
    distinct, each of them has a pending row whose stored body decodes to
    the valid route it computes, and every row holds a status of the
    lifecycle and a body that decodes to a valid route. *)
Theorem sys_inv_reachable σ : reachable σ → sys_inv σ.
Proof.
  intros [tr Hrun]. eapply sys_inv_run; [apply sys_inv_init|done].
Qed.

End system_inv.

(** ** The lifecycle of a job *)

Section system_lifecycle.
Context {T : Type} {JS : JobStore T} {JSL : JobStoreLaws T} {J : Json}.
Implicit Types (σ : system T) (ev : event) (obs : observation) (token : string).

(** What one transition does to the row of a token: nothing, its creation
    by the submission that drew the token, or the write of its goroutine. *)
Lemma step_select σ ev obs σ' token :
  step σ ev obs σ' →
  store_select token (store σ') = store_select token (store σ)
  ∨ (∃ r env row, ev = Submit r env ∧ token = uuid_NewV4 env ∧
       store_select token (store σ) = None ∧
       store_select token (store σ') = Some row ∧ c_status row = 0 ∧
       Body r = Ok (c_path row))
  ∨ (∃ k env points row st d tm e, ev = Work k env ∧
       pool σ !! k = Some (token, points) ∧ obs = Ran token ∧
       store_select token (store σ) = Some row ∧
       store_select token (store σ') = Some (set_outcome st d tm e row) ∧
       (st = 1 ∨ st = -1)).
Proof.
  intros [σ0 r env _|σ0 tok env _|σ0 k env tok points _ Hk]; simpl.
  - destruct (pathHandler_cases r env (world_of (store σ0)))
      as [(-> & _)|(body & p & Hb & Hu & Hv & Hins & Hgo)]; [by left|].
    simpl in Hins. destruct (decide (token = uuid_NewV4 env)) as [->|Hne].
    + right; left. destruct (select_insert _ _ _ _ _ Hins) as (row & Hrow & Hp & Hs).
      exists r, env, row. rewrite Hp. split_and!; eauto using insert_fresh.
    + left. by eapply select_insert_ne.
  - destruct (routeHandler_frame tok env (world_of (store σ0))) as (-> & _).
    by left.
  - destruct (processRoute_update_cases env tok points (world_of (store σ0)))
      as [->|(st & d & tm & e & -> & _ & _ & Hst)]; [by left|]. simpl.
    destruct (decide (token = tok)) as [->|Hne].
    + rewrite select_update. destruct (store_select tok (store σ0)) as [row|] eqn:E.
      * right; right. exists k, env, points, row, st, d, tm, e.
        split_and!; try done. destruct Hst as [[-> _]|[-> _]]; auto.
      * by left.
    + left. by apply select_update_ne.
Qed.

(** A goroutine runs only on a job that is pending. *)
Lemma work_pending σ k token points row :
  sys_inv σ → pool σ !! k = Some (token, points) →
  store_select token (store σ) = Some row → c_status row = 0.
Proof.
  intros [_ Hpool _] Hk Hrow. rewrite Forall_forall in Hpool.
  destruct (Hpool (token, points)) as (row' & _ & Hrow' & Hs & _).
  { by eapply list_elem_of_lookup_2. }
  simpl in *. congruence.
Qed.

(** C2.  The lifecycle.  In a state that satisfies the invariant, a
    transition leaves the job of a token where it is, creates it pending,
    or takes it from pending to success or to failure: no other change of
    status exists. *)
Theorem step_lifecycle σ ev obs σ' token :
  sys_inv σ → step σ ev obs σ' →
  lifecycle (job_state σ token) (job_state σ' token).
Proof.
  intros Hinv Hstep. unfold job_state.
  destruct (step_select σ ev obs σ' token Hstep)
    as [->|[(r & env & row & _ & _ & -> & -> & Hs & _)
           |(k & env & pts & row & st & d & tm & e & _ & Hk & _ & Hrow & -> & Hst)]].
  - constructor.
  - simpl. rewrite Hs. constructor.
  - rewrite Hrow. simpl. rewrite (work_pending σ k token pts row) by done.
    destruct Hst as [-> | ->]; constructor.
Qed.

Lemma step_terminal_stable σ ev obs σ' token row :
  sys_inv σ → step σ ev obs σ' →
  store_select token (store σ) = Some row → c_status row ≠ 0 →
  store_select token (store σ') = Some row.
Proof.
  intros Hinv Hstep Hrow Hst.
  destruct (step_select σ ev obs σ' token Hstep)
    as [->|[(r & env & row' & _ & _ & Hnone & _)
           |(k & env & pts & row' & st & d & tm & e & _ & Hk & _ & Hrow' & _)]].
  - done.
  - congruence.
  - destruct Hst. eapply work_pending; eauto.
Qed.

Lemma run_terminal_stable σ tr σ' token row :
  sys_inv σ → run σ tr σ' →
  store_select token (store σ) = Some row → c_status row ≠ 0 →
  store_select token (store σ') = Some row.
Proof.
  intros Hinv Hrun. revert Hinv.
  induction Hrun as [|σ ev obs σ' tr σ'' Hs _ IH]; [done|].
  intros Hinv Hrow Hst. apply IH; [by eapply sys_inv_step|..|done].
  by eapply step_terminal_stable.
Qed.

(** C3.  A terminal job never changes.  Once the row of a token holds a
    status other than pending, every run of the service, whatever it is
    made of, leaves that row as it is (status, totals, error and path), and
    no goroutine for the token is in flight at the end. *)
Theorem terminal_stable σ tr σ' token row :
  sys_inv σ → run σ tr σ' →
  store_select token (store σ) = Some row → c_status row ≠ 0 →
  store_select token (store σ') = Some row ∧ token ∉ (pool σ').*1.
Proof.
  intros Hinv Hrun Hrow Hst.
  pose proof (run_terminal_stable σ tr σ' token row Hinv Hrun Hrow Hst) as Hrow'.
  split; [done|]. intros ([tok pts] & Heq & Hin)%list_elem_of_fmap. simpl in Heq. subst tok.
  destruct (sys_inv_run σ tr σ' Hinv Hrun) as [_ Hpool _].
  rewrite Forall_forall in Hpool.
  destruct (Hpool _ Hin) as (row'' & _ & Hsel & Hpending & _). simpl in *. congruence.
Qed.

(** The poll of a token whose job is stored, on a database that answers,
    is answered with the document of the job. *)
Lemma poll_says σ token row renv :
  sys_inv σ → select_fault renv = None → store_select token (store σ) = Some row →
  ∃ p result, Unmarshal (c_path row) = Ok p ∧ valid_route p ∧ says p result
    ∧ ∀ routeJson, Marshal (shortestRoute_json result) = Ok routeJson →
        writer (exec (routeHandler token renv) (world_of (store σ)))
        = json_response routeJson.
Proof.
  intros [_ _ Hrows] Hf Hrow. destruct (Hrows token row Hrow) as [[st Hst] (p & Hp & Hv)].
  assert (∃ result, rendered row = Some result) as [result Hr].
  { unfold rendered. rewrite Hst, Hp. destruct st; eauto. }
  exists p, result. split_and!; [done..|by eapply rendered_says|].
  intros routeJson Hm. rewrite routeHandler_exec.
  by rewrite (report_world_renders token renv _ row result routeJson).
Qed.

(** The stored body of a job never changes and its row is never removed. *)
Lemma step_path_stable σ ev obs σ' token row :
  step σ ev obs σ' → store_select token (store σ) = Some row →
  ∃ row', store_select token (store σ') = Some row' ∧ c_path row' = c_path row.
Proof.
  intros Hstep Hrow.
  destruct (step_select σ ev obs σ' token Hstep)
    as [->|[(r & env & row' & _ & _ & Hnone & _)
           |(k & env & pts & row' & st & d & tm & e & _ & _ & _ & Hrow' & -> & _)]].
  - eauto.
  - congruence.
  - eexists. split; [done|]. simpl. congruence.
Qed.

Lemma run_path_stable σ tr σ' token row :
  run σ tr σ' → store_select token (store σ) = Some row →
  ∃ row', store_select token (store σ') = Some row' ∧ c_path row' = c_path row.
Proof.
  intros Hrun. revert row. induction Hrun as [|σ ev obs σ' tr σ'' Hs _ IH]; [eauto|].
  intros row Hrow. destruct (step_path_stable _ _ _ _ _ _ Hs Hrow) as (row1 & H1 & <-).
  by apply IH.
Qed.

End system_lifecycle.

(** ** Each goroutine runs once *)

Section system_once.
Context {T : Type} {JS : JobStore T} {JSL : JobStoreLaws T} {J : Json}.
Implicit Types (σ : system T) (ev : event) (obs : observation) (token : string).

Lemma ran_tokens_cons ev obs tr :
  ran_tokens ((ev, obs) :: tr)
  = match obs with Ran token => token :: ran_tokens tr | Response _ => ran_tokens tr end.
Proof. by destruct obs. Qed.

(** A row is never removed. *)
Lemma step_select_None σ ev obs σ' token :
  step σ ev obs σ' → store_select token (store σ') = None →
  store_select token (store σ) = None.
Proof.
  intros Hstep Hnone. destruct (store_select token (store σ)) as [row|] eqn:Hrow; [|done].
  destruct (step_path_stable _ _ _ _ _ _ Hstep Hrow) as (row' & Hrow' & _). congruence.
Qed.

(** The goroutines of the pool were in the pool before, or belong to a job
    that did not exist before. *)
Lemma step_pool σ ev obs σ' token :
  step σ ev obs σ' → token ∈ (pool σ').*1 →
  token ∈ (pool σ).*1 ∨ store_select token (store σ) = None.
Proof.
  intros [σ0 r env _|σ0 tok env _|σ0 k env tok points _ Hk]; simpl.
  - destruct (pathHandler_cases r env (world_of (store σ0)))
      as [(_ & -> & _)|(body & p & _ & _ & _ & Hins & ->)]; simpl.
    + rewrite app_nil_r. auto.
    + rewrite fmap_app, elem_of_app. intros [?|Heq%list_elem_of_singleton]; [auto|].
      simpl in Heq. subst. right. by eapply insert_fresh.
  - destruct (routeHandler_frame tok env (world_of (store σ0))) as (_ & ->).
    rewrite app_nil_r. auto.
  - destruct (panics _); [by intros ?%not_elem_of_nil|].
    rewrite list_fmap_delete. intros ?%list_elem_of_delete_inv. auto.
Qed.

(** The goroutine that ran is no longer in the pool. *)
Lemma step_work_leaves σ k env token σ' :
  sys_inv σ → step σ (Work k env) (Ran token) σ' →
  token ∈ (pool σ).*1 ∧ (token ∉ (pool σ').*1) ∧
  is_Some (store_select token (store σ)).
Proof.
  intros [Hnd Hpool _] Hstep. inversion Hstep as [| |σ0 k0 env0 tok points _ Hk]; subst.
  rewrite Forall_forall in Hpool.
  destruct (Hpool (token, points)) as (row & _ & Hrow & _);
    [by eapply list_elem_of_lookup_2|].
  split_and!; [|simpl|by eexists].
  - apply list_elem_of_fmap. exists (token, points).
    split; [done|]. by eapply list_elem_of_lookup_2.
  - destruct (panics _); [apply not_elem_of_nil|].
    intros ([tok' pts'] & Heq & Hin)%list_elem_of_fmap. simpl in Heq. subst tok'.
    by eapply (pool_other_tokens (pool σ) k token points (token, pts')).
Qed.

Lemma run_ran_tokens σ tr σ' :
  sys_inv σ → run σ tr σ' →
  NoDup (ran_tokens tr) ∧
  ∀ token, token ∈ ran_tokens tr →
           token ∈ (pool σ).*1 ∨ store_select token (store σ) = None.
Proof.
  intros Hinv Hrun. revert Hinv.
  induction Hrun as [|σ ev obs σ1 tr σ2 Hs _ IH]; intros Hinv.
  { split; [constructor|]. by intros ? ?%not_elem_of_nil. }
  destruct (IH (sys_inv_step _ _ _ _ Hinv Hs)) as [Hnd Hin].
  assert (∀ token, token ∈ ran_tokens tr →
            token ∈ (pool σ).*1 ∨ store_select token (store σ) = None) as Hin'.
  { intros token Ht. destruct (Hin token Ht); eauto using step_pool, step_select_None. }
  rewrite ran_tokens_cons. destruct obs as [calls|token]; [done|].
  assert (∃ k env, ev = Work k env) as (k & env & ->) by (inversion Hs; eauto).
  destruct (step_work_leaves _ _ _ _ _ Hinv Hs) as (Hpool & Hgone & [row Hrow]).
  split.
  - apply NoDup_cons. split; [|done]. intros Ht.
    destruct (Hin token Ht) as [Hp|Hn]; [done|].
    apply (step_select_None _ _ _ _ _ Hs) in Hn. congruence.
  - intros token' [->|?]%elem_of_cons; auto.
Qed.

(** A row was created by a submission of the run, under its token. *)
Lemma row_submitted σ tr σ' token :
  run σ tr σ' → store_select token (store σ) = None →
  is_Some (store_select token (store σ')) →
  ∃ r env calls, (Submit r env, Response calls) ∈ tr ∧ uuid_NewV4 env = token.
Proof.
  induction 1 as [|σ ev obs σ1 tr σ2 Hs _ IH]; intros Hnone Hsome.
  { rewrite Hnone in Hsome. by destruct Hsome. }
  destruct (step_select σ ev obs σ1 token Hs)
    as [Heq|[(r & env & row & -> & -> & _)|(k & env & pts & row & ? & ? & ? & ? & _ & _ & _ & ? & _)]];
    [|inversion Hs; subst; eexists _, _, _; split; [by left|done]|congruence].
  destruct IH as (r & env & calls & Hin & Htoken); [congruence|done|].
  exists r, env, calls. split; [by right|done].
Qed.

(** A job whose goroutine is not in the pool stays without one. *)
Lemma run_pool_gone σ tr σ' token :
  run σ tr σ' → is_Some (store_select token (store σ)) → token ∉ (pool σ).*1 →
  token ∉ (pool σ').*1.
Proof.
  induction 1 as [|σ ev obs σ1 tr σ2 Hs _ IH]; [done|]. intros [row Hrow] Hgone.
  destruct (step_path_stable _ _ _ _ _ _ Hs Hrow) as (row' & Hrow' & _).
  apply IH; [by eexists|]. intros Hin.
  destruct (step_pool _ _ _ _ _ Hs Hin); [done|congruence].
Qed.

(** The goroutine of a token that ran is no longer in the pool. *)
Lemma ran_left_pool σ tr σ' token :
  sys_inv σ → run σ tr σ' → token ∈ ran_tokens tr → token ∉ (pool σ').*1.
Proof.
  intros Hinv Hrun. revert Hinv.
  induction Hrun as [|σ ev obs σ1 tr σ2 Hs Hrun IH]; intros Hinv.
  { by intros ?%not_elem_of_nil. }
  rewrite ran_tokens_cons. pose proof (sys_inv_step _ _ _ _ Hinv Hs) as Hinv1.
  destruct obs as [calls|token']; [by apply IH|].
  intros [->|Hin]%elem_of_cons; [|by apply IH].
  assert (∃ k env, ev = Work k env) as (k & env & ->) by (inversion Hs; eauto).
  destruct (step_work_leaves _ _ _ _ _ Hinv Hs) as (_ & Hgone & [row Hrow]).
  destruct (step_path_stable _ _ _ _ _ _ Hs Hrow) as (row' & Hrow' & _).
  apply (run_pool_gone σ1 tr σ2); [done|by eexists|done].
Qed.

(** C4.  Exactly once.  In every run of the service from a state that
    satisfies the invariant, no token has its goroutine run twice: the
    tokens of the goroutines that ran are pairwise distinct. *)
Theorem goroutine_runs_once σ tr σ' :
  sys_inv σ → run σ tr σ' → NoDup (ran_tokens tr).
Proof. intros Hinv Hrun. by destruct (run_ran_tokens σ tr σ' Hinv Hrun). Qed.

End system_once.

(** ** Crashes and progress *)

Section system_progress.
Context {T : Type} {JS : JobStore T} {JSL : JobStoreLaws T} {J : Json}.
Implicit Types (σ : system T) (ev : event) (obs : observation) (token : string).

Lemma full_matrix_well_shaped req : well_shaped req (full_matrix req).
Proof.
  split; simpl; [by rewrite length_fmap|].
  apply Forall_fmap, Forall_forall. intros o _. simpl. by rewrite length_imap.
Qed.

Lemma honest_provider_contract : provider_keeps_contract honest_provider.
Proof. split; [done|]. intros req resp [= <-]. apply full_matrix_well_shaped. Qed.

Lemma trace_of_ok σ evs :
  is_Some (apply_events σ evs) → Forall event_ok evs →
  Forall (λ eo, event_ok eo.1) (trace_of σ evs).
Proof.
  intros Hs Hok. apply (proj1 (Forall_fmap fst event_ok _)).
  by rewrite trace_of_events.
Qed.

(** The goroutines of the pool hold at least two waypoints. *)
Lemma pool_request σ k token points :
  sys_inv σ → pool σ !! k = Some (token, points) →
  ∃ req, request_of points = Some req ∧ (2 ≤ length points)%nat.
Proof.
  intros [_ Hpool _] Hk. rewrite Forall_forall in Hpool.
  destruct (Hpool (token, points)) as (row & p & _ & _ & _ & [[Hlen _] _] & Hpts);
    [by eapply list_elem_of_lookup_2|]. simpl in Hpts.
  assert (2 ≤ length points)%nat as Hl by (by rewrite Hpts, points_of_length).
  destruct points as [|pt points]; [simpl in Hl; lia|]. eauto.
Qed.

Lemma step_no_crash σ ev obs σ' :
  sys_inv σ → step σ ev obs σ' → event_ok ev → crashed σ' = false.
Proof.
  intros Hinv Hstep. destruct Hstep as [σ r env Hc|σ tok env Hc|σ k env tok points Hc Hk];
    intros Hok; [done..|].
  simpl. destruct (pool_request σ k tok points Hinv Hk) as (req & Hreq & _).
  rewrite processRoute_outcome.
  destruct Hok as [Hcl Hshape]. eapply worker_verdict_safe; [done..|].
  intros resp. apply Hshape.
Qed.

(** No crash under the contract.  From a state that satisfies the
    invariant, a run in which the provider keeps its contract in every
    event never crashes the process: no goroutine panics on a slice or on
    the index of an element. *)
Theorem no_crash σ tr σ' :
  sys_inv σ → crashed σ = false → run σ tr σ' →
  Forall (λ eo, event_ok eo.1) tr → crashed σ' = false.
Proof.
  intros Hinv Hc Hrun. revert Hinv Hc.
  induction Hrun as [|σ ev obs σ1 tr σ2 Hs _ IH]; [done|].
  intros Hinv Hc [Hev Htr]%Forall_cons.
  apply IH; [by eapply sys_inv_step|by eapply step_no_crash|done].
Qed.

(** Under the contract and without a fault of [db.Prepare] the goroutine
    reaches a verdict. *)
Lemma worker_verdict_contract env points req :
  prepare_fault env = None → request_of points = Some req →
  provider_keeps_contract env →
  ∃ st d tm e, worker_verdict_of env points = Outcome st d tm e.
Proof.
  intros Hp Hreq [Hcl Hc]. unfold worker_verdict_of. rewrite Hp, Hreq, Hcl.
  destruct (DistanceMatrix env req) as [resp|e] eqn:Hdm; [|eauto].
  pose proof (tally_legs_all_present _ 0 0
                (well_shaped_diagonal points req resp Hreq (Hc req resp Hdm))).
  unfold tally_rows. destruct (tally_legs _ _ _); [eauto..|done].
Qed.

(** Every accepted job can finish.  In a state that satisfies the
    invariant and has not crashed, the goroutine of any job of the pool can
    run, and when the database works and the provider keeps its contract
    the step leaves the job in a terminal state, out of the pool, and the
    process alive. *)
Theorem job_can_finish σ k token points env :
  sys_inv σ → crashed σ = false → pool σ !! k = Some (token, points) →
  prepare_fault env = None → exec_fault env = None → provider_keeps_contract env →
  ∃ σ', step σ (Work k env) (Ran token) σ' ∧ crashed σ' = false ∧
        (token ∉ (pool σ').*1) ∧
        (job_state σ' token = Some Success ∨ job_state σ' token = Some Failure).
Proof.
  intros Hinv Hc Hk Hp He Hcontract.
  pose proof (step_work σ k env token points Hc Hk) as Hstep.
  eexists. split; [exact Hstep|].
  destruct (step_work_leaves _ _ _ _ _ Hinv Hstep) as (_ & Hgone & [row Hrow]).
  split_and!; [by eapply step_no_crash|done|].
  destruct (pool_request σ k token points Hinv Hk) as (req & Hreq & _).
  destruct (worker_verdict_contract env points req) as (st & d & tm & e & Hv); [done..|].
  unfold job_state. simpl.
  rewrite (worker_world_select env token points (world_of (store σ)) row st d tm e)
    by done. simpl.
  destruct (worker_verdict_status env points st d tm e Hv) as [-> | ->]; auto.
Qed.

(** ** The path reported is the path submitted *)

(** C31.  Round trip.  If a submission creates the job of its token from a
    body that decodes to the route [p], then after any run, once the job is
    a success, polling the token answers the encoding of a success whose
    path is [p], element for element, with the totals of the row. *)
Theorem success_reports_submitted_path σ r env obs σ1 tr σ2 body p row2 renv routeJson :
  step σ (Submit r env) obs σ1 →
  store_select (uuid_NewV4 env) (store σ) = None →
  is_Some (store_select (uuid_NewV4 env) (store σ1)) →
  Body r = Ok body → Unmarshal body = Ok p →
  run σ1 tr σ2 →
  store_select (uuid_NewV4 env) (store σ2) = Some row2 → c_status row2 = 1 →
  select_fault renv = None →
  Marshal (shortestRoute_json
             (success p (c_total_distance row2) (c_total_time row2))) = Ok routeJson →
  writer (exec (routeHandler (uuid_NewV4 env) renv) (world_of (store σ2)))
  = [WHeaderSet "Content-Type" "application/json"; WWrite routeJson].
Proof.
  intros Hstep Hfresh [row1 Hrow1] Hb Hu Hrun Hrow2 Hst Hf Hm.
  assert (c_path row1 = body) as Hpath.
  { destruct (step_select σ _ obs σ1 (uuid_NewV4 env) Hstep)
      as [Heq|[(r' & env' & row & [= <- <-] & _ & _ & Hrow & _ & Hbody)
             |(k & env' & ? & ? & ? & ? & ? & ? & [=] & _)]].
    - congruence.
    - rewrite Hb in Hbody. congruence. }
  destruct (run_path_stable _ _ _ _ _ Hrun Hrow1) as (row2' & Hrow2' & Hpath2).
  assert (row2' = row2) as -> by congruence.
  rewrite routeHandler_exec.
  apply (report_world_renders _ renv (world_of (store σ2)) row2
           (success p (c_total_distance row2) (c_total_time row2))); try done.
  unfold rendered. rewrite Hst. simpl. by rewrite Hpath2, Hpath, Hu.
Qed.

(** Polling an issued token.  In a state that satisfies the
    invariant, the job of a token that has a row is rendered as in
    progress, as a failure with the stored error, or as a success with the
    decoded route: the stored body always decodes, to a valid route. *)
Theorem issued_token_rendered σ token row :
  sys_inv σ → store_select token (store σ) = Some row →
  ∃ p, Unmarshal (c_path row) = Ok p ∧ valid_route p ∧
       (rendered row = Some in_progress
        ∨ rendered row = Some (failure (c_response_error row))
        ∨ rendered row = Some (success p (c_total_distance row) (c_total_time row))).
Proof.
  intros [_ _ Hrows] Hrow. destruct (Hrows token row Hrow) as [[st Hst] (p & Hp & Hv)].
  exists p. split_and!; [done..|]. unfold rendered. rewrite Hst, Hp.
  destruct st; auto.
Qed.

(** ** Every job gets its own outcome *)

(** A run goes through each of its events. *)
Lemma run_elem_of σ tr σ' ev obs :
  run σ tr σ' → (ev, obs) ∈ tr →
  ∃ tr1 σ1 σ2 tr2, run σ tr1 σ1 ∧ step σ1 ev obs σ2 ∧ run σ2 tr2 σ'.
Proof.
  induction 1 as [|σ ev0 obs0 σ0 tr σ' Hs Hrun IH]; [by intros ?%not_elem_of_nil|].
  intros [[= -> ->]|Hin]%elem_of_cons.
  - exists [], σ, σ0, tr. split_and!; [constructor|done..].
  - destruct (IH Hin) as (tr1 & σ1 & σ2 & tr2 & Hr1 & Hstep & Hr2).
    exists ((ev0, obs0) :: tr1), σ1, σ2, tr2. split_and!; [|done..].
    by econstructor.
Qed.

(** The goroutine of a job whose write goes through finds the row pending
    and leaves the verdict in it. *)
Lemma work_outcome σ k env token points st d tm e :
  sys_inv σ → pool σ !! k = Some (token, points) →
  worker_verdict_of env points = Outcome st d tm e → exec_fault env = None →
  ∃ row p, store_select token (store σ) = Some row ∧
    Unmarshal (c_path row) = Ok p ∧ valid_route p ∧ points = points_of p ∧
    store_select token
      (db (exec (processRoute env token points) (world_of (store σ))))
    = Some (set_outcome st d tm e row).
Proof.
  intros [_ Hpool _] Hk Hv He. rewrite Forall_forall in Hpool.
  destruct (Hpool (token, points)) as (row & p & Hrow & _ & Hp & Hvalid & Hpts);
    [by eapply list_elem_of_lookup_2|].
  simpl in *. exists row, p. split_and!; try done. by apply worker_world_select.
Qed.

(** What a step of a goroutine is. *)
(** The transitions of the handlers, read backwards. *)
Lemma step_submit_inv σ r env calls σ' :
  step σ (Submit r env) (Response calls) σ' →
  calls = writer (exec (pathHandler r env) (world_of (store σ)))
  ∧ σ' = served σ (exec (pathHandler r env) (world_of (store σ))).
Proof. by inversion 1. Qed.

Lemma step_poll_inv σ token env calls σ' :
  step σ (Poll token env) (Response calls) σ' →
  calls = writer (exec (routeHandler token env) (world_of (store σ)))
  ∧ σ' = served σ (exec (routeHandler token env) (world_of (store σ))).
Proof. by inversion 1. Qed.

Lemma step_work_inv σ k env token σ' :
  step σ (Work k env) (Ran token) σ' →
  ∃ points, pool σ !! k = Some (token, points) ∧
    σ' = worked σ k (exec (processRoute env token points) (world_of (store σ)))
           (outcome (processRoute env token points) (world_of (store σ))).
Proof. intros Hstep. inversion Hstep; subst. eauto. Qed.

(** After the goroutine of a token has written its verdict, the row holds
    it at the end of every run. *)
Lemma run_job_outcome σ k env token σ1 tr σ2 :
  sys_inv σ → step σ (Work k env) (Ran token) σ1 → run σ1 tr σ2 →
  prepare_fault env = None → exec_fault env = None → provider_keeps_contract env →
  ∃ row p st d tm e, store_select token (store σ) = Some row ∧
    Unmarshal (c_path row) = Ok p ∧ valid_route p ∧
    worker_verdict_of env (points_of p) = Outcome st d tm e ∧
    store_select token (store σ2) = Some (set_outcome st d tm e row).
Proof.
  intros Hinv Hstep Hrun Hp He Hc.
  destruct (step_work_inv _ _ _ _ _ Hstep) as (points & Hk & Hσ1).
  destruct (pool_request σ k token points Hinv Hk) as (req & Hreq & _).
  destruct (worker_verdict_contract env points req) as (st & d & tm & e & Hv); [done..|].
  destruct (work_outcome σ k env token points st d tm e)
    as (row & p & Hrow & Hpath & Hvalid & -> & Hsel); [done..|].
  exists row, p, st, d, tm, e. split_and!; try done.
  apply (run_terminal_stable σ1 tr); [by eapply sys_inv_step|done|by subst|].
  simpl. by destruct (worker_verdict_status env _ st d tm e Hv) as [-> | ->].
Qed.

(** C5.  No mixing between jobs.  In every run from a state that satisfies
    the invariant, whatever the interleaving of the requests and of the
    goroutines of other jobs, the row of each token whose goroutine ran
    with a working database and a provider that keeps its contract holds,
    at the end of the run, the verdict computed from the path stored for
    that token and from the answers given to its own goroutine: its
    status, its totals and its error, on the path as submitted. *)
Theorem no_cross_token_mixing σ tr σ' k env token :
  sys_inv σ → run σ tr σ' → (Work k env, Ran token) ∈ tr →
  prepare_fault env = None → exec_fault env = None → provider_keeps_contract env →
  ∃ row p st d tm e, store_select token (store σ') = Some row ∧
    Unmarshal (c_path row) = Ok p ∧ valid_route p ∧
    worker_verdict_of env (points_of p) = Outcome st d tm e ∧
    c_status row = st ∧ c_total_distance row = d ∧ c_total_time row = tm ∧
    c_response_error row = e.
Proof.
  intros Hinv Hrun Hin Hp He Hc.
  destruct (run_elem_of _ _ _ _ _ Hrun Hin) as (tr1 & σ1 & σ2 & tr2 & Hr1 & Hstep & Hr2).
  destruct (run_job_outcome σ1 k env token σ2 tr2 σ')
    as (row & p & st & d & tm & e & _ & Hpath & Hvalid & Hv & Hsel); try done.
  { by eapply sys_inv_run. }
  exists (set_outcome st d tm e row), p, st, d, tm, e. by split_and!.
Qed.

(** C11.  End to end.  When the goroutine of a job runs with a working
    database and a client that was built, and the provider answers its request with a matrix whose
    diagonal legs are all [OK], then after any further run of the service
    a poll of the token answers a success with the route as submitted and
    with the sums of the distances and of the durations of the legs, on
    64 bits. *)
Theorem route_success_end_to_end σ k env token σ1 tr σ2 points req resp legs renv :
  sys_inv σ → step σ (Work k env) (Ran token) σ1 → run σ1 tr σ2 →
  pool σ !! k = Some (token, points) →
  prepare_fault env = None → client_panic env = None → exec_fault env = None →
  request_of points = Some req → DistanceMatrix env req = Ok resp →
  diagonal (Rows resp) 0 = Some <$> legs →
  Forall (λ e, ElementStatus e = "OK") legs →
  select_fault renv = None →
  ∃ p, points = points_of p ∧ valid_route p ∧
    ∀ routeJson,
      Marshal (shortestRoute_json
                 (success p (wrap64 (sum_meters legs)) (wrap64 (sum_seconds legs))))
      = Ok routeJson →
      writer (exec (routeHandler token renv) (world_of (store σ2)))
      = [WHeaderSet "Content-Type" "application/json"; WWrite routeJson].
Proof.
  intros Hinv Hstep Hrun Hk Hp Hcl He Hreq Hdm Hdiag Hok Hf.
  pose proof (worker_verdict_totals env points req resp legs Hp Hcl Hreq Hdm Hdiag Hok)
    as Hv.
  destruct (work_outcome σ k env token points _ _ _ _ Hinv Hk Hv He)
    as (row & p & Hrow & Hpath & Hvalid & Hpts & Hsel).
  assert (store_select token (store σ1)
          = Some (set_outcome 1 (wrap64 (sum_meters legs)) (wrap64 (sum_seconds legs))
                    EmptyString row)) as Hsel1.
  { destruct (step_work_inv _ _ _ _ _ Hstep) as (points' & Hk' & ->).
    by assert (points' = points) as -> by congruence. }
  exists p. split_and!; [done..|]. intros routeJson Hm.
  rewrite routeHandler_exec.
  apply (report_world_renders token renv (world_of (store σ2))
           (set_outcome 1 (wrap64 (sum_meters legs)) (wrap64 (sum_seconds legs))
              EmptyString row)
           (success p (wrap64 (sum_meters legs)) (wrap64 (sum_seconds legs))));
    [done| |by unfold rendered; simpl; rewrite Hpath|done].
  apply (run_terminal_stable σ1 tr σ2); [by eapply sys_inv_step|done..].
Qed.

(** The verdict when the provider fails with [e], or when the first leg
    that is not [OK] has the status [e]: a failure with that text and no
    totals. *)
Lemma worker_verdict_failed env points req e :
  prepare_fault env = None → client_panic env = None → request_of points = Some req →
  (DistanceMatrix env req = Err e
   ∨ ∃ resp oks el rest, DistanceMatrix env req = Ok resp
       ∧ diagonal (Rows resp) 0 = (Some <$> oks) ++ Some el :: rest
       ∧ Forall (λ l, ElementStatus l = "OK") oks
       ∧ ElementStatus el = e ∧ e ≠ "OK") →
  worker_verdict_of env points = Outcome (-1) 0 0 e.
Proof.
  intros Hp Hcl Hreq Hfail. unfold worker_verdict_of, tally_rows. rewrite Hp, Hreq, Hcl.
  destruct Hfail as [->|(resp & oks & el & rest & -> & -> & Hok & <- & Hne)]; [done|].
  by rewrite tally_legs_failed.
Qed.

(** C21.  A failure end to end.  When the goroutine of a job runs with a
    working database and a client that was built, and the provider fails
    with the error [e], or answers with a matrix in which the first
    diagonal leg that is not [OK] has the status [e], whatever the legs
    after it, then after any further run of the service the row of the
    token holds the status -1, no totals and the text [e], and a poll of
    the token answers a failure with that text: the sums of the legs
    before the one that failed are not kept, and no path is reported. *)
Theorem route_failure_end_to_end σ k env token σ1 tr σ2 points req e renv :
  sys_inv σ → step σ (Work k env) (Ran token) σ1 → run σ1 tr σ2 →
  pool σ !! k = Some (token, points) →
  prepare_fault env = None → client_panic env = None → exec_fault env = None →
  request_of points = Some req →
  (DistanceMatrix env req = Err e
   ∨ ∃ resp oks el rest, DistanceMatrix env req = Ok resp
       ∧ diagonal (Rows resp) 0 = (Some <$> oks) ++ Some el :: rest
       ∧ Forall (λ l, ElementStatus l = "OK") oks
       ∧ ElementStatus el = e ∧ e ≠ "OK") →
  select_fault renv = None →
  (∃ row, store_select token (store σ2) = Some row ∧ c_status row = -1
     ∧ c_total_distance row = 0 ∧ c_total_time row = 0 ∧ c_response_error row = e)
  ∧ ∀ routeJson, Marshal (shortestRoute_json (failure e)) = Ok routeJson →
      writer (exec (routeHandler token renv) (world_of (store σ2)))
      = [WHeaderSet "Content-Type" "application/json"; WWrite routeJson].
Proof.
  intros Hinv Hstep Hrun Hk Hp Hcl He Hreq Hfail Hf.
  pose proof (worker_verdict_failed env points req e Hp Hcl Hreq Hfail) as Hv.
  destruct (work_outcome σ k env token points _ _ _ _ Hinv Hk Hv He)
    as (row & p & Hrow & Hpath & Hvalid & Hpts & Hsel).
  assert (store_select token (store σ2) = Some (set_outcome (-1) 0 0 e row)) as Hsel2.
  { apply (run_terminal_stable σ1 tr σ2); [by eapply sys_inv_step|done| |done].
    destruct (step_work_inv _ _ _ _ _ Hstep) as (points' & Hk' & ->).
    by assert (points' = points) as -> by congruence. }
  split; [by eexists|]. intros routeJson Hm. rewrite routeHandler_exec.
  by apply (report_world_renders token renv (world_of (store σ2))
              (set_outcome (-1) 0 0 e row) (failure e)).
Qed.

(** C36.  Without a client the first job ends the service.  The error of
    [maps.NewClient] is discarded at line 155: when it fails, for want of
    a key for instance, the client is [nil].  If the call on it panics,
    the goroutine of any job in flight, run in such an environment, ends
    the process: the store is as it was, so the job is still pending, the
    goroutines in flight are lost, and no transition is possible any
    more.  Every job that was pending stays pending. *)
Theorem nil_client_crashes σ k env token points e msg :
  sys_inv σ → crashed σ = false → pool σ !! k = Some (token, points) →
  prepare_fault env = None →
  NewClient_fault env = Some e → nil_client_panic env = Some msg →
  ∃ σ', step σ (Work k env) (Ran token) σ'
    ∧ crashed σ' = true ∧ pool σ' = []
    ∧ (∀ token', store_select token' (store σ') = store_select token' (store σ))
    ∧ job_state σ' token = Some Pending
    ∧ ∀ ev obs σ'', ¬ step σ' ev obs σ''.
Proof.
  intros Hinv Hc Hk Hp Hnew Hnil.
  destruct (pool_request σ k token points Hinv Hk) as (_ & _ & Hlen).
  assert (worker_verdict_of env points = Panicked msg) as Hv.
  { apply (worker_verdict_nil_client env points e msg); try done.
    intros ->. simpl in Hlen. lia. }
  eexists. split; [by apply step_work|]. simpl.
  rewrite processRoute_outcome, processRoute_exec, worker_world_db, Hv. simpl.
  split_and!; try done.
  - pose proof (inv_pool σ Hinv) as Hpool. rewrite Forall_forall in Hpool.
    destruct (Hpool (token, points)) as (row & p & Hrow & Hst & _);
      [by eapply list_elem_of_lookup_2|].
    unfold job_state. simpl in *. rewrite worker_world_db, Hv. simpl.
    by rewrite Hrow; simpl; rewrite Hst.
  - by intros ev obs σ'' Hstep%step_not_crashed.
Qed.

End system_progress.

(** ** The example session *)

Lemma example_session_happens : is_Some (apply_events example_start example_session).
Proof. events_happen. Qed.

Lemma sys_inv_example_submitted : sys_inv example_submitted.
Proof. apply sys_inv_after; [apply sys_inv_init|events_happen]. Qed.

Lemma sys_inv_example_computed : sys_inv example_computed.
Proof. apply sys_inv_after; [apply sys_inv_init|events_happen]. Qed.

(** The session of the specification's example, response by response. *)
Example example_session_responses :
  snd <$> apply_events example_start example_session
  = Some [Response (json_response
                      ("{" +:+ quoted "token" +:+ ":" +:+ quoted example_token +:+ "}"));
          Response (json_response in_progress_body);
          Ran example_token;
          Response (json_response success_body)].
Proof. vm_compute. reflexivity. Qed.

Example example_session_store :
  store (state_after example_start example_session) = [example_row]
  ∧ pool (state_after example_start example_session) = []
  ∧ crashed (state_after example_start example_session) = false.
Proof. vm_compute. done. Qed.

Lemma sys_inv_reachable_witness : sys_inv (state_after example_start example_session).
Proof.
  apply sys_inv_reachable. exists (trace_of example_start example_session).
  apply run_trace_of, example_session_happens.
Defined.

Lemma step_lifecycle_witness :
  lifecycle (job_state example_submitted example_token)
    (job_state example_computed example_token).
Proof.
  apply (step_lifecycle example_submitted example_work (Ran example_token)
           example_computed example_token); [apply sys_inv_example_submitted|].
  apply step_apply_event. vm_compute. reflexivity.
Defined.

Lemma terminal_stable_witness :
  store_select example_token
    (store (state_after example_computed [example_poll; example_submit; example_poll]))
  = Some example_row
  ∧ example_token
    ∉ (pool (state_after example_computed [example_poll; example_submit; example_poll])).*1.
Proof.
  apply (terminal_stable example_computed
           (trace_of example_computed [example_poll; example_submit; example_poll]));
    [apply sys_inv_example_computed| |reflexivity|done].
  apply run_trace_of. events_happen.
Defined.

Lemma goroutine_runs_once_witness :
  NoDup (ran_tokens (trace_of example_start example_session)).
Proof.
  apply (goroutine_runs_once example_start (trace_of example_start example_session)
           (state_after example_start example_session)); [apply sys_inv_init|].
  apply run_trace_of, example_session_happens.
Defined.

Lemma no_crash_witness : crashed (state_after example_start example_session) = false.
Proof.
  apply (no_crash example_start (trace_of example_start example_session));
    [apply sys_inv_init|reflexivity|apply run_trace_of, example_session_happens|].
  apply trace_of_ok; [apply example_session_happens|].
  repeat first [apply Forall_nil_2|apply Forall_cons_2]; try exact I.
  apply honest_provider_contract.
Defined.

Lemma job_can_finish_witness :
  ∃ σ', step example_submitted example_work (Ran example_token) σ' ∧
        crashed σ' = false ∧ (example_token ∉ (pool σ').*1) ∧
        (job_state σ' example_token = Some Success
         ∨ job_state σ' example_token = Some Failure).
Proof.
  apply (job_can_finish example_submitted 0 example_token example_points
           honest_provider);
    [apply sys_inv_example_submitted|reflexivity..|apply honest_provider_contract].
Defined.

Lemma success_reports_submitted_path_witness :
  writer (exec (routeHandler example_token no_fault) (world_of (store example_computed)))
  = json_response success_body.
Proof.
  apply (success_reports_submitted_path example_start {| Body := Ok example_body |}
           example_env
           (Response (json_response
                        ("{" +:+ quoted "token" +:+ ":" +:+ quoted example_token +:+ "}")))
           example_submitted (trace_of example_submitted [example_work])
           example_computed example_body example_route example_row no_fault success_body);
    try reflexivity.
  - apply step_apply_event. vm_compute. reflexivity.
  - vm_compute. eexists. reflexivity.
  - replace example_computed with (state_after example_submitted [example_work])
      by (vm_compute; reflexivity).
    apply run_trace_of. events_happen.
Defined.

Lemma no_cross_token_mixing_witness :
  ∃ row p st d tm e,
    store_select example_token (store (state_after example_start example_session))
    = Some row ∧
    Unmarshal (c_path row) = Ok p ∧ valid_route p ∧
    worker_verdict_of honest_provider (points_of p) = Outcome st d tm e ∧
    c_status row = st ∧ c_total_distance row = d ∧ c_total_time row = tm ∧
    c_response_error row = e.
Proof.
  apply (no_cross_token_mixing example_start (trace_of example_start example_session)
           (state_after example_start example_session) 0 honest_provider example_token);
    [apply sys_inv_init|apply run_trace_of, example_session_happens|
     |reflexivity..|apply honest_provider_contract].
  apply list_elem_of_lookup. exists 2%nat. vm_compute. reflexivity.
Defined.

Lemma route_success_end_to_end_witness :
  ∃ p, example_points = points_of p ∧ valid_route p ∧
    ∀ routeJson,
      Marshal (shortestRoute_json
                 (success p (wrap64 (sum_meters [leg "OK" 1000 60; leg "OK" 2000 120]))
                    (wrap64 (sum_seconds [leg "OK" 1000 60; leg "OK" 2000 120]))))
      = Ok routeJson →
      writer (exec (routeHandler example_token no_fault)
                (world_of (store (state_after example_computed [example_poll]))))
      = [WHeaderSet "Content-Type" "application/json"; WWrite routeJson].
Proof.
  apply (route_success_end_to_end example_submitted 0 honest_provider example_token
           example_computed (trace_of example_computed [example_poll])
           (state_after example_computed [example_poll])
           example_points example_request (full_matrix example_request)
           [leg "OK" 1000 60; leg "OK" 2000 120] no_fault);
    try reflexivity.
  - apply sys_inv_example_submitted.
  - apply step_apply_event. vm_compute. reflexivity.
  - apply run_trace_of. events_happen.
  - repeat constructor.
Defined.

(** The second example of the specification: no route for the second leg. *)
Lemma route_failure_end_to_end_witness :
  (∃ row, store_select example_token (store (state_after example_failed [example_poll]))
          = Some row
     ∧ c_status row = -1 ∧ c_total_distance row = 0 ∧ c_total_time row = 0
     ∧ c_response_error row = "ZERO_RESULTS")
  ∧ ∀ routeJson,
      Marshal (shortestRoute_json (failure "ZERO_RESULTS")) = Ok routeJson →
      writer (exec (routeHandler example_token no_fault)
                (world_of (store (state_after example_failed [example_poll]))))
      = [WHeaderSet "Content-Type" "application/json"; WWrite routeJson].
Proof.
  apply (route_failure_end_to_end example_submitted 0
           (provider (Ok example_matrix_failed)) example_token
           example_failed (trace_of example_failed [example_poll])
           (state_after example_failed [example_poll])
           example_points example_request "ZERO_RESULTS" no_fault);
    try reflexivity.
  - apply sys_inv_example_submitted.
  - apply step_apply_event. vm_compute. reflexivity.
  - apply run_trace_of. events_happen.
  - right. exists example_matrix_failed, [leg "OK" 1000 60], (leg "ZERO_RESULTS" 0 0), [].
    split_and!; [reflexivity..|repeat constructor|reflexivity|discriminate].
Defined.

(** The poll of the job that failed answers the failure and nothing
    else. *)
Example example_failed_response :
  snd <$> apply_event example_failed example_poll
  = Some (Response (json_response
            ("{" +:+ quoted "status" +:+ ":" +:+ quoted "failure" +:+ ","
                 +:+ quoted "error" +:+ ":" +:+ quoted "ZERO_RESULTS" +:+ "}"))).
Proof. vm_compute. reflexivity. Qed.

Lemma nil_client_crashes_witness :
  ∃ σ', step example_submitted (Work 0 no_key_env) (Ran example_token) σ'
    ∧ crashed σ' = true ∧ pool σ' = []
    ∧ (∀ token', store_select token' (store σ')
                 = store_select token' (store example_submitted))
    ∧ job_state σ' example_token = Some Pending
    ∧ ∀ ev obs σ'', ¬ step σ' ev obs σ''.
Proof.
  apply (nil_client_crashes example_submitted 0 no_key_env example_token example_points
           "maps: API Key or Maps for Work credentials missing"
           "runtime error: invalid memory address or nil pointer dereference");
    [apply sys_inv_example_submitted|reflexivity..].
Defined.

Lemma issued_token_rendered_witness :
  ∃ p, Unmarshal (c_path example_row) = Ok p ∧ valid_route p ∧
       (rendered example_row = Some in_progress
        ∨ rendered example_row = Some (failure (c_response_error example_row))
        ∨ rendered example_row
          = Some (success p (c_total_distance example_row) (c_total_time example_row))).
Proof.
  apply (issued_token_rendered example_computed example_token example_row);
    [apply sys_inv_example_computed|reflexivity].
Defined.
