(* ===== verification/Http.v ===== *)
(** * Http: the response a client receives

    The handlers are modelled with the calls they make on their
    [http.ResponseWriter].  This file says what [net/http] sends for a
    sequence of such calls, in the three respects a client of the service
    sees: the status, the header fields the handler sets, and the body.

    - [w.Header().Set(k, v)] sets a field of the header map; once the
      header has been sent the map is no longer read.
    - [w.Write(b)] sends the header with status 200 if it has not been
      sent, then appends [b] to the body.
    - [http.Error(w, msg, code)] sets [Content-Type] to
      [text/plain; charset=utf-8] and [X-Content-Type-Options] to
      [nosniff], sends the header with status [code] if it has not been
      sent, and appends [msg] and a newline to the body.
    - When the handler returns without having written, the server sends
      the header with status 200 and an empty body.

    The fields the server adds by itself ([Date], [Content-Length]) and
    the sniffing of a content type that the handler did not set are not
    modelled; both handlers set the content type before they write.

    The theorems give the response of each handler on every input, and
    show that every response of the service, the errors included, carries
    the status 200. *)

From Stdlib Require Import ZArith.
From stdpp Require Import base tactics option list strings gmap.
From S2P Require Import Prelude Types Codec JobStore Intake Worker Reporter System.

#[local] Open Scope Z_scope.

(** ** The response writer of [net/http] *)

Record response : Type := {
  r_status : Z;
  r_header : gmap string string;
  r_body : string;
}.

(** The writer while the handler runs: the header map, the status and
    header sent if they have been, and the body written so far. *)
Record writer_state : Type := {
  ws_header : gmap string string;
  ws_sent : option (Z * gmap string string);
  ws_body : string;
}.

Definition ws_init : writer_state :=
  {| ws_header := ∅; ws_sent := None; ws_body := EmptyString |}.

(** [w.Header().Set(key, value)]. *)
Definition do_Header_Set (key value : string) (ws : writer_state) : writer_state :=
  {| ws_header := <[key := value]> (ws_header ws); ws_sent := ws_sent ws;
     ws_body := ws_body ws |}.

(** [w.WriteHeader(code)]: the first call sends the status and the header
    map as it is; a later call does nothing. *)
Definition do_WriteHeader (code : Z) (ws : writer_state) : writer_state :=
  match ws_sent ws with
  | Some _ => ws
  | None => {| ws_header := ws_header ws; ws_sent := Some (code, ws_header ws);
               ws_body := ws_body ws |}
  end.

(** [w.Write(body)]. *)
Definition do_Write (body : string) (ws : writer_state) : writer_state :=
  let ws' := do_WriteHeader 200 ws in
  {| ws_header := ws_header ws'; ws_sent := ws_sent ws';
     ws_body := ws_body ws' +:+ body |}.

Definition newline : string := String (Ascii.ascii_of_nat 10) EmptyString.

(** [http.Error(w, msg, code)]. *)
Definition do_Error (msg : string) (code : Z) (ws : writer_state) : writer_state :=
  do_Write (msg +:+ newline)
    (do_WriteHeader code
       (do_Header_Set "X-Content-Type-Options" "nosniff"
          (do_Header_Set "Content-Type" "text/plain; charset=utf-8" ws))).

Definition apply_call (ws : writer_state) (c : writer_call) : writer_state :=
  match c with
  | WError body code => do_Error body code ws
  | WHeaderSet key value => do_Header_Set key value ws
  | WWrite body => do_Write body ws
  end.

(** What the server has sent when the handler has returned. *)
Definition finish (ws : writer_state) : response :=
  match ws_sent ws with
  | Some (code, header) =>
      {| r_status := code; r_header := header; r_body := ws_body ws |}
  | None => {| r_status := 200; r_header := ws_header ws; r_body := ws_body ws |}
  end.

(** The response to a request whose handler made the calls [calls]. *)
Definition response_of (calls : list writer_call) : response :=
  finish (foldl apply_call ws_init calls).

(** The two responses of the program. *)
Definition json_reply (body : string) : response :=
  {| r_status := 200; r_header := {[ "Content-Type" := "application/json" ]};
     r_body := body |}.

Definition error_reply (body : string) : response :=
  {| r_status := 200;
     r_header := {[ "Content-Type" := "text/plain; charset=utf-8";
                    "X-Content-Type-Options" := "nosniff" ]};
     r_body := body +:+ newline |}.

(** ** The responses of the handlers *)

Lemma response_of_json body :
  response_of [WHeaderSet "Content-Type" "application/json"; WWrite body]
  = json_reply body.
Proof. reflexivity. Qed.

Lemma response_of_error body :
  response_of [WError body 200] = error_reply body.
Proof.
  unfold response_of, error_reply. simpl. by f_equal.
Qed.

Section responses.
Context {T : Type} {JS : JobStore T} {JSL : JobStoreLaws T} {J : Json}.
Implicit Types (σ : system T) (t : T).

(** The response of [pathHandler] to a request. *)
Lemma pathHandler_response r env t :
  response_of (writer (exec (pathHandler r env) (world_of t)))
  = match intake_verdict r env t with
    | Accepted _ _ tokenJson _ => json_reply tokenJson
    | Rejected _ body => error_reply body
    end.
Proof.
  rewrite pathHandler_exec. simpl.
  destruct (intake_verdict r env t); simpl;
    [apply response_of_error|apply response_of_json].
Qed.

(** The response of [routeHandler] to a request. *)
Lemma routeHandler_response token env t :
  response_of (writer (exec (routeHandler token env) (world_of t)))
  = let scan := scan_of (select_fault env) (store_select token t) in
    match Marshal (shortestRoute_json (report_of token scan.1 scan.2)) with
    | Ok routeJson => json_reply routeJson
    | Err e => error_reply (failure_body e)
    end.
Proof.
  rewrite routeHandler_exec. unfold report_world. simpl.
  destruct (Marshal _); simpl; [apply response_of_json|apply response_of_error].
Qed.

(** The responses of one transition. *)
Lemma step_response σ ev calls σ' :
  step σ ev (Response calls) σ' →
  (∃ body, response_of calls = json_reply body)
  ∨ (∃ body, response_of calls = error_reply body).
Proof.
  inversion 1; subst.
  - rewrite pathHandler_response. destruct (intake_verdict _ _ _); eauto.
  - rewrite routeHandler_response. simpl. destruct (Marshal _); eauto.
Qed.

(** C33.  Every response carries the status 200.  In every run of the
    service, the response to each request, whichever handler served it
    and whatever it found, is sent with the status 200: either the JSON
    document of the handler with the content type [application/json], or,
    for every error of the intake and of the encoder, a body of type
    [text/plain] that ends with a newline.  A client cannot tell a
    rejection from an acceptance by the status. *)
Theorem responses_are_200 σ tr σ' ev calls :
  run σ tr σ' → (ev, Response calls) ∈ tr →
  r_status (response_of calls) = 200
  ∧ ((∃ body, response_of calls = json_reply body)
     ∨ (∃ body, response_of calls = error_reply body)).
Proof.
  intros Hrun Hin.
  destruct (run_elem_of _ _ _ _ _ Hrun Hin) as (tr1 & σ1 & σ2 & tr2 & _ & Hstep & _).
  destruct (step_response _ _ _ _ Hstep) as [[body Hr]|[body Hr]]; rewrite Hr; eauto.
Qed.

End responses.

(** ** Examples *)

Lemma responses_are_200_witness :
  r_status (response_of (json_response in_progress_body)) = 200
  ∧ ((∃ body, response_of (json_response in_progress_body) = json_reply body)
     ∨ (∃ body, response_of (json_response in_progress_body) = error_reply body)).
Proof.
  apply (responses_are_200 example_start (trace_of example_start example_session)
           (state_after example_start example_session) example_poll).
  - apply run_trace_of, example_session_happens.
  - vm_compute. right. left.
Defined.

(** A route of one point is refused with the status 200 and a body in
    plain text. *)
Example short_route_response :
  response_of (writer (exec (pathHandler {| Body := Ok (json_route [["1"; "1"]]) |}
                               example_env) (world_of ([] : table))))
  = error_reply (error_body "Route start & dropoff required").
Proof. rewrite pathHandler_response. vm_compute. reflexivity. Qed.
