(* ===== verification/Jobs.v ===== *)
(** * Jobs: the rows of the table as the jobs of the specification

    The specification describes a job as a record with a token, a path, a
    status among pending, success and failure, two totals and an error
    message, and constrains it: the path is a valid route, the totals mean
    something only for a success and the message only for a failure.  The
    program keeps rows with a status code and a body.

    [job_of_row] reads a row as a job, when its status code is one of the
    three and its body decodes; [Job_wf] is the constraint of the
    specification on the job, with the totals at the width the program
    computes them.  The theorems say that the rows of every state the
    service reaches are jobs that satisfy the constraint, under the token
    they are stored for, and that the report of a row depends on the job
    only. *)

From Stdlib Require Import ZArith.
From stdpp Require Import base tactics option list strings.
From S2P Require Import Prelude Types Codec JobStore Intake Worker Reporter System.

#[local] Open Scope Z_scope.

(** ** Jobs *)

Record Job : Type := {
  j_token : string;
  j_path : list (list string);
  j_status : job_status;
  j_totalDistance : Z;
  j_totalTime : Z;
  j_errorMessage : string;
}.

#[export] Instance Job_eq_dec : EqDecision Job.
Proof. solve_decision. Defined.

(** The constraint of the specification on a job. *)
Definition Job_wf (j : Job) : Prop :=
  valid_route (j_path j) ∧ in_int64 (j_totalDistance j) ∧ in_int64 (j_totalTime j) ∧
  match j_status j with
  | Pending =>
      j_totalDistance j = 0 ∧ j_totalTime j = 0 ∧ j_errorMessage j = EmptyString
  | Success => j_errorMessage j = EmptyString
  | Failure => j_totalDistance j = 0 ∧ j_totalTime j = 0
  end.

#[export] Instance Job_wf_dec j : Decision (Job_wf j).
Proof. unfold Job_wf. destruct (j_status j); apply _. Defined.

(** What the specification reports for a job. *)
Definition report_job (j : Job) : shortestRoute :=
  match j_status j with
  | Pending => in_progress
  | Failure => failure (j_errorMessage j)
  | Success => success (j_path j) (j_totalDistance j) (j_totalTime j)
  end.

Section jobs.
Context {J : Json}.

(** A row read as a job. *)
Definition job_of_row (row : Row) : option Job :=
  st ← status_of_code (c_status row);
  p ← result_to_option (Unmarshal (c_path row));
  Some {| j_token := c_token row; j_path := p; j_status := st;
          j_totalDistance := c_total_distance row; j_totalTime := c_total_time row;
          j_errorMessage := c_response_error row |}.

(** The row stored for a token is a well-formed job with that token. *)
Definition row_typed (token : string) (row : Row) : Prop :=
  match job_of_row row with
  | Some j => j_token j = token ∧ Job_wf j
  | None => False
  end.

#[export] Instance row_typed_dec token row : Decision (row_typed token row).
Proof. unfold row_typed. destruct (job_of_row row); apply _. Defined.

Definition typed `{JobStore T} (σ : system T) : Prop :=
  ∀ token row, store_select token (store σ) = Some row → row_typed token row.

End jobs.

(** The job of the example once computed. *)
Definition example_job : Job :=
  {| j_token := example_token; j_path := example_route; j_status := Success;
     j_totalDistance := 3000; j_totalTime := 180; j_errorMessage := EmptyString |}.

(** ** Rows that are jobs *)

Section typing.
Context {J : Json}.
Implicit Types (row : Row) (token : string).

(** The row an accepted submission creates. *)
Lemma row_typed_new body p token :
  Unmarshal body = Ok p → valid_route p → row_typed token (new_row body token 0).
Proof.
  intros Hu Hv. unfold row_typed, job_of_row. simpl. rewrite Hu. simpl.
  by split_and!.
Qed.

(** The row a goroutine writes. *)
Lemma row_typed_set_outcome token row st d tm e :
  row_typed token row → in_int64 d → in_int64 tm →
  (st = 1 ∧ e = EmptyString) ∨ (st = -1 ∧ d = 0 ∧ tm = 0) →
  row_typed token (set_outcome st d tm e row).
Proof.
  unfold row_typed, job_of_row. simpl.
  destruct (status_of_code (c_status row)) as [st0|]; [|done]. simpl.
  destruct (Unmarshal (c_path row)) as [p|]; [|done]. simpl.
  intros (Ht & Hv & _) Hd Htm [[-> ->]|(-> & -> & ->)]; simpl; by split_and!.
Qed.

(** What a typed row says of its columns. *)
Lemma row_typed_inv token row :
  row_typed token row →
  ∃ j, job_of_row row = Some j ∧ j_token j = token ∧ Job_wf j ∧
       c_token row = token ∧ c_status row = status_code (j_status j) ∧
       Unmarshal (c_path row) = Ok (j_path j).
Proof.
  unfold row_typed, job_of_row.
  destruct (status_of_code (c_status row)) as [st|] eqn:Hst; [|done]. simpl.
  destruct (Unmarshal (c_path row)) as [p|] eqn:Hp; [|done]. simpl.
  intros [Ht Hwf]. eexists. split_and!; try done.
  by apply status_of_code_Some.
Qed.

(** The report of a row is the report of its job. *)
Lemma rendered_job row j :
  job_of_row row = Some j → rendered row = Some (report_job j).
Proof.
  unfold job_of_row, rendered, report_job.
  destruct (status_of_code (c_status row)) as [st|]; [|done]. simpl.
  destruct (Unmarshal (c_path row)) as [p|]; [|done]. simpl.
  intros [= <-]. by destruct st.
Qed.

End typing.

Section typed_runs.
Context {T : Type} {JS : JobStore T} {JSL : JobStoreLaws T} {J : Json}.
Implicit Types (σ : system T) (ev : event) (obs : observation).

Lemma typed_init : typed (init : system T).
Proof. intros token row. simpl. by rewrite select_empty. Qed.

Lemma typed_submit σ r env :
  typed σ → typed (served σ (exec (pathHandler r env) (world_of (store σ)))).
Proof.
  intros Hty token row. simpl.
  destruct (pathHandler_cases r env (world_of (store σ)))
    as [(-> & _)|(body & p & _ & Hu & Hv & Hins & _)]; [apply Hty|].
  simpl in Hins. destruct (decide (token = uuid_NewV4 env)) as [->|Hne].
  - rewrite (select_insert_new _ _ _ _ _ Hins). intros [= <-].
    by eapply row_typed_new.
  - rewrite (select_insert_ne _ _ _ _ _ _ Hins) by done. apply Hty.
Qed.

Lemma typed_poll σ token env :
  typed σ → typed (served σ (exec (routeHandler token env) (world_of (store σ)))).
Proof.
  intros Hty token' row. simpl.
  destruct (routeHandler_frame token env (world_of (store σ))) as [-> _]. apply Hty.
Qed.

Lemma typed_work σ k env token points :
  typed σ →
  typed (worked σ k (exec (processRoute env token points) (world_of (store σ)))
           (outcome (processRoute env token points) (world_of (store σ)))).
Proof.
  intros Hty token' row. simpl.
  destruct (processRoute_update_cases env token points (world_of (store σ)))
    as [->|(st & d & tm & e & -> & Hd & Htm & Hst)]; [apply Hty|]. simpl.
  destruct (decide (token' = token)) as [->|Hne].
  - rewrite select_update.
    destruct (store_select token (store σ)) as [row0|] eqn:Hrow0; [|done].
    intros [= <-]. apply row_typed_set_outcome; auto.
  - rewrite select_update_ne by done. apply Hty.
Qed.

Lemma typed_step σ ev obs σ' : typed σ → step σ ev obs σ' → typed σ'.
Proof.
  intros Hty Hs.
  destruct Hs; [by apply typed_submit|by apply typed_poll|by apply typed_work].
Qed.

Lemma typed_run σ tr σ' : typed σ → run σ tr σ' → typed σ'.
Proof. intros Hty Hrun. eapply (run_invariant typed); eauto using typed_step. Qed.

(** C15.  The rows are jobs.  In every state the service reaches from an
    empty table, whatever the requests, the schedule and the faults, the
    row stored for a token reads as a job of the specification with that
    token: its status code is one of the three, its body decodes to a
    route of 2 to 26 points of two coordinates, its totals fit 64 bits, a
    pending job has totals 0 and no error message, a success has no error
    message and a failure has totals 0.  What is reported for the row is
    what the specification reports for the job. *)
Theorem rows_are_jobs σ token row :
  reachable σ → store_select token (store σ) = Some row →
  ∃ j, job_of_row row = Some j ∧ j_token j = token ∧ Job_wf j
       ∧ rendered row = Some (report_job j).
Proof.
  intros [tr Hrun] Hrow.
  destruct (row_typed_inv token row) as (j & Hj & Ht & Hwf & _).
  { eapply typed_run; [apply typed_init|done..]. }
  exists j. split_and!; try done. by apply rendered_job.
Qed.

End typed_runs.

(** ** The example session *)

Example example_job_of_row : job_of_row example_row = Some example_job.
Proof. vm_compute. reflexivity. Qed.

Lemma rows_are_jobs_witness :
  ∃ j, job_of_row example_row = Some j ∧ j_token j = example_token ∧ Job_wf j
       ∧ rendered example_row = Some (report_job j).
Proof.
  apply (rows_are_jobs (state_after example_start example_session) example_token).
  - exists (trace_of example_start example_session).
    apply run_trace_of, example_session_happens.
  - vm_compute. reflexivity.
Defined.
