(* ===== verification/Schedule.v ===== *)
(** * Schedule: the goroutines in flight and the order they run in

    The goroutines started by [pathHandler] run when the scheduler lets
    them, in any order, between any requests.  This file is about the
    schedule:

    - the number of goroutines in flight is a measure: every run of a
      goroutine takes one out of the pool and only an accepted submission
      adds one, so a run of the service contains no more runs of
      goroutines than there were goroutines in flight and submissions
      ([work_bounded]);
    - draining: when the database works and the provider keeps its
      contract, running the goroutines of the pool one after the other
      empties the pool in as many transitions as it holds goroutines,
      leaves every one of their jobs terminal and the process alive
      ([pool_drains]);
    - independence: the runs of two goroutines commute.  Run in either
      order they leave the same rows, the same pool and the same lines in
      the log, up to the order of the lines ([work_commutes]). *)

From Stdlib Require Import ZArith.
From stdpp Require Import base tactics option list strings.
From S2P Require Import Prelude Types Codec JobStore Intake Worker Reporter System.

(** ** Definitions *)

(** The events that run the goroutine at the head of the pool, once for
    each environment. *)
Definition drain (envs : list worker_env) : list event := Work 0 <$> envs.

(** An environment in which the database works and the provider keeps its
    contract. *)
Definition working (env : worker_env) : Prop :=
  prepare_fault env = None ∧ exec_fault env = None ∧ provider_keeps_contract env.

(** An event in which the goroutine, if it is one, runs in a working
    environment, one of [Q]. *)
Definition served_by (Q : worker_env → Prop) (ev : event) : Prop :=
  match ev with Work _ env => working env ∧ Q env | _ => True end.

(** The submissions of a trace. *)
Definition is_submit (ev : event) : bool :=
  match ev with Submit _ _ => true | _ => false end.

Definition submissions (tr : list (event * observation)) : nat :=
  length (filter (λ eo, is_submit eo.1) tr).

Section schedule_defs.
Context {T : Type} `{JobStore T}.

(** The number of goroutines in flight. *)
Definition in_flight (σ : system T) : nat := length (pool σ).

(** A job is terminal when it has a row whose status is success or
    failure. *)
Definition job_terminal (σ : system T) (token : string) : Prop :=
  job_state σ token = Some Success ∨ job_state σ token = Some Failure.

(** Two states of the service that a client and the goroutines cannot tell
    apart: the same row for every token, the same goroutines in flight,
    the same lines in the log whatever their order. *)
Definition same_service (σ1 σ2 : system T) : Prop :=
  (∀ token, store_select token (store σ1) = store_select token (store σ2))
  ∧ pool σ1 = pool σ2 ∧ journal σ1 ≡ₚ journal σ2 ∧ crashed σ1 = crashed σ2.

(** Between [σ] and [σ'] the goroutine [g] has written the verdict it
    computes in the environment [env] to the row of its token. *)
Definition finished (σ σ' : system T) (env : worker_env)
    (g : string * routePathPoint) : Prop :=
  ∃ row st d tm e, store_select g.1 (store σ) = Some row
    ∧ worker_verdict_of env g.2 = Outcome st d tm e
    ∧ store_select g.1 (store σ') = Some (set_outcome st d tm e row).

(** No job is out of sight: every pending job has its goroutine in the
    pool. *)
Definition tracked (σ : system T) : Prop :=
  ∀ token row, store_select token (store σ) = Some row →
    c_status row = status_code Pending → token ∈ (pool σ).*1.

(** The row of a token is settled when it is the row created for the
    token with the verdict of a working environment of [Q] on the route
    its own path decodes to. *)
Definition settled_row {J : Json} (Q : worker_env → Prop) (token : string) (row : Row)
  : Prop :=
  ∃ env p st d tm e, Q env ∧ Unmarshal (c_path row) = Ok p ∧ valid_route p
    ∧ worker_verdict_of env (points_of p) = Outcome st d tm e
    ∧ row = set_outcome st d tm e (new_row (c_path row) token 0%Z).

(** Every row is as it was created, with its goroutine in the pool, or
    settled. *)
Definition settled {J : Json} (Q : worker_env → Prop) (σ : system T) : Prop :=
  ∀ token row, store_select token (store σ) = Some row →
    (row = new_row (c_path row) token 0%Z ∧ token ∈ (pool σ).*1)
    ∨ settled_row Q token row.

(** The state after the goroutine at index [k] has run. *)
Definition after_work {J : Json} (σ : system T) (k : nat) (env : worker_env)
    (token : string) (points : routePathPoint) : system T :=
  worked σ k (exec (processRoute env token points) (world_of (store σ)))
    (outcome (processRoute env token points) (world_of (store σ))).

End schedule_defs.

(** The example: two routes submitted under two tokens, and their
    goroutines. *)
Definition second_token : string := "0b0e7c52-3a58-4a1f-8f0e-5d2c9d1a7e42".
Definition second_body : string := json_route [["4"; "4"]; ["5"; "5"]].

Definition two_jobs : system table :=
  state_after init
    [example_submit;
     Submit {| Body := Ok second_body |}
       {| uuid_NewV4 := second_token; insert_fault := None |}].

(** A provider that keeps its contract and finds no route for any leg. *)
Definition no_route_matrix (req : DistanceMatrixRequest) : DistanceMatrixResponse :=
  {| Rows := (λ _, {| Elements := (λ _, leg "ZERO_RESULTS" 0 0) <$> Destinations req |})
               <$> Origins req |}.

Definition no_route_provider : worker_env :=
  {| prepare_fault := None; NewClient_fault := None; nil_client_panic := None;
     DistanceMatrix := λ req, Ok (no_route_matrix req);
     exec_fault := None |}.

(** ** Lists *)

Lemma delete_delete_lt {A} (l : list A) i j :
  (i < j)%nat → delete (j - 1) (delete i l) = delete i (delete j l).
Proof.
  revert i j. induction l as [|x l IH]; intros i j Hij; [done|].
  destruct j as [|j]; [lia|]. destruct i as [|i]; simpl.
  - by rewrite Nat.sub_0_r.
  - destruct j as [|j]; [lia|]. simpl. f_equal.
    rewrite <- (IH i (S j)) by lia. simpl. by rewrite Nat.sub_0_r.
Qed.

(** ** Equivalent states *)

Section same_service.
Context {T : Type} {JS : JobStore T}.
Implicit Types (σ : system T).

#[export] Instance same_service_equivalence : Equivalence (same_service (T := T)).
Proof.
  split.
  - by intros σ.
  - intros σ1 σ2 (Hs & Hp & Hj & Hc). by split_and!.
  - intros σ1 σ2 σ3 (Hs & Hp & Hj & Hc) (Hs' & Hp' & Hj' & Hc').
    split_and!; [intros token; by rewrite Hs|congruence|by rewrite Hj|congruence].
Qed.

#[export] Instance job_state_same_service :
  Proper (same_service ==> (=) ==> (=)) (job_state (T := T)).
Proof. intros σ1 σ2 (Hs & _) token ? <-. unfold job_state. by rewrite Hs. Qed.

#[export] Instance in_flight_same_service :
  Proper (same_service ==> (=)) (in_flight (T := T)).
Proof. intros σ1 σ2 (_ & Hp & _). unfold in_flight. by rewrite Hp. Qed.

End same_service.

(** ** The measure *)

Section measure.
Context {T : Type} {JS : JobStore T} {JSL : JobStoreLaws T} {J : Json}.
Implicit Types (σ : system T) (ev : event) (obs : observation) (token : string).

(** What a transition does to the number of goroutines in flight: a
    submission adds at most one, a poll none, and the run of a goroutine
    takes at least one away. *)
Lemma step_in_flight σ ev obs σ' :
  step σ ev obs σ' →
  match ev with
  | Submit _ _ => in_flight σ' ≤ S (in_flight σ)
  | Poll _ _ => in_flight σ' = in_flight σ
  | Work _ _ => S (in_flight σ') ≤ in_flight σ
  end%nat.
Proof.
  unfold in_flight. intros [σ0 r env _|σ0 tok env _|σ0 k env tok points _ Hk]; simpl.
  - destruct (pathHandler_cases r env (world_of (store σ0)))
      as [(_ & -> & _)|(body & p & _ & _ & _ & _ & ->)];
      rewrite length_app; simpl; lia.
  - destruct (routeHandler_frame tok env (world_of (store σ0))) as [_ ->].
    by rewrite app_nil_r.
  - apply lookup_lt_Some in Hk.
    destruct (panics _); simpl; [lia|]. rewrite length_delete; [lia|].
    by apply lookup_lt_is_Some_2.
Qed.

Lemma ran_tokens_length (tr : list (event * observation)) ev obs :
  length (ran_tokens ((ev, obs) :: tr))
  = (match obs with Ran _ => 1 | Response _ => 0 end + length (ran_tokens tr))%nat.
Proof. rewrite ran_tokens_cons. by destruct obs. Qed.

Lemma submissions_cons ev obs (tr : list (event * observation)) :
  submissions ((ev, obs) :: tr)
  = ((if is_submit ev then 1 else 0) + submissions tr)%nat.
Proof. unfold submissions. rewrite filter_cons. by destruct ev. Qed.

(** Along a run, the goroutines that ran and those still in flight are no
    more than those in flight at the start and the submissions. *)
Lemma run_in_flight σ tr σ' :
  run σ tr σ' →
  (length (ran_tokens tr) + in_flight σ' ≤ in_flight σ + submissions tr)%nat.
Proof.
  induction 1 as [σ|σ ev obs σ1 tr σ2 Hs _ IH]; [simpl; lia|].
  rewrite ran_tokens_length, submissions_cons.
  pose proof (step_in_flight _ _ _ _ Hs) as Hm.
  destruct Hs; simpl in *; lia.
Qed.

(** The work is bounded.  In every run of the service the number of
    runs of goroutines is at most the number of goroutines in flight at
    the start plus the number of submissions of the run: each run of a
    goroutine ends, takes its goroutine out of the pool, and nothing but
    an accepted submission puts one in.  From an empty table no more
    goroutines run than routes were submitted. *)
Theorem work_bounded σ tr σ' :
  run σ tr σ' →
  (length (ran_tokens tr) ≤ in_flight σ + submissions tr)%nat
  ∧ (σ = init → length (ran_tokens tr) + in_flight σ' ≤ submissions tr)%nat.
Proof.
  intros Hrun. pose proof (run_in_flight σ tr σ' Hrun) as Hb.
  split; [lia|]. intros ->. unfold in_flight in *. simpl in *. lia.
Qed.

End measure.

(** ** One goroutine runs *)

Section after_work.
Context {T : Type} {JS : JobStore T} {JSL : JobStoreLaws T} {J : Json}.
Implicit Types (σ : system T) (s : world T) (token : string).

(** The lines the goroutine logs do not depend on the store. *)
Lemma worker_world_logged env token points s (t : T) :
  logged (worker_world env token points s)
  = logged s ++ logged (worker_world env token points (world_of t)).
Proof.
  unfold worker_world, failed_world.
  repeat (case_match; simpl; try done); by rewrite <- ?app_assoc.
Qed.

(** What the store answers after two writes to two tokens, in either
    order. *)
Lemma select_verdicts v1 f1 token1 v2 f2 token2 (t : T) token :
  token1 ≠ token2 →
  store_select token
    (apply_worker_verdict v2 f2 token2 (apply_worker_verdict v1 f1 token1 t))
  = store_select token
      (apply_worker_verdict v1 f1 token1 (apply_worker_verdict v2 f2 token2 t)).
Proof.
  intros Hne. unfold apply_worker_verdict.
  destruct v1 as [| |st1 d1 tm1 e1], f1, v2 as [| |st2 d2 tm2 e2], f2; try done.
  destruct (decide (token = token1)) as [->|Hne1].
  - by rewrite select_update_ne, !select_update, select_update_ne.
  - rewrite (select_update_ne st1) by done.
    destruct (decide (token = token2)) as [->|Hne2].
    + by rewrite !select_update, select_update_ne.
    + by rewrite !select_update_ne.
Qed.

Lemma after_work_store σ k env token points :
  store (after_work σ k env token points)
  = apply_worker_verdict (worker_verdict_of env points) (exec_fault env) token (store σ).
Proof. unfold after_work. simpl. by rewrite processRoute_exec, worker_world_db. Qed.

Lemma after_work_pool σ k env token points :
  panics (worker_flow (worker_verdict_of env points)) = false →
  pool (after_work σ k env token points) = delete k (pool σ)
  ∧ crashed (after_work σ k env token points) = false.
Proof. unfold after_work. simpl. rewrite processRoute_outcome. by intros ->. Qed.

Lemma after_work_journal σ k env token points (t : T) :
  journal (after_work σ k env token points)
  = journal σ ++ logged (worker_world env token points (world_of t)).
Proof.
  unfold after_work. simpl. rewrite processRoute_exec.
  by rewrite (worker_world_logged _ _ _ _ t).
Qed.

(** What the store answers for another token after a goroutine has
    written. *)
Lemma select_verdict_ne v fault token (t : T) token' :
  token' ≠ token →
  store_select token' (apply_worker_verdict v fault token t) = store_select token' t.
Proof.
  intros Hne. unfold apply_worker_verdict.
  destruct v, fault; try done; by rewrite select_update_ne.
Qed.

End after_work.

(** ** Draining the pool *)

Section drain.
Context {T : Type} {JS : JobStore T} {JSL : JobStoreLaws T} {J : Json}.
Implicit Types (σ : system T) (ev : event) (obs : observation) (token : string).

Lemma working_event_ok k env : working env → event_ok (Work k env).
Proof. by intros (_ & _ & Hc). Qed.

(** A terminal job stays terminal. *)
Lemma job_terminal_stable σ tr σ' token :
  sys_inv σ → run σ tr σ' → job_terminal σ token → job_terminal σ' token.
Proof.
  unfold job_terminal, job_state. intros Hinv Hrun Hterm.
  destruct (store_select token (store σ)) as [row|] eqn:Hrow; [|by destruct Hterm].
  rewrite (run_terminal_stable σ tr σ' token row); [done..|].
  simpl in Hterm. intros Hz. rewrite Hz in Hterm. by destruct Hterm.
Qed.

(** The run of the goroutine at the head of the pool in a working
    environment: it is a transition, it writes the verdict to the row of
    its token and to no other, and it leaves the rest of the pool. *)
Lemma drain_step σ env token points rest :
  sys_inv σ → crashed σ = false → pool σ = (token, points) :: rest → working env →
  let σ1 := after_work σ 0 env token points in
  step σ (Work 0 env) (Ran token) σ1 ∧ sys_inv σ1 ∧ crashed σ1 = false ∧ pool σ1 = rest
  ∧ job_terminal σ1 token ∧ finished σ σ1 env (token, points)
  ∧ ∀ token', token' ≠ token →
      store_select token' (store σ1) = store_select token' (store σ).
Proof.
  intros Hinv Hc Hpool (Hp & He & Hcon) σ1.
  assert (pool σ !! 0%nat = Some (token, points)) as Hk by by rewrite Hpool.
  pose proof (step_work σ 0 env token points Hc Hk) as Hstep. fold σ1 in Hstep.
  destruct (pool_request σ 0 token points Hinv Hk) as (req & Hreq & _).
  destruct (worker_verdict_contract env points req) as (st & d & tm & e & Hv); [done..|].
  destruct (work_outcome σ 0 env token points st d tm e)
    as (row & p & Hrow & _ & _ & _ & Hsel); [done..|].
  assert (crashed σ1 = false) as Hc1 by by eapply step_no_crash.
  split_and!; try done.
  - by eapply sys_inv_step.
  - subst σ1. unfold after_work in *. simpl in *. by rewrite Hc1, Hpool.
  - unfold job_terminal, job_state. subst σ1. unfold after_work. simpl.
    rewrite Hsel. simpl.
    destruct (worker_verdict_status env points st d tm e Hv) as [-> | ->]; auto.
  - by exists row, st, d, tm, e.
  - intros token' Hne. subst σ1. rewrite after_work_store. by apply select_verdict_ne.
Qed.

(** What a goroutine has written stays, and so later runs do not undo
    that it has finished. *)
Lemma finished_stable σ σ1 tr σ' env g :
  sys_inv σ1 → run σ1 tr σ' → job_terminal σ1 g.1 → finished σ σ1 env g →
  finished σ σ' env g.
Proof.
  intros Hinv Hrun Hterm (row & st & d & tm & e & Hrow & Hv & Hsel).
  exists row, st, d, tm, e. split_and!; try done.
  apply (run_terminal_stable σ1 tr); [done..|].
  unfold job_terminal, job_state in Hterm. rewrite Hsel in Hterm. simpl in *.
  intros Hz. rewrite Hz in Hterm. by destruct Hterm.
Qed.

(** A goroutine that finishes after a transition that left its row alone
    has finished since before the transition. *)
Lemma finished_earlier σ σ1 σ' env g :
  store_select g.1 (store σ1) = store_select g.1 (store σ) →
  finished σ1 σ' env g → finished σ σ' env g.
Proof.
  intros Heq (row & st & d & tm & e & Hrow & Hv & Hsel).
  exists row, st, d, tm, e. by rewrite <- Heq.
Qed.

(** Draining, one goroutine after the other. *)
Lemma drain_run σ envs :
  sys_inv σ → crashed σ = false → length envs = in_flight σ →
  Forall working envs →
  ∃ tr σ', run σ tr σ' ∧ tr.*1 = drain envs ∧ ran_tokens tr = (pool σ).*1
    ∧ pool σ' = [] ∧ crashed σ' = false
    ∧ (∀ token, token ∈ (pool σ).*1 → job_terminal σ' token)
    ∧ ∀ i env g, envs !! i = Some env → pool σ !! i = Some g → finished σ σ' env g.
Proof.
  unfold in_flight. intros Hinv Hc Hlen Hw. revert σ Hinv Hc Hlen.
  induction Hw as [|env envs Hwork _ IH]; intros σ Hinv Hc Hlen.
  { symmetry in Hlen. apply nil_length_inv in Hlen. exists [], σ. rewrite Hlen.
    split_and!; try done; [constructor|by intros ? ?%not_elem_of_nil]. }
  destruct (pool σ) as [|[token points] rest] eqn:Hpool; [done|].
  destruct (drain_step σ env token points rest Hinv Hc Hpool Hwork)
    as (Hstep & Hinv1 & Hc1 & Hpool1 & Hterm & Hfin & Hother).
  set (σ1 := after_work σ 0 env token points) in *.
  destruct (IH σ1) as (tr & σ' & Hrun & Hev & Hobs & Hempty & Hc' & Hall & Hfins);
    [done|done|rewrite Hpool1; simpl in Hlen; lia|].
  exists ((Work 0 env, Ran token) :: tr), σ'. rewrite Hpool1 in *.
  pose proof (inv_pool_nodup σ Hinv) as Hnd. rewrite Hpool, fmap_cons in Hnd.
  apply NoDup_cons in Hnd as [Hnotin _]. simpl in Hnotin.
  split_and!; try done.
  - by econstructor.
  - by rewrite fmap_cons, Hev.
  - by rewrite ran_tokens_cons, Hobs.
  - intros token' [->|Hin]%elem_of_cons; [|by apply Hall].
    by eapply job_terminal_stable.
  - intros [|i] env' g Henv Hg; simpl in Henv, Hg.
    + injection Henv as <-. injection Hg as <-. by eapply finished_stable.
    + apply (finished_earlier σ σ1); [|by eapply Hfins].
      apply Hother. intros Heq. apply Hnotin. rewrite <- Heq.
      apply list_elem_of_fmap_2. by eapply list_elem_of_lookup_2.
Qed.

(** The pool drains.  From a state that satisfies the invariant and
    has not crashed, when the database works and the provider keeps its
    contract, running the goroutine at the head of the pool as many
    times as there are goroutines in flight is a run of the service: it
    runs each goroutine once, in the order they were started, ends with
    an empty pool and a process that is alive, and leaves the job of each
    of them terminal.  Processing ends after exactly that many
    transitions. *)
Theorem pool_drains σ envs :
  sys_inv σ → crashed σ = false → length envs = in_flight σ →
  Forall working envs →
  ∃ tr σ', run σ tr σ' ∧ tr.*1 = drain envs ∧ length tr = in_flight σ
    ∧ ran_tokens tr = (pool σ).*1
    ∧ in_flight σ' = 0%nat ∧ crashed σ' = false
    ∧ ∀ token, token ∈ (pool σ).*1 → job_terminal σ' token.
Proof.
  intros Hinv Hc Hlen Hw.
  destruct (drain_run σ envs Hinv Hc Hlen Hw)
    as (tr & σ' & Hrun & Hev & Hobs & Hempty & Hc' & Hall & _).
  exists tr, σ'. split_and!; try done.
  - rewrite <- (length_fmap fst), Hev. unfold drain. by rewrite length_fmap.
  - unfold in_flight. by rewrite Hempty.
Qed.

End drain.

(** ** The runs of two goroutines commute *)

Section commute.
Context {T : Type} {JS : JobStore T} {JSL : JobStoreLaws T} {J : Json}.
Implicit Types (σ : system T) (s : world T) (token : string).

(** The two orders of running two goroutines that do not panic. *)
Lemma after_work_commute σ k1 k2 env1 env2 token1 token2 points1 points2 :
  token1 ≠ token2 → (k1 < k2)%nat →
  panics (worker_flow (worker_verdict_of env1 points1)) = false →
  panics (worker_flow (worker_verdict_of env2 points2)) = false →
  same_service
    (after_work (after_work σ k1 env1 token1 points1) (k2 - 1) env2 token2 points2)
    (after_work (after_work σ k2 env2 token2 points2) k1 env1 token1 points1).
Proof.
  intros Hne Hlt Hp1 Hp2.
  destruct (after_work_pool σ k1 env1 token1 points1 Hp1) as [Hpool1 _].
  destruct (after_work_pool σ k2 env2 token2 points2 Hp2) as [Hpool2 _].
  split_and!.
  - intros token. rewrite !after_work_store. by apply select_verdicts.
  - destruct (after_work_pool (after_work σ k1 env1 token1 points1) (k2 - 1)
                env2 token2 points2 Hp2) as [-> _].
    destruct (after_work_pool (after_work σ k2 env2 token2 points2) k1
                env1 token1 points1 Hp1) as [-> _].
    rewrite Hpool1, Hpool2. by apply delete_delete_lt.
  - rewrite !(after_work_journal _ _ _ _ _ (store σ)), <- !app_assoc.
    apply Permutation_app_head, Permutation_app_comm.
  - destruct (after_work_pool (after_work σ k1 env1 token1 points1) (k2 - 1)
                env2 token2 points2 Hp2) as [_ ->].
    by destruct (after_work_pool (after_work σ k2 env2 token2 points2) k1
                   env1 token1 points1 Hp1) as [_ ->].
Qed.

(** The runs of two goroutines commute.  From a state that satisfies
    the invariant and has not crashed, two goroutines of the pool whose
    providers keep the contract can run in either order, and the two
    orders end in states that cannot be told apart: the same row for
    every token, the same goroutines in flight, the same process
    standing, and the same lines in the log up to their order.  Neither
    goroutine sees what the other wrote. *)
Theorem work_commutes σ k1 k2 env1 env2 token1 token2 points1 points2 :
  sys_inv σ → crashed σ = false → (k1 < k2)%nat →
  pool σ !! k1 = Some (token1, points1) → pool σ !! k2 = Some (token2, points2) →
  provider_keeps_contract env1 → provider_keeps_contract env2 →
  ∃ σ1 σ2 σ12 σ21,
    step σ (Work k1 env1) (Ran token1) σ1 ∧ step σ1 (Work (k2 - 1) env2) (Ran token2) σ12
    ∧ step σ (Work k2 env2) (Ran token2) σ2 ∧ step σ2 (Work k1 env1) (Ran token1) σ21
    ∧ same_service σ12 σ21.
Proof.
  intros Hinv Hc Hlt Hk1 Hk2 Hc1 Hc2.
  destruct (pool_request σ k1 token1 points1 Hinv Hk1) as (req1 & Hreq1 & _).
  destruct (pool_request σ k2 token2 points2 Hinv Hk2) as (req2 & Hreq2 & _).
  pose proof (worker_verdict_safe env1 points1 req1 Hreq1 (proj1 Hc1) (proj2 Hc1 req1))
    as Hp1.
  pose proof (worker_verdict_safe env2 points2 req2 Hreq2 (proj1 Hc2) (proj2 Hc2 req2))
    as Hp2.
  destruct (after_work_pool σ k1 env1 token1 points1 Hp1) as [Hpool1 Hcr1].
  destruct (after_work_pool σ k2 env2 token2 points2 Hp2) as [Hpool2 Hcr2].
  assert (token1 ≠ token2) as Hne.
  { intros ->. assert (k1 = k2) as Heq; [|lia].
    apply (NoDup_lookup _ k1 k2 token2 (inv_pool_nodup σ Hinv));
      rewrite list_lookup_fmap; [by rewrite Hk1|by rewrite Hk2]. }
  eexists _, _, _, _. split_and!.
  - by apply step_work.
  - apply step_work; [exact Hcr1|]. fold (after_work σ k1 env1 token1 points1).
    rewrite Hpool1, list_lookup_delete_ge by lia. rewrite <- Hk2. f_equal. lia.
  - by apply step_work.
  - apply step_work; [exact Hcr2|]. fold (after_work σ k2 env2 token2 points2).
    by rewrite Hpool2, list_lookup_delete_lt by lia.
  - by apply after_work_commute.
Qed.

End commute.

(** ** No job is lost *)

Section tracked.
Context {T : Type} {JS : JobStore T} {JSL : JobStoreLaws T} {J : Json}.
Context (Q : worker_env → Prop).
Implicit Types (σ : system T) (ev : event) (obs : observation) (token : string).

Lemma settled_init : settled Q (init : system T).
Proof. intros token row. simpl. by rewrite select_empty. Qed.

Lemma elem_of_fst_delete {A B} (l : list (A * B)) k x y a :
  l !! k = Some (x, y) → a ∈ l.*1 → a ≠ x → a ∈ (delete k l).*1.
Proof.
  intros Hk Ha Hne. rewrite (delete_Permutation l k _ Hk), fmap_cons in Ha.
  by apply elem_of_cons in Ha as [->|Ha].
Qed.

(** A settled row is terminal. *)
Lemma settled_row_status token row :
  settled_row Q token row → (c_status row = 1 ∨ c_status row = -1)%Z.
Proof.
  intros (env & p & st & d & tm & e & _ & _ & _ & Hv & ->). simpl.
  by apply worker_verdict_status in Hv.
Qed.

(** The goroutine that runs in a working environment settles the row of
    its job, and leaves the other rows as they are. *)
Lemma settled_work σ k env token points :
  sys_inv σ → settled Q σ → working env → Q env → crashed σ = false →
  pool σ !! k = Some (token, points) →
  settled Q (worked σ k (exec (processRoute env token points) (world_of (store σ)))
               (outcome (processRoute env token points) (world_of (store σ)))).
Proof.
  intros Hinv Hset (Hp & He & Hc) HQ Hup Hk token' row'.
  pose proof (step_no_crash _ _ _ _ Hinv (step_work σ k env token points Hup Hk) Hc) as Hlive.
  simpl in Hlive. simpl. rewrite Hlive.
  destruct (pool_request σ k token points Hinv Hk) as (req & Hreq & _).
  destruct (worker_verdict_contract env points req) as (st & d & tm & e & Hv); [done..|].
  destruct (decide (token' = token)) as [->|Hne].
  - destruct (work_outcome σ k env token points st d tm e)
      as (row & p & Hrow & Hpath & Hvalid & -> & ->); [done..|].
    intros [= <-]. right. exists env, p, st, d, tm, e. split_and!; try done. simpl.
    destruct (Hset _ _ Hrow) as [[-> _]|Hst%settled_row_status]; [done|].
    rewrite (work_pending σ k token _ row) in Hst by done. by destruct Hst.
  - rewrite processRoute_exec, worker_world_db, Hv, He. simpl.
    rewrite select_update_ne by done. intros Hrow.
    destruct (Hset _ _ Hrow) as [[Hnew Hin]|Hst]; [left|by right].
    split; [done|]. by eapply elem_of_fst_delete.
Qed.

(** A transition whose goroutine runs in a working environment of [Q]
    leaves every row as created, with its goroutine in the pool, or
    settled. *)
Lemma settled_step σ ev obs σ' :
  sys_inv σ → settled Q σ → served_by Q ev → step σ ev obs σ' → settled Q σ'.
Proof.
  intros Hinv Hset Hev Hstep.
  destruct Hstep as [σ r env Hup|σ tok env Hup|σ k env tok points Hup Hk];
    [| |destruct Hev; by apply settled_work].
  - destruct (pathHandler_cases r env (world_of (store σ)))
      as [(Hdb & Hgo & _)|(body & p & _ & _ & _ & Hins & Hgo)];
      intros token row; unfold served; simpl; rewrite Hgo; simpl.
    + rewrite Hdb, app_nil_r. apply Hset.
    + rewrite fmap_app. setoid_rewrite elem_of_app. simpl.
      destruct (decide (token = uuid_NewV4 env)) as [->|Hne].
      * rewrite (select_insert_new _ _ _ _ _ Hins). intros [= <-]. left.
        split; [done|]. right. by left.
      * rewrite (select_insert_ne _ _ _ _ _ _ Hins) by done. intros Hrow.
        destruct (Hset _ _ Hrow) as [[Hnew Hin]|Hst]; [left; by auto|by right].
  - destruct (routeHandler_frame tok env (world_of (store σ))) as (Hdb & Hgo).
    intros token row. unfold served. simpl. rewrite Hdb, Hgo, app_nil_r. apply Hset.
Qed.

Lemma settled_run σ tr σ' :
  sys_inv σ → settled Q σ → run σ tr σ' → Forall (served_by Q) tr.*1 → settled Q σ'.
Proof.
  intros Hinv Hset Hrun. revert Hinv Hset.
  induction Hrun as [|σ ev obs σ1 tr σ2 Hs _ IH]; [done|].
  rewrite fmap_cons. intros Hinv Hset [Hev Hrest]%Forall_cons.
  apply IH; [by eapply sys_inv_step|by eapply settled_step|done].
Qed.

(** Every pending job has its goroutine in the pool. *)
Lemma settled_tracked σ : settled Q σ → tracked σ.
Proof.
  intros Hset token row Hrow Hst.
  destruct (Hset _ _ Hrow) as [[_ Hin]|Hterm%settled_row_status]; [done|].
  rewrite Hst in Hterm. by destruct Hterm.
Qed.

(** When the pool is empty every row is settled. *)
Lemma settled_drained σ token row :
  settled Q σ → pool σ = [] → store_select token (store σ) = Some row →
  settled_row Q token row.
Proof.
  intros Hset Hpool Hrow. destruct (Hset _ _ Hrow) as [[_ Hin]|Hst]; [|done].
  rewrite Hpool in Hin. by apply elem_of_nil in Hin.
Qed.

Lemma served_by_event_ok ev : served_by Q ev → event_ok ev.
Proof. destruct ev; [done..|]. by intros ((_ & _ & Hc) & _). Qed.

Lemma run_alive σ tr σ' :
  sys_inv σ → crashed σ = false → run σ tr σ' → Forall (served_by Q) tr.*1 →
  crashed σ' = false.
Proof.
  intros Hinv Hc Hrun. revert Hinv Hc.
  induction Hrun as [|σ ev obs σ1 tr σ2 Hs _ IH]; [done|].
  rewrite fmap_cons. intros Hinv Hc [Hev Hrest]%Forall_cons.
  apply IH; [by eapply sys_inv_step|by eapply step_no_crash, served_by_event_ok|done].
Qed.

(** No job is lost, and each job gets its own verdict.  In every run of
    the service from an empty table in which the goroutines run in
    working environments of [Q], whatever the requests and the order in
    which the goroutines run, the process is alive, every pending job has
    its goroutine in the pool, and once the pool is empty the row of
    every token is the row created for it with the verdict of one of
    these environments on the route of its own path. *)
Theorem no_job_lost (σ : system T) tr token row :
  run init tr σ → Forall (served_by Q) tr.*1 →
  store_select token (store σ) = Some row →
  crashed σ = false
  ∧ (c_status row = status_code Pending → token ∈ (pool σ).*1)
  ∧ (pool σ = [] → settled_row Q token row).
Proof.
  intros Hrun Hh Hrow.
  pose proof (settled_run _ _ _ sys_inv_init settled_init Hrun Hh) as Hset.
  split_and!; [by eapply run_alive; [apply sys_inv_init|..]| |].
  - by apply (settled_tracked σ Hset).
  - intros Hpool. by eapply settled_drained.
Qed.

End tracked.

(** ** The theorems at two jobs *)

Lemma sys_inv_two_jobs : sys_inv two_jobs.
Proof. apply sys_inv_after; [apply sys_inv_init|events_happen]. Qed.

Lemma working_honest_provider : working honest_provider.
Proof. split_and!; [done..|apply honest_provider_contract]. Qed.

Lemma no_route_provider_contract : provider_keeps_contract no_route_provider.
Proof.
  split; [done|]. intros req resp [= <-]. split; simpl; [by rewrite length_fmap|].
  apply Forall_fmap, Forall_forall. intros o _. simpl. by rewrite length_fmap.
Qed.

Lemma work_bounded_witness :
  (length (ran_tokens (trace_of example_start example_session))
   ≤ in_flight example_start + submissions (trace_of example_start example_session))%nat
  ∧ (example_start = init →
     length (ran_tokens (trace_of example_start example_session))
     + in_flight (state_after example_start example_session)
     ≤ submissions (trace_of example_start example_session))%nat.
Proof.
  apply (work_bounded example_start (trace_of example_start example_session)
           (state_after example_start example_session)).
  apply run_trace_of, example_session_happens.
Defined.

Lemma pool_drains_witness :
  ∃ tr σ', run two_jobs tr σ' ∧ tr.*1 = drain [honest_provider; honest_provider]
    ∧ length tr = in_flight two_jobs
    ∧ ran_tokens tr = (pool two_jobs).*1
    ∧ in_flight σ' = 0%nat ∧ crashed σ' = false
    ∧ ∀ token, token ∈ (pool two_jobs).*1 → job_terminal σ' token.
Proof.
  apply (pool_drains two_jobs [honest_provider; honest_provider]);
    [apply sys_inv_two_jobs|reflexivity|reflexivity|].
  repeat (apply Forall_cons_2; [apply working_honest_provider|]). apply Forall_nil_2.
Defined.

Lemma work_commutes_witness :
  ∃ σ1 σ2 σ12 σ21,
    step two_jobs (Work 0 honest_provider) (Ran example_token) σ1
    ∧ step σ1 (Work (1 - 1) no_route_provider) (Ran second_token) σ12
    ∧ step two_jobs (Work 1 no_route_provider) (Ran second_token) σ2
    ∧ step σ2 (Work 0 honest_provider) (Ran example_token) σ21
    ∧ same_service σ12 σ21.
Proof.
  apply (work_commutes two_jobs 0 1 honest_provider no_route_provider example_token
           second_token example_points ["4,4"; "5,5"]);
    [apply sys_inv_two_jobs|reflexivity|lia|reflexivity|reflexivity
    |apply honest_provider_contract|apply no_route_provider_contract].
Defined.

(** The two jobs drained: the one is a success, the other a failure, each
    with its own outcome. *)
Example two_jobs_drained :
  store (state_after two_jobs [Work 0 honest_provider; Work 0 no_route_provider])
  = [set_outcome 1%Z 3000%Z 180%Z EmptyString (new_row example_body example_token 0%Z);
     set_outcome (-1)%Z 0%Z 0%Z "ZERO_RESULTS" (new_row second_body second_token 0%Z)].
Proof. vm_compute. reflexivity. Qed.
