(* ===== verification/Batch.v ===== *)
(** * Batch: routes submitted together, each to its own terminal state

    The specification asks that any number of routes submitted at the same
    time each reach their own terminal state, without data of one job
    ending in another.  This file composes the three components on a
    batch: the routes are submitted under distinct tokens
    ([submit_all]), their goroutines run ([drain]), and the row of each
    token then holds the verdict computed from its own body and from the
    answers given to its own goroutine ([batch_completes]).  No
    submission is refused because of the work in progress: the goroutines
    in flight can be as many as one likes ([no_admission_cap]).

    The schedule is the one that runs the goroutines in the order they
    were started.  For the other schedules, [Schedule] shows that the runs
    of two goroutines commute, and [System] that the row of a token holds
    the verdict of its own goroutine in every run. *)

From Stdlib Require Import ZArith.
From stdpp Require Import base tactics option list strings pretty.
From S2P Require Import Prelude Types Codec JobStore Intake Worker Reporter System.
From S2P Require Import Schedule.

(** ** Definitions *)

(** The submission of a body for which the generator draws [token], on a
    database that works. *)
Definition submission (tb : string * string) : event :=
  Submit {| Body := Ok tb.2 |} {| uuid_NewV4 := tb.1; insert_fault := None |}.

(** A batch is a list of tokens with the bodies submitted under them. *)
Definition submit_all (batch : list (string * string)) : list event :=
  submission <$> batch.

Section batch_defs.
Context {J : Json}.

(** The waypoints the goroutine of a body is started with. *)
Definition waypoints (body : string) : routePathPoint :=
  match Unmarshal body with
  | Ok p => points_of p
  | Err _ => []
  end.

(** A submission the handler accepts on a store without its token: the
    body decodes to a valid route and the token can be encoded. *)
Definition acceptable (tb : string * string) : Prop :=
  (∃ p, Unmarshal tb.2 = Ok p ∧ valid_route p)
  ∧ is_ok (Marshal (responseToken_json {| Token := tb.1 |})) = true.

(** The goroutines a batch starts. *)
Definition started (batch : list (string * string))
  : list (string * routePathPoint) :=
  (λ tb, (tb.1, waypoints tb.2)) <$> batch.

End batch_defs.

(** The batch of the examples: the route of the specification and a route
    of one leg. *)
Definition example_batch : list (string * string) :=
  [(example_token, example_body); (second_token, second_body)].

(** ** Submitting a batch *)

Section batch.
Context {T : Type} {JS : JobStore T} {JSL : JobStoreLaws T} {J : Json}.
Implicit Types (σ : system T) (token body : string).

Lemma started_length batch : length (started batch) = length batch.
Proof. apply length_fmap. Qed.

Lemma started_lookup batch i :
  started batch !! i = (λ tb, (tb.1, waypoints tb.2)) <$> batch !! i.
Proof. apply list_lookup_fmap. Qed.

(** One accepted submission: the row is created pending with the body as
    submitted, the goroutine is started, and nothing else changes. *)
Lemma submission_step σ token body :
  crashed σ = false → acceptable (token, body) →
  store_select token (store σ) = None →
  ∃ obs σ1, step σ (submission (token, body)) obs σ1
    ∧ pool σ1 = pool σ ++ [(token, waypoints body)] ∧ crashed σ1 = false
    ∧ store_select token (store σ1) = Some (new_row body token 0)
    ∧ ∀ token', token' ≠ token →
        store_select token' (store σ1) = store_select token' (store σ).
Proof.
  intros Hc [(p & Hu & Hv) (tokenJson & Hm)%is_ok_true] Hfree. simpl in *.
  set (r := {| Body := Ok body |}).
  set (env := {| uuid_NewV4 := token; insert_fault := None |}).
  destruct (intake_verdict_accept r env (store σ) body p tokenJson)
    as (t' & Hins & Hverdict); [done..|]. subst r env.
  eexists _, _. split; [by apply step_submit|]. simpl.
  rewrite pathHandler_exec. simpl. rewrite Hverdict. simpl.
  unfold waypoints. rewrite Hu. split_and!; try done.
  - by apply (select_insert_new _ _ _ _ _ Hins).
  - intros token' Hne. by apply (select_insert_ne _ _ _ _ _ _ Hins).
Qed.

(** A batch of acceptable submissions under distinct tokens that the store
    does not hold: every one is accepted, in order. *)
Lemma submit_all_run σ batch :
  crashed σ = false → NoDup batch.*1 → Forall acceptable batch →
  (∀ token, token ∈ batch.*1 → store_select token (store σ) = None) →
  ∃ tr σ', run σ tr σ' ∧ tr.*1 = submit_all batch
    ∧ pool σ' = pool σ ++ started batch ∧ crashed σ' = false
    ∧ (∀ token body, (token, body) ∈ batch →
         store_select token (store σ') = Some (new_row body token 0))
    ∧ ∀ token, token ∉ batch.*1 →
        store_select token (store σ') = store_select token (store σ).
Proof.
  intros Hc Hnd Hacc. revert σ Hc Hnd.
  induction Hacc as [|[token body] batch Hok _ IH]; intros σ Hc Hnd Hfree.
  { exists [], σ. rewrite app_nil_r.
    split_and!; try done; [constructor|by intros ?? ?%not_elem_of_nil]. }
  rewrite fmap_cons in Hnd. apply NoDup_cons in Hnd as [Hnotin Hnd]. simpl in Hnotin.
  destruct (submission_step σ token body Hc Hok)
    as (obs & σ1 & Hstep & Hpool & Hc1 & Hnew & Hother); [apply Hfree; by left|].
  destruct (IH σ1 Hc1 Hnd) as (tr & σ' & Hrun & Hev & Hpool' & Hc' & Hrows & Hrest).
  { intros token' Hin. rewrite Hother; [apply Hfree; by right|]. by intros ->. }
  exists ((submission (token, body), obs) :: tr), σ'. split_and!; try done.
  - by econstructor.
  - by rewrite fmap_cons, Hev.
  - rewrite Hpool', Hpool, <- app_assoc. done.
  - intros token' body' [[= -> ->]|Hin]%elem_of_cons; [by rewrite Hrest|by apply Hrows].
  - intros token' [Hne Hnotin']%not_elem_of_cons. rewrite Hrest by done.
    by apply Hother.
Qed.

(** A batch completes.  Routes submitted to the starting service
    under pairwise distinct tokens, each with a body that decodes to a
    valid route, are all accepted; when their goroutines then run with a
    working database and providers that keep the contract, the run ends
    with no goroutine in flight and the process alive, and the row of each
    token is the row created for its own body with the verdict computed
    from the waypoints of that body and the answers given to its own
    goroutine: a terminal status, its totals and its error.  No job holds
    the outcome of another. *)
Theorem batch_completes batch envs :
  NoDup batch.*1 → Forall acceptable batch →
  length envs = length batch → Forall working envs →
  ∃ tr σ', run (init : system T) tr σ' ∧ tr.*1 = submit_all batch ++ drain envs
    ∧ in_flight σ' = 0%nat ∧ crashed σ' = false
    ∧ ∀ i token body env, batch !! i = Some (token, body) → envs !! i = Some env →
        ∃ st d tm e, worker_verdict_of env (waypoints body) = Outcome st d tm e
          ∧ job_terminal σ' token
          ∧ store_select token (store σ')
            = Some (set_outcome st d tm e (new_row body token 0)).
Proof.
  intros Hnd Hacc Hlen Hwork.
  destruct (submit_all_run init batch) as (tr0 & σ0 & Hrun0 & Hev0 & Hpool0 & Hc0 & Hrows & _);
    [done..|intros token _; apply select_empty|].
  change (pool σ0 = started batch) in Hpool0.
  assert (sys_inv σ0) as Hinv0 by (eapply sys_inv_run; [apply sys_inv_init|done]).
  destruct (drain_run σ0 envs) as (tr1 & σ' & Hrun1 & Hev1 & _ & Hempty & Hc' & Hterm & Hfin);
    [done|done|by unfold in_flight; rewrite Hpool0, started_length|done|].
  exists (tr0 ++ tr1), σ'. split_and!; try done.
  - by eapply run_app.
  - by rewrite fmap_app, Hev0, Hev1.
  - unfold in_flight. by rewrite Hempty.
  - intros i token body env Hb Henv.
    assert (pool σ0 !! i = Some (token, waypoints body)) as Hg
      by by rewrite Hpool0, started_lookup, Hb.
    destruct (Hfin i env _ Henv Hg) as (row & st & d & tm & e & Hrow & Hv & Hsel).
    simpl in *. rewrite (Hrows token body) in Hrow by by eapply list_elem_of_lookup_2.
    injection Hrow as <-. exists st, d, tm, e. split_and!; try done.
    apply Hterm. by apply (list_elem_of_fmap_2' fst _ (token, waypoints body));
      [eapply list_elem_of_lookup_2|].
Qed.

(** No cap on the goroutines in flight.  Submissions of one acceptable
    body under pairwise distinct tokens are all accepted, and each leaves
    its goroutine in the pool: the service reaches a state with as many
    goroutines in flight as there are tokens.  Nothing in [pathHandler]
    refuses a submission because of the work in progress. *)
Lemma in_flight_grows body tokens :
  NoDup tokens → Forall (λ token, acceptable (token, body)) tokens →
  ∃ tr σ, run (init : system T) tr σ ∧ in_flight σ = length tokens ∧ crashed σ = false.
Proof.
  intros Hnd Hacc. set (batch := (λ token, (token, body)) <$> tokens).
  assert (batch.*1 = tokens) as Hfst.
  { unfold batch. rewrite <- list_fmap_compose. apply list_fmap_id. }
  destruct (submit_all_run init batch) as (tr & σ & Hrun & _ & Hpool & Hc & _);
    [done|by rewrite Hfst|by apply Forall_fmap|intros token _; apply select_empty|].
  change (pool σ = started batch) in Hpool. exists tr, σ. split_and!; [done| |done].
  unfold in_flight. rewrite Hpool, started_length. unfold batch. by rewrite length_fmap.
Qed.

End batch.

(** ** The theorem at the batch of the examples *)

Lemma batch_completes_witness :
  ∃ tr σ', run (init : system table) tr σ'
    ∧ tr.*1 = submit_all example_batch ++ drain [honest_provider; no_route_provider]
    ∧ in_flight σ' = 0%nat ∧ crashed σ' = false
    ∧ ∀ i token body env, example_batch !! i = Some (token, body) →
        [honest_provider; no_route_provider] !! i = Some env →
        ∃ st d tm e, worker_verdict_of env (waypoints body) = Outcome st d tm e
          ∧ job_terminal σ' token
          ∧ store_select token (store σ')
            = Some (set_outcome st d tm e (new_row body token 0)).
Proof.
  apply (batch_completes example_batch [honest_provider; no_route_provider]).
  - apply (bool_decide_unpack _). vm_compute. reflexivity.
  - repeat (apply Forall_cons_2; [split; [eexists; split; [vm_compute; reflexivity|]|]|]);
      try apply Forall_nil_2; try reflexivity; vm_compute; repeat constructor; lia.
  - reflexivity.
  - apply Forall_cons_2; [apply working_honest_provider|].
    apply Forall_cons_2; [|apply Forall_nil_2].
    split_and!; [done..|apply no_route_provider_contract].
Defined.

(** The batch of the examples, run: the route of the specification is a
    success with its totals and the route without a result a failure. *)
Example example_batch_store :
  store (state_after (init : system table)
           (submit_all example_batch ++ drain [honest_provider; no_route_provider]))
  = [set_outcome 1%Z 3000%Z 180%Z EmptyString (new_row example_body example_token 0%Z);
     set_outcome (-1)%Z 0%Z 0%Z "ZERO_RESULTS" (new_row second_body second_token 0%Z)].
Proof. vm_compute. reflexivity. Qed.

(** With the codec of the program and the table, the goroutines in flight
    can be as many as one likes: the route of the specification submitted
    [n] times, under the tokens [0], [1], ..., leaves [n] goroutines in the
    pool. *)
Example no_admission_cap n :
  ∃ tr σ, run (init : system table) tr σ ∧ in_flight σ = n ∧ crashed σ = false.
Proof.
  destruct (in_flight_grows (T := table) example_body (pretty <$> seq 0 n))
    as (tr & σ & Hrun & Hn & Hc).
  - apply (NoDup_fmap_2 _), NoDup_seq.
  - apply Forall_fmap, Forall_forall. intros i _. split; [|done].
    exists example_route. split; [by vm_compute|]. apply (bool_decide_unpack _). by vm_compute.
  - exists tr, σ. by rewrite Hn, length_fmap, length_seq in *.
Qed.
