(* ===== verification/Refinement.v ===== *)
(** * Refinement: the service on the table and on the abstract store

    The specification describes the store as a key-value store from tokens
    to jobs; the program keeps a table.  [JobStore] proves that the three
    statements on the table are the operations of the map through
    [table_abs].  This file lifts that to the service: the handlers and
    the goroutine commute with the abstraction ([abs_world]), so does
    every transition ([abs_system]), and the service on the table and the
    service on the map have the same runs with the same responses. *)

From Stdlib Require Import ZArith.
From stdpp Require Import base tactics option list strings gmap.
From S2P Require Import Prelude Types Codec JobStore Intake Worker Reporter System.

#[local] Open Scope Z_scope.

(** ** The abstraction *)

(** The world of a call, with the table replaced by the map it stands for. *)
Definition abs_world (s : world table) : world jobmap :=
  {| db := table_abs (db s); logged := logged s; writer := writer s;
     goroutines := goroutines s |}.

Definition abs_system (σ : system table) : system jobmap :=
  {| store := table_abs (store σ); pool := pool σ; journal := journal σ;
     crashed := crashed σ |}.

(** The verdict of the intake on the map, from the verdict on the table. *)
Definition abs_verdict (v : verdict (T := table)) : verdict (T := jobmap) :=
  match v with
  | Rejected line body => Rejected line body
  | Accepted t' token tokenJson points => Accepted (table_abs t') token tokenJson points
  end.

(** Two systems on the table are equivalent when they stand for the same
    system on the map: the same rows by token, whatever their order. *)
Definition system_equiv (σ1 σ2 : system table) : Prop :=
  abs_system σ1 = abs_system σ2.

#[export] Instance system_equiv_equivalence : Equivalence system_equiv.
Proof.
  unfold system_equiv. split.
  - by intros σ.
  - by intros σ1 σ2.
  - intros σ1 σ2 σ3. congruence.
Qed.

(** ** The functions commute with the abstraction *)

Section refinement.
Context {J : Json}.
Implicit Types (s : world table) (σ : system table) (t : table).

Lemma abs_world_of t : abs_world (world_of t) = world_of (table_abs t).
Proof. done. Qed.

Lemma abs_add_log lines s : abs_world (add_log lines s) = add_log lines (abs_world s).
Proof. done. Qed.

Lemma intake_verdict_abs r env t :
  intake_verdict r env (table_abs t) = abs_verdict (intake_verdict r env t).
Proof.
  unfold intake_verdict. destruct (Body r) as [body|e]; [|done].
  destruct (Unmarshal body) as [p|e]; [|done].
  repeat case_decide; try done.
  destruct (Marshal _) as [tokenJson|e]; [|done].
  destruct (insert_fault env) as [e|]; [done|].
  pose proof (table_abs_insert body (uuid_NewV4 env) 0 t) as Hins. simpl in *.
  rewrite <- Hins. by destruct (sql_insert _ _ _ t).
Qed.

Lemma apply_verdict_abs (v : verdict (T := table)) s :
  apply_verdict (abs_verdict v) (abs_world s) = abs_world (apply_verdict v s).
Proof. by destruct v. Qed.

Lemma pathHandler_abs r env s :
  exec (pathHandler r env) (abs_world s) = abs_world (exec (pathHandler r env) s).
Proof.
  unfold exec. rewrite !pathHandler_run. simpl.
  by rewrite intake_verdict_abs, apply_verdict_abs.
Qed.

Lemma apply_worker_verdict_abs v fault token t :
  apply_worker_verdict v fault token (table_abs t)
  = table_abs (apply_worker_verdict v fault token t).
Proof.
  destruct v as [|msg|st d tm e], fault; simpl; try done.
  symmetry. apply table_abs_update.
Qed.

Lemma worker_world_abs env token points s :
  worker_world env token points (abs_world s)
  = abs_world (worker_world env token points s).
Proof.
  unfold worker_world, failed_world.
  repeat (case_match; simpl; try done);
    unfold abs_world, add_log, set_db; simpl; f_equal;
    rewrite ?apply_worker_verdict_abs; try done;
    symmetry; apply table_abs_update.
Qed.

Lemma processRoute_abs env token points s :
  exec (processRoute env token points) (abs_world s)
  = abs_world (exec (processRoute env token points) s)
  ∧ outcome (processRoute env token points) (abs_world s)
    = outcome (processRoute env token points) s.
Proof.
  unfold exec, outcome. rewrite !processRoute_run. simpl.
  by rewrite worker_world_abs.
Qed.

Lemma routeHandler_abs token env s :
  exec (routeHandler token env) (abs_world s)
  = abs_world (exec (routeHandler token env) s).
Proof.
  unfold exec. rewrite !routeHandler_run. simpl. unfold report_world. simpl.
  pose proof (table_abs_lookup token (db s)) as Hsel. simpl in *. rewrite Hsel.
  by destruct (Marshal _).
Qed.

(** ** The transitions commute with the abstraction *)

Lemma served_abs σ s :
  served (abs_system σ) (abs_world s) = abs_system (served σ s).
Proof. done. Qed.

Lemma worked_abs σ k s f :
  worked (abs_system σ) k (abs_world s) f = abs_system (worked σ k s f).
Proof. done. Qed.

Lemma apply_event_abs σ ev :
  apply_event (abs_system σ) ev
  = (λ σo, (abs_system σo.1, σo.2)) <$> apply_event σ ev.
Proof.
  unfold apply_event. simpl. destruct (crashed σ); [done|].
  destruct ev as [r env|token env|k env]; simpl.
  - change (world_of (table_abs (store σ))) with (abs_world (world_of (store σ))).
    by rewrite pathHandler_abs.
  - change (world_of (table_abs (store σ))) with (abs_world (world_of (store σ))).
    by rewrite routeHandler_abs.
  - destruct (pool σ !! k) as [[token points]|]; [|done]. simpl.
    change (world_of (table_abs (store σ))) with (abs_world (world_of (store σ))).
    destruct (processRoute_abs env token points (world_of (store σ))) as [He Ho].
    unfold exec, outcome in He, Ho. by rewrite He, Ho.
Qed.

Lemma step_abs σ ev obs σ' :
  step σ ev obs σ' → step (abs_system σ) ev obs (abs_system σ').
Proof. rewrite !step_apply_event, apply_event_abs. by intros ->. Qed.

Lemma step_abs_inv σ ev obs (τ : system jobmap) :
  step (abs_system σ) ev obs τ → ∃ σ', τ = abs_system σ' ∧ step σ ev obs σ'.
Proof.
  rewrite step_apply_event, apply_event_abs.
  destruct (apply_event σ ev) as [[σ' obs']|] eqn:Hs; [|done].
  intros [= <- <-]. exists σ'. split; [done|]. by apply step_apply_event.
Qed.

Lemma run_abs σ tr σ' : run σ tr σ' → run (abs_system σ) tr (abs_system σ').
Proof.
  induction 1 as [|σ ev obs σ1 tr σ2 Hs _ IH]; [constructor|].
  econstructor; [by apply step_abs|done].
Qed.

Lemma run_abs_inv σ tr (τ : system jobmap) :
  run (abs_system σ) tr τ → ∃ σ', τ = abs_system σ' ∧ run σ tr σ'.
Proof.
  revert σ. induction tr as [|[ev obs] tr IH]; intros σ Hrun.
  - inversion Hrun; subst. exists σ. split; [done|constructor].
  - inversion Hrun as [|? ? ? τ1 ? ? Hs Hr]; subst.
    destruct (step_abs_inv _ _ _ _ Hs) as (σ1 & -> & Hs1).
    destruct (IH _ Hr) as (σ2 & -> & Hr2).
    exists σ2. split; [done|]. by econstructor.
Qed.

(** Equivalent systems take the same transitions, with the same responses,
    to equivalent systems. *)
Lemma step_equiv σ1 σ2 ev obs σ1' :
  system_equiv σ1 σ2 → step σ1 ev obs σ1' →
  ∃ σ2', step σ2 ev obs σ2' ∧ system_equiv σ1' σ2'.
Proof.
  unfold system_equiv. intros Heq Hs%step_abs. rewrite Heq in Hs.
  destruct (step_abs_inv _ _ _ _ Hs) as (σ2' & Heq' & Hs2). eauto.
Qed.

(** The state of a job is read through the abstraction, so it is the same
    in equivalent systems. *)
Lemma job_state_abs σ token : job_state (abs_system σ) token = job_state σ token.
Proof.
  unfold job_state. simpl.
  pose proof (table_abs_lookup token (store σ)) as Hsel. simpl in *. by rewrite Hsel.
Qed.

#[export] Instance job_state_proper :
  Proper (system_equiv ==> (=) ==> (=)) (job_state (T := table)).
Proof.
  intros σ1 σ2 Heq token ? <-. unfold system_equiv in Heq.
  by rewrite <- (job_state_abs σ1), <- (job_state_abs σ2), Heq.
Qed.

(** C39.  The service on the table refines the service on the key-value
    store of the specification.  Through the abstraction, the empty table
    is the empty store; every run of the service on the table is a run of
    the service on the map with the same events and the same responses;
    and every run of the service on the map from the abstraction of a
    state is the abstraction of a run on the table.  What a client
    observes does not depend on how the rows are kept. *)
Theorem service_refines_map σ tr :
  abs_system (init : system table) = init
  ∧ (∀ σ', run σ tr σ' → run (abs_system σ) tr (abs_system σ'))
  ∧ (∀ τ, run (abs_system σ) tr τ → ∃ σ', τ = abs_system σ' ∧ run σ tr σ').
Proof.
  split_and!.
  - done.
  - intros σ'. apply run_abs.
  - intros τ. apply run_abs_inv.
Qed.

End refinement.

(** The example session on the map: the responses are those of the table. *)
Example example_session_on_map :
  snd <$> apply_events (init : system jobmap) example_session
  = snd <$> apply_events (init : system table) example_session.
Proof. vm_compute. reflexivity. Qed.
