(* ===== verification/Thread.v ===== *)
(** * Thread: the functions statement by statement

    [System] takes the call of a handler and the run of a goroutine as one
    transition.  To say what that leaves out, the three functions are
    written here a second time, as the sequences of the operations they
    perform on what they share: a line for the log, a call on the response
    writer, a [go] statement, and the three statements on the database.
    A [thread] is such a sequence, each operation followed by what the
    function does with its answer.

    - [pathHandler_t], [processRoute_t] and [routeHandler_t] are the
      functions of the program in that form, statement for statement the
      definitions of [Intake], [Worker] and [Reporter].
    - [run_thread] performs the operations of a thread one after the other
      without interruption.  Run that way, each function is the function
      of the component ([pathHandler_refines], [processRoute_refines],
      [routeHandler_refines]).  These three lemmas say that the two ways
      of writing the functions agree, nothing of the program: they carry
      what is proved of the components to the machine of [Interleaving].
    - Each function performs at most one statement on the database on
      every path, and after it neither another statement nor a panic
      ([one_db]).  This is what [Interleaving] needs to take the statement
      as the point at which the whole call takes effect. *)

From Stdlib Require Import ZArith Lia.
From stdpp Require Import base tactics option list strings.
From S2P Require Import Prelude Types Codec JobStore Intake Worker Reporter.

#[local] Open Scope Z_scope.

(** ** Operations and threads *)

(** The operations on what the calls share.  A statement on the database
    carries the fault the environment decides for it. *)
Inductive op : Type :=
| OLog (line : string)
| OWriter (c : writer_call)
| OGo (token : string) (points : routePathPoint)
| OInsert (fault : option string) (path token : string) (status : Z)
| OUpdate (fault : option string) (status total_distance total_time : Z)
    (response_error token : string)
| OSelect (fault : option string) (token : string).

(** What an operation answers. *)
Definition answer (o : op) : Type :=
  match o with
  | OLog _ | OWriter _ | OGo _ _ => unit
  | OInsert _ _ _ _ | OUpdate _ _ _ _ _ _ => result unit
  | OSelect _ _ => (scanned * option string)%type
  end.

Definition is_db (o : op) : bool :=
  match o with
  | OInsert _ _ _ _ | OUpdate _ _ _ _ _ _ | OSelect _ _ => true
  | _ => false
  end.

Definition is_go (o : op) : bool :=
  match o with OGo _ _ => true | _ => false end.

(** A thread: how it ended, or an operation and the rest of the thread for
    each answer. *)
Inductive thread (A : Type) : Type :=
| Fin (f : flow A)
| Do (o : op) (k : answer o → thread A).
Arguments Fin {A} f.
Arguments Do {A} o k.

Fixpoint tbind {A B} (t : thread A) (g : A → thread B) : thread B :=
  match t with
  | Fin (Next a) => g a
  | Fin Return => Fin Return
  | Fin (Panic msg) => Fin (Panic msg)
  | Do o k => Do o (λ x, tbind (k x) g)
  end.

Arguments tbind : simpl never.

Definition act (o : op) : thread (answer o) := Do o (λ x, Fin (Next x)).

Definition tcheck {A} (r : result A) (h : string → thread unit) : thread A :=
  match r with
  | Ok a => Fin (Next a)
  | Err e => tbind (h e) (λ _, Fin Return)
  end.

Definition treject_if (c : bool) (h : thread unit) : thread unit :=
  if c then tbind h (λ _, Fin Return) else Fin (Next tt).

Declare Scope thread_scope.
Delimit Scope thread_scope with thread.
Notation "x ← m ; k" := (tbind m (λ x, k))
  (at level 20, m at level 100, k at level 200, only parsing) : thread_scope.
Notation "m ;; k" := (tbind m (λ _, k))
  (at level 100, k at level 200, only parsing, right associativity) : thread_scope.
Notation "r 'or_else' h" := (tcheck r h)
  (at level 50, only parsing) : thread_scope.

(** The stages of a thread.  [used] says whether a statement on the
    database has been performed: a thread is staged when it performs no
    statement after the first, does not panic after it and starts no
    goroutine before it, and when [Q] holds of the stage and the value
    with which it falls through. *)
Fixpoint staged {A} (used : bool) (t : thread A) (Q : bool → A → Prop) : Prop :=
  match t with
  | Fin (Next a) => Q used a
  | Fin Return => True
  | Fin (Panic _) => used = false
  | Do o k =>
      if is_db o then used = false ∧ ∀ x, staged true (k x) Q
      else (is_go o = true → used = true) ∧ ∀ x, staged used (k x) Q
  end.

(** At most one statement on the database on every path, no goroutine
    started before it, and neither a statement nor a panic after it. *)
Definition one_db {A} (t : thread A) : Prop := staged false t (λ _ _, True).

(** Neither a statement on the database nor a panic, on any path. *)
Definition quiet {A} (t : thread A) : Prop := staged true t (λ _ _, True).

(** ** The functions of the program *)

Section threads.
Context {J : Json}.

(** [http.Error(w, body, code)]. *)
Definition t_http_Error (body : string) (code : Z) : thread unit :=
  act (OWriter (WError body code)).

Fixpoint join_points_t (routePathArr : routePath) (routePathPointArr : routePathPoint)
  : thread routePathPoint :=
  match routePathArr with
  | [] => Fin (Next routePathPointArr)
  | loc :: rest =>
      (treject_if (bool_decide (length loc ≠ 2%nat))
         (act (OLog "Incorrect latitude longitude");;
          t_http_Error (error_body "Incorrect latitude longitude") 200);;
       join_points_t rest (routePathPointArr ++ [String.concat "," loc]))%thread
  end.

Definition pathHandler_t (r : Request) (env : intake_env) : thread unit :=
  (routePathJson ← Body r or_else (λ err,
     act (OLog ("Error while reading r.Body: " +:+ err));;
     t_http_Error (error_body err) 200);
   routePathArr ← Unmarshal routePathJson or_else (λ err,
     act (OLog ("Decoding error: " +:+ err));;
     t_http_Error (error_body err) 200);
   treject_if (bool_decide (length routePathArr < 2)%nat)
     (act (OLog "Route start & dropoff required");;
      t_http_Error (error_body "Route start & dropoff required") 200);;
   treject_if (bool_decide (26 < length routePathArr)%nat)
     (act (OLog "Max dropoff location is 25 (the limit can increased as required)");;
      t_http_Error
        (error_body "Max dropoff location is 25 (the limit can increased as required)")
        200);;
   routePathPointArr ← join_points_t routePathArr [];
   let token := uuid_NewV4 env in
   let tokenObj := {| Token := token |} in
   tokenJson ← Marshal (responseToken_json tokenObj) or_else (λ err,
     act (OLog ("Token encoding error: " +:+ err));;
     t_http_Error (error_body err) 200);
   inserted ← act (OInsert (insert_fault env) routePathJson token 0);
   inserted or_else (λ err,
     act (OLog ("Error while inserting token row: " +:+ err));;
     t_http_Error (error_body err) 200);;
   act (OGo token routePathPointArr);;
   act (OWriter (WHeaderSet "Content-Type" "application/json"));;
   act (OWriter (WWrite tokenJson));;
   Fin Return)%thread.

Definition fail_job_t (env : worker_env) (token response_error shown log_prefix : string)
  : thread unit :=
  (act (OLog ("Distance Matrix Error: " +:+ token +:+ ": " +:+ shown));;
   written ← act (OUpdate (exec_fault env) (-1) 0 0 response_error token);
   match written with
   | Err e => act (OLog (log_prefix +:+ token +:+ ": " +:+ e))
   | Ok _ => Fin (Next tt)
   end)%thread.

Fixpoint sum_rows_t (env : worker_env) (token : string)
    (rows : list DistanceMatrixElementsRow) (i : nat) (total_distance total_time : Z)
  : thread (Z * Z) :=
  match rows with
  | [] => Fin (Next (total_distance, total_time))
  | row :: rest =>
      match Elements row !! i with
      | None => Fin (Panic "runtime error: index out of range")
      | Some e =>
          if decide (ElementStatus e = "OK") then
            sum_rows_t env token rest (S i)
              (add64 total_distance (leg_meters e))
              (add64 total_time (leg_seconds e))
          else
            (fail_job_t env token (ElementStatus e) "<nil>" "Error while updating row: ";;
             Fin Return)%thread
      end
  end.

Definition processRoute_t (env : worker_env) (token : string)
    (routePathPointArr : routePathPoint) : thread unit :=
  (act (OLog ("In process: " +:+ token));;
   match prepare_fault env with
   | Some e => act (OLog ("Error while updating token row: " +:+ e));; Fin Return
   | None => Fin (Next tt)
   end;;
   origins ← match slice_init routePathPointArr with
             | Some o => Fin (Next o)
             | None => Fin (Panic "runtime error: slice bounds out of range")
             end;
   destinations ← match slice_tail routePathPointArr with
                  | Some d => Fin (Next d)
                  | None => Fin (Panic "runtime error: slice bounds out of range")
                  end;
   let dmreq := {| Origins := origins; Destinations := destinations;
                   Language := "en" |} in
   answer ← match client_panic env with
            | Some msg => Fin (Panic msg)
            | None => Fin (Next (DistanceMatrix env dmreq))
            end;
   dmresp ← match answer with
            | Ok resp => Fin (Next resp)
            | Err e =>
                fail_job_t env token e e "Error while updating token row: ";;
                Fin Return
            end;
   totals ← sum_rows_t env token (Rows dmresp) 0 0 0;
   written ← act (OUpdate (exec_fault env) 1 totals.1 totals.2 EmptyString token);
   match written with
   | Err e => act (OLog ("Error while updating token row: " +:+ e))
   | Ok _ => Fin (Next tt)
   end;;
   act (OLog ("Process completed: " +:+ token)))%thread.

Definition check_token_t (token : string) (routeResult : shortestRoute)
  : thread shortestRoute :=
  (if decide (token = EmptyString)
   then act (OLog "Token empty");; Fin (Next invalid_token)
   else Fin (Next routeResult))%thread.

Definition check_scan_t (err : option string) (routeResult : shortestRoute)
  : thread shortestRoute :=
  match err with
  | Some e => (act (OLog ("No row found: " +:+ e));; Fin (Next invalid_token))%thread
  | None => Fin (Next routeResult)
  end.

Definition switch_status_t (vars : scanned) (routeResult : shortestRoute)
  : thread shortestRoute :=
  if decide (status vars = 0) then Fin (Next in_progress)
  else if decide (status vars = -1) then Fin (Next (failure (response_error vars)))
  else if decide (status vars = 1) then
    match Unmarshal (routePathJson vars) with
    | Err e => (act (OLog ("Decoding error: " +:+ e));; Fin (Next (failure e)))%thread
    | Ok routePathArr =>
        Fin (Next (success routePathArr (total_distance vars) (total_time vars)))
    end
  else Fin (Next routeResult).

Definition routeHandler_t (token : string) (env : report_env) : thread unit :=
  (let routeResult := shortestRoute_zero in
   routeResult ← check_token_t token routeResult;
   act (OLog ("token received: " +:+ token));;
   vars ← act (OSelect (select_fault env) token);
   routeResult ← check_scan_t vars.2 routeResult;
   routeResult ← switch_status_t vars.1 routeResult;
   routeJson ← Marshal (shortestRoute_json routeResult) or_else (λ err,
     act (OLog ("Error: " +:+ token +:+ ": " +:+ err));;
     t_http_Error (failure_body err) 200);
   act (OWriter (WHeaderSet "Content-Type" "application/json"));;
   act (OWriter (WWrite routeJson));;
   Fin Return)%thread.

End threads.

(** ** Running a thread without interruption *)

Section run.
Context {T : Type} {JS : JobStore T}.
Implicit Types (s : world T).

(** One operation on the world of a call. *)
Definition perform (o : op) s : world T * answer o :=
  match o return world T * answer o with
  | OLog line => (add_log [line] s, tt)
  | OWriter c =>
      ({| db := db s; logged := logged s; writer := writer s ++ [c];
          goroutines := goroutines s |}, tt)
  | OGo token points =>
      ({| db := db s; logged := logged s; writer := writer s;
          goroutines := goroutines s ++ [(token, points)] |}, tt)
  | OInsert fault path token status =>
      match fault with
      | Some e => (s, Err e)
      | None =>
          match store_insert path token status (db s) with
          | Ok t' => (set_db t' s, Ok tt)
          | Err e => (s, Err e)
          end
      end
  | OUpdate fault status total_distance total_time response_error token =>
      match fault with
      | Some e => (s, Err e)
      | None =>
          (set_db (store_update status total_distance total_time response_error
                     token (db s)) s, Ok tt)
      end
  | OSelect fault token =>
      match fault with
      | Some e => (s, (scanned_zero, Some e))
      | None =>
          match store_select token (db s) with
          | Some row => (s, (scanned_of row, None))
          | None => (s, (scanned_zero, Some "sql: no rows in result set"))
          end
      end
  end.

Fixpoint run_thread {A} (t : thread A) : prog (world T) A :=
  match t with
  | Fin f => λ s, (s, f)
  | Do o k => λ s, let r := perform o s in run_thread (k r.2) r.1
  end.

(** The number of operations a thread performs when it runs without
    interruption. *)
Fixpoint operations {A} (t : thread A) s : nat :=
  match t with
  | Fin _ => 0
  | Do o k => let r := perform o s in S (operations (k r.2) r.1)
  end.

(** The number of statements on the database among them. *)
Fixpoint statements {A} (t : thread A) s : nat :=
  match t with
  | Fin _ => 0
  | Do o k =>
      let r := perform o s in
      ((if is_db o then 1 else 0) + statements (k r.2) r.1)%nat
  end.

(** A thread refines a function of a component when, run without
    interruption, it is that function. *)
Definition refines {A} (t : thread A) (p : prog (world T) A) : Prop :=
  ∀ s, run_thread t s = p s.

(** What a call has logged, written and started. *)
Record trail : Type := {
  t_logged : list string;
  t_writer : list writer_call;
  t_goroutines : list (string * routePathPoint);
}.

Definition no_trail : trail := {| t_logged := []; t_writer := []; t_goroutines := [] |}.

Definition join (e1 e2 : trail) : trail :=
  {| t_logged := t_logged e1 ++ t_logged e2; t_writer := t_writer e1 ++ t_writer e2;
     t_goroutines := t_goroutines e1 ++ t_goroutines e2 |}.

Definition trail_of s : trail :=
  {| t_logged := logged s; t_writer := writer s; t_goroutines := goroutines s |}.

(** The world [s] with the trail [e] before what it holds, and after. *)
Definition prepend (e : trail) s : world T :=
  {| db := db s; logged := t_logged e ++ logged s; writer := t_writer e ++ writer s;
     goroutines := t_goroutines e ++ goroutines s |}.

Definition append s (e : trail) : world T :=
  {| db := db s; logged := logged s ++ t_logged e; writer := writer s ++ t_writer e;
     goroutines := goroutines s ++ t_goroutines e |}.

(** What is left of a quiet thread: what it logs, writes and starts, and
    how it ends. *)
Definition rest {A} (t : thread A) : trail * flow A :=
  let r := run_thread t (world_of store_empty) in (trail_of r.1, r.2).

End run.

(** ** Threads and functions *)

Create HintDb refines discriminated.

Section refinement.
Context {T : Type} {JS : JobStore T} {J : Json}.
Implicit Types (s : world T).

Lemma refines_ret {A} (a : A) : refines (T := T) (Fin (Next a)) (ret a).
Proof. done. Qed.

Lemma refines_return {A} : refines (T := T) (A := A) (Fin Return) return_.
Proof. done. Qed.

Lemma refines_panic {A} msg : refines (T := T) (A := A) (Fin (Panic msg)) (panic msg).
Proof. done. Qed.

Lemma refines_bind {A B} (t : thread A) (g : A → thread B) p (q : A → prog (world T) B) :
  refines t p → (∀ a, refines (g a) (q a)) → refines (tbind t g) (bind p q).
Proof.
  intros Ht Hg s. unfold bind. rewrite <- Ht. clear Ht. revert s.
  induction t as [[a| |msg]|o k IH]; intros s; simpl; [apply Hg|done..|apply IH].
Qed.

Lemma refines_check {A} (r : result A) h (h' : string → prog (world T) unit) :
  (∀ e, refines (h e) (h' e)) → refines (tcheck r h) (check r h').
Proof.
  intros Hh. destruct r as [a|e]; simpl; [done|].
  apply refines_bind; [apply Hh|by intros _].
Qed.

Lemma refines_reject_if c h (h' : prog (world T) unit) :
  refines h h' → refines (treject_if c h) (reject_if c h').
Proof.
  intros Hh. destruct c; simpl; [|done]. apply refines_bind; [apply Hh|by intros _].
Qed.

Lemma refines_log line : refines (T := T) (act (OLog line)) (log_Printf line).
Proof. done. Qed.

Lemma refines_http_Error body code :
  refines (T := T) (t_http_Error body code) (http_Error body code).
Proof. done. Qed.

Lemma refines_Header_Set key value :
  refines (T := T) (act (OWriter (WHeaderSet key value))) (w_Header_Set key value).
Proof. done. Qed.

Lemma refines_Write body : refines (T := T) (act (OWriter (WWrite body))) (w_Write body).
Proof. done. Qed.

Lemma refines_go token points :
  refines (T := T) (act (OGo token points)) (go_processRoute token points).
Proof. done. Qed.

Lemma refines_insert fault path token status :
  refines (T := T) (act (OInsert fault path token status))
    (db_Exec_insert fault path token status).
Proof.
  intros s. unfold db_Exec_insert. simpl.
  destruct fault; [done|]. by destruct (store_insert _ _ _ _).
Qed.

Lemma refines_update fault st d t e token :
  refines (T := T) (act (OUpdate fault st d t e token))
    (stmt_Exec fault st d t e token).
Proof. intros s. unfold stmt_Exec. simpl. by destruct fault. Qed.

Lemma refines_select fault token :
  refines (T := T) (act (OSelect fault token)) (QueryRow_Scan fault token).
Proof.
  intros s. unfold QueryRow_Scan. simpl.
  destruct fault; [done|]. by destruct (store_select _ _).
Qed.

End refinement.

#[export] Hint Resolve refines_ret refines_return refines_panic refines_bind
  refines_check refines_reject_if refines_log refines_http_Error refines_Header_Set
  refines_Write refines_go refines_insert refines_update refines_select : refines.

(** Decomposes a goal [refines t p] along the structure of the function. *)
Ltac refines_step :=
  first [ apply refines_bind; [|intros ?]
        | apply refines_check; intros ?
        | apply refines_reject_if
        | progress eauto with refines
        | case_match ].

Ltac solve_refines := repeat refines_step.

(** ** The stages of a thread *)

Lemma tbind_Do {A B} o (k : answer o → thread A) (g : A → thread B) :
  tbind (Do o k) g = Do o (λ x, tbind (k x) g).
Proof. done. Qed.

Lemma staged_bind {A B} u (t : thread A) (g : A → thread B) Q :
  staged u (tbind t g) Q ↔ staged u t (λ u' a, staged u' (g a) Q).
Proof.
  revert u. induction t as [[a| |msg]|o k IH]; intros u; try done.
  rewrite tbind_Do. simpl.
  destruct (is_db o); split; intros [Hu Hk]; (split; [done|]); intros x; by apply IH.
Qed.

Lemma staged_impl {A} u (t : thread A) (Q Q' : bool → A → Prop) :
  (∀ u' a, Q u' a → Q' u' a) → staged u t Q → staged u t Q'.
Proof.
  intros HQ. revert u. induction t as [[a| |msg]|o k IH]; intros u; simpl; auto.
  destruct (is_db o); intros [Hu Hk]; (split; [done|]); intros x; by apply IH.
Qed.

(** Decomposes a goal [staged u t Q] along the structure of the function. *)
Ltac staged_step :=
  first [ rewrite staged_bind
        | progress (unfold tcheck, treject_if, act, t_http_Error)
        | progress simpl
        | progress intros
        | done
        | match goal with x : unit |- _ => destruct x end
        | split
        | case_match ].

Ltac solve_staged := repeat staged_step.

Section world_facts.
Context {T : Type} {JS : JobStore T}.
Implicit Types (s : world T) (e : trail).

Lemma prepend_trail_of s : prepend (trail_of s) (world_of (db s)) = s.
Proof. destruct s. unfold prepend. simpl. by rewrite !app_nil_r. Qed.

(** An operation appends to the log, to the calls on the writer and to the
    goroutines, whatever they hold. *)
Lemma perform_prepend o e s :
  perform o (prepend e s) = (prepend e (perform o s).1, (perform o s).2).
Proof.
  destruct o as [line|c|token points|fault path token st|fault st d t f token|fault token];
    simpl; unfold prepend, add_log, set_db; simpl; rewrite ?app_assoc; try done;
    destruct fault; try done; by repeat case_match.
Qed.

Lemma run_thread_prepend {A} (t : thread A) e s :
  run_thread t (prepend e s) = (prepend e (run_thread t s).1, (run_thread t s).2).
Proof.
  revert s. induction t as [f|o k IH]; intros s; simpl; [done|].
  rewrite perform_prepend. apply IH.
Qed.

(** An operation other than a statement neither reads nor changes the
    store. *)
Lemma perform_set_db o (d : T) s :
  is_db o = false →
  perform o (set_db d s) = (set_db d (perform o s).1, (perform o s).2).
Proof. by destruct o. Qed.

Lemma run_thread_set_db {A} (t : thread A) (d : T) s Q :
  staged true t Q →
  run_thread t (set_db d s) = (set_db d (run_thread t s).1, (run_thread t s).2).
Proof.
  revert s. induction t as [f|o k IH]; intros s; simpl; [done|].
  destruct (is_db o) eqn:Ho; [by intros [? _]|]. intros [_ Hk].
  rewrite perform_set_db by done. apply IH, Hk.
Qed.

(** A quiet thread appends what is left of it, whatever the store. *)
Lemma run_thread_quiet {A} (t : thread A) s Q :
  staged true t Q → run_thread t s = (append s (rest (T := T) t).1, (rest (T := T) t).2).
Proof.
  intros Ht. rewrite <- (prepend_trail_of s) at 1. rewrite run_thread_prepend.
  change (world_of (db s)) with (set_db (db s) (world_of (store_empty : T))).
  rewrite (run_thread_set_db t _ _ Q Ht). unfold rest, prepend, append. simpl.
  by destruct s.
Qed.

Lemma prepend_no_trail s : prepend no_trail s = s.
Proof. by destruct s. Qed.

Lemma prepend_join e1 e2 s : prepend (join e1 e2) s = prepend e1 (prepend e2 s).
Proof. unfold prepend, join. simpl. by rewrite !app_assoc. Qed.

Lemma join_assoc e1 e2 e3 : join (join e1 e2) e3 = join e1 (join e2 e3).
Proof. unfold join. simpl. by rewrite !(assoc_L (++)). Qed.

Lemma trail_of_prepend e s : trail_of (prepend e s) = join e (trail_of s).
Proof. done. Qed.

(** A thread run from a world is the thread run from its store, after
    what the world holds. *)
Lemma run_thread_from {A} (t : thread A) s :
  run_thread t s
  = (prepend (trail_of s) (run_thread t (world_of (db s))).1,
     (run_thread t (world_of (db s))).2).
Proof. by rewrite <- run_thread_prepend, prepend_trail_of. Qed.

Lemma operations_from {A} (t : thread A) s :
  operations t s = operations t (world_of (db s)).
Proof.
  rewrite <- (prepend_trail_of s) at 1. generalize (trail_of s) (world_of (db s)).
  induction t as [f|o k IH]; intros e s'; simpl; [done|].
  rewrite perform_prepend. simpl. by rewrite IH.
Qed.

Lemma join_no_trail e : join e no_trail = e.
Proof. destruct e. unfold join. simpl. by rewrite !app_nil_r. Qed.

(** A statement on the database logs, writes and starts nothing. *)
Lemma perform_db o (d : T) :
  is_db o = true → (perform o (world_of d)).1 = world_of (db (perform o (world_of d)).1).
Proof. destruct o; try done; simpl; intros _; by repeat case_match. Qed.

(** Another operation and its answer are the same whatever the store,
    which it leaves as it is. *)
Lemma perform_other o (d d' : T) :
  is_db o = false →
  perform o (world_of d')
  = (prepend (trail_of (perform o (world_of d)).1) (world_of d'), (perform o (world_of d)).2).
Proof. by destruct o. Qed.

Lemma perform_other_db o (d : T) : is_db o = false → db (perform o (world_of d)).1 = d.
Proof. by destruct o. Qed.

Lemma run_thread_other {A} o (k : answer o → thread A) (d d' : T) :
  is_db o = false →
  let r := perform o (world_of d) in
  run_thread (Do o k) (world_of d')
  = (prepend (trail_of r.1) (run_thread (k r.2) (world_of d')).1,
     (run_thread (k r.2) (world_of d')).2).
Proof.
  intros Ho r. simpl. rewrite (perform_other o d d' Ho). simpl.
  apply run_thread_prepend.
Qed.

(** What is left of a quiet thread after an operation. *)
Lemma rest_other {A} o (k : answer o → thread A) (d : T) :
  is_db o = false →
  let r := perform o (world_of d) in
  rest (T := T) (Do o k) = (join (trail_of r.1) (rest (T := T) (k r.2)).1, (rest (T := T) (k r.2)).2).
Proof.
  intros Ho r. unfold rest. rewrite (run_thread_other o k d store_empty Ho).
  simpl. unfold join, trail_of. simpl. done.
Qed.

(** A statement, then a thread that performs none: the store is the one
    the statement leaves, and what is logged, written and started is what
    is left of the thread. *)
Lemma run_thread_db {A} o (k : answer o → thread A) (d : T) Q :
  is_db o = true → (∀ x, staged true (k x) Q) →
  let r := perform o (world_of d) in
  run_thread (Do o k) (world_of d)
  = (prepend (rest (T := T) (k r.2)).1 (world_of (db r.1)), (rest (T := T) (k r.2)).2).
Proof.
  intros Ho Hk r. change (run_thread (Do o k) (world_of d)) with (run_thread (k r.2) r.1).
  rewrite (run_thread_quiet _ _ Q (Hk _)). unfold r. rewrite (perform_db o d Ho).
  unfold append, prepend. simpl. by rewrite !app_nil_r.
Qed.

Lemma perform_db_silent o (d : T) :
  is_db o = true →
  let r := perform o (world_of d) in logged r.1 = [] ∧ writer r.1 = [] ∧ goroutines r.1 = [].
Proof. intros Ho r. unfold r. by rewrite (perform_db o d Ho). Qed.

Lemma perform_not_go o (d : T) : is_go o = false → goroutines (perform o (world_of d)).1 = [].
Proof. destruct o; try done; simpl; intros _; by repeat case_match. Qed.

Lemma rest_Fin {A} (f : flow A) : rest (T := T) (Fin f) = (no_trail, f).
Proof. done. Qed.

(** A staged thread performs one statement at most, and none when it is
    past its statement. *)
Lemma staged_statements {A} u (t : thread A) s Q :
  staged u t Q → (statements t s ≤ if u then 0 else 1)%nat.
Proof.
  revert u s. induction t as [f|o k IH]; intros u s; simpl; [destruct u; lia|].
  destruct (is_db o).
  - intros [-> Hk]. specialize (IH _ true (perform o s).1 (Hk (perform o s).2)).
    simpl in IH. lia.
  - intros [_ Hk]. apply (IH _ u), Hk.
Qed.

(** A thread past its statement does not panic. *)
Lemma staged_no_panic {A} (t : thread A) s Q :
  staged true t Q → panics (run_thread t s).2 = false.
Proof.
  revert s. induction t as [[a| |msg]|o k IH]; intros s; simpl; try done.
  destruct (is_db o); [by intros [? _]|]. intros [_ Hk]. apply IH, Hk.
Qed.

End world_facts.

Section functions.
Context {T : Type} {JS : JobStore T} {J : Json}.

Lemma join_points_refines p acc :
  refines (T := T) (join_points_t p acc) (join_points p acc).
Proof. revert acc. induction p as [|loc p IH]; intros acc; simpl; solve_refines. Qed.

(** [pathHandler], statement by statement, is [pathHandler]. *)
Lemma pathHandler_refines r env :
  refines (T := T) (pathHandler_t r env) (pathHandler r env).
Proof.
  unfold pathHandler_t, pathHandler.
  pose proof join_points_refines. solve_refines.
Qed.

Lemma fail_job_refines env token e shown pre :
  refines (T := T) (fail_job_t env token e shown pre) (fail_job env token e shown pre).
Proof. unfold fail_job_t, fail_job. solve_refines. Qed.

Lemma sum_rows_refines env token rows i d t :
  refines (T := T) (sum_rows_t env token rows i d t) (sum_rows env token rows i d t).
Proof.
  pose proof fail_job_refines.
  revert i d t. induction rows as [|row rows IH]; intros i d t; simpl; solve_refines.
Qed.

Lemma processRoute_refines env token points :
  refines (T := T) (processRoute_t env token points) (processRoute env token points).
Proof.
  unfold processRoute_t, processRoute, c_DistanceMatrix.
  pose proof fail_job_refines. pose proof sum_rows_refines. solve_refines.
Qed.

Lemma routeHandler_refines token env :
  refines (T := T) (routeHandler_t token env) (routeHandler token env).
Proof.
  unfold routeHandler_t, routeHandler, check_token_t, check_token, check_scan_t,
    check_scan, switch_status_t, switch_status.
  solve_refines.
Qed.

(** ** One statement on the database *)

Lemma join_points_staged u p acc (Q : bool → routePathPoint → Prop) :
  (∀ a, Q u a) → staged u (join_points_t p acc) Q.
Proof.
  intros HQ. revert acc. induction p as [|loc p IH]; intros acc; simpl; [apply HQ|].
  solve_staged.
Qed.

Lemma sum_rows_staged env token rows i d t (Q : bool → Z * Z → Prop) :
  (∀ a, Q false a) → staged false (sum_rows_t env token rows i d t) Q.
Proof.
  intros HQ. revert i d t.
  induction rows as [|row rows IH]; intros i d t; simpl; [apply HQ|]. solve_staged.
Qed.

(** [pathHandler] performs the [INSERT] and nothing else on the database,
    and does not panic. *)
Lemma pathHandler_one_db r env : one_db (pathHandler_t r env).
Proof.
  unfold one_db, pathHandler_t. solve_staged.
  all: try (apply join_points_staged; intros); solve_staged.
Qed.

(** [processRoute] performs one [UPDATE] at most, and can only panic before
    it. *)
Lemma processRoute_one_db env token points : one_db (processRoute_t env token points).
Proof.
  unfold one_db, processRoute_t. solve_staged.
  all: try (apply sum_rows_staged; intros); solve_staged.
Qed.

(** [routeHandler] performs the [SELECT] and nothing else on the
    database, and does not panic. *)
Lemma routeHandler_one_db token env : one_db (routeHandler_t token env).
Proof.
  unfold one_db, routeHandler_t, check_token_t, check_scan_t, switch_status_t.
  solve_staged.
Qed.

(** C22.  One statement per call.  On every path through [pathHandler],
    [processRoute] and [routeHandler] at most one statement on the
    database is performed, whatever the environment and the answers of the
    database; no goroutine is started before it, and after it the function
    performs no other statement and does not panic. *)
Theorem one_statement_per_call r ienv wenv token points renv (s : world T) :
  (one_db (pathHandler_t r ienv) ∧ statements (pathHandler_t r ienv) s ≤ 1)%nat
  ∧ (one_db (processRoute_t wenv token points)
     ∧ statements (processRoute_t wenv token points) s ≤ 1)%nat
  ∧ (one_db (routeHandler_t token renv) ∧ statements (routeHandler_t token renv) s ≤ 1)%nat.
Proof.
  pose proof (pathHandler_one_db r ienv) as H1.
  pose proof (processRoute_one_db wenv token points) as H2.
  pose proof (routeHandler_one_db token renv) as H3.
  split_and!; try done; by eapply (staged_statements false).
Qed.

End functions.

(** Two statements one after the other are not one. *)
Example two_statements_not_one_db :
  ¬ one_db (act (OSelect None "a");; act (OUpdate None 1 0 0 EmptyString "a"))%thread.
Proof. unfold one_db. rewrite staged_bind. simpl. intros [_ Hk]. by destruct (Hk (scanned_zero, None)). Qed.
