(* ===== verification/Ledger.v ===== *)
(** * Ledger: accounts kept up to the order of their entries

    The interleavings of the calls are related to the transitions of
    [System] by accounts: what the log, the pool and the responses hold on
    one side and on the other, with what each call in progress still owes
    to one side or to the other.  The order of the entries differs from one
    side to the other, so an account is an equation up to permutation
    ([balanced]).

    This file holds the facts on such accounts: how an account stays
    balanced when a holder is added ([balanced_snoc]), changes
    ([balanced_insert]) or leaves ([balanced_delete]), each under a
    condition on that holder alone.  Reordering is done by rewriting modulo
    associativity and commutativity. *)

From Stdlib Require Import Morphisms.
From stdpp Require Import base tactics option list.
From AAC_tactics Require Import AAC.

(** The account of the sides [X] and [Y] with the holders [l]: the entries
    of [X] with what the holders owe it ([f]) are those of [Y] with what the
    holders owe it ([g]). *)
Definition balanced {H A} (X : list A) (f : H → list A) (l : list H)
    (Y : list A) (g : H → list A) : Prop :=
  X ++ (l ≫= f) ≡ₚ Y ++ (l ≫= g).

(** The holder that owes nothing. *)
Definition none {H A} : H → list A := λ _, [].

Section permutations.
Context {A : Type}.

#[export] Instance perm_lift : AAC_lift (≡ₚ@{A}) (≡ₚ@{A}).
Proof. split; apply _. Qed.

#[export] Instance perm_app_assoc : Associative (≡ₚ@{A}) app.
Proof. intros x y z. by rewrite (assoc_L (++)). Qed.

#[export] Instance perm_app_comm : Commutative (≡ₚ@{A}) app.
Proof. intros x y. apply Permutation_app_comm. Qed.

#[export] Instance perm_app_unit : Unit (≡ₚ@{A}) app [].
Proof. split; intros x; [done|by rewrite app_nil_r]. Qed.

(** The step that keeps an account balanced: a holder that owed [a] and
    [b] owes [a'] and [b'], the sides [X] and [Y] become [X'] and [Y'], and
    the change is balanced by itself. *)
Lemma balance (X X' Y Y' R S a a' b b' : list A) :
  X ++ (a ++ R) ≡ₚ Y ++ (b ++ S) →
  X' ++ a' ++ b ++ Y ≡ₚ Y' ++ b' ++ a ++ X →
  X' ++ (a' ++ R) ≡ₚ Y' ++ (b' ++ S).
Proof.
  intros H1 H2. apply (Permutation_app_inv_r (b ++ Y ++ a ++ X)).
  transitivity ((X' ++ a' ++ b ++ Y) ++ (X ++ (a ++ R))); [aac_reflexivity|].
  rewrite H1, H2. aac_reflexivity.
Qed.

End permutations.

Section holders.
Context {H A : Type}.
Implicit Types (f g : H → list A) (l : list H) (h : H) (X Y : list A).

Lemma bind_none l : l ≫= none (A := A) = [].
Proof. by induction l. Qed.

(** The entries of the holders when one is added at the end. *)
Lemma bind_snoc f l h : (l ++ [h]) ≫= f = (l ≫= f) ++ f h.
Proof. by rewrite bind_app, bind_singleton. Qed.

(** The entries of the holders, with those of one holder put first. *)
Lemma bind_lookup f l i h : l !! i = Some h → l ≫= f ≡ₚ f h ++ (delete i l ≫= f).
Proof. intros Hi. by rewrite (delete_Permutation l i h Hi) at 1. Qed.

Lemma insert_Permutation l i h h' : l !! i = Some h → <[i := h']> l ≡ₚ h' :: delete i l.
Proof.
  intros Hi. rewrite insert_take_drop by by eapply lookup_lt_Some.
  by rewrite delete_take_drop, Permutation_middle.
Qed.

(** A holder that changes and then leaves has left. *)
Lemma delete_insert_same l i h : delete i (<[i := h]> l) = delete i l.
Proof. revert i. induction l as [|x l IH]; intros [|i]; simpl; [done..|]. by rewrite IH. Qed.

Lemma bind_insert f l i h h' :
  l !! i = Some h → <[i := h']> l ≫= f ≡ₚ f h' ++ (delete i l ≫= f).
Proof. intros Hi. by rewrite (insert_Permutation l i h h' Hi). Qed.

(** With no holder, the sides of a balanced account have the same
    entries. *)
Lemma balanced_nil X f Y g : balanced X f [] Y g → X ≡ₚ Y.
Proof. unfold balanced. simpl. by rewrite !app_nil_r. Qed.

Lemma balanced_same X f g l : (∀ h, f h = g h) → balanced X f l X g.
Proof. intros Hfg. unfold balanced. f_equiv. induction l; simpl; [done|]. by rewrite Hfg, IHl. Qed.

(** A holder arrives. *)
Lemma balanced_snoc X X' f l Y Y' g h :
  balanced X f l Y g → X' ++ f h ++ Y ≡ₚ Y' ++ g h ++ X →
  balanced X' f (l ++ [h]) Y' g.
Proof.
  unfold balanced. intros H1 H2. rewrite !bind_snoc.
  rewrite (Permutation_app_comm _ (f h)), (Permutation_app_comm _ (g h)).
  apply (balance X X' Y Y' _ _ [] (f h) [] (g h)); [exact H1|exact H2].
Qed.

(** A holder changes what it owes. *)
Lemma balanced_insert X X' f l Y Y' g i h h' :
  l !! i = Some h → balanced X f l Y g →
  X' ++ f h' ++ g h ++ Y ≡ₚ Y' ++ g h' ++ f h ++ X →
  balanced X' f (<[i := h']> l) Y' g.
Proof.
  unfold balanced. intros Hi H1 H2.
  rewrite !(bind_insert _ l i h h' Hi). rewrite !(bind_lookup _ l i h Hi) in H1.
  by eapply balance.
Qed.

(** A holder leaves. *)
Lemma balanced_delete X X' f l Y Y' g i h :
  l !! i = Some h → balanced X f l Y g →
  X' ++ g h ++ Y ≡ₚ Y' ++ f h ++ X →
  balanced X' f (delete i l) Y' g.
Proof.
  unfold balanced. intros Hi H1 H2. rewrite !(bind_lookup _ l i h Hi) in H1.
  apply (balance X X' Y Y' _ _ (f h) [] (g h) []); [exact H1|exact H2].
Qed.

End holders.
