(* ===== verification/Interleaving.v ===== *)
(** * Interleaving: the calls statement by statement, in any order

    The handlers run in a goroutine per request and [processRoute] in a
    goroutine per job, so the statements of several calls interleave.  The
    machine of this file runs the threads of [Thread] one operation at a
    time: a step lets a call arrive ([Begin]: a request, or a goroutine of
    the pool that starts to run), lets one of the calls in progress perform
    its next operation on the shared log, pool and database ([Exec]), or
    lets a call that has ended leave ([Finish]: a handler sends its
    response, a goroutine that panicked takes the process down).

    The theorem is that the transitions of [System], which take a whole
    call at once, lose nothing: every run of this machine is matched by a
    run of [System] on the same store, in which each call takes effect at
    its statement on the database, or when it leaves if it made none.
    What the two sides have logged, started and answered is the same once
    the calls in progress have left, up to the order of the entries; in
    between, each call in progress owes the difference ([sim]).

    - [interleavings_serializable]: the theorem above;
      [runs_are_interleavings]: conversely, a run of [System] is the run
      of the machine in which the calls do not overlap (a fact of the
      machine, not of the program).
    - What is proved of the runs of [System] holds of the interleavings:
      the invariant of the rows and of the pool between any two operations
      ([interleaved_invariant]), and that no job is left pending once the
      calls have left and the pool is empty, when the goroutines run in
      working environments: each row then holds the verdict of its own
      route ([concurrent_jobs_settle]).
    - [example_schedule] interleaves the session of [System];
      [torn_log] is an interleaving whose log is the journal of no run.

    The machine also keeps a record that no call reads: the number of
    each call in the order of arrival ([tid]) and the moments of the
    calls in the order in which they happened ([c_hist]).
    [Linearizable] states what a client observes in terms of it. *)

From Stdlib Require Import ZArith.
From stdpp Require Import base tactics option list strings.
From AAC_tactics Require Import AAC.
From S2P Require Import Prelude Types Codec JobStore Intake Worker Reporter System.
From S2P Require Import Schedule Thread Ledger.

(** ** Calls in progress *)

(** Where a call comes from: a request for one of the handlers, or the
    [go processRoute(token, points)] of a handler. *)
Inductive origin : Type :=
| FromSubmit (r : Request) (env : intake_env)
| FromPoll (token : string) (env : report_env)
| FromGo (env : worker_env) (token : string) (points : routePathPoint).

Definition is_handler (o : origin) : bool :=
  match o with FromGo _ _ _ => false | _ => true end.

(** The goroutine a call took from the pool when it began. *)
Definition held (o : origin) : list (string * routePathPoint) :=
  match o with FromGo _ token points => [(token, points)] | _ => [] end.

(** The event of [System] by which a call from [a] takes effect, [k]
    being the index of its goroutine in the pool of [System]. *)
Definition event_at (a : origin) (k : nat) : event :=
  match a with
  | FromSubmit r env => Submit r env
  | FromPoll token env => Poll token env
  | FromGo env _ _ => Work k env
  end.

(** What the transition of a call from [a] shows, [w] being what a handler
    wrote to its response writer. *)
Definition shown (a : origin) (w : list writer_call) : observation :=
  match a with FromGo _ token _ => Ran token | _ => Response w end.

(** What a call from [a] sends when it leaves: a handler its response, a
    goroutine nothing. *)
Definition sent (a : origin) (w : list writer_call) : option (list writer_call) :=
  if is_handler a then Some w else None.

(** The moments of a call, numbered [id]: it began, it took effect (at its
    statement on the database, or as it left if it made none), it left. *)
Inductive moment : Type :=
| Began (id : nat) (a : origin)
| Effect (id : nat)
| Left (id : nat) (reply : option (list writer_call)).

(** The responses of a trace of [System]. *)
Definition replies (tr : list (event * observation)) : list (list writer_call) :=
  omap (λ eo, match eo.2 with Response calls => Some calls | Ran _ => None end) tr.

Section machine.
Context {T : Type} {JS : JobStore T} {J : Json}.

(** The function a call runs. *)
Definition program (o : origin) : thread unit :=
  match o with
  | FromSubmit r env => pathHandler_t r env
  | FromPoll token env => routeHandler_t token env
  | FromGo env token points => processRoute_t env token points
  end.

(** A call in progress: its number in the order of arrival, what is left
    of its function, where it comes from, whether it has performed its
    statement on the database, and what it has logged, written to its
    response writer and started so far. *)
Record task : Type := {
  tid : nat;
  code : thread unit;
  from : origin;
  past : bool;
  so_far : trail;
}.

(** The service between two operations: the database, the log and the
    pool of goroutines waiting to run, which the calls share; the calls in
    progress; the responses sent; whether the process has exited; and, for
    the record, the number of calls that have arrived and the moments of
    all calls in the order in which they happened. *)
Record config : Type := {
  c_db : T;
  c_log : list string;
  c_pool : list (string * routePathPoint);
  c_tasks : list task;
  c_replies : list (list writer_call);
  c_down : bool;
  c_next : nat;
  c_hist : list moment;
}.

Inductive micro : Type :=
| Begin (ev : event)
| Exec (i : nat)
| Finish (i : nat).

(** The steps that let begin only events of [P]. *)
Definition begins (P : event → Prop) (m : micro) : Prop :=
  match m with Begin ev => P ev | _ => True end.

Definition spawn (n : nat) (o : origin) : task :=
  {| tid := n; code := program o; from := o; past := false; so_far := no_trail |}.

Definition add_task (τ : task) (pool' : list (string * routePathPoint)) (C : config)
  : config :=
  {| c_db := c_db C; c_log := c_log C; c_pool := pool'; c_tasks := c_tasks C ++ [τ];
     c_replies := c_replies C; c_down := c_down C;
     c_next := S (c_next C); c_hist := c_hist C ++ [Began (tid τ) (from τ)] |}.

(** Where the call of an event comes from: a request names its handler,
    and the goroutine at index [k] of the pool carries its arguments. *)
Definition origin_of (ev : event) (C : config) : option origin :=
  match ev with
  | Submit r env => Some (FromSubmit r env)
  | Poll token env => Some (FromPoll token env)
  | Work k env => '(token, points) ← c_pool C !! k; Some (FromGo env token points)
  end.

(** A call arrives: a request starts its handler, and the goroutine at
    index [k] of the pool leaves the pool and starts to run. *)
Definition begin (ev : event) (C : config) : option config :=
  match ev with
  | Submit r env => Some (add_task (spawn (c_next C) (FromSubmit r env)) (c_pool C) C)
  | Poll token env => Some (add_task (spawn (c_next C) (FromPoll token env)) (c_pool C) C)
  | Work k env =>
      match c_pool C !! k with
      | Some (token, points) =>
          Some (add_task (spawn (c_next C) (FromGo env token points))
                  (delete k (c_pool C)) C)
      | None => None
      end
  end.

(** The call [τ], whose next operation is [o], after [o] has been
    performed with the result [r]. *)
Definition advance (τ : task) (o : op) (k : answer o → thread unit)
    (r : world T * answer o) : task :=
  {| tid := tid τ; code := k r.2; from := from τ; past := past τ || is_db o;
     so_far := join (so_far τ) (trail_of r.1) |}.

(** What a call past its statement will have written to its response
    writer when it leaves. *)
Definition promised (τ : task) : list writer_call :=
  t_writer (so_far τ) ++ t_writer (rest (T := T) (code τ)).1.

(** The configuration after the call [τ] at index [i] has performed its
    next operation [o] on the database, the log and the pool. *)
Definition step_task (i : nat) (τ : task) (o : op) (k : answer o → thread unit)
    (C : config) : config :=
  let r := perform o (world_of (c_db C)) in
  {| c_db := db r.1;
     c_log := c_log C ++ logged r.1;
     c_pool := c_pool C ++ goroutines r.1;
     c_tasks := <[i := advance τ o k r]> (c_tasks C);
     c_replies := c_replies C;
     c_down := c_down C;
     c_next := c_next C;
     c_hist := c_hist C ++ (if is_db o then [Effect (tid τ)] else []) |}.

(** The call at index [i] performs its next operation. *)
Definition exec_task (i : nat) (C : config) : option config :=
  match c_tasks C !! i with
  | Some τ =>
      match code τ with
      | Do o k => Some (step_task i τ o k C)
      | Fin _ => None
      end
  | None => None
  end.

(** The configuration after the call [τ] at index [i], which ended with
    [f], has left: a handler sends what it wrote, and a goroutine that
    ended in a panic takes the process down. *)
Definition leave (i : nat) (τ : task) (f : flow unit) (C : config) : config :=
  {| c_db := c_db C; c_log := c_log C; c_pool := c_pool C;
     c_tasks := delete i (c_tasks C);
     c_replies := c_replies C
       ++ (if is_handler (from τ) then [t_writer (so_far τ)] else []);
     c_down := negb (is_handler (from τ)) && panics f;
     c_next := c_next C;
     c_hist := c_hist C ++ (if past τ then [] else [Effect (tid τ)])
                 ++ [Left (tid τ) (sent (from τ) (t_writer (so_far τ)))] |}.

(** The call at index [i] has ended and leaves. *)
Definition finish_task (i : nat) (C : config) : option config :=
  match c_tasks C !! i with
  | Some τ =>
      match code τ with
      | Fin f => Some (leave i τ f C)
      | Do _ _ => None
      end
  | None => None
  end.

(** The call that takes effect at a step, with what it will have written
    to its response writer when it leaves: the call that performs its
    statement on the database, or the call that leaves without having
    performed one. *)
Definition takes_effect (m : micro) (C : config) : option (task * list writer_call) :=
  match m with
  | Begin _ => None
  | Exec i =>
      τ ← c_tasks C !! i;
      match code τ with
      | Do o k =>
          if is_db o
          then Some (τ, promised (advance τ o k (perform o (world_of (c_db C)))))
          else None
      | Fin _ => None
      end
  | Finish i =>
      τ ← c_tasks C !! i; if past τ then None else Some (τ, t_writer (so_far τ))
  end.

Definition micro_step (m : micro) (C : config) : option config :=
  if c_down C then None
  else match m with
       | Begin ev => begin ev C
       | Exec i => exec_task i C
       | Finish i => finish_task i C
       end.

Fixpoint micro_run (C : config) (ms : list micro) : option config :=
  match ms with
  | [] => Some C
  | m :: ms' =>
      match micro_step m C with
      | Some C' => micro_run C' ms'
      | None => None
      end
  end.

(** The state of the job of a token in a configuration. *)
Definition job_of (C : config) (token : string) : option job_status :=
  row ← store_select token (c_db C); status_of_code (c_status row).

(** A state of [System] as a configuration with no call in progress. *)
Definition embed (σ : system T) : config :=
  {| c_db := store σ; c_log := journal σ; c_pool := pool σ; c_tasks := [];
     c_replies := []; c_down := crashed σ; c_next := 0; c_hist := [] |}.

(** The schedule in which the call of the event [ev], which runs the
    function of [a], arrives, performs all its operations and leaves
    while no other call moves. *)
Definition alone (ev : event) (a : origin) (C : config) : list micro :=
  let i := length (c_tasks C) in
  Begin ev :: replicate (operations (program a) (world_of (c_db C))) (Exec i)
    ++ [Finish i].

(** The configuration [C] has no call in progress and holds what the
    state [σ] of [System] holds, with the responses [rs] sent. *)
Definition quiescent (C : config) (σ : system T) (rs : list (list writer_call)) : Prop :=
  c_tasks C = [] ∧ c_db C = store σ ∧ c_log C = journal σ ∧ c_down C = crashed σ
  ∧ c_replies C = rs ∧ (crashed σ = false → c_pool C = pool σ).

(** The calls in progress come from events of [P]. *)
Definition begun (P : event → Prop) (C : config) : Prop :=
  Forall (λ τ, P (event_at (from τ) 0)) (c_tasks C).

(** ** What a call in progress owes *)

(** A call past its statement has taken effect in [System]: it owes the
    log the lines, and the pool the goroutines, that are left of it.  A
    call before its statement has not: [System] owes it the lines it has
    logged, and it holds the goroutine it runs. *)
Definition debit_log (τ : task) : list string :=
  if past τ then t_logged (rest (T := T) (code τ)).1 else [].

Definition credit_log (τ : task) : list string :=
  if past τ then [] else t_logged (so_far τ).

Definition debit_pool (τ : task) : list (string * routePathPoint) :=
  if past τ then t_goroutines (rest (T := T) (code τ)).1 else held (from τ).

Definition debit_reply (τ : task) : list (list writer_call) :=
  if past τ && is_handler (from τ) then [promised τ] else [].

(** What holds of a call in progress.  Past its statement, it performs no
    other and does not panic.  Before it, it performs one at most and has
    started no goroutine, and its function, run without interruption on
    any store, is what it has done so far followed by what is left of
    it. *)
Definition task_ok (τ : task) : Prop :=
  if past τ then quiet (code τ)
  else one_db (code τ) ∧ t_goroutines (so_far τ) = [] ∧
       ∀ d : T, run_thread (program (from τ)) (world_of d)
                = (prepend (so_far τ) (run_thread (code τ) (world_of d)).1,
                   (run_thread (code τ) (world_of d)).2).

(** The configuration [C] is matched by the state [σ] of [System] reached
    with the responses [rs]: same store, same exit, and while the process
    runs every call in progress is as above and the three accounts are
    balanced. *)
Record sim (C : config) (σ : system T) (rs : list (list writer_call)) : Prop := {
  sim_db : c_db C = store σ;
  sim_down : c_down C = crashed σ;
  sim_tasks : c_down C = false → Forall task_ok (c_tasks C);
  sim_log : c_down C = false →
            balanced (c_log C) debit_log (c_tasks C) (journal σ) credit_log;
  sim_pool : c_down C = false →
             balanced (c_pool C) debit_pool (c_tasks C) (pool σ) none;
  sim_replies : c_down C = false →
                balanced (c_replies C) debit_reply (c_tasks C) rs none;
}.

End machine.

Arguments config : clear implicits.

(** ** The data of the examples *)

(** The session of [System] with its calls interleaved: the poll arrives
    with the submission and logs first, reads the row after the [INSERT],
    and the goroutine runs while the two handlers write their responses. *)
Definition example_schedule : list micro :=
  [ Begin example_submit; Begin example_poll; Exec 1; Exec 0; Exec 1; Exec 0;
    Begin example_work; Exec 2; Exec 0; Exec 2; Exec 1; Exec 0; Finish 0;
    Exec 1; Exec 0; Finish 1; Finish 0 ].

Definition example_interleaved : config table :=
  default (embed example_start) (micro_run (embed example_start) example_schedule).

(** Two polls, of the empty token and of a token without a row, whose
    lines in the log are interleaved. *)
Definition empty_poll : event := Poll EmptyString no_fault.

Definition torn_schedule : list micro :=
  [ Begin empty_poll; Begin example_poll; Exec 0; Exec 1; Exec 0; Exec 0; Exec 1;
    Exec 0; Exec 1; Exec 0; Exec 0; Exec 1; Exec 1; Finish 1; Finish 0 ].

Definition torn : config table :=
  default (embed example_start) (micro_run (embed example_start) torn_schedule).

(** ** The simulation *)

(** Computes the parts of a world or of a trail, leaving the lists as they
    are. *)
Ltac trail_simpl :=
  unfold none;
  cbn [prepend append join trail_of no_trail world_of db logged writer goroutines
       t_logged t_writer t_goroutines fst snd orb andb negb
       code from past so_far advance spawn].

Section simulation.
Context {T : Type} {JS : JobStore T} {J : Json}.
Implicit Types (C : config T) (σ : system T) (τ : task) (a : origin) (o : op).

Lemma replies_app tr1 tr2 : replies (tr1 ++ tr2) = replies tr1 ++ replies tr2.
Proof. apply omap_app. Qed.

Lemma sim_embed σ : sim (embed σ) σ [].
Proof. by split; intros; try apply Forall_nil; unfold balanced. Qed.

Lemma program_one_db a : one_db (program a).
Proof.
  destruct a; [apply pathHandler_one_db|apply routeHandler_one_db|apply processRoute_one_db].
Qed.

Lemma replies_shown a n w :
  replies [(event_at a n, shown a w)] = if is_handler a then [w] else [].
Proof. by destruct a. Qed.

Lemma task_ok_spawn n a : task_ok (T := T) (spawn n a).
Proof.
  split_and!; [apply program_one_db|done|]. intros d. simpl.
  rewrite prepend_no_trail. by destruct (run_thread _ _).
Qed.

(** The call that takes effect: the transition of [System] for a call
    from [a], in terms of its function run without interruption. *)
Lemma linearize σ a :
  crashed σ = false → (∀ g, g ∈ held a → g ∈ pool σ) →
  let r := run_thread (program a) (world_of (store σ)) in
  ∃ n σ',
    step σ (event_at a n) (shown a (writer r.1)) σ' ∧ store σ' = db r.1
    ∧ journal σ' = journal σ ++ logged r.1
    ∧ crashed σ' = negb (is_handler a) && panics r.2
    ∧ (crashed σ' = false → pool σ' ++ held a ≡ₚ pool σ ++ goroutines r.1).
Proof.
  intros Hup Hheld. destruct a as [r env|token env|env token points];
    cbn [program is_handler held negb andb].
  - rewrite pathHandler_refines. exists 0. eexists. split; [by apply step_submit|].
    simpl. split_and!; try done. by rewrite app_nil_r.
  - rewrite routeHandler_refines. exists 0. eexists. split; [by apply step_poll|].
    simpl. split_and!; try done. by rewrite app_nil_r.
  - rewrite processRoute_refines.
    destruct (proj1 (list_elem_of_lookup _ _) (Hheld (token, points) ltac:(apply list_elem_of_singleton; done)))
      as [k Hk].
    exists k. eexists. split; [by eapply step_work|]. simpl. split_and!; try done.
    intros ->.
    pose proof (proj2 (processRoute_frame env token points (world_of (store σ)))) as Hg.
    unfold exec in Hg. rewrite Hg. simpl.
    rewrite app_nil_r. rewrite (delete_Permutation _ _ _ Hk) at 2.
    by rewrite Permutation_app_comm.
Qed.


(** A call starts no goroutine before its statement. *)
Lemma task_ok_no_go τ o k :
  task_ok (T := T) τ → past τ = false → code τ = Do o k → is_db o = false →
  is_go o = false.
Proof.
  unfold task_ok. intros Hτ Hp Hc Ho. rewrite Hp, Hc in Hτ. destruct Hτ as (Hs & _).
  unfold one_db in Hs. simpl in Hs. rewrite Ho in Hs.
  by destruct (is_go o); [destruct Hs as [Hgo _]; destruct Hgo|].
Qed.

(** A call that performs an operation other than its statement is as
    before. *)
Lemma task_ok_other τ o k (d : T) :
  task_ok (T := T) τ → code τ = Do o k → is_db o = false →
  task_ok (T := T) (advance τ o k (perform o (world_of d))).
Proof.
  unfold task_ok, advance, one_db, quiet. simpl. intros Hτ Hc Ho. rewrite Hc in Hτ.
  rewrite Ho, orb_false_r. destruct (past τ).
  { simpl in Hτ. rewrite Ho in Hτ. apply Hτ. }
  destruct Hτ as (Hs & Hnone & Hrun). simpl in Hs. rewrite Ho in Hs.
  destruct Hs as [Hgo Hk]. split_and!; [apply Hk| |].
  - rewrite Hnone, perform_not_go; [done|]. by destruct (is_go o); [destruct Hgo|].
  - intros d'. rewrite Hrun, (run_thread_other o k d d' Ho). simpl.
    by rewrite prepend_join.
Qed.


(** An operation other than a statement leaves what the call will have
    written as it was. *)
Lemma promised_other τ o k (d : T) :
  code τ = Do o k → is_db o = false →
  promised (T := T) (advance τ o k (perform o (world_of d))) = promised (T := T) τ.
Proof.
  intros Hc Ho. unfold promised, advance. cbn [code so_far]. rewrite Hc.
  rewrite (rest_other o k d Ho). cbn [join trail_of t_writer fst snd].
  by rewrite (assoc_L (++)).
Qed.

(** A call that has ended has written what it will have written. *)
Lemma promised_Fin τ f : code τ = Fin f → promised (T := T) τ = t_writer (so_far τ).
Proof. intros Hc. unfold promised. rewrite Hc, rest_Fin. apply app_nil_r. Qed.

(** An operation other than a statement is matched by no transition. *)
Lemma sim_exec_other C σ rs i τ o k :
  sim C σ rs → c_down C = false → c_tasks C !! i = Some τ → code τ = Do o k →
  is_db o = false → sim (step_task i τ o k C) σ rs.
Proof.
  intros [Hdb Hdown Htasks Hlog Hpool Hreplies] Hup Hi Hc Ho.
  pose proof (Forall_lookup_1 _ _ _ _ (Htasks Hup) Hi) as Hτ.
  split; simpl; [by rewrite perform_other_db|done|intros _..].
  - apply Forall_insert; [by apply Htasks|by apply task_ok_other].
  - eapply balanced_insert; [done|by apply Hlog|].
    unfold debit_log, credit_log, advance. cbn [code past so_far]. rewrite Hc, Ho, orb_false_r.
    destruct (past τ); [rewrite (rest_other o k (c_db C) Ho)|]; simpl; aac_reflexivity.
  - eapply balanced_insert; [done|by apply Hpool|].
    unfold debit_pool, none, advance. cbn [code past from]. rewrite Hc, Ho, orb_false_r.
    destruct (past τ) eqn:Hp; [rewrite (rest_other o k (c_db C) Ho); simpl; aac_reflexivity|].
    rewrite perform_not_go by by eapply task_ok_no_go. simpl. aac_reflexivity.
  - eapply balanced_insert; [done|by apply Hreplies|].
    unfold debit_reply. rewrite (promised_other τ o k (c_db C) Hc Ho).
    unfold none, advance. cbn [past from]. rewrite Ho, orb_false_r.
    aac_reflexivity.
Qed.


(** A call at its statement: it was before it, is quiet after it, and its
    function run without interruption is what it has done so far, the
    statement, and what is left of it. *)
Lemma task_ok_db τ o k (d : T) :
  task_ok (T := T) τ → code τ = Do o k → is_db o = true →
  let r := perform o (world_of d) in
  past τ = false ∧ quiet (k r.2) ∧ t_goroutines (so_far τ) = []
  ∧ run_thread (program (from τ)) (world_of d)
    = (prepend (join (so_far τ) (rest (T := T) (k r.2)).1) (world_of (db r.1)),
       (rest (T := T) (k r.2)).2).
Proof.
  intros Hτ Hc Ho r. unfold task_ok, one_db, quiet in *. rewrite Hc in Hτ.
  destruct (past τ).
  { simpl in Hτ. rewrite Ho in Hτ. by destruct Hτ. }
  destruct Hτ as (Hs & Hnone & Hrun). simpl in Hs. rewrite Ho in Hs.
  destruct Hs as [_ Hk]. split_and!; [done|apply Hk|done|].
  rewrite Hrun, (run_thread_db o k d _ Ho Hk). simpl. by rewrite prepend_join.
Qed.

(** The goroutine a call before its statement runs is in the pool of
    [System]. *)
Lemma held_in_pool C σ rs i τ :
  sim C σ rs → c_down C = false → c_tasks C !! i = Some τ → past τ = false →
  ∀ g, g ∈ held (from τ) → g ∈ pool σ.
Proof.
  intros HS Hup Hi Hp g Hg. pose proof (sim_pool _ _ _ HS Hup) as Hpool.
  unfold balanced in Hpool. rewrite bind_none, app_nil_r in Hpool. rewrite <- Hpool.
  apply elem_of_app. right. apply list_elem_of_bind. exists τ.
  split; [|by eapply list_elem_of_lookup_2]. unfold debit_pool. by rewrite Hp.
Qed.


(** The statement of a call is matched by the transition of the whole
    call. *)
Lemma sim_exec_db C σ rs i τ o k :
  sim C σ rs → c_down C = false → c_tasks C !! i = Some τ → code τ = Do o k →
  is_db o = true →
  let w := promised (T := T) (advance τ o k (perform o (world_of (c_db C)))) in
  ∃ n σ', step σ (event_at (from τ) n) (shown (from τ) w) σ'
    ∧ sim (step_task i τ o k C) σ' (rs ++ replies [(event_at (from τ) n, shown (from τ) w)]).
Proof.
  intros HS Hup Hi Hc Ho w.
  pose proof (Forall_lookup_1 _ _ _ _ (sim_tasks _ _ _ HS Hup) Hi) as Hτ.
  destruct (task_ok_db τ o k (c_db C) Hτ Hc Ho) as (Hp & Hq & Hnone & Hrun).
  destruct (perform_db_silent o (c_db C) Ho) as (Hl & Hw & Hg).
  destruct (linearize σ (from τ)) as (n & σ' & Hstep & Hst & Hj & Hcr & Hpl).
  { by rewrite <- (sim_down _ _ _ HS). } { by eapply held_in_pool. }
  rewrite <- (sim_db _ _ _ HS), Hrun in Hstep, Hst, Hj, Hcr, Hpl.
  assert (crashed σ' = false) as Hup'.
  { rewrite Hcr. unfold rest. cbn [snd]. rewrite (staged_no_panic _ _ _ Hq). apply andb_false_r. }
  assert (writer (prepend (join (so_far τ) (rest (T := T) (k (perform o (world_of (c_db C))).2)).1)
                    (world_of (db (perform o (world_of (c_db C))).1))) = w) as Hw'.
  { unfold w, promised. trail_simpl. by rewrite Hw, !app_nil_r. }
  cbn [fst] in Hstep. rewrite Hw' in Hstep. pose proof (replies_shown (from τ) n w) as Hrp.
  exists n, σ'. split; [done|].
  split; unfold step_task; cbn [c_db c_down c_log c_pool c_tasks c_replies];
    [done|congruence|intros _..].
  - apply Forall_insert; [by apply (sim_tasks _ _ _ HS)|].
    unfold task_ok. trail_simpl. by rewrite Ho, orb_true_r.
  - eapply balanced_insert; [done|by apply (sim_log _ _ _ HS)|].
    rewrite Hl, Hj. unfold debit_log, credit_log. trail_simpl.
    rewrite Hp, Ho. trail_simpl. aac_reflexivity.
  - eapply balanced_insert; [done|by apply (sim_pool _ _ _ HS)|].
    specialize (Hpl Hup'). revert Hpl.
    rewrite Hg. unfold debit_pool. trail_simpl. rewrite Hp, Ho, Hnone. trail_simpl.
    intros Hpl. transitivity ((pool σ' ++ held (from τ)) ++ c_pool C); [|aac_reflexivity].
    rewrite Hpl. aac_reflexivity.
  - eapply balanced_insert; [done|by apply (sim_replies _ _ _ HS)|].
    rewrite Hrp. unfold debit_reply. trail_simpl. rewrite Hp, Ho. trail_simpl.
    fold w. destruct (is_handler (from τ)); aac_reflexivity.
Qed.


(** A call that leaves after its statement has taken effect already. *)
Lemma sim_finish_past C σ rs i τ f :
  sim C σ rs → c_down C = false → c_tasks C !! i = Some τ → code τ = Fin f →
  past τ = true → sim (leave i τ f C) σ rs.
Proof.
  intros HS Hup Hi Hc Hp.
  pose proof (Forall_lookup_1 _ _ _ _ (sim_tasks _ _ _ HS Hup) Hi) as Hτ.
  unfold task_ok, quiet in Hτ. rewrite Hp, Hc in Hτ.
  assert (panics f = false) as Hf by by destruct f.
  split; unfold leave; cbn [c_db c_down c_log c_pool c_tasks c_replies];
    [apply (sim_db _ _ _ HS)| |intros _..].
  - by rewrite Hf, andb_false_r, <- (sim_down _ _ _ HS).
  - by apply Forall_delete, (sim_tasks _ _ _ HS).
  - eapply balanced_delete; [done|by apply (sim_log _ _ _ HS)|].
    unfold debit_log, credit_log. rewrite Hp, Hc, rest_Fin. trail_simpl. aac_reflexivity.
  - eapply balanced_delete; [done|by apply (sim_pool _ _ _ HS)|].
    unfold debit_pool. rewrite Hp, Hc, rest_Fin. trail_simpl. aac_reflexivity.
  - eapply balanced_delete; [done|by apply (sim_replies _ _ _ HS)|].
    unfold debit_reply, promised. rewrite Hp, Hc, rest_Fin. trail_simpl.
    destruct (is_handler (from τ)); rewrite ?app_nil_r; aac_reflexivity.
Qed.

(** A call that leaves without having performed a statement takes effect
    as it leaves. *)
Lemma sim_finish_before C σ rs i τ f :
  sim C σ rs → c_down C = false → c_tasks C !! i = Some τ → code τ = Fin f →
  past τ = false →
  let w := t_writer (so_far τ) in
  ∃ n σ', step σ (event_at (from τ) n) (shown (from τ) w) σ'
    ∧ sim (leave i τ f C) σ' (rs ++ replies [(event_at (from τ) n, shown (from τ) w)]).
Proof.
  intros HS Hup Hi Hc Hp w.
  pose proof (Forall_lookup_1 _ _ _ _ (sim_tasks _ _ _ HS Hup) Hi) as Hτ.
  unfold task_ok in Hτ. rewrite Hp, Hc in Hτ. destruct Hτ as (_ & Hnone & Hrun).
  destruct (linearize σ (from τ)) as (n & σ' & Hstep & Hst & Hj & Hcr & Hpl).
  { by rewrite <- (sim_down _ _ _ HS). } { by eapply held_in_pool. }
  rewrite Hrun in Hstep, Hst, Hj, Hcr, Hpl. cbn [run_thread fst snd] in *.
  revert Hstep. trail_simpl. rewrite app_nil_r. fold w. intros Hstep.
  pose proof (replies_shown (from τ) n w) as Hrp.
  exists n, σ'. split; [done|].
  split; unfold leave; cbn [c_db c_down c_log c_pool c_tasks c_replies];
    [by rewrite Hst, (sim_db _ _ _ HS)|done|intros Hup'..].
  - by apply Forall_delete, (sim_tasks _ _ _ HS).
  - eapply balanced_delete; [done|by apply (sim_log _ _ _ HS)|].
    rewrite Hj. unfold debit_log, credit_log. rewrite Hp. trail_simpl. aac_reflexivity.
  - eapply balanced_delete; [done|by apply (sim_pool _ _ _ HS)|].
    rewrite <- Hcr in Hup'. specialize (Hpl Hup'). revert Hpl.
    unfold debit_pool. rewrite Hp. trail_simpl. rewrite Hnone. intros Hpl.
    transitivity ((pool σ' ++ held (from τ)) ++ c_pool C); [|aac_reflexivity].
    rewrite Hpl. aac_reflexivity.
  - eapply balanced_delete; [done|by apply (sim_replies _ _ _ HS)|].
    rewrite Hrp. unfold debit_reply. rewrite Hp. trail_simpl. fold w.
    aac_reflexivity.
Qed.

(** A call that arrives is the call its event names, added to the calls
    in progress with the goroutine it runs taken from the pool. *)
Lemma begin_inv ev C C' :
  begin ev C = Some C' →
  ∃ a pl, origin_of ev C = Some a ∧ C' = add_task (spawn (c_next C) a) pl C
    ∧ pl ++ held a ≡ₚ c_pool C ∧ ∃ k, ev = event_at a k.
Proof.
  destruct ev as [r env|token env|k env]; simpl; intros Hb.
  - injection Hb as <-. eexists _, _. split_and!; [done..|by rewrite app_nil_r|by exists 0].
  - injection Hb as <-. eexists _, _. split_and!; [done..|by rewrite app_nil_r|by exists 0].
  - destruct (c_pool C !! k) as [[token points]|] eqn:Hk; [|done]. injection Hb as <-.
    eexists _, _. split_and!; [done..| |by exists k]. simpl.
    by rewrite (delete_Permutation _ _ _ Hk) at 2; rewrite Permutation_app_comm.
Qed.

(** A call that arrives is matched by no transition. *)
Lemma sim_begin C σ rs ev C' :
  sim C σ rs → c_down C = false → begin ev C = Some C' → sim C' σ rs.
Proof.
  intros HS Hup Hb. destruct (begin_inv _ _ _ Hb) as (a & pl & _ & -> & Hheld & _).
  split; unfold add_task; cbn [c_db c_down c_log c_pool c_tasks c_replies];
    [apply (sim_db _ _ _ HS)|apply (sim_down _ _ _ HS)|intros _..].
  - apply Forall_app. split; [by apply (sim_tasks _ _ _ HS)|].
    apply Forall_singleton, task_ok_spawn.
  - eapply balanced_snoc; [by apply (sim_log _ _ _ HS)|].
    unfold debit_log, credit_log. trail_simpl. aac_reflexivity.
  - eapply balanced_snoc; [by apply (sim_pool _ _ _ HS)|].
    unfold debit_pool. trail_simpl. rewrite <- Hheld. aac_reflexivity.
  - eapply balanced_snoc; [by apply (sim_replies _ _ _ HS)|].
    unfold debit_reply. trail_simpl. aac_reflexivity.
Qed.


Lemma event_at_index (P : event → Prop) a n n' :
  (∀ k k' env, P (Work k env) → P (Work k' env)) → P (event_at a n) → P (event_at a n').
Proof. intros HP. destruct a; simpl; eauto. Qed.

(** The calls in progress come from the events that began. *)
Lemma begun_step (P : event → Prop) C m C' :
  (∀ k k' env, P (Work k env) → P (Work k' env)) →
  begun P C → begins P m → micro_step m C = Some C' → begun P C'.
Proof.
  unfold begun, micro_step. intros HP HC Hm Hstep.
  destruct (c_down C); [done|]. destruct m as [ev|i|i]; simpl in Hstep.
  - destruct (begin_inv _ _ _ Hstep) as (a & pl & _ & -> & _ & k & ->).
    apply Forall_app. split; [done|]. apply Forall_singleton. by eapply event_at_index.
  - unfold exec_task in Hstep. destruct (c_tasks C !! i) as [τ|] eqn:Hi; [|done].
    destruct (code τ); simplify_eq. apply Forall_insert; [done|].
    by apply (Forall_lookup_1 _ _ _ _ HC Hi).
  - unfold finish_task in Hstep. destruct (c_tasks C !! i) as [τ|]; [|done].
    destruct (code τ); simplify_eq. by apply Forall_delete.
Qed.

(** Every step of the machine is matched by one transition of [System],
    that of the call that takes effect, or by none. *)
Lemma sim_step C σ rs m C' :
  sim C σ rs → micro_step m C = Some C' →
  match takes_effect m C with
  | Some (τ, w) =>
      τ ∈ c_tasks C ∧
      ∃ n σ', step σ (event_at (from τ) n) (shown (from τ) w) σ'
        ∧ sim C' σ' (rs ++ replies [(event_at (from τ) n, shown (from τ) w)])
  | None => sim C' σ rs
  end.
Proof.
  intros HS Hm. unfold micro_step in Hm. destruct (c_down C) eqn:Hup; [done|].
  destruct m as [ev|i|i]; simpl in *.
  - by eapply sim_begin.
  - unfold exec_task in Hm. destruct (c_tasks C !! i) as [τ|] eqn:Hi; [|done].
    simpl. destruct (code τ) as [f|o k] eqn:Hc; [done|]. injection Hm as <-.
    destruct (is_db o) eqn:Ho; [|by apply sim_exec_other].
    split; [by eapply list_elem_of_lookup_2|by apply sim_exec_db].
  - unfold finish_task in Hm. destruct (c_tasks C !! i) as [τ|] eqn:Hi; [|done].
    simpl. destruct (code τ) as [f|o k] eqn:Hc; [|done]. injection Hm as <-.
    destruct (past τ) eqn:Hp; [by apply sim_finish_past|].
    split; [by eapply list_elem_of_lookup_2|by apply sim_finish_before].
Qed.

(** Every run of the machine is matched by a run of [System], whose events
    are among those that began. *)
Lemma sim_run_events (P : event → Prop) C σ rs ms C' :
  (∀ k k' env, P (Work k env) → P (Work k' env)) →
  sim C σ rs → begun P C → Forall (begins P) ms → micro_run C ms = Some C' →
  ∃ tr σ', run σ tr σ' ∧ sim C' σ' (rs ++ replies tr) ∧ Forall P tr.*1.
Proof.
  intros HP. revert C σ rs.
  induction ms as [|m ms IH]; intros C σ rs HS HC Hms Hrun; simpl in Hrun.
  { injection Hrun as <-. exists [], σ. rewrite app_nil_r.
    split_and!; [constructor|done|constructor]. }
  apply Forall_cons in Hms as [Hm Hms].
  destruct (micro_step m C) as [Cm|] eqn:Hstep; [|done].
  pose proof (sim_step _ _ _ _ _ HS Hstep) as HS1.
  pose proof (begun_step P _ _ _ HP HC Hm Hstep) as HC1.
  destruct (takes_effect m C) as [[τ w]|]; [|by eapply IH].
  destruct HS1 as (Hτ & n & σ1 & Hstep1 & HS1).
  destruct (IH _ _ _ HS1 HC1 Hms Hrun) as (tr2 & σ2 & Hrun2 & HS2 & Hev2).
  exists ((event_at (from τ) n, shown (from τ) w) :: tr2), σ2.
  split_and!; [by eapply run_cons| |].
  - change (?x :: tr2) with ([x] ++ tr2). by rewrite replies_app, (assoc_L (++)).
  - rewrite fmap_cons. apply Forall_cons. split; [|done].
    eapply event_at_index; [done|]. by apply (proj1 (Forall_forall _ _) HC).
Qed.

Lemma sim_run C σ rs ms C' :
  sim C σ rs → micro_run C ms = Some C' →
  ∃ tr σ', run σ tr σ' ∧ sim C' σ' (rs ++ replies tr).
Proof.
  intros HS Hrun.
  destruct (sim_run_events (λ _, True) C σ rs ms C') as (tr & σ' & ? & ? & _); eauto.
  - by apply Forall_true.
  - apply Forall_true. by intros [].
Qed.

(** C6.  Interleavings are serializable.  Whatever the order in which the
    calls perform their operations, the configuration reached is matched
    by a run of [System] in which each call is one transition: the events
    of the run are events that began in the schedule, up to the index of
    a goroutine in the pool (for any property [P] of events that does not
    depend on that index, if the events that begin satisfy [P], so do
    those of the run); the database is the store of that run and the
    process has exited exactly when the run has crashed; and once every
    call has left a process that still runs, the log, the pool and the
    responses are those of the run, up to the order of their entries. *)
Theorem interleavings_serializable (P : event → Prop) (σ0 : system T) ms C :
  (∀ k k' env, P (Work k env) → P (Work k' env)) →
  Forall (begins P) ms → micro_run (embed σ0) ms = Some C →
  ∃ tr σ, run σ0 tr σ ∧ Forall P tr.*1 ∧ c_db C = store σ ∧ c_down C = crashed σ ∧
    (c_down C = false → c_tasks C = [] →
     c_log C ≡ₚ journal σ ∧ c_pool C ≡ₚ pool σ ∧ c_replies C ≡ₚ replies tr).
Proof.
  intros HP Hms Hrun.
  destruct (sim_run_events P _ _ _ _ _ HP (sim_embed σ0) (Forall_nil_2 _) Hms Hrun)
    as (tr & σ & Htr & HS & Hev).
  exists tr, σ. split_and!; [done..|apply (sim_db _ _ _ HS)|apply (sim_down _ _ _ HS)|].
  intros Hup Hnone.
  pose proof (sim_log _ _ _ HS Hup) as Hl. pose proof (sim_pool _ _ _ HS Hup) as Hp.
  pose proof (sim_replies _ _ _ HS Hup) as Hr. rewrite Hnone in Hl, Hp, Hr.
  by split_and!; eapply balanced_nil.
Qed.

End simulation.

(** ** Runs of [System] as runs of the machine *)

Section serial.
Context {T : Type} {JS : JobStore T} {J : Json}.
Implicit Types (C : config T) (σ : system T) (τ : task) (a : origin) (o : op).

Lemma micro_run_app C ms1 ms2 :
  micro_run C (ms1 ++ ms2) = micro_run C ms1 ≫= λ C', micro_run C' ms2.
Proof.
  revert C. induction ms1 as [|m ms1 IH]; intros C; simpl; [done|].
  by destruct (micro_step m C).
Qed.

(** A call that performs all its operations while no other call moves
    performs them as its function run without interruption. *)
Lemma exec_alone (t : thread unit) C i τ :
  c_down C = false → c_tasks C !! i = Some τ → code τ = t →
  let r := run_thread t (world_of (c_db C)) in
  ∃ τ' H, micro_run C (replicate (operations t (world_of (c_db C))) (Exec i))
        = Some {| c_db := db r.1; c_log := c_log C ++ logged r.1;
                  c_pool := c_pool C ++ goroutines r.1;
                  c_tasks := <[i := τ']> (c_tasks C);
                  c_replies := c_replies C; c_down := false;
                  c_next := c_next C; c_hist := c_hist C ++ H |}
    ∧ code τ' = Fin r.2 ∧ from τ' = from τ
    ∧ so_far τ' = join (so_far τ) (trail_of r.1).
Proof.
  revert C τ. induction t as [f|o k IH]; intros C τ Hup Hi Hc.
  { exists τ, []. simpl. rewrite join_no_trail, !app_nil_r, list_insert_id by done.
    split_and!; try done. destruct C. simpl in *. by subst. }
  set (r1 := perform o (world_of (c_db C))).
  destruct (IH r1.2 (step_task i τ o k C) (advance τ o k r1))
    as (τ' & H & Hrun & Hf & Ha & Hs);
    [done|by eapply list_lookup_insert_eq, lookup_lt_Some|done|].
  exists τ', ((if is_db o then [Effect (tid τ)] else []) ++ H).
  cbn [run_thread operations]. fold r1.
  rewrite (run_thread_from (k r1.2) r1.1), (operations_from (k r1.2) r1.1).
  cbn [replicate micro_run]. unfold micro_step, exec_task. rewrite Hup, Hi, Hc.
  cbn [step_task c_db c_log c_pool c_tasks c_replies c_down c_next c_hist] in Hrun.
  fold r1 in Hrun. rewrite Hrun, list_insert_insert_eq. trail_simpl.
  rewrite !(assoc_L (++)). split_and!; try done.
  rewrite Hs. unfold advance. cbn [so_far]. by rewrite join_assoc.
Qed.

(** The schedule in which a call runs alone leads to the configuration
    its function run without interruption describes. *)
Lemma alone_run C a pl ev :
  c_down C = false → c_tasks C = [] →
  begin ev C = Some (add_task (spawn (c_next C) a) pl C) →
  let r := run_thread (program a) (world_of (c_db C)) in
  ∃ C', micro_run C (alone ev a C) = Some C'
    ∧ quiescent C' {| store := db r.1; journal := c_log C ++ logged r.1;
                      pool := pl ++ goroutines r.1;
                      crashed := negb (is_handler a) && panics r.2 |}
        (c_replies C ++ (if is_handler a then [writer r.1] else [])).
Proof.
  intros Hup Hnone Hb r. unfold alone. rewrite Hnone. cbn [length micro_run].
  unfold micro_step at 1. rewrite Hup, Hb. setoid_rewrite micro_run_app.
  destruct (exec_alone (program a) (add_task (spawn (c_next C) a) pl C) 0 (spawn (c_next C) a))
    as (τ' & H & Hrun & Hf & Ha & Hs); [done|by simpl; rewrite Hnone|done|].
  unfold add_task in *. cbn [c_db c_log c_pool c_tasks c_replies c_down] in *.
  rewrite Hrun. cbn [mbind option_bind micro_run].
  unfold micro_step, finish_task. rewrite Hnone.
  cbn [c_down c_tasks app insert list_insert lookup list_lookup]. rewrite Hf.
  eexists. split; [done|]. unfold quiescent, leave.
  cbn [c_db c_log c_pool c_tasks c_replies c_down delete list_delete
       store journal pool crashed].
  by rewrite Ha, Hs.
Qed.

(** A transition of [System] is the schedule in which its call runs
    alone. *)
Lemma step_interleaves C σ rs ev obs σ' :
  quiescent C σ rs → step σ ev obs σ' →
  ∃ ms C', micro_run C ms = Some C' ∧ quiescent C' σ' (rs ++ replies [(ev, obs)]).
Proof.
  intros (Hnone & Hdb & Hlog & Hdown & Hrs & Hpool) Hstep.
  pose proof (step_not_crashed _ _ _ _ Hstep) as Hup. rewrite Hup in Hdown.
  specialize (Hpool Hup).
  destruct Hstep as [σ r env _|σ token env _|σ k env token points _ Hk].
  - destruct (alone_run C (FromSubmit r env) (c_pool C) (Submit r env))
      as (C' & Hrun & HQ); [done..|].
    eexists _, C'. split; [done|]. revert HQ.
    cbn [program]. rewrite pathHandler_refines, Hdb, Hlog, Hrs, Hpool.
    unfold quiescent. simpl. by rewrite Hup.
  - destruct (alone_run C (FromPoll token env) (c_pool C) (Poll token env))
      as (C' & Hrun & HQ); [done..|].
    eexists _, C'. split; [done|]. revert HQ.
    cbn [program]. rewrite routeHandler_refines, Hdb, Hlog, Hrs, Hpool.
    unfold quiescent. simpl. by rewrite Hup.
  - destruct (alone_run C (FromGo env token points) (delete k (c_pool C)) (Work k env))
      as (C' & Hrun & HQ); [done..|by simpl; rewrite Hpool, Hk|].
    eexists _, C'. split; [done|]. revert HQ.
    cbn [program]. rewrite processRoute_refines, Hdb, Hlog, Hrs, Hpool.
    pose proof (proj2 (processRoute_frame env token points (world_of (store σ)))) as Hg.
    unfold exec in Hg. rewrite Hg. unfold quiescent. simpl. rewrite !app_nil_r.
    intros (? & ? & ? & ? & ? & Hpl). split_and!; try done.
    unfold outcome. intros Hf. rewrite Hf. by apply Hpl.
Qed.

Lemma run_interleaves C σ rs tr σ' :
  quiescent C σ rs → run σ tr σ' →
  ∃ ms C', micro_run C ms = Some C' ∧ quiescent C' σ' (rs ++ replies tr).
Proof.
  intros HQ Hrun. revert C rs HQ.
  induction Hrun as [σ|σ ev obs σ1 tr σ2 Hstep _ IH]; intros C rs HQ.
  { exists [], C. by rewrite app_nil_r. }
  destruct (step_interleaves _ _ _ _ _ _ HQ Hstep) as (ms1 & Cm & Hrun1 & HQ1).
  destruct (IH _ _ HQ1) as (ms2 & Cn & Hrun2 & HQ2).
  exists (ms1 ++ ms2), Cn. rewrite micro_run_app, Hrun1. split; [done|].
  change ((ev, obs) :: tr) with ([(ev, obs)] ++ tr).
  by rewrite replies_app, (assoc_L (++)).
Qed.

(** The machine has the runs of [System] among its own.  Every run of
    [System] is a run of the machine, the one in which each call arrives,
    performs all its operations and leaves before the next arrives: it
    ends with no call in progress, on the store, the log and the exit of
    the state reached, with the responses of the run sent in their order
    and, unless the process has exited, the pool of the state reached.
    This is a fact of the machine, true of any three functions: it says
    that the interleavings include the runs in which the calls do not
    overlap, so that what is proved of every interleaving is proved of
    them. *)
Theorem runs_are_interleavings (σ : system T) tr σ' :
  run σ tr σ' →
  ∃ ms C, micro_run (embed σ) ms = Some C ∧ c_tasks C = [] ∧ c_db C = store σ'
    ∧ c_log C = journal σ' ∧ c_down C = crashed σ' ∧ c_replies C = replies tr
    ∧ (crashed σ' = false → c_pool C = pool σ').
Proof.
  intros Hrun. destruct (run_interleaves (embed σ) σ [] tr σ') as (ms & C & Hms & HQ);
    [by unfold quiescent|done|]. by exists ms, C.
Qed.

End serial.

(** ** The invariant in every interleaving *)

Section interleaved_inv.
Context {T : Type} {JS : JobStore T} {JSL : JobStoreLaws T} {J : Json}.
Implicit Types (C : config T).

(** No call is ever blocked: a call in progress can perform its next
    operation, or leave. *)
Lemma task_moves C i τ :
  c_down C = false → c_tasks C !! i = Some τ →
  is_Some (micro_step (Exec i) C) ∨ is_Some (micro_step (Finish i) C).
Proof.
  intros Hup Hi. unfold micro_step, exec_task, finish_task. rewrite Hup, Hi.
  destruct (code τ); [right|left]; by eexists.
Qed.

(** A configuration reached from an empty table by a schedule whose
    goroutines run in working environments of [Q] is matched by a state
    of [System] that is alive and in which every row is as created, with
    its goroutine in the pool, or settled. *)
Lemma reachable_sim (Q : worker_env → Prop) ms C :
  micro_run (embed (init : system T)) ms = Some C →
  Forall (begins (served_by Q)) ms →
  ∃ tr σ, run init tr σ ∧ sim C σ (replies tr) ∧ c_down C = false ∧ settled Q σ.
Proof.
  intros Hrun Hms.
  destruct (sim_run_events (served_by Q) _ _ _ _ _ (λ _ _ _ H, H) (sim_embed init)
              (Forall_nil_2 _) Hms Hrun) as (tr & σ & Htr & HS & Hev).
  exists tr, σ. split_and!; [done..| |].
  - rewrite (sim_down _ _ _ HS). by eapply (run_alive Q); [apply sys_inv_init|..].
  - by eapply settled_run; [apply sys_inv_init|apply settled_init|..].
Qed.

(** Once no call is in progress and the pool is empty, every row is
    settled. *)
Lemma reachable_settled (Q : worker_env → Prop) ms C token row :
  micro_run (embed (init : system T)) ms = Some C →
  Forall (begins (served_by Q)) ms →
  c_tasks C = [] → c_pool C = [] → store_select token (c_db C) = Some row →
  settled_row Q token row.
Proof.
  intros Hrun Hms Hnone Hpool Hrow.
  destruct (reachable_sim Q ms C Hrun Hms) as (tr & σ & Htr & HS & Hup & Hset).
  pose proof (sim_pool _ _ _ HS Hup) as Hp. rewrite Hnone in Hp.
  apply balanced_nil in Hp. rewrite Hpool in Hp. symmetry in Hp.
  apply Permutation_nil_r in Hp.
  by apply (settled_drained Q σ); [..|rewrite <- (sim_db _ _ _ HS)].
Qed.

(** C18.  The invariant holds between any two operations.  In every
    configuration the machine reaches from an empty table, whatever the
    interleaving of the calls, every row holds a status of the lifecycle
    and a body that decodes to a valid route; and while the process runs,
    the goroutines waiting in the pool have pairwise distinct tokens and
    each of them has a pending row whose body decodes to the route it will
    compute. *)
Theorem interleaved_invariant ms C :
  micro_run (embed (init : system T)) ms = Some C →
  (∀ token row, store_select token (c_db C) = Some row → row_ok row)
  ∧ (c_down C = false →
     NoDup (c_pool C).*1 ∧ Forall (goroutine_ok (c_db C)) (c_pool C)).
Proof.
  intros Hrun. destruct (sim_run _ _ _ _ _ (sim_embed init) Hrun) as (tr & σ & Htr & HS).
  pose proof (sys_inv_run _ _ _ sys_inv_init Htr) as [Hnd Hpool Hrows].
  rewrite (sim_db _ _ _ HS). split; [done|]. intros Hup.
  pose proof (sim_pool _ _ _ HS Hup) as Hp. unfold balanced in Hp.
  rewrite bind_none, app_nil_r in Hp. rewrite <- Hp in Hnd, Hpool.
  rewrite fmap_app in Hnd. apply NoDup_app in Hnd as (Hnd & _).
  by apply Forall_app in Hpool as (Hpool & _).
Qed.

(** Concurrent jobs each reach their own terminal state.  In every
    configuration the machine reaches from an empty table by a schedule
    whose goroutines run in working environments of [Q] (the statements on
    the database succeed and the provider keeps its contract), whatever
    the requests and the order of the operations of the calls, the
    process is alive; and once no call is in progress and the pool is
    empty, the row of every token is the row created for it with the
    verdict of one of these environments on the route of its own path: a
    success or a failure, never pending, and never the outcome of another
    job. *)
Theorem concurrent_jobs_settle (Q : worker_env → Prop) ms C token row :
  micro_run (embed (init : system T)) ms = Some C →
  Forall (begins (served_by Q)) ms →
  store_select token (c_db C) = Some row →
  c_down C = false
  ∧ (c_tasks C = [] → c_pool C = [] →
     settled_row Q token row
     ∧ (job_of C token = Some Success ∨ job_of C token = Some Failure)).
Proof.
  intros Hrun Hms Hrow.
  destruct (reachable_sim Q ms C Hrun Hms) as (tr & σ & Htr & HS & Hup & Hset).
  split; [done|]. intros Hnone Hpool.
  pose proof (reachable_settled Q ms C token row Hrun Hms Hnone Hpool Hrow) as Hsettled.
  split; [done|]. unfold job_of. rewrite Hrow. simpl.
  by destruct (settled_row_status Q _ _ Hsettled) as [-> | ->]; [left|right].
Qed.

End interleaved_inv.

(** ** Examples *)

Example example_schedule_runs :
  micro_run (embed example_start) example_schedule = Some example_interleaved.
Proof. vm_compute. reflexivity. Qed.

(** The interleaved session ends as the session of [System] does: the job
    is a success, and the poll, which read the row before the goroutine
    wrote it, was answered in progress. *)
Example example_interleaved_store :
  c_db example_interleaved = [example_row] ∧ c_tasks example_interleaved = []
  ∧ c_pool example_interleaved = [] ∧ c_down example_interleaved = false
  ∧ c_replies example_interleaved
    = replies (trace_of example_start [example_submit; example_poll; example_work]).
Proof. vm_compute. done. Qed.

(** The log of an interleaving need not be the journal of any run: the
    lines of the two polls are those of the run, but the lines of the
    first are no longer together. *)
Example torn_log :
  c_log torn ≠ journal (state_after example_start [empty_poll; example_poll])
  ∧ c_log torn ≠ journal (state_after example_start [example_poll; empty_poll])
  ∧ c_log torn ≡ₚ journal (state_after example_start [empty_poll; example_poll]).
Proof.
  split_and!; [by vm_compute..|]. apply (bool_decide_unpack _). by vm_compute.
Qed.

(** The goroutine of the interleaved session runs with the provider of
    the example. *)
Lemma example_schedule_served :
  Forall (begins (served_by (λ env, env = honest_provider))) example_schedule.
Proof.
  repeat (apply Forall_cons_2;
          [first [exact I|split; [apply working_honest_provider|done]]|]).
  apply Forall_nil_2.
Qed.

Lemma interleavings_serializable_witness :
  ∃ tr σ, run example_start tr σ
    ∧ Forall (served_by (λ env, env = honest_provider)) tr.*1
    ∧ c_db example_interleaved = store σ
    ∧ c_down example_interleaved = crashed σ
    ∧ (c_down example_interleaved = false → c_tasks example_interleaved = [] →
       c_log example_interleaved ≡ₚ journal σ ∧ c_pool example_interleaved ≡ₚ pool σ
       ∧ c_replies example_interleaved ≡ₚ replies tr).
Proof.
  apply (interleavings_serializable (served_by (λ env, env = honest_provider))
           example_start example_schedule);
    [done|apply example_schedule_served|by vm_compute].
Defined.

Lemma runs_are_interleavings_witness :
  ∃ ms C, micro_run (embed example_start) ms = Some C ∧ c_tasks C = []
    ∧ c_db C = store (state_after example_start example_session)
    ∧ c_log C = journal (state_after example_start example_session)
    ∧ c_down C = crashed (state_after example_start example_session)
    ∧ c_replies C = replies (trace_of example_start example_session)
    ∧ (crashed (state_after example_start example_session) = false →
       c_pool C = pool (state_after example_start example_session)).
Proof.
  apply (runs_are_interleavings example_start (trace_of example_start example_session)).
  apply run_trace_of. vm_compute. by eexists.
Defined.

Lemma interleaved_invariant_witness :
  (∀ token row, store_select token (c_db example_interleaved) = Some row → row_ok row)
  ∧ (c_down example_interleaved = false →
     NoDup (c_pool example_interleaved).*1
     ∧ Forall (goroutine_ok (c_db example_interleaved)) (c_pool example_interleaved)).
Proof.
  apply (interleaved_invariant example_schedule). vm_compute. reflexivity.
Defined.

Lemma concurrent_jobs_settle_witness :
  c_down example_interleaved = false
  ∧ (c_tasks example_interleaved = [] → c_pool example_interleaved = [] →
     settled_row (λ env, env = honest_provider) example_token example_row
     ∧ (job_of example_interleaved example_token = Some Success
        ∨ job_of example_interleaved example_token = Some Failure)).
Proof.
  apply (concurrent_jobs_settle (λ env, env = honest_provider) example_schedule);
    [by vm_compute|apply example_schedule_served|by vm_compute].
Defined.
