(* ===== verification/Linearizable.v ===== *)
(** * Linearizable: what the clients of the service observe

    A client sees of a call when it began and when it left, and of a
    handler the response it sent.  The machine of [Interleaving] records
    these moments, with the moment at which each call took effect, in the
    order in which they happened ([c_hist]).  This file proves that the
    service is linearizable: the calls of every interleaving, taken in the
    order of their moments of effect, form a run of [System] in which each
    call is one transition, a handler sends the response of its transition,
    and a call that left before another began comes before it.

    - [interleavings_linearizable]: the theorem above.
    - [finished_job_verdict]: once the goroutine of a job has taken effect,
      its row holds the verdict of its own route, whatever the other calls
      do meanwhile.
    - [terminal_answer_is_final]: a poll that begins once the row of its
      token is terminal is answered as [routeHandler] answers on that row,
      whatever is interleaved with it.
    - [issued_token_is_known]: a poll that begins after the submission
      that issued its token was answered finds the job, and is answered
      with its document. *)

From Stdlib Require Import ZArith Lia.
From stdpp Require Import base tactics option list strings.
From S2P Require Import Prelude Types Codec JobStore Intake Worker Reporter System.
From S2P Require Import Schedule Thread Ledger Interleaving.

(** ** Histories *)

(** The call of a moment, and the kind of the moment: a call has one
    moment of each kind at most. *)
Definition call_of (m : moment) : nat :=
  match m with Began id _ | Effect id | Left id _ => id end.

Inductive phase : Type := Arriving | TakingEffect | Leaving.

#[global] Instance phase_eq_dec : EqDecision phase.
Proof. solve_decision. Defined.

Definition key (m : moment) : phase * nat :=
  match m with
  | Began id _ => (Arriving, id)
  | Effect id => (TakingEffect, id)
  | Left id _ => (Leaving, id)
  end.

(** [x] comes before [y] in [l]. *)
Definition before {A} (x y : A) (l : list A) : Prop :=
  ∃ i j, i < j ∧ l !! i = Some x ∧ l !! j = Some y.

(** The calls that took effect, in the order in which they did. *)
Definition effects (H : list moment) : list nat :=
  omap (λ m, match m with Effect id => Some id | _ => None end) H.

(** What precedes a moment: a call takes effect after it began, and leaves
    after it took effect. *)
Definition preceded (H : list moment) (m : moment) : Prop :=
  match m with
  | Began _ _ => True
  | Effect id => ∃ a, Began id a ∈ H
  | Left id _ => Effect id ∈ H
  end.

Definition ordered (H : list moment) : Prop :=
  ∀ i m, H !! i = Some m → preceded (take i H) m.

(** A history of the calls numbered below [n]: no moment twice, every
    moment preceded by those it needs. *)
Record hist_ok (n : nat) (H : list moment) : Prop := {
  hist_keys : NoDup (key <$> H);
  hist_ordered : ordered H;
  hist_fresh : Forall (λ m, call_of m < n) H;
}.

(** The entry of a call in a linearization: its number, with the
    transition of [System] that stands for it. *)
Definition entry : Type := nat * (event * observation).

(** The call [id] came from [a] and stands in [lin] as a transition that
    shows [w]. *)
Definition stands (H : list moment) (lin : list entry) (id : nat) (a : origin)
    (w : list writer_call) : Prop :=
  Began id a ∈ H ∧ ∃ n, (id, (event_at a n, shown a w)) ∈ lin.

(** The linearization [lin] of the history [H]: the calls that took
    effect, in that order; each entry is the transition of a call that
    began; and a call that left stands in it with what it sent. *)
Record lin_ok (H : list moment) (lin : list entry) : Prop := {
  lin_order : lin.*1 = effects H;
  lin_begun : ∀ id ev obs, (id, (ev, obs)) ∈ lin →
              ∃ a n w, Began id a ∈ H ∧ ev = event_at a n ∧ obs = shown a w;
  lin_left : ∀ id r, Left id r ∈ H → ∃ a w, stands H lin id a w ∧ r = sent a w;
}.

Section recorded.
Context {T : Type} {JS : JobStore T}.

(** What the history holds of a call in progress: it began and has not
    left; past its statement it took effect and stands in the
    linearization with what it will have written; before it, it has not
    taken effect. *)
Definition call_ok (H : list moment) (lin : list entry) (τ : task) : Prop :=
  Began (tid τ) (from τ) ∈ H ∧ ((Leaving, tid τ) ∉ key <$> H) ∧
  (if past τ
   then Effect (tid τ) ∈ H ∧ stands H lin (tid τ) (from τ) (promised (T := T) τ)
   else (TakingEffect, tid τ) ∉ key <$> H).

(** The history [H] and its linearization [lin] record the calls in
    progress [cs], [n] calls having arrived: a call that began took
    effect or is in progress. *)
Record recorded (n : nat) (H : list moment) (lin : list entry) (cs : list task)
  : Prop := {
  rec_hist : hist_ok n H;
  rec_lin : lin_ok H lin;
  rec_calls : Forall (call_ok H lin) cs;
  rec_tids : NoDup (tid <$> cs);
  rec_begun : ∀ id a, Began id a ∈ H → Effect id ∈ H ∨ id ∈ tid <$> cs;
}.

(** The entry of the call that takes effect at a step, [k] being the
    index of its goroutine in the pool of [System]. *)
Definition entry_at (k : nat) (m : micro) (C : config T) : list entry :=
  match takes_effect m C with
  | Some (τ, w) => [(tid τ, (event_at (from τ) k, shown (from τ) w))]
  | None => []
  end.

(** The call [τ] marked as past its statement. *)
Definition settle (τ : task) : task :=
  {| tid := tid τ; code := code τ; from := from τ; past := true; so_far := so_far τ |}.

End recorded.

Arguments call_ok T {JS} H lin τ.
Arguments recorded T {JS} n H lin cs.

(** The configuration [C] is linearized by [lin], which leads [System] to
    the state [σ]: the simulation of [Interleaving] holds with the responses
    of [lin], and [lin] is the linearization of the history of [C]. *)
Definition linearized {T} {JS : JobStore T} {J : Json} (C : config T) (σ : system T)
    (lin : list entry) : Prop :=
  sim C σ (replies lin.*2) ∧ recorded T (c_next C) (c_hist C) lin (c_tasks C).

(** ** The data of the examples *)

(** A poll of the example job that arrives once the interleaved session of
    [Interleaving] has ended: it is the fourth call. *)
Definition late_schedule : list micro :=
  Begin example_poll :: replicate 4 (Exec 0) ++ [Finish 0].

Definition example_late : config table :=
  default example_interleaved (micro_run example_interleaved late_schedule).

(** ** Facts on histories *)

Section histories.
Implicit Types (H : list moment) (m : moment) (lin : list entry).

Lemma key_call m : (key m).2 = call_of m.
Proof. by destruct m. Qed.

Lemma elem_of_key m H : m ∈ H → key m ∈ (key <$> H).
Proof. apply list_elem_of_fmap_2. Qed.

(** The moments of a call that has not arrived are not in the history. *)
Lemma fresh_key n H p : Forall (λ m, call_of m < n) H → (p, n) ∉ key <$> H.
Proof.
  intros Hf (m & Hk & Hm)%list_elem_of_fmap.
  pose proof (proj1 (Forall_forall _ _) Hf m Hm) as Hlt.
  simpl in Hlt. rewrite <- key_call, <- Hk in Hlt. simpl in Hlt. lia.
Qed.

Lemma elem_of_take_lookup {A} (x : A) i l : x ∈ take i l ↔ ∃ j, j < i ∧ l !! j = Some x.
Proof.
  rewrite list_elem_of_lookup. split.
  - intros [j Hj]. apply lookup_take_Some in Hj as [? ?]. eauto.
  - intros (j & ? & Hj). exists j. by apply lookup_take_Some.
Qed.

Lemma effects_snoc H m : effects (H ++ [m]) = effects H ++ effects [m].
Proof. apply omap_app. Qed.

(** A moment may be added at the end of a history when it is new and
    preceded by what it needs. *)
Lemma hist_ok_snoc n n' H m :
  hist_ok n H → n ≤ n' → call_of m < n' → key m ∉ key <$> H → preceded H m →
  hist_ok n' (H ++ [m]).
Proof.
  intros [Hk Ho Hf] Hn Hm Hnew Hpre. split.
  - rewrite fmap_app. apply NoDup_app. split_and!; [done| |apply NoDup_singleton].
    by intros k Hin ->%list_elem_of_singleton.
  - intros i m' [[Hlt Hi]|[-> ->]]%lookup_snoc_Some.
    + rewrite take_app_le by lia. by apply Ho.
    + by rewrite take_app_length.
  - apply Forall_app. split; [|by apply Forall_singleton].
    eapply Forall_impl; [done|]. simpl. lia.
Qed.

(** A call has begun once. *)
Lemma began_unique n H id a a' :
  hist_ok n H → Began id a ∈ H → Began id a' ∈ H → a = a'.
Proof.
  intros [Hk _ _] [i Hi]%list_elem_of_lookup [j Hj]%list_elem_of_lookup.
  assert (i = j) as ->; [|congruence].
  apply (NoDup_lookup _ _ _ (Arriving, id) Hk); by rewrite list_lookup_fmap, ?Hi, ?Hj.
Qed.

(** Real time: a call that left before another began took effect before
    it. *)
Lemma effect_before n H x y r a :
  hist_ok n H → before (Left x r) (Began y a) H → Effect y ∈ H →
  before (Effect x) (Effect y) H.
Proof.
  intros [Hk Ho _] (i & j & Hij & Hi & Hj) [k Hy]%list_elem_of_lookup.
  destruct (proj1 (elem_of_take_lookup _ _ _) (Ho _ _ Hi)) as (i' & Hi' & Hx).
  destruct (Ho _ _ Hy) as (a' & (j' & Hj' & Hb)%elem_of_take_lookup).
  assert (j' = j) as ->.
  { apply (NoDup_lookup _ _ _ (Arriving, y) Hk); by rewrite list_lookup_fmap, ?Hb, ?Hj. }
  exists i', k. split_and!; [lia|done..].
Qed.

(** The calls that took effect have arrived. *)
Lemma effects_fresh n H id : hist_ok n H → id ∈ effects H → id < n.
Proof.
  intros [_ _ Hf] (m & Hm & Heq)%list_elem_of_omap.
  pose proof (proj1 (Forall_forall _ _) Hf m Hm) as Hlt. by destruct m; simplify_eq.
Qed.

(** A call that took effect stands in the linearization as a transition
    of its own. *)
Lemma effect_entry n H lin id a :
  hist_ok n H → lin_ok H lin → Began id a ∈ H → Effect id ∈ H →
  ∃ k w, (id, (event_at a k, shown a w)) ∈ lin.
Proof.
  intros Hh [Ho Hb _] Ha He.
  assert (id ∈ lin.*1) as ([id' [ev obs]] & -> & Hin)%list_elem_of_fmap.
  { rewrite Ho. apply list_elem_of_omap. by exists (Effect id). }
  destruct (Hb _ _ _ Hin) as (a' & k & w & Ha' & -> & ->).
  rewrite (began_unique n H _ a a') by done. by exists k, w.
Qed.

(** A call takes effect once. *)
Lemma effects_NoDup H : NoDup (key <$> H) → NoDup (effects H).
Proof.
  induction H as [|m H IH]; [constructor|]. rewrite fmap_cons.
  intros [Hm HH]%NoDup_cons. destruct m as [id a|id|id r]; simpl; auto.
  apply NoDup_cons. split; [|auto].
  intros (m & Hin & Heq)%list_elem_of_omap. destruct m; simplify_eq.
  by apply Hm, (elem_of_key (Effect id)).
Qed.

(** The entry of a call is where the call is in the order of effect. *)
Lemma entry_lookup n H lin id e i :
  hist_ok n H → lin_ok H lin → (id, e) ∈ lin → lin.*1 !! i = Some id →
  lin.*2 !! i = Some e.
Proof.
  intros [Hk _ _] [Ho _ _] [k Hk']%list_elem_of_lookup Hi.
  assert (k = i) as <-.
  { apply (NoDup_lookup lin.*1 _ _ id); [|by rewrite list_lookup_fmap, Hk'|done].
    rewrite Ho. by apply effects_NoDup. }
  by rewrite list_lookup_fmap, Hk'.
Qed.

(** A call that left took effect. *)
Lemma left_effect n H id r : hist_ok n H → Left id r ∈ H → Effect id ∈ H.
Proof.
  intros [_ Ho _] [i Hi]%list_elem_of_lookup.
  destruct (proj1 (elem_of_take_lookup _ _ _) (Ho i _ Hi)) as (j & _ & Hj).
  by eapply list_elem_of_lookup_2.
Qed.

Lemma before_cons {A} (x y z : A) l :
  before x y (z :: l) ↔ (z = x ∧ y ∈ l) ∨ before x y l.
Proof.
  split.
  - intros ([|i] & [|j] & Hij & Hi & Hj); try lia; simpl in *.
    + left. split; [congruence|by eapply list_elem_of_lookup_2].
    + right. exists i, j. split_and!; [lia|done..].
  - intros [[-> [j Hj]%list_elem_of_lookup]|(i & j & Hij & Hi & Hj)].
    + exists 0, (S j). split_and!; [lia|done..].
    + exists (S i), (S j). split_and!; [lia|done..].
Qed.

(** The order of two elements that are kept is kept. *)
Lemma before_omap {A B} (f : A → option B) x y a b l :
  f x = Some a → f y = Some b → before x y l → before a b (omap f l).
Proof.
  intros Hx Hy. induction l as [|z l IH]; [by intros (i & j & _ & ? & _)|].
  intros [[-> Hin]|Hb]%before_cons; simpl.
  - rewrite Hx. apply before_cons. left. split; [done|].
    apply list_elem_of_omap. eauto.
  - destruct (f z); [apply before_cons; right|]; by apply IH.
Qed.

End histories.

(** ** The record is kept *)

Section recording.
Context {T : Type} {JS : JobStore T} {J : Json}.
Implicit Types (H : list moment) (m : moment) (lin l : list entry).
Implicit Types (τ : task) (cs : list task) (C : config T) (σ : system T).

Lemma stands_mono H lin m l id a w :
  stands H lin id a w → stands (H ++ [m]) (lin ++ l) id a w.
Proof.
  intros [Hb [n Hn]]. split; [|exists n]; apply elem_of_app; by left.
Qed.

(** The linearization of a history with one more moment. *)
Lemma lin_ok_snoc H lin m l :
  lin_ok H lin → l.*1 = effects [m] →
  (∀ id ev obs, (id, (ev, obs)) ∈ l →
     ∃ a n w, Began id a ∈ H ∧ ev = event_at a n ∧ obs = shown a w) →
  (∀ id r, m = Left id r → ∃ a w, stands H (lin ++ l) id a w ∧ r = sent a w) →
  lin_ok (H ++ [m]) (lin ++ l).
Proof.
  intros [Ho Hb Hl] Hm Hnew Hleft. split.
  - by rewrite fmap_app, effects_snoc, Ho, Hm.
  - intros id ev obs [Hin|Hin]%elem_of_app;
      [destruct (Hb _ _ _ Hin) as (a & n & w & ? & ? & ?)
      |destruct (Hnew _ _ _ Hin) as (a & n & w & ? & ? & ?)];
      exists a, n, w; split_and!; try done; apply elem_of_app; by left.
  - intros id r [Hin|Hin%list_elem_of_singleton]%elem_of_app.
    + destruct (Hl _ _ Hin) as (a & w & Hs & ->). exists a, w. split; [|done].
      by apply stands_mono.
    + subst m. destruct (Hleft id r eq_refl) as (a & w & [Hb' [n Hn]] & ->). exists a, w.
      split; [|done]. split; [apply elem_of_app; by left|by exists n].
Qed.

(** A moment of another call leaves what the history holds of a call as
    it is. *)
Lemma call_ok_snoc H lin τ m l :
  call_ok T H lin τ → tid τ ≠ call_of m → call_ok T (H ++ [m]) (lin ++ l) τ.
Proof.
  intros (Hb & Hl & Hp) Hne.
  assert (∀ p, (p, tid τ) ∉ key <$> H → (p, tid τ) ∉ key <$> (H ++ [m])) as Hkeep.
  { intros p Hn. rewrite fmap_app. apply not_elem_of_app. split; [done|].
    intros Hin%list_elem_of_singleton. destruct Hne. by rewrite <- key_call, <- Hin. }
  split_and!; [apply elem_of_app; by left|by apply Hkeep|].
  destruct (past τ); [|by apply Hkeep]. destruct Hp as [He Hs].
  split; [apply elem_of_app; by left|by apply stands_mono].
Qed.

Lemma calls_snoc H lin cs m l :
  Forall (call_ok T H lin) cs → Forall (λ τ, tid τ ≠ call_of m) cs →
  Forall (call_ok T (H ++ [m]) (lin ++ l)) cs.
Proof.
  rewrite !Forall_forall. intros Hc Hne τ Hin. apply call_ok_snoc; eauto.
Qed.

(** The calls in progress have arrived. *)
Lemma call_ok_fresh n H lin τ : hist_ok n H → call_ok T H lin τ → tid τ < n.
Proof. intros [_ _ Hf] (Hb & _). by apply (proj1 (Forall_forall _ _) Hf _ Hb). Qed.

(** The calls in progress other than the call at index [i]. *)
Lemma pick cs i τ :
  NoDup (tid <$> cs) → cs !! i = Some τ →
  NoDup (tid <$> delete i cs) ∧ Forall (λ τ', tid τ' ≠ tid τ) (delete i cs).
Proof.
  intros Hnd Hi. rewrite (delete_Permutation cs i τ Hi), fmap_cons in Hnd.
  apply NoDup_cons in Hnd as [Hn Hnd]. split; [done|].
  apply Forall_forall. intros τ' Hin Heq. apply Hn. rewrite <- Heq.
  by apply list_elem_of_fmap_2.
Qed.

Lemma tids_insert cs i τ τ' :
  cs !! i = Some τ → tid τ' = tid τ → tid <$> <[i := τ']> cs = tid <$> cs.
Proof.
  intros Hi Hid. rewrite list_fmap_insert, Hid. apply list_insert_id.
  by rewrite list_lookup_fmap, Hi.
Qed.

(** A call that began and is not the one that leaves is still there. *)
Lemma begun_snoc H m cs cs' id a :
  (∀ id a, Began id a ∈ H → Effect id ∈ H ∨ id ∈ tid <$> cs) →
  (∀ id', id' ∈ tid <$> cs → Effect id' ∈ H ++ [m] ∨ id' ∈ tid <$> cs') →
  Began id a ∈ H ++ [m] → (m = Began id a → id ∈ tid <$> cs') →
  Effect id ∈ H ++ [m] ∨ id ∈ tid <$> cs'.
Proof.
  intros Hb Hcs [Hin|Hin%list_elem_of_singleton]%elem_of_app Hm; [|right; by apply Hm].
  destruct (Hb id a Hin) as [He|Hc]; [left; apply elem_of_app; by left|by apply Hcs].
Qed.

(** A call arrives. *)
Lemma recorded_began n H lin cs a :
  recorded T n H lin cs → recorded T (S n) (H ++ [Began n a]) lin (cs ++ [spawn n a]).
Proof.
  intros [Hh Hl Hc Ht Hb].
  assert (Forall (λ τ, tid τ ≠ n) cs) as Hne.
  { eapply Forall_impl; [done|]. intros τ Hτ. pose proof (call_ok_fresh _ _ _ _ Hh Hτ). lia. }
  pose proof (hist_fresh _ _ Hh) as Hf.
  rewrite <- (app_nil_r lin). split.
  - apply (hist_ok_snoc n); [done|lia|simpl; lia|by apply fresh_key|done].
  - by apply lin_ok_snoc; [..|intros ? ? ? ?%not_elem_of_nil|intros ? ? [=]].
  - apply Forall_app. split; [by apply calls_snoc|]. apply Forall_singleton.
    assert (∀ p, p ≠ Arriving → (p, n) ∉ key <$> (H ++ [Began n a])) as Hnew.
    { intros p Hp. rewrite fmap_app. apply not_elem_of_app. split; [by apply fresh_key|].
      intros [=]%list_elem_of_singleton. by destruct Hp. }
    split_and!; [apply elem_of_app; right; by apply list_elem_of_singleton|by apply Hnew..].
  - rewrite fmap_app. apply NoDup_app. split_and!; [done| |apply NoDup_singleton].
    intros id (τ & -> & Hin)%list_elem_of_fmap Heq%list_elem_of_singleton.
    by apply (proj1 (Forall_forall _ _) Hne τ Hin).
  - intros id a' Hin. apply (begun_snoc H _ cs _ id a' Hb); [|done|]; rewrite fmap_app.
    + intros id' Hid'. right. apply elem_of_app. by left.
    + intros [= <- <-]. apply elem_of_app. right. by apply list_elem_of_singleton.
Qed.

(** A call performs an operation other than its statement. *)
Lemma recorded_same n H lin cs i τ τ' :
  recorded T n H lin cs → cs !! i = Some τ →
  tid τ' = tid τ → from τ' = from τ → past τ' = past τ →
  promised (T := T) τ' = promised (T := T) τ →
  recorded T n H lin (<[i := τ']> cs).
Proof.
  intros [Hh Hl Hc Ht Hb] Hi Hid Hfrom Hpast Hprom. split; [done..| | |].
  - apply Forall_insert; [done|]. pose proof (Forall_lookup_1 _ _ _ _ Hc Hi) as Hτ.
    unfold call_ok in *. by rewrite Hid, Hfrom, Hpast, Hprom.
  - by rewrite (tids_insert cs i τ τ').
  - by rewrite (tids_insert cs i τ τ').
Qed.

(** A call takes effect. *)
Lemma recorded_effect n H lin cs i τ τ' k :
  recorded T n H lin cs → cs !! i = Some τ → past τ = false →
  tid τ' = tid τ → from τ' = from τ → past τ' = true →
  recorded T n (H ++ [Effect (tid τ)])
    (lin ++ [(tid τ, (event_at (from τ) k, shown (from τ) (promised (T := T) τ')))])
    (<[i := τ']> cs).
Proof.
  intros [Hh Hl Hc Ht Hbg] Hi Hp Hid Hfrom Hp'.
  pose proof (Forall_lookup_1 _ _ _ _ Hc Hi) as Hτ.
  pose proof (call_ok_fresh _ _ _ _ Hh Hτ) as Hlt.
  destruct Hτ as (Hb & Hnl & Hne). rewrite Hp in Hne.
  destruct (pick cs i τ Ht Hi) as [Ht' Hothers]. split.
  - apply (hist_ok_snoc n); [done|lia|done..|by exists (from τ)].
  - apply lin_ok_snoc; [done..| |by intros ? ? [=]].
    intros id ev obs [= -> -> ->]%list_elem_of_singleton. by eexists _, _, _.
  - rewrite (insert_Permutation cs i τ τ' Hi). apply Forall_cons. split.
    + unfold call_ok. rewrite Hid, Hfrom, Hp'. split_and!.
      * apply elem_of_app. by left.
      * rewrite fmap_app. apply not_elem_of_app. split; [done|].
        by intros [=]%list_elem_of_singleton.
      * apply elem_of_app. right. by apply list_elem_of_singleton.
      * split; [apply elem_of_app; by left|]. exists k. apply elem_of_app. right.
        by apply list_elem_of_singleton.
    + apply calls_snoc; [by apply Forall_delete|done].
  - by rewrite (tids_insert cs i τ τ').
  - intros id a Hin. rewrite (tids_insert cs i τ τ') by done.
    apply (begun_snoc H _ cs _ id a Hbg); [by right|done|by intros [=]].
Qed.

(** A call that took effect leaves. *)
Lemma recorded_left n H lin cs i τ :
  recorded T n H lin cs → cs !! i = Some τ → past τ = true →
  recorded T n (H ++ [Left (tid τ) (sent (from τ) (promised (T := T) τ))]) lin
    (delete i cs).
Proof.
  intros [Hh Hl Hc Ht Hbg] Hi Hp.
  pose proof (Forall_lookup_1 _ _ _ _ Hc Hi) as Hτ.
  pose proof (call_ok_fresh _ _ _ _ Hh Hτ) as Hlt.
  destruct Hτ as (Hb & Hnl & Hpast). rewrite Hp in Hpast. destruct Hpast as [He Hs].
  destruct (pick cs i τ Ht Hi) as [Ht' Hothers].
  rewrite <- (app_nil_r lin).
  split; [| |by apply calls_snoc; [apply Forall_delete|]|done|].
  - by apply (hist_ok_snoc n); [|lia|..].
  - apply lin_ok_snoc; [done..|by intros ? ? ? ?%not_elem_of_nil|].
    intros id r [= <- <-]. rewrite app_nil_r. by eexists _, _.
  - intros id a Hin. apply (begun_snoc H _ cs _ id a Hbg); [|done|by intros [=]].
    intros id' Hid'. rewrite (delete_Permutation cs i τ Hi), fmap_cons in Hid'.
    apply elem_of_cons in Hid' as [->|?]; [left; apply elem_of_app|]; auto.
Qed.

(** Every step of the machine keeps the record, with the entry of the call
    that takes effect, if one does, added to the linearization. *)
Lemma recorded_step C σ rs lin (m : micro) C' k :
  sim C σ rs → recorded T (c_next C) (c_hist C) lin (c_tasks C) →
  micro_step m C = Some C' →
  recorded T (c_next C') (c_hist C') (lin ++ entry_at k m C) (c_tasks C').
Proof.
  intros HS HR Hm. unfold micro_step in Hm. destruct (c_down C) eqn:Hup; [done|].
  unfold entry_at. destruct m as [ev|i|i]; simpl in *.
  - destruct (begin_inv _ _ _ Hm) as (a & pl & _ & -> & _). rewrite app_nil_r.
    by apply recorded_began.
  - unfold exec_task in Hm. destruct (c_tasks C !! i) as [τ|] eqn:Hi; [|done].
    simpl. destruct (code τ) as [f|o k'] eqn:Hc; [done|]. injection Hm as <-.
    unfold step_task. cbn [c_next c_hist c_tasks].
    pose proof (Forall_lookup_1 _ _ _ _ (sim_tasks _ _ _ HS Hup) Hi) as Hτ.
    destruct (is_db o) eqn:Ho.
    + destruct (task_ok_db τ o k' (c_db C) Hτ Hc Ho) as (Hp & _).
      apply (recorded_effect _ _ _ _ i τ); [done..|]. simpl. by rewrite Hp, Ho.
    + rewrite !app_nil_r. apply (recorded_same _ _ _ _ i τ); [done..| |].
      * simpl. by rewrite Ho, orb_false_r.
      * by apply promised_other.
  - unfold finish_task in Hm. destruct (c_tasks C !! i) as [τ|] eqn:Hi; [|done].
    simpl. destruct (code τ) as [f|o k'] eqn:Hc; [|done]. injection Hm as <-.
    unfold leave. cbn [c_next c_hist c_tasks].
    rewrite <- (promised_Fin (T := T) τ f Hc). destruct (past τ) eqn:Hp.
    + rewrite !app_nil_r. by apply recorded_left.
    + rewrite (assoc_L (++)), <- (delete_insert_same (c_tasks C) i (settle τ)).
      apply (recorded_left _ _ _ _ i (settle τ));
        [|by eapply list_lookup_insert_eq, lookup_lt_Some|done].
      by apply (recorded_effect _ _ _ _ i τ (settle τ)).
Qed.

Lemma linearized_embed σ : linearized (embed σ) σ [].
Proof.
  split; [apply sim_embed|].
  split; [split| |constructor|constructor|by intros ? ? ?%not_elem_of_nil].
  - constructor.
  - by intros i m ?.
  - constructor.
  - by split; [|intros ? ? ? ?%not_elem_of_nil|intros ? ? ?%not_elem_of_nil].
Qed.

(** Every step of the machine extends the linearization by the transition
    of the call that takes effect, or by none. *)
Lemma linearized_step C σ lin (m : micro) C' :
  linearized C σ lin → micro_step m C = Some C' →
  ∃ l σ', run σ l.*2 σ' ∧ linearized C' σ' (lin ++ l).
Proof.
  intros [HS HR] Hm. pose proof (sim_step _ _ _ _ _ HS Hm) as HS'.
  pose proof (λ k, recorded_step _ _ _ _ _ _ k HS HR Hm) as HR'. unfold entry_at in HR'.
  destruct (takes_effect m C) as [[τ w]|].
  - destruct HS' as (_ & n & σ' & Hstep & HS').
    exists [(tid τ, (event_at (from τ) n, shown (from τ) w))], σ'.
    split; [by eapply run_cons; [|constructor]|]. split; [|apply (HR' n)].
    by rewrite fmap_app, replies_app.
  - exists [], σ. rewrite app_nil_r. split; [constructor|]. split; [done|].
    specialize (HR' 0). by rewrite app_nil_r in HR'.
Qed.

Lemma linearized_run C σ lin ms C' :
  linearized C σ lin → micro_run C ms = Some C' →
  ∃ l σ', run σ l.*2 σ' ∧ linearized C' σ' (lin ++ l).
Proof.
  revert C σ lin. induction ms as [|m ms IH]; intros C σ lin HL Hrun; simpl in Hrun.
  { injection Hrun as <-. exists [], σ. rewrite app_nil_r. split; [constructor|done]. }
  destruct (micro_step m C) as [Cm|] eqn:Hm; [|done].
  destruct (linearized_step _ _ _ _ _ HL Hm) as (l1 & σ1 & Hrun1 & HL1).
  destruct (IH _ _ _ HL1 Hrun) as (l2 & σ2 & Hrun2 & HL2).
  exists (l1 ++ l2), σ2. rewrite fmap_app, (assoc_L (++)). split; [by eapply run_app|done].
Qed.

(** Every configuration reached from a state of [System] is linearized. *)
Lemma linearized_reached σ0 ms C :
  micro_run (embed σ0) ms = Some C → ∃ lin σ, run σ0 lin.*2 σ ∧ linearized C σ lin.
Proof. apply (linearized_run _ _ [] _ _ (linearized_embed σ0)). Qed.

(** C7.  Interleavings are linearizable.  For every configuration the
    machine reaches, whatever the order in which the calls performed their
    operations, there is a sequence of transitions of [System], one for
    each call that took effect and in the order in which they took effect,
    that is a run of [System] to a state with the database of the
    configuration; each transition is that of a call that began; a call
    that left stands in the sequence, and a handler sent the very response
    its transition shows; and a call that left before another began comes
    before it in the sequence.  So what the clients observed, responses
    and their order in time, is what a service that handles one call at a
    time could have shown them. *)
Theorem interleavings_linearizable (σ0 : system T) ms C :
  micro_run (embed σ0) ms = Some C →
  ∃ lin σ, run σ0 lin.*2 σ ∧ c_db C = store σ ∧ c_down C = crashed σ
    ∧ lin.*1 = effects (c_hist C)
    ∧ (∀ id ev obs, (id, (ev, obs)) ∈ lin →
         ∃ a n w, Began id a ∈ c_hist C ∧ ev = event_at a n ∧ obs = shown a w)
    ∧ (∀ id r, Left id r ∈ c_hist C →
         ∃ a w, stands (c_hist C) lin id a w ∧ r = sent a w)
    ∧ (∀ x y r a, before (Left x r) (Began y a) (c_hist C) → y ∈ lin.*1 →
         before x y lin.*1).
Proof.
  intros Hrun.
  destruct (linearized_reached _ _ _ Hrun) as (lin & σ & Htr & HS & [Hh [Ho Hb Hl] _ _]).
  exists lin, σ. split_and!; [done|apply (sim_db _ _ _ HS)|apply (sim_down _ _ _ HS)|done..|].
  intros x y r a Hxy Hy. rewrite Ho in Hy |- *.
  apply list_elem_of_omap in Hy as ([] & Hy & [= ->]).
  by eapply (before_omap _ (Effect x) (Effect y)), effect_before.
Qed.

End recording.

(** ** What a client can rely on *)

Section clients.
Context {T : Type} {JS : JobStore T} {JSL : JobStoreLaws T} {J : Json}.
Implicit Types (C : config T) (σ : system T).

(** C8.  A job that was computed holds its own verdict.  In every
    configuration the machine reaches from an empty table, whatever the
    interleaving, once the goroutine of a token has taken effect, having
    run with a working database and a provider that keeps its contract,
    the row of the token is the row it found with the verdict computed
    from the path stored for that token and the answers given to that
    goroutine: a terminal row, whatever the other calls did meanwhile and
    have done since. *)
Theorem finished_job_verdict ms C g env token points :
  micro_run (embed (init : system T)) ms = Some C →
  Began g (FromGo env token points) ∈ c_hist C → Effect g ∈ c_hist C →
  working env →
  ∃ row p st d tm e, Unmarshal (c_path row) = Ok p ∧ valid_route p
    ∧ worker_verdict_of env (points_of p) = Outcome st d tm e
    ∧ (st = 1 ∨ st = -1)%Z
    ∧ store_select token (c_db C) = Some (set_outcome st d tm e row).
Proof.
  intros Hrun Hb He (Hp & Hx & Hc).
  destruct (linearized_reached _ _ _ Hrun) as (lin & σ & Htr & HS & [Hh Hl _ _ _]).
  destruct (effect_entry _ _ _ _ _ Hh Hl Hb He) as (k & w & Hin).
  apply (list_elem_of_fmap_2 snd) in Hin.
  destruct (run_elem_of _ _ _ _ _ Htr Hin) as (tr1 & σ1 & σ2 & tr2 & Hr1 & Hstep & Hr2).
  destruct (run_job_outcome σ1 k env token σ2 tr2 σ)
    as (row & p & st & d & tm & e & _ & Hpath & Hvalid & Hv & Hsel); [|done..|].
  { eapply sys_inv_run; [apply sys_inv_init|done]. }
  exists row, p, st, d, tm, e. rewrite (sim_db _ _ _ HS).
  split_and!; [done..|by eapply worker_verdict_status|done].
Qed.

(** C9.  A terminal answer is final.  Once the row of a token holds a
    terminal status, every poll of that token that begins from then on is
    answered, when it is answered, with the response [routeHandler] gives
    on that row in the environment of the poll: whatever the calls the
    poll is interleaved with, and however long it takes.  When the
    [SELECT] of the poll succeeds, the response is the document of that
    row, so a client that has been told the outcome of its job is told
    the same again; when the [SELECT] fails the poll is answered in
    progress, as [routeHandler_unknown_token] shows of every token. *)
Theorem terminal_answer_is_final ms1 C1 ms2 C2 token row id env calls :
  micro_run (embed (init : system T)) ms1 = Some C1 → micro_run C1 ms2 = Some C2 →
  store_select token (c_db C1) = Some row → c_status row ≠ 0%Z →
  c_next C1 ≤ id →
  Began id (FromPoll token env) ∈ c_hist C2 → Left id (Some calls) ∈ c_hist C2 →
  calls = writer (exec (routeHandler token env) (world_of (c_db C1)))
  ∧ (select_fault env = None →
     ∀ result routeJson, rendered row = Some result →
       Marshal (shortestRoute_json result) = Ok routeJson →
       calls = json_response routeJson).
Proof.
  intros Hrun1 Hrun2 Hrow Hst Hid Hb Hleft.
  enough (calls = writer (exec (routeHandler token env) (world_of (c_db C1)))) as ->.
  { split; [done|]. intros Hf result routeJson Hr Hm. rewrite routeHandler_exec.
    by rewrite (report_world_renders token env _ row result routeJson). }
  destruct (linearized_reached _ _ _ Hrun1) as (lin1 & σ1 & Htr1 & HL1).
  destruct (linearized_run _ _ _ _ _ HL1 Hrun2) as (l2 & σ2 & Htr2 & _ & [Hh2 Hl2 _ _]).
  destruct HL1 as [HS1 [Hh1 [Ho1 _ _] _ _]].
  destruct (lin_left _ _ Hl2 _ _ Hleft) as (a & w & [Ha [n Hin]] & Hsent).
  rewrite <- (began_unique _ _ _ _ _ Hh2 Hb Ha) in Hin, Hsent. injection Hsent as ->.
  apply elem_of_app in Hin as [Hin|Hin].
  { apply (list_elem_of_fmap_2 fst) in Hin. rewrite Ho1 in Hin.
    pose proof (effects_fresh _ _ _ Hh1 Hin). simpl in *. lia. }
  apply (list_elem_of_fmap_2 snd) in Hin.
  destruct (run_elem_of _ _ _ _ _ Htr2 Hin) as (tr1 & σa & σb & tr2 & Hr1 & Hstep & _).
  assert (sys_inv σ1) as Hinv by (eapply sys_inv_run; [apply sys_inv_init|done]).
  rewrite (sim_db _ _ _ HS1) in Hrow |- *.
  pose proof (run_terminal_stable _ _ _ _ _ Hinv Hr1 Hrow Hst) as Hrow'.
  apply step_poll_inv in Hstep as [-> _]. apply routeHandler_writer_select. congruence.
Qed.

(** C10.  A token that was issued is known.  When a submission has been
    answered with a token and a poll of that token begins afterwards,
    the poll, whatever it is interleaved with, is answered on a table
    that holds the job: the row of the token, with the body as submitted,
    which decodes to a valid route.  When the database answers the poll,
    the response is the document of the job: in progress, a failure, or a
    success with the route as submitted, and never an error about the
    token.  A client never polls too early. *)
Theorem issued_token_is_known ms C s r ienv tokenJson p renv calls :
  micro_run (embed (init : system T)) ms = Some C →
  Began s (FromSubmit r ienv) ∈ c_hist C →
  before (Left s (Some (json_response tokenJson)))
    (Began p (FromPoll (uuid_NewV4 ienv) renv)) (c_hist C) →
  Left p (Some calls) ∈ c_hist C →
  ∃ body route row (d : T), Body r = Ok body ∧ Unmarshal body = Ok route
    ∧ valid_route route
    ∧ store_select (uuid_NewV4 ienv) d = Some row ∧ c_path row = body
    ∧ calls = writer (exec (routeHandler (uuid_NewV4 ienv) renv) (world_of d))
    ∧ (select_fault renv = None →
       ∃ result, says route result
         ∧ ∀ routeJson, Marshal (shortestRoute_json result) = Ok routeJson →
             calls = json_response routeJson).
Proof.
  intros Hrun Hs Hsp Hp.
  destruct (linearized_reached _ _ _ Hrun) as (lin & σ & Htr & HS & [Hh Hl _ _ _]).
  pose proof Hsp as (i0 & j0 & _ & Hleft%list_elem_of_lookup_2 & Hbegan%list_elem_of_lookup_2).
  destruct (lin_left _ _ Hl _ _ Hleft) as (a & w & [Ha [n Hin]] & Hsent).
  rewrite <- (began_unique _ _ _ _ _ Hh Hs Ha) in Hin, Hsent. injection Hsent as <-.
  destruct (lin_left _ _ Hl _ _ Hp) as (a' & w' & [Ha' [n' Hin']] & Hsent').
  rewrite <- (began_unique _ _ _ _ _ Hh Hbegan Ha') in Hin', Hsent'. injection Hsent' as <-.
  pose proof (effect_before _ _ _ _ _ _ Hh Hsp (left_effect _ _ _ _ Hh Hp)) as Hord.
  apply (before_omap (λ m, match m with Effect id => Some id | _ => None end) _ _ s p) in Hord;
    [|done..].
  fold (effects (c_hist C)) in Hord. rewrite <- (lin_order _ _ Hl) in Hord.
  destruct Hord as (i & j & Hij & Hi & Hj).
  apply (entry_lookup _ _ _ _ _ _ Hh Hl Hin) in Hi.
  apply (entry_lookup _ _ _ _ _ _ Hh Hl Hin') in Hj.
  destruct (run_lookup _ _ _ _ _ _ Htr Hi) as (σ1 & σ2 & Hpre & Hsubmit & Hrest).
  rewrite <- (Nat.sub_add (S i) j), Nat.add_comm, <- lookup_drop in Hj by lia.
  destruct (run_lookup _ _ _ _ _ _ Hrest Hj) as (σ3 & σ4 & Hmid & Hpoll & _).
  assert (sys_inv σ3) as Hinv.
  { eapply sys_inv_run; [|exact Hmid]. eapply sys_inv_step; [|exact Hsubmit].
    eapply sys_inv_run; [apply sys_inv_init|exact Hpre]. }
  apply step_submit_inv in Hsubmit as [Hw ->]. apply step_poll_inv in Hpoll as [-> _].
  destruct (pathHandler_cases r ienv (world_of (store σ1)))
    as [(_ & _ & line & body & _ & Hwr)|(body & route & Hbody & Hroute & Hvalid & Hins & _)].
  { simpl in Hwr. by rewrite Hwr in Hw. }
  destruct (select_insert _ _ _ _ _ Hins) as (row & Hrow & Hpath & _).
  destruct (run_path_stable _ _ _ _ _ Hmid Hrow) as (row' & Hrow' & Hpath').
  exists body, route, row', (store σ3). split_and!; [done..|congruence|done|].
  intros Hf. destruct (poll_says σ3 _ row' renv Hinv Hf Hrow')
    as (route' & result & Hroute' & _ & Hsays & Hcalls).
  rewrite Hpath', Hpath, Hroute in Hroute'. injection Hroute' as <-. by exists result.
Qed.

End clients.

(** ** Examples *)

(** In the interleaved session the submission took effect first, then the
    poll, which was answered in progress, then the goroutine; the
    submission left before the goroutine began. *)
Example example_history :
  effects (c_hist example_interleaved) = [0; 1; 2]
  ∧ call_of <$> filter (λ m, key m = (Leaving, call_of m)) (c_hist example_interleaved)
    = [0; 2; 1].
Proof. by vm_compute. Qed.

Example example_late_runs :
  micro_run example_interleaved late_schedule = Some example_late.
Proof. vm_compute. reflexivity. Qed.

Lemma interleavings_linearizable_witness :
  ∃ lin σ, run example_start lin.*2 σ ∧ c_db example_interleaved = store σ
    ∧ c_down example_interleaved = crashed σ
    ∧ lin.*1 = effects (c_hist example_interleaved)
    ∧ (∀ id ev obs, (id, (ev, obs)) ∈ lin →
         ∃ a n w, Began id a ∈ c_hist example_interleaved ∧ ev = event_at a n
                  ∧ obs = shown a w)
    ∧ (∀ id r, Left id r ∈ c_hist example_interleaved →
         ∃ a w, stands (c_hist example_interleaved) lin id a w ∧ r = sent a w)
    ∧ (∀ x y r a, before (Left x r) (Began y a) (c_hist example_interleaved) →
         y ∈ lin.*1 → before x y lin.*1).
Proof.
  apply (interleavings_linearizable example_start example_schedule). by vm_compute.
Defined.

Lemma finished_job_verdict_witness :
  ∃ row p st d tm e, Unmarshal (c_path row) = Ok p ∧ valid_route p
    ∧ worker_verdict_of honest_provider (points_of p) = Outcome st d tm e
    ∧ (st = 1 ∨ st = -1)%Z
    ∧ store_select example_token (c_db example_interleaved)
      = Some (set_outcome st d tm e row).
Proof.
  eapply (finished_job_verdict example_schedule example_interleaved 2 honest_provider
            example_token);
    [by vm_compute|apply (list_elem_of_lookup_2 _ 4); vm_compute; reflexivity
    |apply (list_elem_of_lookup_2 _ 5); vm_compute; reflexivity
    |apply working_honest_provider].
Defined.

Lemma terminal_answer_is_final_witness :
  json_response success_body
  = writer (exec (routeHandler example_token no_fault)
              (world_of (c_db example_interleaved)))
  ∧ (select_fault no_fault = None →
     ∀ result routeJson, rendered example_row = Some result →
       Marshal (shortestRoute_json result) = Ok routeJson →
       json_response success_body = json_response routeJson).
Proof.
  apply (terminal_answer_is_final example_schedule example_interleaved late_schedule
           example_late example_token example_row 3 no_fault);
    [by vm_compute|by vm_compute|by vm_compute|done|vm_compute; lia
    |apply (list_elem_of_lookup_2 _ 9); vm_compute; reflexivity
    |apply (list_elem_of_lookup_2 _ 11); vm_compute; reflexivity].
Defined.

(** The late poll began after the submission had been answered: it is
    answered on a table that holds the job. *)
Lemma issued_token_is_known_witness :
  ∃ body route row (d : table), Body {| Body := Ok example_body |} = Ok body
    ∧ Unmarshal body = Ok route ∧ valid_route route
    ∧ store_select (uuid_NewV4 example_env) d = Some row ∧ c_path row = body
    ∧ json_response success_body
      = writer (exec (routeHandler (uuid_NewV4 example_env) no_fault) (world_of d))
    ∧ (select_fault no_fault = None →
       ∃ result, says route result
         ∧ ∀ routeJson, Marshal (shortestRoute_json result) = Ok routeJson →
             json_response success_body = json_response routeJson).
Proof.
  apply (issued_token_is_known (example_schedule ++ late_schedule) example_late 0
           {| Body := Ok example_body |} example_env
           ("{" +:+ quoted "token" +:+ ":" +:+ quoted example_token +:+ "}") 3 no_fault);
    [by vm_compute|apply (list_elem_of_lookup_2 _ 0); vm_compute; reflexivity
    |exists 6%nat, 9%nat; split_and!; [lia|vm_compute; reflexivity..]
    |apply (list_elem_of_lookup_2 _ 11); vm_compute; reflexivity].
Defined.
