(* ===== verification/Reads.v ===== *)
(** * Reads: what a poll can read of a job

    [processRoute] writes the outcome of a job with one [UPDATE] that sets
    the status, the two totals and the error together (lines 150, 165,
    179 and 187 of [src/app/shortest_route.go]), and [pathHandler] creates
    the row with one [INSERT] (line 129).  A poll that runs while the
    goroutine of its job is at work therefore reads the row as it was
    created or the row with the whole verdict, and nothing in between.

    - [whole]: in a state of [System] reached by a trace, every row is as
      it was created, or holds the verdict that a goroutine of the trace,
      run for the token of the row, computed on the route of the row
      ([whole_reachable]).  No environment is assumed to work: a goroutine
      whose statement fails, or that panics, writes nothing.
    - [polls_read_whole_rows]: in every interleaving, a poll that was
      answered was answered on a table in which the row of its token, if
      there is one, is as created, or holds the verdict computed by a
      goroutine that began for that token and took effect before the poll
      did. *)

From Stdlib Require Import ZArith Lia.
From stdpp Require Import base tactics option list strings.
From S2P Require Import Prelude Types Codec JobStore Intake Worker Reporter System.
From S2P Require Import Schedule Thread Ledger Interleaving Linearizable.

#[local] Open Scope Z_scope.

(** ** Definitions *)

Section reads_defs.
Context {J : Json}.

(** The row of [token] holds the verdict of a goroutine of the trace
    [tr] that ran for [token]: the row created for the token with the
    status, the totals and the error computed on the route its path
    decodes to. *)
Definition verdict_row (tr : list (event * observation)) (token : string) (row : Row)
  : Prop :=
  ∃ k env route st d tm e, (Work k env, Ran token) ∈ tr
    ∧ Unmarshal (c_path row) = Ok route ∧ valid_route route
    ∧ worker_verdict_of env (points_of route) = Outcome st d tm e
    ∧ row = set_outcome st d tm e (new_row (c_path row) token 0).

(** Every row is as it was created or holds the verdict of a goroutine of
    the trace. *)
Definition whole {T} {JS : JobStore T} (tr : list (event * observation))
    (σ : system T) : Prop :=
  ∀ token row, store_select token (store σ) = Some row →
    row = new_row (c_path row) token 0 ∨ verdict_row tr token row.

(** In the history [H], the row of [token] holds the verdict computed by a
    goroutine that began for [token] and took effect before the call
    [p]. *)
Definition computed (H : list moment) (p : nat) (token : string) (row : Row) : Prop :=
  ∃ g env points route st d tm e,
    Began g (FromGo env token points) ∈ H ∧ before g p (effects H)
    ∧ Unmarshal (c_path row) = Ok route ∧ valid_route route
    ∧ worker_verdict_of env (points_of route) = Outcome st d tm e
    ∧ row = set_outcome st d tm e (new_row (c_path row) token 0).

End reads_defs.

(** ** Rows are whole in every run *)

Section whole_rows.
Context {T : Type} {JS : JobStore T} {JSL : JobStoreLaws T} {J : Json}.
Implicit Types (σ : system T) (tr : list (event * observation)) (token : string).

Lemma verdict_row_app tr tr' token row :
  verdict_row tr token row → verdict_row (tr ++ tr') token row.
Proof.
  intros (k & env & route & st & d & tm & e & Hin & Hrest).
  exists k, env, route, st, d, tm, e. split; [|done]. apply elem_of_app. by left.
Qed.

Lemma whole_app tr tr' σ σ' :
  (∀ token, store_select token (store σ') = store_select token (store σ)) →
  whole tr σ → whole (tr ++ tr') σ'.
Proof.
  intros Heq Hw token row. rewrite Heq. intros Hrow.
  destruct (Hw token row Hrow) as [Hnew|Hv]; [by left|right; by apply verdict_row_app].
Qed.

(** A row that holds a verdict is terminal. *)
Lemma verdict_row_status tr token row :
  verdict_row tr token row → c_status row = 1 ∨ c_status row = -1.
Proof.
  intros (k & env & route & st & d & tm & e & _ & _ & _ & Hv & ->). simpl.
  by apply worker_verdict_status in Hv.
Qed.

Lemma whole_init : whole [] (init : system T).
Proof. intros token row. simpl. by rewrite select_empty. Qed.

(** The row the goroutine at index [k] finds is the row as created, and
    its waypoints are those of the route of that row. *)
Lemma whole_pending tr σ k token points :
  sys_inv σ → whole tr σ → pool σ !! k = Some (token, points) →
  ∃ row route, store_select token (store σ) = Some row
    ∧ row = new_row (c_path row) token 0
    ∧ Unmarshal (c_path row) = Ok route ∧ valid_route route ∧ points = points_of route.
Proof.
  intros [_ Hpool _] Hw Hk. rewrite Forall_forall in Hpool.
  destruct (Hpool (token, points)) as (row & route & Hrow & Hst & Hp & Hvalid & Hpts);
    [by eapply list_elem_of_lookup_2|].
  simpl in *. exists row, route. split_and!; [done| |done..].
  destruct (Hw token row Hrow) as [Hnew|Hv%verdict_row_status]; [done|].
  rewrite Hst in Hv. by destruct Hv.
Qed.

(** The run of a goroutine leaves every row whole: it changes nothing,
    or sets the row of its token, which it found as created, to its
    verdict on the route of that row. *)
Lemma whole_work tr σ k env token points :
  sys_inv σ → whole tr σ → pool σ !! k = Some (token, points) →
  whole (tr ++ [(Work k env, Ran token)])
    (worked σ k (exec (processRoute env token points) (world_of (store σ)))
       (outcome (processRoute env token points) (world_of (store σ)))).
Proof.
  intros Hinv Hw Hk.
  destruct (whole_pending tr σ k token points Hinv Hw Hk)
    as (row & route & Hrow & Hnew & Hroute & Hvalid & ->).
  destruct (worker_verdict_of env (points_of route)) as [| |st d tm e] eqn:Hv;
    [apply (whole_app _ _ σ); [|done]; intros token'; simpl;
     by rewrite processRoute_exec, worker_world_db, Hv..|].
  destruct (exec_fault env) as [fault|] eqn:He.
  { apply (whole_app _ _ σ); [|done]. intros token'. simpl.
    by rewrite processRoute_exec, worker_world_db, Hv, He. }
  intros token' row'. simpl. rewrite processRoute_exec, worker_world_db, Hv, He. simpl.
  destruct (decide (token' = token)) as [->|Hne].
  - rewrite select_update, Hrow. intros [= <-]. right.
    exists k, env, route, st, d, tm, e. simpl. split_and!; [|done..|by f_equal].
    apply elem_of_app. right. by apply list_elem_of_singleton.
  - rewrite select_update_ne by done. intros Hrow'.
    destruct (Hw token' row' Hrow') as [?|?]; [by left|right; by apply verdict_row_app].
Qed.

(** Every transition leaves every row whole. *)
Lemma whole_step tr σ ev obs σ' :
  sys_inv σ → whole tr σ → step σ ev obs σ' → whole (tr ++ [(ev, obs)]) σ'.
Proof.
  intros Hinv Hw Hstep.
  destruct Hstep as [σ r env Hup|σ tok env Hup|σ k env tok points Hup Hk];
    [| |by apply whole_work].
  - destruct (pathHandler_cases r env (world_of (store σ)))
      as [(Hdb & _)|(body & route & _ & _ & _ & Hins & _)].
    { apply (whole_app _ _ σ); [|done]. intros token. simpl. by rewrite Hdb. }
    intros token row. simpl. destruct (decide (token = uuid_NewV4 env)) as [->|Hne].
    + rewrite (select_insert_new _ _ _ _ _ Hins). intros [= <-]. by left.
    + rewrite (select_insert_ne _ _ _ _ _ _ Hins) by done. intros Hrow.
      destruct (Hw token row Hrow) as [?|?]; [by left|right; by apply verdict_row_app].
  - apply (whole_app _ _ σ); [|done]. intros token. simpl.
    by rewrite (proj1 (routeHandler_frame tok env (world_of (store σ)))).
Qed.

Lemma whole_run tr0 σ tr σ' :
  sys_inv σ → whole tr0 σ → run σ tr σ' → whole (tr0 ++ tr) σ'.
Proof.
  intros Hinv Hw Hrun. revert tr0 Hinv Hw.
  induction Hrun as [|σ ev obs σ1 tr σ2 Hs _ IH]; intros tr0 Hinv Hw.
  { by rewrite app_nil_r. }
  rewrite cons_middle, (assoc_L (++)).
  apply IH; [by eapply sys_inv_step|by apply (whole_step _ σ)].
Qed.

(** In a state reached by a trace from the empty table every row is as
    created or holds the verdict of a goroutine of the trace. *)
Lemma whole_reachable tr σ : run (init : system T) tr σ → whole tr σ.
Proof. apply (whole_run [] init); [apply sys_inv_init|apply whole_init]. Qed.

(** A verdict of the transitions that stand before the entry of the call
    [p] in the linearization was computed by a goroutine that began for
    the token and took effect before [p]. *)
Lemma verdict_computed H lin j p e token row :
  lin_ok H lin → lin !! j = Some (p, e) →
  verdict_row (take j lin.*2) token row → computed H p token row.
Proof.
  intros [Ho Hb _] Hj (k & env & route & st & d & tm & err & Hin & Hrest).
  apply elem_of_take_lookup in Hin as (i & Hij & Hi).
  apply list_lookup_fmap_Some in Hi as ([g eo] & Heo & Hi). simpl in Heo. subst eo.
  destruct (Hb g _ _ (list_elem_of_lookup_2 _ _ _ Hi)) as (a & n & w & Ha & Hev & Hobs).
  destruct a as [r ienv|tok renv|env' token' points]; simplify_eq/=.
  exists g, env', points, route, st, d, tm, err. split_and!; [done| |apply Hrest..].
  exists i, j. unfold entry in Hj. by rewrite <- Ho, !list_lookup_fmap, Hi, Hj.
Qed.

(** C17.  A poll reads whole rows.  In every interleaving from an empty
    table, whatever the environments of the calls, a poll that was
    answered was answered by [routeHandler] on a table in which the row of
    its token, if there is one, is the row as [pathHandler] created it,
    pending with no totals and no error, or that row with the status, the
    totals and the error that a goroutine computed on the route of the
    row, a goroutine that began for that very token and took effect before
    the poll did.  A poll never reads a part of an outcome, an outcome
    that was not computed yet, or the outcome of another job. *)
Theorem polls_read_whole_rows ms C p token renv calls :
  micro_run (embed (init : system T)) ms = Some C →
  Began p (FromPoll token renv) ∈ c_hist C → Left p (Some calls) ∈ c_hist C →
  ∃ d : T, calls = writer (exec (routeHandler token renv) (world_of d))
    ∧ ∀ row, store_select token d = Some row →
        row = new_row (c_path row) token 0 ∨ computed (c_hist C) p token row.
Proof.
  intros Hrun Hb Hleft.
  destruct (linearized_reached _ _ _ Hrun) as (lin & σ & Htr & _ & [Hh Hl _ _ _]).
  destruct (lin_left _ _ Hl _ _ Hleft) as (a & w & [Ha [n Hin]] & Hsent).
  rewrite <- (began_unique _ _ _ _ _ Hh Hb Ha) in Hin, Hsent. injection Hsent as <-.
  apply list_elem_of_lookup in Hin as [j Hj].
  destruct (run_lookup _ (lin.*2) _ j (Poll token renv) (Response calls) Htr)
    as (σ1 & σ2 & Hpre & Hpoll & _);
    [by rewrite list_lookup_fmap, Hj|].
  apply step_poll_inv in Hpoll as [-> _]. exists (store σ1). split; [done|].
  intros row Hrow.
  destruct (whole_reachable _ _ Hpre token row Hrow) as [Hnew|Hv]; [by left|right].
  by eapply verdict_computed.
Qed.

End whole_rows.

(** ** The theorem at the session of the examples *)

(** The late poll of [Linearizable], the fourth call, read the row of the
    example job with the verdict of its goroutine, the third call. *)
Lemma polls_read_whole_rows_witness :
  ∃ d : table,
    json_response success_body
    = writer (exec (routeHandler example_token no_fault) (world_of d))
    ∧ ∀ row, store_select example_token d = Some row →
        row = new_row (c_path row) example_token 0
        ∨ computed (c_hist example_late) 3 example_token row.
Proof.
  apply (polls_read_whole_rows (example_schedule ++ late_schedule) example_late 3
           example_token no_fault);
    [by vm_compute|apply (list_elem_of_lookup_2 _ 9); vm_compute; reflexivity
    |apply (list_elem_of_lookup_2 _ 11); vm_compute; reflexivity].
Defined.

(** In the interleaved session the poll took effect before the goroutine
    did, and the late poll after it. *)
Example example_effects : effects (c_hist example_late) = [0; 1; 2; 3]%nat.
Proof. by vm_compute. Qed.
