(* ===== verification/Router.v ===== *)
(** * Router: the requests that reach the handlers

    [main] registers its two handlers with the router (lines 74-75):
    [routeHandler] for [GET /route/:token] and [pathHandler] for
    [POST /route].  The router looks the method and the path of a request
    up among the registered routes; a segment [:name] of a route matches
    one segment of the path that is not empty, and gives the parameter
    [name] that value.  [routeHandler] reads its token with
    [p.ByName("token")] (line 198).

    This file models the lookup on the routes [main] registers and says
    which requests reach which handler, as which event of [System]:

    - [segments] and [unsegments]: a path and its segments determine each
      other.
    - [lookup_main_routes]: the requests that reach a handler are
      [POST /route] and [GET /route/<token>] for a token that is not empty
      and holds no slash; every other request is answered by the router
      itself (not found, method not allowed, redirection) and no function
      of the program runs.
    - [polled_token_not_empty]: the token of [routeHandler] is never
      empty, so the test of line 199 never succeeds behind the router.
    - [token_polls]: a token without a slash that is not empty can be
      polled.

    The matching of the router is taken from its documentation: the
    library is not under [src/].  Catch-all segments ([*name]), which the
    program does not use, are not modelled. *)

From Stdlib Require Import ZArith Ascii String.
From stdpp Require Import base tactics option list strings.
From S2P Require Import Prelude Types Codec JobStore Intake Worker Reporter Startup System.

#[local] Open Scope string_scope.

(** ** Paths and their segments *)

Definition is_slash (c : ascii) : bool := Ascii.eqb c "/".

(** The segments of a path: the strings between its slashes.  A path that
    ends with a slash ends with an empty segment. *)
Fixpoint segments (s : string) : list string :=
  match s with
  | EmptyString => [EmptyString]
  | String c s' =>
      if is_slash c then EmptyString :: segments s'
      else match segments s' with
           | seg :: segs => String c seg :: segs
           | [] => [String c EmptyString]
           end
  end.

Fixpoint no_slash (s : string) : bool :=
  match s with
  | EmptyString => true
  | String c s' => negb (is_slash c) && no_slash s'
  end.

(** The path of a list of segments. *)
Fixpoint unsegments (segs : list string) : string :=
  match segs with
  | [] => EmptyString
  | [seg] => seg
  | seg :: rest => seg +:+ String "/" (unsegments rest)
  end.

(** ** Routes *)

(** A segment of a registered route: a fixed string, or a named
    parameter. *)
Inductive piece : Type :=
| Static (s : string)
| Named (name : string).

Definition piece_of (seg : string) : piece :=
  match seg with
  | String ":" name => Named name
  | _ => Static seg
  end.

(** The parameters of a request: the values of the named segments, in the
    order of the route. *)
Definition Params : Type := list (string * string).

(** [ps.ByName(name)]: the value of the first parameter of that name, the
    empty string when there is none. *)
Fixpoint ByName (name : string) (ps : Params) : string :=
  match ps with
  | [] => EmptyString
  | (key, value) :: ps' => if decide (key = name) then value else ByName name ps'
  end.

(** A route matches a path when they have as many segments, the fixed
    segments are equal, and the segments of the named parameters are not
    empty. *)
Fixpoint match_pieces (route : list piece) (segs : list string) : option Params :=
  match route, segs with
  | [], [] => Some []
  | Static s :: route', seg :: segs' =>
      if decide (s = seg) then match_pieces route' segs' else None
  | Named name :: route', seg :: segs' =>
      if decide (seg = EmptyString) then None
      else ps ← match_pieces route' segs'; Some ((name, seg) :: ps)
  | _, _ => None
  end.

Definition match_path (route path : string) : option Params :=
  match_pieces (piece_of <$> segments route) (segments path).

(** The handler of a request among the registered routes, with its
    parameters; [None] when the router answers by itself. *)
Fixpoint lookup_route (routes : list (string * string * handler))
    (method path : string) : option (handler * Params) :=
  match routes with
  | [] => None
  | (m, route, h) :: routes' =>
      match (if decide (m = method) then match_path route path else None) with
      | Some ps => Some (h, ps)
      | None => lookup_route routes' method path
      end
  end.

(** The routes [main] registers. *)
Definition main_table : list (string * string * handler) :=
  [("GET", "/route/:token", H_routeHandler); ("POST", "/route", H_pathHandler)].

(** A request as the router and the handlers see it. *)
Record http_request : Type := {
  rq_method : string;
  rq_path : string;      (* r.URL.Path *)
  rq_body : Request;     (* r.Body *)
}.

(** The event of [System] a request is, in the environments in which its
    handler would run: [pathHandler] is given the body, [routeHandler] the
    parameter [token]. *)
Definition event_of (routes : list (string * string * handler)) (req : http_request)
    (ienv : intake_env) (renv : report_env) : option event :=
  '(h, ps) ← lookup_route routes (rq_method req) (rq_path req);
  Some match h with
       | H_pathHandler => Submit (rq_body req) ienv
       | H_routeHandler => Poll (ByName "token" ps) renv
       end.

(** ** The data of the examples *)

Definition example_get : http_request :=
  {| rq_method := "GET"; rq_path := "/route/" +:+ example_token;
     rq_body := {| Body := Ok EmptyString |} |}.

(** ** Paths and segments determine each other *)

Lemma segments_not_nil s : segments s ≠ [].
Proof. destruct s as [|c s]; simpl; [done|]. by destruct (is_slash c), (segments s). Qed.

Lemma unsegments_cons seg seg' segs :
  unsegments (seg :: seg' :: segs) = seg +:+ String "/" (unsegments (seg' :: segs)).
Proof. done. Qed.

Lemma is_slash_true c : is_slash c = true → c = "/"%char.
Proof. apply Ascii.eqb_eq. Qed.

(** A path is the path of its segments. *)
Lemma unsegments_segments s : unsegments (segments s) = s.
Proof.
  induction s as [|c s IH]; [done|]. cbn [segments].
  pose proof (segments_not_nil s) as Hne.
  destruct (is_slash c) eqn:Hc.
  - apply is_slash_true in Hc as ->. destruct (segments s) as [|seg segs]; [done|].
    rewrite unsegments_cons, IH. done.
  - destruct (segments s) as [|seg [|seg' segs]]; [done|simpl in *; by rewrite IH|].
    rewrite unsegments_cons. rewrite unsegments_cons in IH. by rewrite <- IH.
Qed.

Lemma segments_no_slash s : Forall (λ seg, no_slash seg = true) (segments s).
Proof.
  induction s as [|c s IH]; [by repeat constructor|]. cbn [segments].
  destruct (is_slash c) eqn:Hc; [by constructor|].
  destruct (segments s) as [|seg segs]; [repeat constructor; simpl; by rewrite Hc|].
  apply Forall_cons in IH as [Hseg Hsegs]. constructor; [|done]. simpl. by rewrite Hc.
Qed.

(** A string without a slash is its only segment. *)
Lemma segments_one s : no_slash s = true → segments s = [s].
Proof.
  induction s as [|c s IH]; [done|]. simpl. intros [Hc Hs]%andb_prop.
  apply negb_true_iff in Hc. by rewrite Hc, (IH Hs).
Qed.

Lemma segments_append seg s :
  no_slash seg = true → segments (seg +:+ String "/" s) = seg :: segments s.
Proof.
  induction seg as [|c seg IH]; [done|]. intros [Hc Hs]%andb_prop.
  apply negb_true_iff in Hc. change (String c seg +:+ ?t) with (String c (seg +:+ t)).
  cbn [segments]. by rewrite Hc, (IH Hs).
Qed.

(** The segments of the path of a list of segments are that list. *)
Lemma segments_unsegments segs :
  segs ≠ [] → Forall (λ seg, no_slash seg = true) segs →
  segments (unsegments segs) = segs.
Proof.
  induction segs as [|seg [|seg' segs] IH]; [done|..]; intros _ [Hseg Hsegs]%Forall_cons.
  - by apply segments_one.
  - by rewrite unsegments_cons, segments_append, IH.
Qed.

(** ** The requests that reach the handlers *)

(** The paths of [GET /route/:token]. *)
Lemma match_route_token path ps :
  match_path "/route/:token" path = Some ps
  ↔ ∃ token, token ≠ EmptyString ∧ no_slash token = true
      ∧ path = "/route/" +:+ token ∧ ps = [("token", token)].
Proof.
  unfold match_path. split.
  - intros Hm. pose proof (unsegments_segments path) as Hpath.
    pose proof (segments_no_slash path) as Hns.
    destruct (segments path) as [|s0 [|s1 [|token [|? ?]]]]; simpl in Hm; repeat case_decide;
      simplify_eq. exists token. split_and!; [done| |done..].
    by apply Forall_cons in Hns as [_ [_ [? _]%Forall_cons]%Forall_cons].
  - intros (token & Hne & Hns & -> & ->).
    change ("/route/" +:+ token) with (unsegments [EmptyString; "route"; token]).
    rewrite segments_unsegments by by repeat constructor. simpl.
    by rewrite decide_False.
Qed.

(** The path of [POST /route]. *)
Lemma match_route path ps : match_path "/route" path = Some ps ↔ path = "/route" ∧ ps = [].
Proof.
  unfold match_path. split; [|by intros [-> ->]].
  intros Hm. pose proof (unsegments_segments path) as Hpath.
  destruct (segments path) as [|s0 [|s1 [|? ?]]]; simpl in Hm; repeat case_decide;
    by simplify_eq.
Qed.

(** The routes [main] registers when it comes to serve are [main_table]. *)
Lemma main_registers env :
  startup_verdict_of env = Listens →
  routes_of (calls (exec (main env) (proc_init env))) = main_table.
Proof. apply main_routes. Qed.

(** The requests that reach a handler.  Among the routes [main]
    registers, a request reaches [pathHandler] exactly when it is
    [POST /route], and [routeHandler] exactly when it is
    [GET /route/<token>] for a token that is not empty and holds no slash,
    which is then the parameter [token]; no other request runs a function
    of the program. *)
Lemma lookup_main_routes method path h ps :
  lookup_route main_table method path = Some (h, ps)
  ↔ (method = "GET" ∧ h = H_routeHandler ∧
     ∃ token, token ≠ EmptyString ∧ no_slash token = true
       ∧ path = "/route/" +:+ token ∧ ps = [("token", token)])
    ∨ (method = "POST" ∧ h = H_pathHandler ∧ path = "/route" ∧ ps = []).
Proof.
  unfold main_table. cbn [lookup_route]. split.
  - repeat case_decide; subst; try done.
    + destruct (match_path "/route/:token" path) as [ps'|] eqn:Hm; [|done].
      intros [= <- <-]. left. split_and!; [done..|]. by apply match_route_token.
    + destruct (match_path "/route" path) as [ps'|] eqn:Hm; [|done].
      intros [= <- <-]. right. by apply match_route in Hm as [-> ->].
  - intros [(-> & -> & Hm%match_route_token)|(-> & -> & -> & ->)].
    + by rewrite decide_True, Hm.
    + done.
Qed.

(** C29.  The token of a poll is never empty.  A request that the routes
    of [main] hand to [routeHandler] is a [GET] of [/route/<token>], and
    the token [routeHandler] reads with [p.ByName("token")] is that
    segment: it is not empty and holds no slash.  The test [token == ""]
    of line 199 never succeeds in the served program. *)
Theorem polled_token_not_empty req ienv renv token env :
  event_of main_table req ienv renv = Some (Poll token env) →
  token ≠ EmptyString ∧ no_slash token = true ∧ rq_method req = "GET"
  ∧ rq_path req = "/route/" +:+ token ∧ env = renv.
Proof.
  unfold event_of. intros Hev.
  destruct (lookup_route main_table (rq_method req) (rq_path req)) as [[h ps]|] eqn:Hl;
    [|done].
  apply lookup_main_routes in Hl
    as [(Hm & -> & tok & Hne & Hns & Hp & ->)|(_ & -> & _)]; [|done].
  simpl in Hev. by simplify_eq.
Qed.

(** A request that reaches [pathHandler] is a [POST] of [/route], and the
    handler is given its body. *)
Lemma submitted_request req ienv renv r env :
  event_of main_table req ienv renv = Some (Submit r env) →
  rq_method req = "POST" ∧ rq_path req = "/route" ∧ r = rq_body req ∧ env = ienv.
Proof.
  unfold event_of. intros Hev.
  destruct (lookup_route main_table (rq_method req) (rq_path req)) as [[h ps]|] eqn:Hl;
    [|done].
  apply lookup_main_routes in Hl as [(_ & -> & _)|(Hm & -> & Hp & _)]; [done|].
  simpl in Hev. by simplify_eq.
Qed.

(** No request runs [processRoute]: goroutines are started by
    [pathHandler] alone. *)
Lemma request_not_work req ienv renv k env :
  event_of main_table req ienv renv ≠ Some (Work k env).
Proof.
  unfold event_of.
  destruct (lookup_route main_table (rq_method req) (rq_path req)) as [[[] ps]|]; done.
Qed.

(** A token that is not empty and holds no slash can be polled: the
    request [GET /route/<token>] reaches [routeHandler], which is given
    that token. *)
Lemma token_polls token body ienv renv :
  token ≠ EmptyString → no_slash token = true →
  event_of main_table
    {| rq_method := "GET"; rq_path := "/route/" +:+ token; rq_body := body |} ienv renv
  = Some (Poll token renv).
Proof.
  intros Hne Hns. unfold event_of. cbn [rq_method rq_path rq_body].
  assert (lookup_route main_table "GET" ("/route/" +:+ token)
          = Some (H_routeHandler, [("token", token)])) as ->; [|done].
  apply lookup_main_routes. left. split_and!; [done..|]. by exists token.
Qed.

(** ** Examples *)

Example segments_example :
  segments "/route/abc" = [""; "route"; "abc"] ∧ segments "/route/" = [""; "route"; ""]
  ∧ segments "/route" = [""; "route"].
Proof. done. Qed.

(** The requests the router answers by itself. *)
Example unrouted_requests :
  lookup_route main_table "GET" "/route/" = None
  ∧ lookup_route main_table "GET" "/route" = None
  ∧ lookup_route main_table "POST" "/route/" = None
  ∧ lookup_route main_table "GET" "/route/a/b" = None
  ∧ lookup_route main_table "PUT" "/route" = None.
Proof. done. Qed.

Example example_get_polls :
  event_of main_table example_get example_env no_fault = Some (Poll example_token no_fault).
Proof. by vm_compute. Qed.

Lemma polled_token_not_empty_witness :
  example_token ≠ EmptyString ∧ no_slash example_token = true
  ∧ rq_method example_get = "GET" ∧ rq_path example_get = "/route/" +:+ example_token
  ∧ no_fault = no_fault.
Proof.
  apply (polled_token_not_empty example_get example_env no_fault). by vm_compute.
Defined.
