(* ===== verification/Uuid.v ===== *)
(** * Uuid: the tokens

    [pathHandler] draws the token of a job with [uuid.NewV4().String()]
    (line 117): sixteen random bytes, of which six bits are overwritten
    with the version 4 and the variant of RFC 4122, written as 32
    hexadecimal digits in five groups separated by dashes.

    In the other files the token is a string the environment gives.  This
    file models how the library builds it, from its documentation (the
    library is not under [src/]), with the bytes as integers and the bit
    operations written out:

    - [NewV4_version], [NewV4_variant]: the bits the library sets.
    - [new_token_format]: the token is a string of the canonical form
      ([is_uuid4]).
    - [uuid_parse_String]: the string determines the bytes, so two tokens
      are equal only when the 122 random bits are ([new_token_inj]).
    - [issued_token_polls]: the token of a job is never empty and holds no
      slash, so [GET /route/<token>] reaches [routeHandler] with it. *)

From Stdlib Require Import ZArith Ascii String Lia.
From stdpp Require Import base tactics option list list_numbers strings.
From S2P Require Import Prelude Types Codec JobStore Intake Worker Reporter Startup System.
From S2P Require Import Router.

#[local] Open Scope Z_scope.

(** ** The bytes *)

(** A UUID is an array of sixteen bytes; a byte is an integer below 256. *)
Definition is_byte (b : Z) : Prop := 0 ≤ b < 256.

Definition uuid_ok (u : list Z) : Prop := length u = 16%nat ∧ Forall is_byte u.

(** [u.SetVersion(v)]: [u[6] = (u[6] & 0x0f) | (v << 4)]. *)
Definition version_byte (v b : Z) : Z := Z.lor (Z.land b 0x0f) (Z.shiftl v 4).

Definition SetVersion (v : Z) (u : list Z) : list Z := alter (version_byte v) 6%nat u.

(** [u.SetVariant()]: [u[8] = (u[8] & 0xbf) | 0x80]. *)
Definition variant_byte (b : Z) : Z := Z.lor (Z.land b 0xbf) 0x80.

Definition SetVariant (u : list Z) : list Z := alter variant_byte 8%nat u.

(** [uuid.NewV4()], [random] being the bytes read from the random
    source. *)
Definition NewV4 (random : list Z) : list Z := SetVariant (SetVersion 4 random).

(** The bytes with the six bits the library sets cleared: the random bits
    of the UUID. *)
Definition random_bits (u : list Z) : list Z :=
  alter (λ b, Z.land b 0x3f) 8%nat (alter (λ b, Z.land b 0x0f) 6%nat u).

(** ** The string *)

(** The digits of [encoding/hex], and the digit of a value below 16:
    [hextable[n]]. *)
Definition hextable : string := "0123456789abcdef".

Definition hex_char (n : Z) : ascii :=
  default "0"%char (String.get (Z.to_nat n) hextable).

(** [hex.Encode] of the bytes [bs], followed by [rest]: for each byte the
    digit of [b >> 4], then the digit of [b & 0x0f]. *)
Fixpoint hex (bs : list Z) (rest : string) : string :=
  match bs with
  | [] => rest
  | b :: bs' =>
      String (hex_char (Z.shiftr b 4)) (String (hex_char (Z.land b 0x0f)) (hex bs' rest))
  end.

(** [u.String()]: the groups of 4, 2, 2, 2 and 6 bytes, with dashes. *)
Definition uuid_String (u : list Z) : string :=
  hex (take 4 u)
    (String "-" (hex (take 2 (drop 4 u))
       (String "-" (hex (take 2 (drop 6 u))
          (String "-" (hex (take 2 (drop 8 u))
             (String "-" (hex (drop 10 u) EmptyString)))))))).

(** [uuid.NewV4().String()] (line 117). *)
Definition new_token (random : list Z) : string := uuid_String (NewV4 random).

(** The value of a digit, as [encoding/hex] reads it: the digits, then
    the letters from [a] to [f] in either case. *)
Definition unhex_digit (c : ascii) : option Z :=
  let n := Z.of_nat (nat_of_ascii c) in
  if decide (48 ≤ n ≤ 57) then Some (n - 48)
  else if decide (97 ≤ n ≤ 102) then Some (n - 97 + 10)
  else if decide (65 ≤ n ≤ 70) then Some (n - 65 + 10)
  else None.

(** [hex.Decode] of [n] bytes at the head of a string, with what
    follows. *)
Fixpoint unhex (n : nat) (s : string) : option (list Z * string) :=
  match n with
  | O => Some ([], s)
  | S n' =>
      match s with
      | String a (String b s') =>
          hi ← unhex_digit a; lo ← unhex_digit b;
          '(bs, rest) ← unhex n' s';
          Some (Z.lor (Z.shiftl hi 4) lo :: bs, rest)
      | _ => None
      end
  end.

Definition dash (s : string) : option string :=
  match s with String "-" s' => Some s' | _ => None end.

(** The bytes of a string of the canonical form. *)
Definition uuid_parse (s : string) : option (list Z) :=
  '(g1, s1) ← unhex 4 s; s1 ← dash s1;
  '(g2, s2) ← unhex 2 s1; s2 ← dash s2;
  '(g3, s3) ← unhex 2 s2; s3 ← dash s3;
  '(g4, s4) ← unhex 2 s3; s4 ← dash s4;
  '(g5, s5) ← unhex 6 s4;
  if decide (s5 = EmptyString) then Some (g1 ++ g2 ++ g3 ++ g4 ++ g5) else None.

(** ** The canonical form *)

(** The characters of the canonical form of a version 4 UUID. *)
Inductive char_class : Type := Hex | Dash | Four | Variant.

Definition is_hex (c : ascii) : bool :=
  bool_decide (c ∈ list_ascii_of_string hextable).

Definition in_class (k : char_class) (c : ascii) : bool :=
  match k with
  | Hex => is_hex c
  | Dash => bool_decide (c = "-"%char)
  | Four => bool_decide (c = "4"%char)
  | Variant => bool_decide (c ∈ list_ascii_of_string "89ab")
  end.

Fixpoint matches (p : list char_class) (s : string) : bool :=
  match p, s with
  | [], EmptyString => true
  | k :: p', String c s' => in_class k c && matches p' s'
  | _, _ => false
  end.

(** [xxxxxxxx-xxxx-4xxx-yxxx-xxxxxxxxxxxx], [x] a digit in lower case and
    [y] one of 8, 9, a and b. *)
Definition uuid4_form : list char_class :=
  replicate 8 Hex ++ [Dash] ++ replicate 4 Hex ++ [Dash; Four] ++ replicate 3 Hex
  ++ [Dash; Variant] ++ replicate 3 Hex ++ [Dash] ++ replicate 12 Hex.

Definition is_uuid4 (s : string) : bool := matches uuid4_form s.

(** ** The data of the examples *)

Definition example_random : list Z :=
  [0x6d; 0x4f; 0x1c; 0x1e; 0x0b; 0x5a; 0xfd; 0x0e; 0x5c; 0x58; 0x1f; 0x2f; 0x0a; 0x7b;
   0x9e; 0x11].

(** ** Bytes, case by case *)

(** A property of the integers below [k] holds when it holds of each. *)
Lemma below_forall (k : Z) (P : Z → Prop) :
  Forall P (seqZ 0 k) → ∀ n, 0 ≤ n < k → P n.
Proof.
  intros HP n Hn. apply (proj1 (Forall_forall _ _) HP), elem_of_seqZ. lia.
Qed.

(** Proves a decidable property of a byte, or of a value below [k], by
    computing it on each. *)
Ltac each_below k :=
  intros; match goal with
          | H : is_byte ?b |- _ => revert b H
          | H : 0 ≤ ?b < _ |- _ => revert b H
          end;
  apply (below_forall k); apply (bool_decide_unpack _); vm_compute; exact I.

(** The two digits of a byte, and the byte they make. *)
Lemma byte_nibbles b :
  is_byte b →
  0 ≤ Z.shiftr b 4 < 16 ∧ 0 ≤ Z.land b 0x0f < 16
  ∧ Z.lor (Z.shiftl (Z.shiftr b 4) 4) (Z.land b 0x0f) = b.
Proof. each_below 256. Qed.

Lemma unhex_hex_digit n : 0 ≤ n < 16 → unhex_digit (hex_char n) = Some n.
Proof. each_below 16. Qed.

Lemma is_hex_digit n : 0 ≤ n < 16 → is_hex (hex_char n) = true.
Proof. each_below 16. Qed.

Lemma is_hex_high b : is_byte b → is_hex (hex_char (Z.shiftr b 4)) = true.
Proof. intros Hb. apply is_hex_digit, byte_nibbles, Hb. Qed.

Lemma is_hex_low b : is_byte b → is_hex (hex_char (Z.land b 0x0f)) = true.
Proof. intros Hb. apply is_hex_digit, byte_nibbles, Hb. Qed.

(** The bits the library sets: the byte is a byte, its four high bits are
    the version, and its four low bits are those of the random byte. *)
Lemma version_byte_4 b :
  is_byte b →
  is_byte (version_byte 4 b) ∧ Z.shiftr (version_byte 4 b) 4 = 4
  ∧ Z.land (version_byte 4 b) 0x0f = Z.land b 0x0f.
Proof. each_below 256. Qed.

(** The byte is a byte, its two high bits are [10], and its six low bits
    are those of the random byte. *)
Lemma variant_byte_10 b :
  is_byte b →
  is_byte (variant_byte b) ∧ Z.shiftr (variant_byte b) 6 = 2
  ∧ Z.land (variant_byte b) 0x3f = Z.land b 0x3f
  ∧ in_class Variant (hex_char (Z.shiftr (variant_byte b) 4)) = true.
Proof. each_below 256. Qed.

Lemma land_version_byte b :
  is_byte b → Z.land (version_byte 4 b) 0x0f = Z.land b 0x0f.
Proof. intros Hb. by apply version_byte_4. Qed.

Lemma land_variant_byte b :
  is_byte b → Z.land (variant_byte b) 0x3f = Z.land b 0x3f.
Proof. intros Hb. by apply variant_byte_10. Qed.

(** The bytes the library sets are determined by the random bits. *)
Lemma version_byte_random b : version_byte 4 (Z.land b 0x0f) = version_byte 4 b.
Proof.
  unfold version_byte. by rewrite <- Z.land_assoc, Z.land_diag.
Qed.

Lemma variant_byte_random b : is_byte b → variant_byte (Z.land b 0x3f) = variant_byte b.
Proof. each_below 256. Qed.

(** The sixteen bytes of a UUID. *)
Ltac uuid_bytes Hu :=
  let Hlen := fresh in let Hb := fresh "Hb" in
  destruct Hu as [Hlen Hb];
  match type of Hlen with
  | length ?u = _ =>
      do 16 (destruct u as [|? u]; [done|]); destruct u; [|done]
  end;
  clear Hlen; repeat (apply Forall_cons in Hb as [? Hb]); clear Hb.

Ltac bytes_ok := repeat (apply Forall_cons_2; [assumption|]); apply Forall_nil_2.

(** ** The UUID *)

Lemma NewV4_ok random : uuid_ok random → uuid_ok (NewV4 random).
Proof.
  intros [Hlen Hb]. unfold NewV4, SetVariant, SetVersion. split.
  - by rewrite !length_alter.
  - repeat apply Forall_alter; try done; intros b _ Hbyte.
    + by apply version_byte_4.
    + by apply variant_byte_10.
Qed.

(** The version of the UUID is 4: the high bits of byte 6. *)
Lemma NewV4_version random :
  uuid_ok random → ∃ b, NewV4 random !! 6%nat = Some b ∧ Z.shiftr b 4 = 4.
Proof.
  intros Hu. uuid_bytes Hu. eexists. split; [reflexivity|]. by apply version_byte_4.
Qed.

(** The variant of the UUID is that of RFC 4122: the two high bits of byte
    8 are [10]. *)
Lemma NewV4_variant random :
  uuid_ok random → ∃ b, NewV4 random !! 8%nat = Some b ∧ Z.shiftr b 6 = 2.
Proof.
  intros Hu. uuid_bytes Hu. eexists. split; [reflexivity|]. by apply variant_byte_10.
Qed.

Lemma random_bits_NewV4 random :
  uuid_ok random → random_bits (NewV4 random) = random_bits random.
Proof.
  intros Hu. uuid_bytes Hu. cbn [NewV4 SetVariant SetVersion random_bits alter list_alter].
  by rewrite land_version_byte, land_variant_byte.
Qed.

Lemma NewV4_random_bits random :
  uuid_ok random → NewV4 (random_bits random) = NewV4 random.
Proof.
  intros Hu. uuid_bytes Hu. cbn [NewV4 SetVariant SetVersion random_bits alter list_alter].
  by rewrite version_byte_random, variant_byte_random.
Qed.

(** Two draws give the same UUID exactly when their random bits are the
    same. *)
Lemma NewV4_inj random random' :
  uuid_ok random → uuid_ok random' →
  NewV4 random = NewV4 random' ↔ random_bits random = random_bits random'.
Proof.
  intros Hu Hu'. split; intros Heq.
  - by rewrite <- (random_bits_NewV4 random), <- (random_bits_NewV4 random'), Heq.
  - by rewrite <- (NewV4_random_bits random), <- (NewV4_random_bits random'), Heq.
Qed.

(** ** The string *)

Lemma unhex_hex bs rest :
  Forall is_byte bs → unhex (length bs) (hex bs rest) = Some (bs, rest).
Proof.
  induction 1 as [|b bs Hb _ IH]; [done|]. cbn [length hex unhex].
  destruct (byte_nibbles b Hb) as (Hhi & Hlo & Heq).
  rewrite !unhex_hex_digit by done. cbn [mbind option_bind]. rewrite IH. simpl.
  by rewrite Heq.
Qed.

(** The string determines the UUID: reading the string of a UUID gives
    its sixteen bytes back. *)
Lemma uuid_parse_String u : uuid_ok u → uuid_parse (uuid_String u) = Some u.
Proof.
  intros Hu. uuid_bytes Hu. unfold uuid_parse, uuid_String. cbn [take drop].
  rewrite (unhex_hex [_; _; _; _]) by bytes_ok. cbn [mbind option_bind dash].
  do 3 (rewrite (unhex_hex [_; _]) by bytes_ok; cbn [mbind option_bind dash]).
  by rewrite (unhex_hex [_; _; _; _; _; _]) by bytes_ok.
Qed.

Lemma uuid_String_inj u u' :
  uuid_ok u → uuid_ok u' → uuid_String u = uuid_String u' → u = u'.
Proof.
  intros Hu Hu' Heq. apply (inj Some).
  by rewrite <- (uuid_parse_String u), <- (uuid_parse_String u'), Heq.
Qed.

(** Two draws give the same token exactly when their random bits are the
    same: 122 bits of the 128. *)
Lemma new_token_inj random random' :
  uuid_ok random → uuid_ok random' →
  new_token random = new_token random' ↔ random_bits random = random_bits random'.
Proof.
  intros Hu Hu'. rewrite <- NewV4_inj by done. unfold new_token. split; [|by intros ->].
  by apply uuid_String_inj; apply NewV4_ok.
Qed.

(** ** The canonical form *)

(** The token has the canonical form of a version 4 UUID: 36 characters,
    digits in lower case in groups of 8, 4, 4, 4 and 12 separated by
    dashes, the first digit of the third group being 4 and that of the
    fourth one of 8, 9, a and b. *)
Lemma new_token_format random : uuid_ok random → is_uuid4 (new_token random) = true.
Proof.
  intros Hu. uuid_bytes Hu.
  match goal with Hb6 : is_byte ?b6, Hb8 : is_byte ?b8 |- context [_ :: _ :: _ :: _ :: _ :: _ :: ?b6 :: _ :: ?b8 :: _] =>
    destruct (version_byte_4 b6 Hb6) as (Hv & Hv4 & _);
    destruct (variant_byte_10 b8 Hb8) as (Hr & _ & _ & Hr4)
  end.
  cbn [in_class] in Hr4. unfold is_uuid4, new_token, uuid_String.
  cbn [NewV4 SetVariant SetVersion alter list_alter take drop hex uuid4_form replicate
       app matches in_class].
  rewrite Hv4, Hr4, !is_hex_high, !is_hex_low by done. done.
Qed.

(** A string of the canonical form is not empty and holds no slash. *)
Lemma in_class_no_slash k c : in_class k c = true → is_slash c = false.
Proof.
  destruct k; simpl; intros Hc%bool_decide_eq_true; [|by subst..|];
    repeat (apply elem_of_cons in Hc as [->|Hc]; [done|]); by apply not_elem_of_nil in Hc.
Qed.

Lemma matches_no_slash p s : matches p s = true → no_slash s = true.
Proof.
  revert s. induction p as [|k p IH]; intros [|c s]; simpl; try done.
  intros [Hc Hs]%andb_prop. by rewrite (in_class_no_slash k c), (IH s).
Qed.

Lemma uuid4_polls s : is_uuid4 s = true → s ≠ EmptyString ∧ no_slash s = true.
Proof.
  intros Hs. split; [by intros ->|]. by eapply matches_no_slash.
Qed.

(** The token of a job can be polled.  Whatever the sixteen bytes
    the random source gives, the token [pathHandler] draws at line 117 is
    not empty and holds no slash, and the request [GET /route/<token>]
    reaches [routeHandler] among the routes [main] registers, with that
    token as its parameter. *)
Theorem issued_token_polls random ienv renv body :
  uuid_ok random → uuid_NewV4 ienv = new_token random →
  event_of main_table
    {| rq_method := "GET"; rq_path := ("/route/" +:+ uuid_NewV4 ienv)%string;
       rq_body := body |} ienv renv
  = Some (Poll (uuid_NewV4 ienv) renv).
Proof.
  intros Hu ->. destruct (uuid4_polls _ (new_token_format random Hu)).
  by apply token_polls.
Qed.

(** ** Examples *)

Example example_random_token :
  uuid_ok example_random ∧ new_token example_random = example_token
  ∧ is_uuid4 example_token = true.
Proof.
  split_and!; [split; [done|]|done..]. apply (bool_decide_unpack _). by vm_compute.
Qed.

Lemma uuid_ok_example : uuid_ok (NewV4 example_random).
Proof. apply NewV4_ok, example_random_token. Qed.

Example example_token_parsed : uuid_parse example_token = Some (NewV4 example_random).
Proof. by vm_compute. Qed.

Lemma issued_token_polls_witness :
  event_of main_table
    {| rq_method := "GET"; rq_path := ("/route/" +:+ uuid_NewV4 example_env)%string;
       rq_body := {| Body := Ok EmptyString |} |} example_env no_fault
  = Some (Poll (uuid_NewV4 example_env) no_fault).
Proof.
  apply (issued_token_polls example_random); [apply example_random_token|done].
Defined.
