(* ===== verification/Server.v ===== *)
(** * Server: requests in, responses out

    [main] hands the router to [http.ListenAndServe] (line 76).  For each
    request the server asks the router for the handler ([Router]), calls
    it with a response writer of its own ([Intake], [Reporter]) on the
    database the handlers share ([System]), and sends what the handler
    wrote ([Http]).  This file composes the four: [serve] takes a request
    as a client sends it, method, path and body, and gives the response as
    the client receives it, status, header and body, with the state of
    the service afterwards.

    - [serve_inv]: a request that is served is a transition of [System].
    - [served_200]: every response of a handler carries the status 200.
    - [client_session]: a client that posts a valid route receives a
      token in a JSON document; whatever happens to the service
      afterwards, while the process runs, a [GET] of [/route/<token>]
      with the token received reaches [routeHandler] and is answered with
      a JSON document that says in progress, failure or success, and a
      success holds the route as it was posted.  The token is the one
      [uuid.NewV4] builds ([Uuid]), whatever the bytes of the random
      source.

    A request the router answers by itself is not served by [serve]: what
    the router sends then is not modelled. *)

From Stdlib Require Import ZArith Ascii String.
From stdpp Require Import base tactics option list strings gmap.
From S2P Require Import Prelude Types Codec JobStore Intake Worker Reporter Startup System.
From S2P Require Import Http Router Uuid.

(** ** Definitions *)

(** The requests of a client: a route posted, and the job of a token
    polled (a [GET] has no body). *)
Definition post_route (body : string) : http_request :=
  {| rq_method := "POST"; rq_path := "/route"; rq_body := {| Body := Ok body |} |}.

Definition get_route (token : string) : http_request :=
  {| rq_method := "GET"; rq_path := "/route/" +:+ token;
     rq_body := {| Body := Ok EmptyString |} |}.

Section server.
Context {T : Type} {JS : JobStore T} {J : Json}.
Implicit Types (σ : system T) (req : http_request).

(** The server on one request: the router finds the handler, the handler
    runs on the store, and the calls it made on its response writer
    become the response. *)
Definition serve req (ienv : intake_env) (renv : report_env) σ
    : option (response * system T) :=
  ev ← event_of main_table req ienv renv;
  '(σ', obs) ← apply_event σ ev;
  match obs with
  | Response calls => Some (response_of calls, σ')
  | Ran _ => None
  end.

End server.

(** ** Serving a request *)

Section serving.
Context {T : Type} {JS : JobStore T} {J : Json}.
Implicit Types (σ : system T) (req : http_request).

(** A request that is served is a transition of [System]. *)
Lemma serve_inv req ienv renv σ resp σ' :
  serve req ienv renv σ = Some (resp, σ') →
  ∃ ev calls, event_of main_table req ienv renv = Some ev
    ∧ step σ ev (Response calls) σ' ∧ resp = response_of calls.
Proof.
  unfold serve. destruct (event_of _ _ _ _) as [ev|]; [|done]. simpl.
  destruct (apply_event σ ev) as [[σ1 [calls|token]]|] eqn:Hev; [|done..]. simpl.
  intros [= <- <-]. exists ev, calls. by rewrite step_apply_event.
Qed.

Lemma serve_event req ienv renv σ ev calls σ' :
  event_of main_table req ienv renv = Some ev → step σ ev (Response calls) σ' →
  serve req ienv renv σ = Some (response_of calls, σ').
Proof.
  intros Hev Hstep%step_apply_event. unfold serve. rewrite Hev. simpl. by rewrite Hstep.
Qed.

(** A route posted is handled by [pathHandler]. *)
Lemma serve_post body ienv renv σ :
  crashed σ = false →
  let s' := exec (pathHandler {| Body := Ok body |} ienv) (world_of (store σ)) in
  serve (post_route body) ienv renv σ = Some (response_of (writer s'), served σ s').
Proof.
  intros Hup s'.
  apply (serve_event _ _ _ _ (Submit {| Body := Ok body |} ienv)); [done|by constructor].
Qed.

(** The poll of a token that can be a segment of a path is handled by
    [routeHandler], with that token. *)
Lemma serve_get token ienv renv σ :
  token ≠ EmptyString → no_slash token = true → crashed σ = false →
  let s' := exec (routeHandler token renv) (world_of (store σ)) in
  serve (get_route token) ienv renv σ = Some (response_of (writer s'), served σ s').
Proof.
  intros Hne Hns Hup s'.
  apply (serve_event _ _ _ _ (Poll token renv)); [by apply token_polls|by constructor].
Qed.

(** Every response of a handler carries the status 200, as a JSON
    document or as a text. *)
Lemma served_200 req ienv renv σ resp σ' :
  serve req ienv renv σ = Some (resp, σ') →
  r_status resp = 200%Z
  ∧ ((∃ body, resp = json_reply body) ∨ ∃ body, resp = error_reply body).
Proof.
  intros (ev & calls & _ & Hstep & ->)%serve_inv.
  destruct (step_response _ _ _ _ Hstep) as [[body ->]|[body ->]]; eauto.
Qed.

End serving.

(** ** The session of a client *)

Section session.
Context {T : Type} {JS : JobStore T} {JSL : JobStoreLaws T} {J : Json}.
Implicit Types (σ : system T).

(** A valid route posted under a token the store does not hold is
    answered with the token, and the job is stored with the body as
    posted. *)
Lemma post_accepted σ body p ienv tokenJson renv :
  crashed σ = false → Unmarshal body = Ok p → valid_route p →
  insert_fault ienv = None → store_select (uuid_NewV4 ienv) (store σ) = None →
  Marshal (responseToken_json {| Token := uuid_NewV4 ienv |}) = Ok tokenJson →
  ∃ σ1 row, serve (post_route body) ienv renv σ = Some (json_reply tokenJson, σ1)
    ∧ step σ (Submit {| Body := Ok body |} ienv) (Response (json_response tokenJson)) σ1
    ∧ store_select (uuid_NewV4 ienv) (store σ1) = Some row ∧ c_path row = body.
Proof.
  intros Hup Hp Hv Hf Hfree Hm.
  pose proof (serve_post body ienv renv σ Hup) as Hserve.
  pose proof (step_submit σ {| Body := Ok body |} ienv Hup) as Hstep.
  cbv zeta in Hserve. rewrite pathHandler_exec in Hserve, Hstep.
  destruct (intake_verdict_accept {| Body := Ok body |} ienv (store σ) body p tokenJson)
    as (t' & Hins & Hacc); [done..|].
  simpl in Hserve, Hstep. rewrite Hacc in Hserve, Hstep.
  destruct (select_insert _ _ _ _ _ Hins) as (row & Hrow & Hpath & _).
  eexists _, row. split_and!; [exact Hserve|exact Hstep|done..].
Qed.

(** The poll of a token whose job is stored is answered with the document
    of the job. *)
Lemma get_answered σ token row ienv renv :
  sys_inv σ → crashed σ = false → token ≠ EmptyString → no_slash token = true →
  select_fault renv = None → store_select token (store σ) = Some row →
  ∃ p result, Unmarshal (c_path row) = Ok p ∧ says p result
    ∧ ∀ routeJson, Marshal (shortestRoute_json result) = Ok routeJson →
        serve (get_route token) ienv renv σ
        = Some (json_reply routeJson,
                served σ (exec (routeHandler token renv) (world_of (store σ)))).
Proof.
  intros Hinv Hup Hne Hns Hf Hrow.
  destruct (poll_says σ token row renv Hinv Hf Hrow) as (p & result & Hp & _ & Hsays & Hw).
  exists p, result. split_and!; [done..|]. intros routeJson Hm.
  by rewrite (serve_get token ienv renv σ Hne Hns Hup), (Hw routeJson Hm).
Qed.

(** C30.  The session of a client.  A client posts a body that decodes
    to a valid route, for which [uuid.NewV4] builds a token, from
    whatever bytes of the random source, that the table does not hold yet:
    the response carries the status 200 and the JSON document of the
    token.  From then on, whatever requests are served and goroutines run
    before, while the process runs, the [GET] of [/route/] followed by
    that token reaches [routeHandler] with that token, leaves the table
    as it is, and is answered with the status 200 and the JSON document
    of a job in progress, of a failure, or of a success with the route as
    it was posted: never with an error about the token. *)
Theorem client_session σ body p random ienv tokenJson :
  sys_inv σ → crashed σ = false →
  Unmarshal body = Ok p → valid_route p →
  uuid_ok random → uuid_NewV4 ienv = new_token random → insert_fault ienv = None →
  store_select (new_token random) (store σ) = None →
  Marshal (responseToken_json {| Token := new_token random |}) = Ok tokenJson →
  ∃ σ1, (∀ renv, serve (post_route body) ienv renv σ = Some (json_reply tokenJson, σ1))
    ∧ ∀ tr σ2 ienv' renv,
        run σ1 tr σ2 → crashed σ2 = false → select_fault renv = None →
        ∃ result, says p result
          ∧ ∀ routeJson, Marshal (shortestRoute_json result) = Ok routeJson →
              ∃ σ3, serve (get_route (new_token random)) ienv' renv σ2
                    = Some (json_reply routeJson, σ3)
                    ∧ store σ3 = store σ2.
Proof.
  intros Hinv Hup Hp Hv Hu Htoken Hf Hfree Hm. rewrite <- Htoken in *.
  destruct (post_accepted σ body p ienv tokenJson no_fault Hup Hp Hv Hf Hfree Hm)
    as (σ1 & row & Hpost & Hstep & Hrow & Hpath).
  exists σ1. split.
  { intros renv. by destruct (post_accepted σ body p ienv tokenJson renv Hup Hp Hv Hf Hfree Hm)
      as (σ1' & _ & -> & Hstep'%step_apply_event & _);
      rewrite (proj1 (step_apply_event _ _ _ _) Hstep) in Hstep'; simplify_eq. }
  intros tr σ2 ienv' renv Hrun Hup2 Hsel.
  destruct (run_path_stable _ _ _ _ _ Hrun Hrow) as (row2 & Hrow2 & Hpath2).
  pose proof (sys_inv_run _ _ _ (sys_inv_step _ _ _ _ Hinv Hstep) Hrun) as Hinv2.
  destruct (uuid4_polls _ (new_token_format random Hu)) as [Hne Hns]. rewrite <- Htoken in *.
  destruct (get_answered σ2 _ row2 ienv' renv Hinv2 Hup2 Hne Hns Hsel Hrow2)
    as (p' & result & Hp' & Hsays & Hget).
  rewrite Hpath2, Hpath, Hp in Hp'. injection Hp' as <-.
  exists result. split; [done|]. intros routeJson Hjson. eexists. split; [by apply Hget|].
  apply routeHandler_frame.
Qed.

End session.

(** ** Examples *)

(** The route of the specification posted to the starting service, and
    its job polled once the goroutine has run. *)
Example example_post_served :
  serve (post_route example_body) example_env no_fault (init : system table)
  = Some (json_reply ("{" +:+ quoted "token" +:+ ":" +:+ quoted example_token +:+ "}"),
          example_submitted).
Proof. by vm_compute. Qed.

Example example_get_served :
  fst <$> serve (get_route example_token) example_env no_fault example_computed
  = Some (json_reply success_body).
Proof. by vm_compute. Qed.

(** A token that was never issued is answered as a job in progress: the
    failure assigned at line 221 is overwritten at line 225. *)
Example unknown_token_served :
  fst <$> serve (get_route "unknown") example_env no_fault (init : system table)
  = Some (json_reply in_progress_body).
Proof. by vm_compute. Qed.

(** A body that is not a route is refused with the status 200, and a
    request for which no route is registered reaches no handler. *)
Example refused_and_unrouted :
  fst <$> serve (post_route "[]") example_env no_fault (init : system table)
  = Some (error_reply (error_body "Route start & dropoff required"))
  ∧ serve {| rq_method := "DELETE"; rq_path := "/route/" +:+ example_token;
             rq_body := {| Body := Ok EmptyString |} |}
      example_env no_fault (init : system table) = None.
Proof. by vm_compute. Qed.

Lemma client_session_witness :
  ∃ σ1 : system table,
    (∀ renv, serve (post_route example_body) example_env renv init
             = Some (json_reply
                       ("{" +:+ quoted "token" +:+ ":" +:+ quoted example_token +:+ "}"),
                     σ1))
    ∧ ∀ tr σ2 ienv' renv,
        run σ1 tr σ2 → crashed σ2 = false → select_fault renv = None →
        ∃ result, says example_route result
          ∧ ∀ routeJson, Marshal (shortestRoute_json result) = Ok routeJson →
              ∃ σ3, serve (get_route (new_token example_random)) ienv' renv σ2
                    = Some (json_reply routeJson, σ3)
                    ∧ store σ3 = store σ2.
Proof.
  apply (client_session init example_body example_route example_random example_env);
    [apply sys_inv_init|done|by vm_compute|apply (bool_decide_unpack _); by vm_compute
    |apply example_random_token|symmetry; apply example_random_token|done|done
    |by vm_compute].
Defined.
