(* ===== verification/Progress.v ===== *)
(** * Progress: the service can always finish its work

    Nothing in the program waits for anything: a handler and a goroutine
    run to their end whatever the other calls do.  In the machine of
    [Interleaving] this reads: from every configuration, each call in
    progress can perform its remaining operations and leave, and each
    goroutine of the pool can begin, run and leave.

    - [calls_can_leave]: from every configuration of a process that runs
      there is a schedule, which lets no call begin, after which no call
      is in progress.
    - [service_can_settle]: from every configuration reached from an empty
      table with goroutines that run in working environments, there is a
      schedule after which no call is in progress, the pool is empty, the
      process runs and every job is terminal with the verdict of its own
      route.  No interleaving leads the service to a configuration from
      which a job cannot be finished. *)

From Stdlib Require Import ZArith Lia.
From stdpp Require Import base tactics option list strings.
From S2P Require Import Prelude Types Codec JobStore Intake Worker Reporter System.
From S2P Require Import Schedule Thread Ledger Interleaving.

(** ** Schedules *)

(** The schedule in which the call at index [i], of which [t] is left,
    performs its remaining operations on the database [d] and leaves. *)
Definition finish_alone {T} {JS : JobStore T} (i : nat) (t : thread unit) (d : T)
    : list micro :=
  replicate (operations t (world_of d)) (Exec i) ++ [Finish i].

(** The configurations reached from an empty table by a schedule whose
    goroutines run in working environments of [Q]. *)
Definition reached {T} {JS : JobStore T} {J : Json} (Q : worker_env → Prop)
    (C : config T) : Prop :=
  ∃ ms, micro_run (embed (init : system T)) ms = Some C
        ∧ Forall (begins (served_by Q)) ms.

(** ** The data of the examples *)

(** The interleaved session of [Interleaving] stopped after eight steps:
    the submission and the poll are in progress, the goroutine has begun. *)
Definition example_midway : config table :=
  default (embed example_start) (micro_run (embed example_start) (take 8 example_schedule)).

(** ** Calls in progress can leave *)

Section leaving.
Context {T : Type} {JS : JobStore T} {J : Json}.
Implicit Types (C : config T) (τ : task) (P : event → Prop).

Lemma begins_finish_alone P i (t : thread unit) (d : T) :
  Forall (begins P) (finish_alone i t d).
Proof.
  apply Forall_app. split; [by apply Forall_replicate|by apply Forall_singleton].
Qed.

(** The first call in progress performs its operations and leaves: the
    other calls in progress are as they were. *)
Lemma first_leaves C τ rest :
  c_down C = false → c_tasks C = τ :: rest →
  ∃ C', micro_run C (finish_alone 0 (code τ) (c_db C)) = Some C' ∧ c_tasks C' = rest.
Proof.
  intros Hup Htasks.
  destruct (exec_alone (code τ) C 0 τ) as (τ' & H & Hrun & Hf & _);
    [done|by rewrite Htasks|done|].
  unfold finish_alone. rewrite micro_run_app, Hrun. cbn [mbind option_bind micro_run].
  unfold micro_step, finish_task. cbn [c_down c_tasks]. rewrite Htasks.
  cbn [insert list_insert lookup list_lookup]. rewrite Hf. eexists. split; [done|].
  done.
Qed.

(** The calls in progress can leave.  From every configuration of a
    process that runs there is a schedule in which no call begins and
    after which no call is in progress, unless a goroutine has ended the
    process on the way: no call waits for another. *)
Lemma calls_can_leave P C :
  c_down C = false →
  ∃ ms C', micro_run C ms = Some C' ∧ Forall (begins P) ms
    ∧ (c_down C' = false → c_tasks C' = []).
Proof.
  intros Hup. remember (length (c_tasks C)) as n eqn:Hn. revert C Hup Hn.
  induction n as [|n IH]; intros C Hup Hn.
  { exists [], C. split_and!; [done|constructor|]. intros _. by apply nil_length_inv. }
  destruct (c_tasks C) as [|τ rest] eqn:Htasks; [done|].
  destruct (first_leaves C τ rest Hup Htasks) as (C1 & Hrun1 & Hrest).
  destruct (c_down C1) eqn:Hup1.
  { exists (finish_alone 0 (code τ) (c_db C)), C1.
    split_and!; [done|apply begins_finish_alone|congruence]. }
  destruct (IH C1 Hup1) as (ms & C2 & Hrun2 & Hms & Hdone);
    [simpl in Hn; rewrite Hrest; lia|].
  exists (finish_alone 0 (code τ) (c_db C) ++ ms), C2.
  rewrite micro_run_app, Hrun1. split_and!; [done| |done].
  apply Forall_app. split; [apply begins_finish_alone|done].
Qed.

End leaving.

(** ** The service can settle *)

Section settling.
Context {T : Type} {JS : JobStore T} {JSL : JobStoreLaws T} {J : Json}.
Context (Q : worker_env → Prop).
Implicit Types (C : config T).

Lemma reached_extend C ms C' :
  reached Q C → micro_run C ms = Some C' → Forall (begins (served_by Q)) ms →
  reached Q C'.
Proof.
  intros (ms0 & Hrun0 & Hms0) Hrun Hms. exists (ms0 ++ ms).
  rewrite micro_run_app, Hrun0. split; [done|]. by apply Forall_app.
Qed.

Lemma reached_alive C : reached Q C → c_down C = false.
Proof.
  intros (ms & Hrun & Hms). by destruct (reachable_sim Q ms C Hrun Hms) as (? & ? & ? & ? & ? & ?).
Qed.

(** A goroutine of the pool begins, runs in the working environment
    [env], and leaves: the pool has lost it. *)
Lemma goroutine_can_run C env token points pl :
  reached Q C → working env → Q env →
  c_tasks C = [] → c_pool C = (token, points) :: pl →
  ∃ ms C', micro_run C ms = Some C' ∧ Forall (begins (served_by Q)) ms
    ∧ c_tasks C' = [] ∧ c_pool C' = pl.
Proof.
  intros HC Hw HQ Hnone Hpool. pose proof (reached_alive C HC) as Hup.
  destruct (alone_run C (FromGo env token points) pl (Work 0 env))
    as (C' & Hrun & Hnone' & _ & _ & Hdown & _ & Hpl); [done..|by simpl; rewrite Hpool|].
  assert (Forall (begins (served_by Q)) (alone (Work 0 env) (FromGo env token points) C))
    as Hms.
  { apply Forall_cons. split; [done|]. apply (begins_finish_alone _ _ _ (c_db C)). }
  eexists _, C'. split_and!; [done..|].
  pose proof (reached_alive C' (reached_extend _ _ _ HC Hrun Hms)) as Hup'.
  rewrite Hup' in Hdown. rewrite (Hpl (eq_sym Hdown)). cbn [pool program].
  rewrite processRoute_refines.
  pose proof (proj2 (processRoute_frame env token points (world_of (c_db C)))) as Hg.
  unfold exec in Hg. rewrite Hg. apply app_nil_r.
Qed.

(** The goroutines of the pool can run one after the other. *)
Lemma pool_can_drain C env :
  reached Q C → working env → Q env → c_tasks C = [] →
  ∃ ms C', micro_run C ms = Some C' ∧ Forall (begins (served_by Q)) ms
    ∧ c_tasks C' = [] ∧ c_pool C' = [].
Proof.
  intros HC Hw HQ. remember (length (c_pool C)) as n eqn:Hn. revert C HC Hn.
  induction n as [|n IH]; intros C HC Hn Hnone.
  { exists [], C. split_and!; [done|constructor|done|by apply nil_length_inv]. }
  destruct (c_pool C) as [|[token points] pl] eqn:Hpool; [done|].
  destruct (goroutine_can_run C env token points pl) as (ms1 & C1 & Hrun1 & Hms1 & Hnone1 & Hpl);
    [done..|].
  destruct (IH C1) as (ms2 & C2 & Hrun2 & Hms2 & Hdone);
    [by eapply reached_extend|rewrite Hpl; simpl in Hn; lia|done|].
  exists (ms1 ++ ms2), C2. rewrite micro_run_app, Hrun1.
  split_and!; [done|by apply Forall_app|apply Hdone..].
Qed.

(** C20.  The service can always settle.  From every configuration
    reached from an empty table, whatever the requests and the order of
    the operations of the calls so far, while the goroutines run in
    working environments of [Q] (one of which, [env], the goroutines
    still in flight can be run in), there is a schedule, which the machine
    follows to its end, after which no call is in progress, the pool is
    empty, the process runs, and the row of every token is the row created
    for it with the verdict of its own route.  No interleaving leads the
    service to a configuration from which a job cannot be finished. *)
Theorem service_can_settle C env :
  reached Q C → working env → Q env →
  ∃ ms C', micro_run C ms = Some C' ∧ Forall (begins (served_by Q)) ms
    ∧ c_tasks C' = [] ∧ c_pool C' = [] ∧ c_down C' = false
    ∧ ∀ token row, store_select token (c_db C') = Some row → settled_row Q token row.
Proof.
  intros HC Hw HQ.
  destruct (calls_can_leave (served_by Q) C (reached_alive C HC))
    as (ms1 & C1 & Hrun1 & Hms1 & Hnone1).
  pose proof (reached_extend _ _ _ HC Hrun1 Hms1) as HC1.
  destruct (pool_can_drain C1 env HC1 Hw HQ (Hnone1 (reached_alive C1 HC1)))
    as (ms2 & C2 & Hrun2 & Hms2 & Hnone2 & Hpool2).
  pose proof (reached_extend _ _ _ HC1 Hrun2 Hms2) as HC2.
  exists (ms1 ++ ms2), C2. rewrite micro_run_app, Hrun1.
  split_and!; [done|by apply Forall_app|done..|by apply reached_alive|].
  destruct HC2 as (ms & Hrun & Hms). intros token row.
  by apply (reachable_settled Q ms C2).
Qed.

End settling.

(** ** Examples *)

Lemma example_midway_reached :
  reached (λ env, env = honest_provider) example_midway.
Proof.
  exists (take 8 example_schedule). split; [by vm_compute|].
  apply Forall_take, example_schedule_served.
Qed.

Example example_midway_busy :
  length (c_tasks example_midway) = 3%nat ∧ c_pool example_midway = [].
Proof. by vm_compute. Qed.

Lemma service_can_settle_witness :
  ∃ ms C', micro_run example_midway ms = Some C'
    ∧ Forall (begins (served_by (λ env, env = honest_provider))) ms
    ∧ c_tasks C' = [] ∧ c_pool C' = [] ∧ c_down C' = false
    ∧ ∀ token row, store_select token (c_db C') = Some row →
        settled_row (λ env, env = honest_provider) token row.
Proof.
  apply (service_can_settle (λ env, env = honest_provider) example_midway honest_provider);
    [apply example_midway_reached|apply working_honest_provider|done].
Defined.
