(* ===== verification/Exclusive.v ===== *)
(** * Exclusive: each job has one goroutine, started once its row is stored

    The specification asks that for a single token at most one writer, the
    worker assigned to it, ever updates the job.  In the program the
    goroutine of a job is the one [pathHandler] starts at line 136, after
    the [INSERT] of line 129 has succeeded, and nothing else starts one.
    On the histories of the machine of [Interleaving], whatever the order
    of the operations of the calls:

    - a goroutine begins only after the submission that drew its token has
      taken effect, that is, after its [INSERT]: the row it will update
      exists when it begins;
    - no two goroutines begin for the same token.

    A goroutine takes effect once ([hist_keys] of [Linearizable]) and
    performs one [UPDATE] at most ([one_statement_per_call] of [Thread]),
    on the row of its own token: a row is written by one [UPDATE] at
    most, so two writes of the same job never race. *)

From Stdlib Require Import ZArith Lia.
From stdpp Require Import base tactics option list strings.
From S2P Require Import Prelude Types Codec JobStore Intake Worker Reporter System.
From S2P Require Import Schedule Thread Ledger Interleaving Linearizable.

(** ** Definitions *)

(** The goroutines of [token] that began, by their numbers. *)
Definition workers_of (token : string) (H : list moment) : list nat :=
  omap (λ m, match m with
             | Began id (FromGo _ token' _) =>
                 if decide (token' = token) then Some id else None
             | _ => None
             end) H.

(** The goroutine [g] of [token] began after the submission that drew
    [token] took effect. *)
Definition after_insert (H : list moment) (g : nat) (a : origin) (token : string) : Prop :=
  ∃ s r ienv, Began s (FromSubmit r ienv) ∈ H ∧ uuid_NewV4 ienv = token
              ∧ before (Effect s) (Began g a) H.

(** The goroutines of the history [H]: each began after the [INSERT] of
    its job, and no other began for the same token. *)
Definition exclusive (H : list moment) : Prop :=
  ∀ g env token points, Began g (FromGo env token points) ∈ H →
    after_insert H g (FromGo env token points) token
    ∧ ∀ g' env' points', Began g' (FromGo env' token points') ∈ H → g' = g.

(** ** Order in a history that grows *)

Lemma before_app_l {A} (x y : A) l l' : before x y l → before x y (l ++ l').
Proof.
  intros (i & j & Hij & Hi & Hj). exists i, j.
  split_and!; [done|by apply lookup_app_l_Some..].
Qed.

Lemma before_snoc {A} (x y : A) l : x ∈ l → before x y (l ++ [y]).
Proof.
  intros [i Hi]%list_elem_of_lookup. exists i, (length l).
  split_and!; [by eapply lookup_lt_Some|by apply lookup_app_l_Some|].
  by rewrite lookup_app_r, Nat.sub_diag.
Qed.

Lemma after_insert_app H H' g a token :
  after_insert H g a token → after_insert (H ++ H') g a token.
Proof.
  intros (s & r & ienv & Hs & Ht & Hb). exists s, r, ienv.
  split_and!; [apply elem_of_app; by left|done|by apply before_app_l].
Qed.

(** A history with moments added in which no call begins. *)
Lemma exclusive_app H H' :
  exclusive H → (∀ id a, Began id a ∉ H') → exclusive (H ++ H').
Proof.
  intros Hex Hno g env token points [Hin|Hin]%elem_of_app; [|by destruct (Hno _ _ Hin)].
  destruct (Hex _ _ _ _ Hin) as [Haft Hone]. split; [by apply after_insert_app|].
  intros g' env' points' [Hin'|Hin']%elem_of_app; [eauto|by destruct (Hno _ _ Hin')].
Qed.

(** A history in which one more call begins: a goroutine, if it is one,
    whose job was stored and for whose token no goroutine began. *)
Lemma exclusive_began H n a :
  exclusive H →
  (∀ env token points, a = FromGo env token points →
     (∃ s r ienv, Began s (FromSubmit r ienv) ∈ H ∧ uuid_NewV4 ienv = token ∧ Effect s ∈ H)
     ∧ ∀ g env' points', Began g (FromGo env' token points') ∉ H) →
  exclusive (H ++ [Began n a]).
Proof.
  intros Hex Ha g env token points [Hin|[= -> <-]%list_elem_of_singleton]%elem_of_app.
  - destruct (Hex _ _ _ _ Hin) as [Haft Hone]. split; [by apply after_insert_app|].
    intros g' env' points' [Hin'|[= -> Heq]%list_elem_of_singleton]%elem_of_app; [eauto|].
    destruct (Ha _ _ _ (eq_sym Heq)) as [_ Hfresh]. by destruct (Hfresh _ _ _ Hin).
  - destruct (Ha _ _ _ eq_refl) as [(s & r & ienv & Hs & Ht & He) Hfresh]. split.
    + exists s, r, ienv. split_and!; [apply elem_of_app; by left|done|by apply before_snoc].
    + intros g' env' points' [Hin'|[= -> _]%list_elem_of_singleton]%elem_of_app; [|done].
      by destruct (Hfresh _ _ _ Hin').
Qed.

(** ** The goroutines of a token *)

Lemma elem_of_workers_of token H g :
  g ∈ workers_of token H ↔ ∃ env points, Began g (FromGo env token points) ∈ H.
Proof.
  unfold workers_of. rewrite list_elem_of_omap. split.
  - intros (m & Hm & Heq). destruct m as [id [| |env token' points]| |]; try done.
    case_decide; simplify_eq. eauto.
  - intros (env & points & Hin). eexists. split; [done|]. simpl. by rewrite decide_True.
Qed.

(** A call begins once. *)
Lemma workers_of_NoDup token H : NoDup (key <$> H) → NoDup (workers_of token H).
Proof.
  induction H as [|m H IH]; [constructor|]. rewrite fmap_cons.
  intros [Hm HH]%NoDup_cons. specialize (IH HH). unfold workers_of in *. simpl.
  destruct m as [id [| |env token' points]| |]; try done. case_decide; [|done].
  apply NoDup_cons. split; [|done]. intros Hin.
  change (id ∈ workers_of token H) in Hin.
  apply elem_of_workers_of in Hin as (env' & points' & Hin).
  apply Hm. exact (elem_of_key _ _ Hin).
Qed.

(** ** The goroutines of the pool *)

Section goroutines.
Context {T : Type} {JS : JobStore T} {JSL : JobStoreLaws T} {J : Json}.
Implicit Types (C : config T) (σ : system T) (lin : list entry) (τ : task).

(** The pool of [System] holds the goroutines that wait in the machine
    and those held by the calls that have not taken effect. *)
Lemma pool_split C σ lin :
  linearized C σ lin → c_down C = false →
  pool σ ≡ₚ c_pool C ++ (c_tasks C ≫= debit_pool (T := T)).
Proof.
  intros [HS _] Hup. pose proof (sim_pool _ _ _ HS Hup) as Hp.
  unfold balanced in Hp. by rewrite bind_none, app_nil_r in Hp.
Qed.

Lemma waiting_in_pool C σ lin k token points :
  linearized C σ lin → c_down C = false → c_pool C !! k = Some (token, points) →
  (token, points) ∈ pool σ.
Proof.
  intros HL Hup Hk. rewrite (pool_split C σ lin HL Hup). apply elem_of_app. left.
  by eapply list_elem_of_lookup_2.
Qed.

(** A goroutine that took effect is no longer in the pool of [System]. *)
Lemma effect_left_pool C σ lin g env token points :
  run init lin.*2 σ → linearized C σ lin →
  Began g (FromGo env token points) ∈ c_hist C → Effect g ∈ c_hist C →
  token ∉ (pool σ).*1.
Proof.
  intros Hrun [_ [Hh Hl _ _ _]] Hb He.
  destruct (effect_entry _ _ _ _ _ Hh Hl Hb He) as (k & w & Hin).
  apply (ran_left_pool init lin.*2 σ); [apply sys_inv_init|done|].
  apply list_elem_of_omap. exists (Work k env, Ran token). split; [|done].
  apply list_elem_of_fmap. by exists (g, (Work k env, Ran token)).
Qed.

(** The token of a goroutine that waits in the pool is the token of no
    goroutine that began. *)
Lemma waiting_not_begun C σ lin k token points g env points' :
  run init lin.*2 σ → linearized C σ lin → c_down C = false →
  c_pool C !! k = Some (token, points) →
  Began g (FromGo env token points') ∉ c_hist C.
Proof.
  intros Hrun HL Hup Hk Hb.
  pose proof (waiting_in_pool C σ lin k token points HL Hup Hk) as Hin.
  pose proof HL as [_ [Hh Hl Hc _ Hbg]].
  assert (Effect g ∉ c_hist C) as Hne.
  { intros He. apply (effect_left_pool C σ lin g env token points' Hrun HL Hb He).
    by apply (list_elem_of_fmap_2' fst _ (token, points)). }
  destruct (Hbg _ _ Hb) as [He|(τ & Hid & Hτ)%list_elem_of_fmap]; [done|]. subst g.
  pose proof (proj1 (Forall_forall _ _) Hc τ Hτ) as (Hbτ & _ & Hpast).
  pose proof (began_unique _ _ _ _ _ Hh Hb Hbτ) as Hfrom.
  destruct (past τ) eqn:Hp; [by destruct Hpast|].
  pose proof (inv_pool_nodup _ (sys_inv_run _ _ _ sys_inv_init Hrun)) as Hnd.
  rewrite (pool_split C σ lin HL Hup), fmap_app in Hnd.
  apply NoDup_app in Hnd as (_ & Hdis & _). apply (Hdis token).
  - apply (list_elem_of_fmap_2' fst _ (token, points)); [by eapply list_elem_of_lookup_2|done].
  - apply (list_elem_of_fmap_2' fst _ (token, points')); [|done].
    apply list_elem_of_bind. exists τ. split; [|done].
    unfold debit_pool. rewrite Hp, <- Hfrom. by left.
Qed.

(** The job of a goroutine that waits in the pool was stored by a
    submission that took effect. *)
Lemma waiting_stored C σ lin k token points :
  run init lin.*2 σ → linearized C σ lin → c_down C = false →
  c_pool C !! k = Some (token, points) →
  ∃ s r ienv, Began s (FromSubmit r ienv) ∈ c_hist C ∧ uuid_NewV4 ienv = token
              ∧ Effect s ∈ c_hist C.
Proof.
  intros Hrun HL Hup Hk.
  pose proof (waiting_in_pool C σ lin k token points HL Hup Hk) as Hin.
  pose proof (inv_pool _ (sys_inv_run _ _ _ sys_inv_init Hrun)) as Hok.
  destruct (proj1 (Forall_forall _ _) Hok _ Hin) as (row & _ & Hrow & _).
  destruct (row_submitted init lin.*2 σ token Hrun) as (r & ienv & calls & Hsub & Ht);
    [apply select_empty|by eexists|].
  apply list_elem_of_fmap in Hsub as ([s [ev obs]] & [= <- <-] & Hs).
  destruct HL as [_ [_ [Ho Hb _] _ _ _]].
  destruct (Hb _ _ _ Hs) as (a & n & w & Ha & Hev & _).
  destruct a as [r' ienv'| |]; [|done..]. injection Hev as <- <-.
  exists s, r, ienv. split_and!; [done..|].
  assert (s ∈ effects (c_hist C)) as (m & Hm & Heq)%list_elem_of_omap.
  { rewrite <- Ho. by apply (list_elem_of_fmap_2' fst _ (s, (Submit r ienv, Response calls))). }
  by destruct m; simplify_eq.
Qed.

(** What a step adds to the history: the beginning of the call that
    arrives, or moments in which no call begins. *)
Lemma hist_step C (m : micro) C' :
  micro_step m C = Some C' →
  (∃ ev a, m = Begin ev ∧ origin_of ev C = Some a
           ∧ c_hist C' = c_hist C ++ [Began (c_next C) a])
  ∨ ∃ H', c_hist C' = c_hist C ++ H' ∧ ∀ id a, Began id a ∉ H'.
Proof.
  unfold micro_step. destruct (c_down C); [done|]. destruct m as [ev|i|i].
  - intros (a & pl & Ha & -> & _)%begin_inv. left. by exists ev, a.
  - unfold exec_task. destruct (c_tasks C !! i) as [τ|]; [|done].
    destruct (code τ) as [f|o k]; [done|]. intros [= <-]. right. eexists. split; [done|].
    intros id a. destruct (is_db o); [by intros [=]%list_elem_of_singleton|by intros ?%not_elem_of_nil].
  - unfold finish_task. destruct (c_tasks C !! i) as [τ|]; [|done].
    destruct (code τ) as [f|o k]; [|done]. intros [= <-]. right. eexists. split; [done|].
    intros id a [Hin|[=]%list_elem_of_singleton]%elem_of_app.
    destruct (past τ); [by apply not_elem_of_nil in Hin|by apply list_elem_of_singleton in Hin].
Qed.

(** Every step keeps the goroutines exclusive. *)
Lemma exclusive_step C σ lin (m : micro) C' :
  run init lin.*2 σ → linearized C σ lin → exclusive (c_hist C) →
  micro_step m C = Some C' → exclusive (c_hist C').
Proof.
  intros Hrun HL Hex Hm.
  assert (c_down C = false) as Hup by (unfold micro_step in Hm; by destruct (c_down C)).
  destruct (hist_step C m C' Hm) as [(ev & a & -> & Ha & ->)|(H' & -> & Hno)];
    [|by apply exclusive_app].
  apply exclusive_began; [done|]. intros env token points ->.
  destruct ev as [r ienv|tok renv|k env']; [done..|]. simpl in Ha.
  destruct (c_pool C !! k) as [[token' points']|] eqn:Hk; [|done]. injection Ha as -> -> ->.
  split; [by eapply waiting_stored|]. intros g env' points'. by eapply waiting_not_begun.
Qed.

Lemma exclusive_run C σ lin ms C' :
  run init lin.*2 σ → linearized C σ lin → exclusive (c_hist C) →
  micro_run C ms = Some C' → exclusive (c_hist C').
Proof.
  revert C σ lin. induction ms as [|m ms IH]; intros C σ lin Hrun HL Hex; simpl.
  { by intros [= <-]. }
  destruct (micro_step m C) as [Cm|] eqn:Hm; [|done].
  destruct (linearized_step _ _ _ _ _ HL Hm) as (l & σ' & Hrun' & HL').
  apply (IH Cm σ' (lin ++ l)); [|done|by eapply exclusive_step].
  rewrite fmap_app. by eapply run_app.
Qed.

Lemma goroutines_exclusive ms C :
  micro_run (embed (init : system T)) ms = Some C → exclusive (c_hist C).
Proof.
  apply (exclusive_run (embed init) init [] ms C);
    [constructor|apply linearized_embed|by intros ? ? ? ? ?%not_elem_of_nil].
Qed.

(** C16.  Each job has one goroutine, started once its row is stored.  In
    every configuration the machine reaches from an empty table, whatever
    the requests and the order of the operations of the calls: a
    goroutine that began for a token began after a submission that drew
    this token took effect, that is, after the [INSERT] of the job; and
    no other goroutine began for this token, so the job has one writer at
    most, which performs one [UPDATE] at most. *)
Theorem one_goroutine_per_job ms C g env token points :
  micro_run (embed (init : system T)) ms = Some C →
  Began g (FromGo env token points) ∈ c_hist C →
  (∃ s r ienv, Began s (FromSubmit r ienv) ∈ c_hist C ∧ uuid_NewV4 ienv = token
     ∧ before (Effect s) (Began g (FromGo env token points)) (c_hist C))
  ∧ ∀ g' env' points', Began g' (FromGo env' token points') ∈ c_hist C → g' = g.
Proof.
  intros Hrun. by apply (goroutines_exclusive ms C).
Qed.

(** The goroutines of a token that began are one at most. *)
Lemma workers_of_one ms C token :
  micro_run (embed (init : system T)) ms = Some C →
  length (workers_of token (c_hist C)) ≤ 1.
Proof.
  intros Hrun.
  destruct (linearized_reached _ _ _ Hrun) as (lin & σ & _ & _ & [[Hk _ _] _ _ _ _]).
  pose proof (workers_of_NoDup token _ Hk) as Hnd.
  destruct (workers_of token (c_hist C)) as [|x [|y l]] eqn:Hw; simpl; [lia..|].
  assert (x ∈ workers_of token (c_hist C) ∧ y ∈ workers_of token (c_hist C)) as [Hx Hy]
    by (rewrite Hw; split; repeat constructor).
  apply elem_of_workers_of in Hx as (env & points & Hx), Hy as (env' & points' & Hy).
  destruct (goroutines_exclusive ms C Hrun x env token points Hx) as [_ Hone].
  apply NoDup_cons in Hnd as [Hxy _]. destruct Hxy. rewrite (Hone y env' points' Hy). by left.
Qed.

End goroutines.

(** ** Examples *)

(** In the interleaved session of [Interleaving] the goroutine of the job
    is the third call. *)
Example example_workers :
  workers_of example_token (c_hist example_interleaved) = [2].
Proof. by vm_compute. Qed.

Lemma one_goroutine_per_job_witness :
  (∃ s r ienv, Began s (FromSubmit r ienv) ∈ c_hist example_interleaved
     ∧ uuid_NewV4 ienv = example_token
     ∧ before (Effect s)
         (Began 2 (FromGo honest_provider example_token ["1,1"; "2,2"; "3,3"]))
         (c_hist example_interleaved))
  ∧ ∀ g' env' points',
      Began g' (FromGo env' example_token points') ∈ c_hist example_interleaved → g' = 2.
Proof.
  apply (one_goroutine_per_job example_schedule example_interleaved 2 honest_provider
           example_token ["1,1"; "2,2"; "3,3"]);
    [by vm_compute|apply (list_elem_of_lookup_2 _ 4); vm_compute; reflexivity].
Defined.
