(* ===== verification/Termination.v ===== *)
(** * Termination: without new requests every schedule ends

    The loops of the program ([join_points] over the points of the body,
    [sum_rows] over the rows of the answer) perform no operation on what
    the calls share unless they end the function, so the number of
    operations of a call does not depend on the length of the route:
    [pathHandler] performs four at most, [processRoute] four and
    [routeHandler] seven, whatever the answers of the database.

    A measure follows that every step of the machine of [Interleaving]
    that is not the arrival of a request decreases: a call in progress
    counts for the operations left to it and for its leaving, a goroutine
    of the pool for its start, its operations and its leaving, and a [go]
    statement yet to come for the goroutine it starts.

    - [pathHandler_lasts], [processRoute_lasts], [routeHandler_lasts]: the
      bounds of the three functions, for any cost of a [go] statement;
      [calls_are_short] reads them as numbers of operations.
    - [schedules_bounded]: from a configuration reached from any state of
      [System], every schedule has at most [budget] steps and twelve more
      for each request that arrives in it, whatever the order it picks;
      [schedules_end] is the case without requests.
    - [every_schedule_settles]: from an empty table, with goroutines run in
      working environments, whatever the scheduler does it stops within
      that bound once requests stop arriving, and when nothing more can
      move every job is terminal with the verdict of its own route.

    The steps counted are the operations on what the calls share.  The
    call to the provider is not one of them: its answer is an oracle of
    the environment, so it is taken to return, which nothing in the
    program enforces ([context.Background()] carries no deadline). *)

From Stdlib Require Import ZArith Lia.
From stdpp Require Import base tactics option list strings.
From S2P Require Import Prelude Types Codec JobStore Intake Worker Reporter System.
From S2P Require Import Schedule Thread Ledger Interleaving Progress.

(** ** The measure *)

(** What an operation costs: one, and [g] for a [go] statement.  With [g]
    at one the cost of a thread is the number of its operations; the
    measure of the machine takes [g] at seven, an operation for the [go]
    statement itself and six steps for the goroutine it leaves in the pool
    (its start, its four operations at most and its leaving). *)
Definition cost (g : nat) (o : op) : nat := if is_go o then g else 1.

(** [lasts g n t Q]: on every path, whatever the operations answer, the
    operations of [t] cost [n] at most, and [Q] holds of what is left of
    [n] and of the value with which [t] falls through. *)
Fixpoint lasts {A} (g n : nat) (t : thread A) (Q : nat → A → Prop) : Prop :=
  match t with
  | Fin (Next a) => Q n a
  | Fin _ => True
  | Do o k => cost g o ≤ n ∧ ∀ x, lasts g (n - cost g o) (k x) Q
  end.

Definition within {A} (g n : nat) (t : thread A) : Prop := lasts g n t (λ _ _, True).

(** The events that are not requests: a goroutine of the pool starts, in a
    working environment of [Q]. *)
Definition goroutine_of (Q : worker_env → Prop) (ev : event) : Prop :=
  match ev with Work _ env => working env ∧ Q env | _ => False end.

Definition no_request (ev : event) : Prop :=
  match ev with Work _ _ => True | _ => False end.

(** The steps of a schedule at which a request arrives. *)
Definition is_request (m : micro) : bool :=
  match m with Begin (Submit _ _) | Begin (Poll _ _) => true | _ => false end.

Definition requests (ms : list micro) : nat := length (filter is_request ms).

Section measure.
Context {T : Type} {JS : JobStore T} {J : Json}.
Implicit Types (C : config T) (τ : task).

(** The call [τ] has operations left that cost [n] at most. *)
Definition owes τ (n : nat) : Prop := within 7 n (code τ).

(** The steps left to [C] are [N] at most: each call in progress is
    charged its operations and its leaving, each goroutine of the pool
    its start, four operations and its leaving. *)
Definition charged C (N : nat) : Prop :=
  ∃ ns, Forall2 owes (c_tasks C) ns
        ∧ sum_list ns + length ns + 6 * length (c_pool C) ≤ N.

(** Every call in progress has operations left that cost ten at most. *)
Definition bounded C : Prop := Forall (λ τ, owes τ 10) (c_tasks C).

(** What [C] is charged when nothing is known of how far its calls are. *)
Definition budget C : nat := 11 * length (c_tasks C) + 6 * length (c_pool C).

(** Nothing moves in [C] unless an event arrives that is not of [P]. *)
Definition at_rest (P : event → Prop) C : Prop :=
  ∀ m, begins P m → micro_step m C = None.

End measure.

(** ** The data of the examples *)

(** What is left of the interleaved session of [Interleaving] after its
    first eight steps. *)
Definition late_steps : list micro := drop 8 example_schedule.

(** ** The functions are bounded *)

Lemma lasts_bind {A B} g n (t : thread A) (h : A → thread B) Q :
  lasts g n (tbind t h) Q ↔ lasts g n t (λ n' a, lasts g n' (h a) Q).
Proof.
  revert n. induction t as [[a| |msg]|o k IH]; intros n; try done.
  rewrite tbind_Do. simpl. split; intros [Hn Hk]; (split; [done|]); intros x; by apply IH.
Qed.

Lemma lasts_mono {A} g n m (t : thread A) (Q Q' : nat → A → Prop) :
  n ≤ m → (∀ n' m' a, n' ≤ m' → Q n' a → Q' m' a) → lasts g n t Q → lasts g m t Q'.
Proof.
  intros Hnm HQ. revert n m Hnm. induction t as [[a| |msg]|o k IH]; intros n m Hnm; simpl;
    [by apply HQ|done..|].
  intros [Hn Hk]. split; [lia|]. intros x. apply (IH x (n - cost g o)); [lia|done].
Qed.

Lemma within_mono {A} g n m (t : thread A) : n ≤ m → within g n t → within g m t.
Proof. intros Hnm. by apply lasts_mono. Qed.

(** Decomposes a goal [lasts n t Q] along the structure of the function. *)
Ltac lasts_step :=
  first [ rewrite lasts_bind
        | progress (unfold tcheck, treject_if, act, t_http_Error, cost)
        | progress simpl
        | progress intros
        | done
        | lia
        | match goal with x : unit |- _ => destruct x end
        | split
        | case_match ].

Ltac solve_lasts := repeat lasts_step.

Section bounds.
Context {J : Json}.

Lemma join_points_lasts g n p acc (Q : nat → routePathPoint → Prop) :
  2 ≤ n → (∀ a, Q n a) → lasts g n (join_points_t p acc) Q.
Proof.
  intros Hn HQ. revert acc. induction p as [|loc p IH]; intros acc; simpl; [apply HQ|].
  solve_lasts.
Qed.

Lemma sum_rows_lasts g n env token rows i d t (Q : nat → Z * Z → Prop) :
  3 ≤ n → (∀ a, Q n a) → lasts g n (sum_rows_t env token rows i d t) Q.
Proof.
  intros Hn HQ. revert i d t.
  induction rows as [|row rows IH]; intros i d t; simpl; [apply HQ|].
  unfold fail_job_t. solve_lasts.
Qed.

(** [pathHandler] performs four operations at most, one of which can be
    the [go] statement: the [INSERT], the [go] statement and the two calls
    that write the response. *)
Lemma pathHandler_lasts g r env : 1 ≤ g → within g (g + 3) (pathHandler_t r env).
Proof.
  intros Hg. unfold within, pathHandler_t. solve_lasts.
  all: try (apply join_points_lasts; [lia|intros]); solve_lasts.
Qed.

(** [processRoute] performs four operations at most, whatever the number
    of legs. *)
Lemma processRoute_lasts g env token points : within g 4 (processRoute_t env token points).
Proof.
  unfold within, processRoute_t, fail_job_t. solve_lasts.
  all: try (apply sum_rows_lasts; [lia|intros]); solve_lasts.
Qed.

(** [routeHandler] performs seven operations at most. *)
Lemma routeHandler_lasts g token env : within g 7 (routeHandler_t token env).
Proof.
  unfold within, routeHandler_t, check_token_t, check_scan_t, switch_status_t.
  solve_lasts.
Qed.

Lemma program_lasts a : within 7 10 (program a).
Proof.
  destruct a; simpl;
    [apply (pathHandler_lasts 7); lia
    |apply (within_mono 7 7); [lia|apply routeHandler_lasts]
    |apply (within_mono 7 4); [lia|apply processRoute_lasts]].
Qed.

(** The number of operations of a call, whatever the route and whatever
    the database answers. *)
Lemma within_operations {T} {JS : JobStore T} {A} n (t : thread A) (s : world T) :
  within 1 n t → operations t s ≤ n.
Proof.
  unfold within. revert n s. induction t as [f|o k IH]; intros n s; simpl; [lia|].
  intros [Hn Hk]. specialize (IH (perform o s).2 (n - cost 1 o) (perform o s).1 (Hk _)).
  unfold cost in *. destruct (is_go o); lia.
Qed.

Lemma calls_are_short {T} {JS : JobStore T} r ienv wenv token points renv (s : world T) :
  operations (pathHandler_t r ienv) s ≤ 4
  ∧ operations (processRoute_t wenv token points) s ≤ 4
  ∧ operations (routeHandler_t token renv) s ≤ 7.
Proof.
  split_and!; apply within_operations;
    [by apply (pathHandler_lasts 1)|apply processRoute_lasts|apply routeHandler_lasts].
Qed.

End bounds.

(** ** Every step is paid for *)

Lemma sum_list_insert ns i n m :
  ns !! i = Some n → sum_list (<[i := m]> ns) + n = sum_list ns + m.
Proof.
  revert i. induction ns as [|n' ns IH]; intros [|i] Hi; simplify_eq/=; [lia|].
  specialize (IH i Hi). lia.
Qed.

Lemma sum_list_delete ns i n :
  ns !! i = Some n → sum_list (delete i ns) + n = sum_list ns.
Proof.
  revert i. induction ns as [|n' ns IH]; intros [|i] Hi; simplify_eq/=; [lia|].
  specialize (IH i Hi). lia.
Qed.

Section paying.
Context {T : Type} {JS : JobStore T} {J : Json}.
Implicit Types (C : config T) (τ : task).

(** An operation leaves a goroutine in the pool when it is a [go]
    statement, and none otherwise. *)
Lemma perform_goroutines o (d : T) :
  length (goroutines (perform o (world_of d)).1) = if is_go o then 1 else 0.
Proof. destruct o; simpl; try done; by repeat case_match. Qed.

Lemma charged_begin C N k env token points :
  charged C N → c_pool C !! k = Some (token, points) →
  ∃ N', N = S N'
    ∧ charged (add_task (spawn (c_next C) (FromGo env token points)) (delete k (c_pool C)) C) N'.
Proof.
  intros (ns & Hns & HN) Hk.
  pose proof (length_delete (c_pool C) k (mk_is_Some _ _ Hk)) as Hlen.
  pose proof (lookup_lt_Some _ _ _ Hk) as Hlt.
  destruct N as [|N']; [lia|]. exists N'. split; [done|].
  exists (ns ++ [4]). split.
  - apply Forall2_app; [done|]. repeat constructor. apply processRoute_lasts.
  - cbn [add_task c_pool]. rewrite sum_list_with_app, length_app. simpl. lia.
Qed.

Lemma charged_exec C N i τ o k :
  charged C N → c_tasks C !! i = Some τ → code τ = Do o k →
  ∃ N', N = S N' ∧ charged (step_task i τ o k C) N'.
Proof.
  intros (ns & Hns & HN) Hi Hc.
  destruct (Forall2_lookup_l _ _ _ _ _ Hns Hi) as (n & Hn & Hτ).
  unfold owes, within in Hτ. rewrite Hc in Hτ. destruct Hτ as [Hcost Hk].
  assert (1 ≤ cost 7 o) as Hpos by (unfold cost; case_match; lia).
  pose proof (sum_list_insert ns i n (n - cost 7 o) Hn) as Hsum.
  destruct N as [|N']; [lia|]. exists N'. split; [done|].
  exists (<[i := n - cost 7 o]> ns). split.
  - apply Forall2_insert; [done|]. apply Hk.
  - cbn [step_task c_pool]. rewrite length_insert, length_app, perform_goroutines.
    unfold cost in *. destruct (is_go o); lia.
Qed.

Lemma charged_finish C N i τ f :
  charged C N → c_tasks C !! i = Some τ →
  ∃ N', N = S N' ∧ charged (leave i τ f C) N'.
Proof.
  intros (ns & Hns & HN) Hi.
  destruct (Forall2_lookup_l _ _ _ _ _ Hns Hi) as (n & Hn & _).
  pose proof (sum_list_delete ns i n Hn) as Hsum.
  pose proof (length_delete ns i (mk_is_Some _ _ Hn)) as Hlen.
  pose proof (lookup_lt_Some _ _ _ Hn) as Hlt.
  destruct N as [|N']; [lia|]. exists N'. split; [done|].
  exists (delete i ns). split; [by apply Forall2_delete|]. cbn [leave c_pool]. lia.
Qed.

(** A request that arrives is charged the operations of its handler, the
    goroutine it may start and its leaving. *)
Lemma charged_arrive C N a :
  charged C N → charged (add_task (spawn (c_next C) a) (c_pool C) C) (N + 11).
Proof.
  intros (ns & Hns & HN). exists (ns ++ [10]). split.
  - apply Forall2_app; [done|]. repeat constructor. apply program_lasts.
  - cbn [add_task c_pool]. rewrite sum_list_with_app, length_app. simpl. lia.
Qed.

(** Every step uses one of the steps the configuration is charged, to
    which the arrival of a request adds twelve. *)
Lemma charged_step C N m C' :
  charged C N → micro_step m C = Some C' →
  ∃ N', N + (if is_request m then 12 else 0) = S N' ∧ charged C' N'.
Proof.
  intros HC. unfold micro_step. destruct (c_down C); [done|].
  destruct m as [[r env|token env|k env]|i|i]; simpl; rewrite ?Nat.add_0_r.
  - intros [= <-]. exists (N + 11). split; [lia|by apply charged_arrive].
  - intros [= <-]. exists (N + 11). split; [lia|by apply charged_arrive].
  - destruct (c_pool C !! k) as [[token points]|] eqn:Hk; [|done].
    intros [= <-]. by apply charged_begin.
  - unfold exec_task. destruct (c_tasks C !! i) as [τ|] eqn:Hi; [|done].
    destruct (code τ) as [f|o k] eqn:Hc; [done|]. intros [= <-]. by apply charged_exec.
  - unfold finish_task. destruct (c_tasks C !! i) as [τ|] eqn:Hi; [|done].
    destruct (code τ) as [f|o k] eqn:Hc; [|done]. intros [= <-]. by apply charged_finish.
Qed.

Lemma requests_cons m ms :
  requests (m :: ms) = (if is_request m then 1 else 0) + requests ms.
Proof. unfold requests. rewrite filter_cons. by destruct (is_request m). Qed.

Lemma charged_run C N ms C' :
  charged C N → micro_run C ms = Some C' → length ms ≤ N + 12 * requests ms.
Proof.
  revert C N. induction ms as [|m ms IH]; intros C N HC; simpl; [lia|].
  destruct (micro_step m C) as [C1|] eqn:Hstep; [|done]. intros Hrun.
  destruct (charged_step C N m C1 HC Hstep) as (N' & HN & HC1).
  specialize (IH C1 N' HC1 Hrun). rewrite requests_cons. destruct (is_request m); lia.
Qed.

Lemma no_requests ms : Forall (begins no_request) ms → requests ms = 0.
Proof.
  induction 1 as [|m ms Hm _ IH]; [done|]. rewrite requests_cons, IH.
  by destruct m as [[]| |].
Qed.

(** ** The calls of a reached configuration are bounded *)

Lemma bounded_step C m C' : bounded C → micro_step m C = Some C' → bounded C'.
Proof.
  unfold bounded, micro_step. intros HC. destruct (c_down C); [done|].
  assert (∀ a pl, bounded (add_task (spawn (c_next C) a) pl C)) as Hadd.
  { intros a pl. apply Forall_app. split; [done|].
    apply Forall_singleton, program_lasts. }
  destruct m as [[r env|token env|k env]|i|i]; simpl.
  - intros [= <-]. apply Hadd.
  - intros [= <-]. apply Hadd.
  - destruct (c_pool C !! k) as [[token points]|]; [|done]. intros [= <-]. apply Hadd.
  - unfold exec_task. destruct (c_tasks C !! i) as [τ|] eqn:Hi; [|done].
    destruct (code τ) as [f|o k] eqn:Hc; [done|]. intros [= <-]. cbn [step_task c_tasks].
    apply Forall_insert; [done|]. pose proof (Forall_lookup_1 _ _ _ _ HC Hi) as Hτ.
    unfold owes, within in Hτ. rewrite Hc in Hτ. destruct Hτ as [_ Hk].
    apply (within_mono 7 (10 - cost 7 o)); [lia|apply Hk].
  - unfold finish_task. destruct (c_tasks C !! i) as [τ|] eqn:Hi; [|done].
    destruct (code τ) as [f|o k]; [|done]. intros [= <-]. by apply Forall_delete.
Qed.

Lemma bounded_run C ms C' : bounded C → micro_run C ms = Some C' → bounded C'.
Proof.
  revert C. induction ms as [|m ms IH]; intros C HC; simpl; [by intros [= <-]|].
  destruct (micro_step m C) as [C1|] eqn:Hstep; [|done].
  apply IH. by eapply bounded_step.
Qed.

Lemma bounded_charged C : bounded C → charged C (budget C).
Proof.
  intros HC. exists (replicate (length (c_tasks C)) 10). split.
  - by apply Forall2_replicate_r.
  - rewrite length_replicate. unfold budget.
    assert (∀ k, sum_list (replicate k 10) = 10 * k) as -> by (induction k; simpl; lia).
    lia.
Qed.

(** The work is bounded by the requests.  From a configuration reached
    from any state of [System], by any schedule, every schedule has at
    most [budget] steps and twelve more for each request that arrives in
    it, whatever the order in which it lets the goroutines start and the
    calls perform their operations and leave: no call runs forever. *)
Lemma schedules_bounded (σ0 : system T) ms0 C ms C' :
  micro_run (embed σ0) ms0 = Some C → micro_run C ms = Some C' →
  length ms ≤ budget C + 12 * requests ms.
Proof.
  intros Hrun0. apply charged_run, bounded_charged.
  apply (bounded_run (embed σ0) ms0); [by apply Forall_nil|done].
Qed.

(** Without new requests every schedule ends within the budget. *)
Lemma schedules_end (σ0 : system T) ms0 C ms C' :
  micro_run (embed σ0) ms0 = Some C → Forall (begins no_request) ms →
  micro_run C ms = Some C' → length ms ≤ budget C.
Proof.
  intros Hrun0 Hms Hrun.
  pose proof (schedules_bounded σ0 ms0 C ms C' Hrun0 Hrun) as Hlen.
  rewrite (no_requests ms Hms) in Hlen. lia.
Qed.

(** In a process that runs, a call in progress can perform its next
    operation or leave, and a goroutine of the pool can start: when
    nothing moves, no call is in progress and the pool is empty. *)
Lemma at_rest_idle (P : event → Prop) C env :
  c_down C = false → P (Work 0 env) → at_rest P C → c_tasks C = [] ∧ c_pool C = [].
Proof.
  intros Hup HP Hrest. split.
  - destruct (c_tasks C) as [|τ rest] eqn:Htasks; [done|].
    pose proof (Hrest (Exec 0) I) as He. pose proof (Hrest (Finish 0) I) as Hf.
    unfold micro_step, exec_task, finish_task in He, Hf. rewrite Hup, Htasks in He, Hf.
    simpl in He, Hf. by destruct (code τ).
  - destruct (c_pool C) as [|[token points] pl] eqn:Hpool; [done|].
    pose proof (Hrest (Begin (Work 0 env)) HP) as Hb.
    unfold micro_step in Hb. rewrite Hup in Hb. simpl in Hb. by rewrite Hpool in Hb.
Qed.

(** Conversely, with no call in progress and an empty pool nothing moves
    until a request arrives. *)
Lemma idle_at_rest (P : event → Prop) C :
  (∀ ev, P ev → no_request ev) → c_tasks C = [] → c_pool C = [] → at_rest P C.
Proof.
  intros HP Ht Hp [ev|i|i] Hm; unfold micro_step, exec_task, finish_task;
    destruct (c_down C); try done; simpl; rewrite ?Ht, ?Hp; try done.
  specialize (HP ev Hm). destruct ev as [| |k env]; try done. simpl. by rewrite Hp.
Qed.

End paying.

(** ** Whatever the scheduler does, the jobs are settled *)

Section settling.
Context {T : Type} {JS : JobStore T} {JSL : JobStoreLaws T} {J : Json}.
Context (Q : worker_env → Prop).
Implicit Types (C : config T).

(** C19.  Whatever the scheduler does, the jobs are settled.  From every
    configuration reached from an empty table, whatever the requests and
    the order of the operations so far, while the goroutines run in
    working environments of [Q] (one of which is [env]): every schedule,
    whichever requests it lets arrive, whichever goroutine it starts and
    whichever call it lets perform its next operation or leave at each
    step, has at most eleven steps for each call in progress, six for each
    goroutine of the pool and twelve for each request that arrives in it,
    so that once requests stop arriving the service stops; and when it
    has come to a configuration in which nothing can move unless a
    request arrives, no call is in progress, the pool is empty, the
    process runs, and the row of every token is the row created for it
    with the verdict of its own route. *)
Theorem every_schedule_settles C ms C' env :
  reached Q C → working env → Q env →
  micro_run C ms = Some C' → Forall (begins (served_by Q)) ms →
  length ms ≤ budget C + 12 * requests ms
  ∧ (at_rest (goroutine_of Q) C' →
       c_tasks C' = [] ∧ c_pool C' = [] ∧ c_down C' = false
       ∧ ∀ token row, store_select token (c_db C') = Some row → settled_row Q token row).
Proof.
  intros HC Hw HQ Hrun Hms. split.
  { destruct HC as (ms0 & Hrun0 & _). by apply (schedules_bounded init ms0 C ms C'). }
  intros Hrest.
  pose proof (reached_extend Q C ms C' HC Hrun Hms) as HC'.
  pose proof (reached_alive Q C' HC') as Hup.
  destruct (at_rest_idle (goroutine_of Q) C' env Hup (conj Hw HQ) Hrest) as [Hnone Hpool].
  split_and!; [done..|]. destruct HC' as (ms' & Hrun' & Hms'). intros token row.
  by apply (reachable_settled Q ms' C').
Qed.

End settling.

(** ** Examples *)

(** The bounds of [pathHandler] and [processRoute] are attained: the
    submission of the example performs four operations, and so does a
    goroutine whose [UPDATE] fails. *)
Example bounds_attained :
  operations (pathHandler_t {| Body := Ok example_body |} example_env)
    (world_of ([] : table)) = 4
  ∧ operations
      (processRoute_t
         {| prepare_fault := None; NewClient_fault := None; nil_client_panic := None;
            DistanceMatrix := λ req, Ok (full_matrix req);
            exec_fault := Some "connection refused" |}
         example_token ["1,1"; "2,2"])
      (world_of ([] : table)) = 4.
Proof. by vm_compute. Qed.

(** The session of [Interleaving]: seventeen steps, two of which are the
    arrival of a request, and the nine steps left after the first eight. *)
Example example_schedule_budget :
  length example_schedule = 17 ∧ requests example_schedule = 2
  ∧ budget (embed example_start : config table) = 0.
Proof. by vm_compute. Qed.

Example late_steps_run :
  micro_run example_midway late_steps = Some example_interleaved
  ∧ length late_steps = 9 ∧ requests late_steps = 0 ∧ budget example_midway = 33.
Proof. by vm_compute. Qed.

(** Nothing moves at the end of the interleaved session. *)
Example example_interleaved_at_rest Q : at_rest (goroutine_of Q) example_interleaved.
Proof. apply idle_at_rest; [by intros []|by vm_compute..]. Qed.

Lemma every_schedule_settles_witness :
  length example_schedule ≤ budget (embed example_start) + 12 * requests example_schedule
  ∧ (at_rest (goroutine_of (λ env, env = honest_provider)) example_interleaved →
       c_tasks example_interleaved = [] ∧ c_pool example_interleaved = []
       ∧ c_down example_interleaved = false
       ∧ ∀ token row, store_select token (c_db example_interleaved) = Some row →
           settled_row (λ env, env = honest_provider) token row).
Proof.
  apply (every_schedule_settles (λ env, env = honest_provider) (embed example_start)
           example_schedule example_interleaved honest_provider);
    [by exists []|apply working_honest_provider|done
    |apply example_schedule_runs|apply example_schedule_served].
Defined.
